(* ===== verification/_CoqProject ===== *)
-Q . S2P
Prelude.v
PyStr.v
PyText.v
KconfigText.v
Model.v
Eval.v
EvalSpec.v
EvalRefine.v
Printing.v
DepLoop.v
EvalDet.v
Values.v
SetValue.v
Validity.v
Session.v
Checks.v
Finalize.v
Tables.v
Fpspy.v
DepComplete.v
Demo.v
DepText.v
DepProps.v
ValueProps.v
ConfigFile.v
Frames.v
Tree.v
Lines.v
Reload.v
Loading.v
Saving.v
Restore.v
RoundTrip.v
FileChecks.v
FileProps.v
AnyFile.v
SyncProps.v
UnsetProps.v
Preprocess.v
Tokenize.v
Parse.v
Sanity.v
Init.v
InitProps.v
PreprocessProps.v
ParseInv.v
ExprParse.v
ExprText.v
ExprProps.v
ParseTotal.v
Edit.v
Menu.v
Display.v
Style.v
Draw.v
Dialogs.v
MenuProps.v
Repr.v
Scripts.v
Reading.v
MinConfig.v
MinProps.v
DrawProps.v
StyleProps.v
WellFormed.v
