(* ===== verification/Prelude.v ===== *)
(** * A verification of the configuration system of FPSpy

    FPSpy is built from a configuration that the Python program
    scripts/menuconfig.py (Kconfiglib with a curses interface) reads from Kconfig
    files, lets the user edit and writes to .config files and headers.  The
    development models this program and the three experiment scripts in Python
    next to it: scripts/rounding_tests.py, scripts/eventtrace.py and
    scripts/runanalyze.py.

    ** How the program works and where its parts are

    A [Kconfig] object is made in phases.  Its files are read line by line
    ([next_line]), each line is split into tokens ([tokenize]) with macros
    expanded on the way ([expand_macro]), and a recursive descent parser
    ([parse_block]) makes symbols, choices and menu nodes of the tokens.  The menu
    tree is then finished ([finalize_node]), the result checked, the dependents of
    each symbol recorded ([build_dep]) and searched for loops ([check_dep_loops]).
    From then on the structure is fixed, and what changes is the user values and
    the caches of values: the properties ([tri_value], [str_value], ...) fill the
    caches and [set_value] invalidates those that depend on the change.  The
    interface is a loop over keys that calls these operations.

    - [Prelude]: Python exceptions, the monad [M] of state and exceptions, loops.
    - [PyStr], [PyText]: the parts of Python's [str] and [int] that are used.
    - [Model]: expressions, [Symbol], [Choice], [MenuNode] and [Kconfig] as records;
      objects are numbers, so that aliasing is explicit.
    - Construction: [Preprocess] (macros), [Tokenize], [Parse], [Finalize] (menu
      tree, dependency propagation, dependents), [Sanity], [DepLoop], and [Init],
      which composes them as [Kconfig.__init__] does; [eval_string].
    - Values: [Eval] (all cached properties of symbols and choices) and [SetValue]
      (user values and invalidation).
    - Files: [ConfigFile] (.config, minimal configurations, autoconf.h, config.mk
      and auto.conf, over a map of files).
    - Printing: [Printing] (Kconfig format), [Repr] ([__repr__]), [Display] (menu
      entries and the information screen).
    - The interface: [Edit] (edit boxes), [Menu] (position and values), [Dialogs]
      (dialogs and the main loop), [Style] (colours and styles), [Draw] (what is
      drawn where).
    - [Scripts]: the experiment scripts.
    - [KconfigText] is the text of the repository's Kconfig file and [Fpspy] the
      configuration it gives; [Demo] is a small second instance with the features
      that the first does not use.

    ** What the theorems show

    - Values.  [EvalSpec] states, without caches and exceptions, the equations that
      the values of a configuration solve; [Values] shows that there is exactly one
      solution, [EvalRefine] that the cached code computes it and [EvalDet],
      [Validity], [Session] that invalidation keeps every cache in agreement with
      the user values, so that any sequence of changes and readings gives the
      values of the equations.  [ValueProps] states what users rely on: choices are
      exclusive and a symbol that is picked is selected, selects are lower and
      visibility is an upper limit, numbers are in range, [set_value] accepts the
      values that fit the type, and [assignable] is right, with one exception.
    - Construction.  [DepText], [DepProps]: the loop search ends, what it reports
      is a loop, and without choices it finds every loop; an example shows the kind
      of loop it misses.  [PreprocessProps]: expansion leaves the variables alone.
      [InitProps]: the repository's file parses to the instance.  [ParseInv] and
      [WellFormed]: every configuration that is constructed from files is
      [well_formed].  [DepComplete] (with [Tables]): the recorded dependents are
      complete.  [ExprParse], [ExprText], [ExprProps]: printed expressions are
      parsed back.  [ParseTotal]: reading an expression ends, with the expression
      or a [KconfigError].
    - Files.  [Tree] (the walk over the menu tree visits it in preorder, and its
      fuel is enough), [Lines], [Loading], [Saving], [Reload], [Restore],
      [RoundTrip], [FileProps]: what is written, and that a configuration that is
      written and loaded again has the values it had.  [AnyFile]: loading any file
      whatever.  [MinConfig], [MinProps]: minimal configurations, and an example of
      a value they lose.  [SyncProps]: the files that [sync_deps] opens for writing.
      [UnsetProps]: unsetting all values, and merging files, which can fail after it.
    - The interface.  [Edit]: the cursor stays in the text and in the window.
      [MenuProps]: the selected entry is on the screen after every key.
      [DrawProps]: drawing, and leaving the interface.  [StyleProps]: colours.
    - Finite checks ([Checks], [FileChecks]) decide the hypotheses of these
      theorems for a concrete configuration, and are evaluated on the instances.

    The hypotheses of the theorems on values are [well_formed], which construction
    establishes ([kconfig_well_formed]), [deps_ok], that the recorded dependents are
    complete, which [build_dep_complete] derives for a [linked] configuration, and
    a rank: dependencies are acyclic, which [check_dep_loops] is there to ensure.
    [linked] is not derived from parsing: a default of a choice may be a symbol
    outside the choice, of which the sanity checks only warn.

    ** Recursion and fuel

    Where Python recurses, the model bounds the depth and raises [RecursionError]
    when it is used up, as the interpreter does; the theorems on values show that a
    depth of twice the rank of a configuration and more is enough.  Loops that are
    not structural have fuel, and running out is [Diverges], which no operation of
    the source raises; [walk] has fuel for every node twice, and the loops of the
    interface consume a key in each round, so that the number of keys that are
    left is enough.  When the keys are used up [getch] raises [CursesError].

    ** Not modelled

    - Characters beyond ASCII, encodings and their errors, the limit on the digits
      of [int], and warnings printed to the standard error stream (they are kept in
      [Kconfig.warnings]).
    - The environment, the output of shell commands, [glob] and [uname] are
      parameters of the parser, [re] of the search dialog; user-defined
      preprocessor functions (an imported module) are left out.  A configuration
      prefix with characters that are special in regular expressions is taken
      literally.
    - Directories, and the times of files.  Files are a map from names to contents
      ([w_files]) with a log of the names that were opened for writing
      ([w_written]), so that writing what is there already can be seen.
    - The order of the set [_dependents], which Python leaves open: a list here;
      the theorems on invalidation do not depend on it.
    - Expressions are compared by structure where [_strip_dep] compares identity.
    - Main functions and command lines of menuconfig.py, the locale, and the
      terminal itself: what curses does with the calls it gets.
    - Everything in C, assembly, Perl and shell: the FPSpy library and the kernel
      module are driven by signals, single stepping and control registers, and are
      outside the Python program that is verified here. *)
From Stdlib Require Export ZArith Lia String Ascii.
From stdpp Require Export base tactics numbers list gmap sets strings.

#[global] Open Scope string_scope.
#[global] Open Scope list_scope.
#[global] Open Scope Z_scope.

Create Rewrite HintDb pystr.
Create Rewrite HintDb kst.
Create HintDb kconf.
Create HintDb frame.

(** ** Python exceptions and results *)

(** [Diverges]: the fuel given to a loop of the model ran out *)
Inductive exn :=
| RecursionError
| ValueError
| TypeError
| AttributeError
| IndexError
| KeyError
| KconfigError (msg : string)
| OSError (errno : string)
| SystemExit (msg : string)
| CursesError
| Diverges.

Inductive res (A : Type) :=
| Ok (a : A)
| Err (e : exn).
Arguments Ok {A} a.
Arguments Err {A} e.

#[global] Instance res_ret : MRet res := @Ok.
#[global] Instance res_bind : MBind res := fun A B f r =>
  match r with Ok a => f a | Err e => Err e end.

(** ** The state and exception monad: a mutation survives an exception *)

Definition M (S A : Type) : Type := S -> res A * S.

#[global] Instance M_ret S : MRet (M S) := fun A a st => (Ok a, st).
#[global] Instance M_bind S : MBind (M S) := fun A B f m st =>
  match m st with
  | (Ok a, st') => f a st'
  | (Err e, st') => (Err e, st')
  end.

Definition raise {S A} (e : exn) : M S A := fun st => (Err e, st).
Definition gets {S A} (f : S -> A) : M S A := fun st => (Ok (f st), st).
Definition modify {S} (f : S -> S) : M S unit := fun st => (Ok tt, f st).
Definition lift_res {S A} (r : res A) : M S A := fun st => (r, st).

(** [try: m finally: fin] *)
Definition try_finally {S A} (m : M S A) (fin : M S unit) : M S A := fun st =>
  match m st with
  | (r, st') => match fin st' with
                | (Ok _, st'') => (r, st'')
                | (Err e, st'') => (Err e, st'')
                end
  end.

Definition when {S} (b : bool) (m : M S unit) : M S unit :=
  if b then m else mret tt.

Fixpoint foldM {S A B} (f : B -> A -> M S B) (b : B) (l : list A) : M S B :=
  match l with
  | [] => mret b
  | x :: l => b' ← f b x; foldM f b' l
  end.

Definition forM_ {S A} (l : list A) (f : A -> M S unit) : M S unit :=
  foldM (fun _ x => f x) tt l.

(** [for x in l: if <f x gives a result>: break] *)
Fixpoint first_someM {S A B} (f : A -> M S (option B)) (l : list A) : M S (option B) :=
  match l with
  | [] => mret None
  | x :: l => r ← f x; match r with Some b => mret (Some b) | None => first_someM f l end
  end.

Fixpoint filterM {S A} (f : A -> M S bool) (l : list A) : M S (list A) :=
  match l with
  | [] => mret []
  | x :: l => b ← f x; r ← filterM f l; mret (if b : bool then x :: r else r)
  end.

Fixpoint mapM {S A B} (f : A -> M S B) (l : list A) : M S (list B) :=
  match l with
  | [] => mret []
  | x :: l => b ← f x; r ← mapM f l; mret (b :: r)
  end.

Fixpoint first_some {A B} (f : A -> option B) (l : list A) : option B :=
  match l with
  | [] => None
  | x :: l => match f x with Some b => Some b | None => first_some f l end
  end.

(** ** Lemmas on lists *)

Lemma omap_map_some {A B C} (f : A -> option B) (g : C -> A) (h : C -> B) l :
  (forall x, In x l -> f (g x) = Some (h x)) -> omap f (map g l) = map h l.
Proof.
  induction l as [|x l IH]; intros H; [done|]. cbn [map omap list_omap]. rewrite (H x (or_introl eq_refl)).
  f_equal. apply IH. intros y Hy. by apply H; right.
Qed.

Lemma filter_none {A} (f : A -> bool) l : (forall x, In x l -> f x = false) -> List.filter f l = [].
Proof.
  induction l as [|x l IH]; intros H; [done|]. cbn [List.filter]. rewrite (H x (or_introl eq_refl)).
  apply IH. intros y Hy. apply H. by right.
Qed.

(** A loop that keeps the last element with a property *)
Lemma foldl_last {A B C} (g : A -> B) (P : B -> bool) (v : B -> C) (f : option C -> B -> option C) l :
  (forall o b, f o b = if P b then Some (v b) else o) ->
  (forall w, (exists x, In x l /\ P (g x) = true) -> (forall x, In x l -> P (g x) = true -> v (g x) = w) ->
     foldl f None (map g l) = Some w)
  /\ ((forall x, In x l -> P (g x) = false) -> foldl f None (map g l) = None).
Proof.
  intros Hf. induction l as [|x l [IH1 IH2]] using rev_ind; [split; [by intros w (x & [] & _)|done]|].
  rewrite map_app, foldl_app. cbn [map foldl]. rewrite Hf. split.
  - intros w (y & Hy & HP) Hw. destruct (P (g x)) eqn:Ex; [f_equal; apply Hw; [apply in_app_iff; right; by left|done]|].
    apply IH1; [|intros z Hz; apply Hw, in_app_iff; by left]. exists y. split; [|done].
    apply in_app_iff in Hy as [Hy|[<-|[]]]; [done|congruence].
  - intros H. rewrite (H x) by (apply in_app_iff; right; by left). apply IH2. intros y Hy. apply H, in_app_iff. by left.
Qed.

Lemma first_some_in {A B} (f : A -> option B) l b :
  first_some f l = Some b -> exists x, In x l /\ f x = Some b.
Proof.
  induction l as [|x l IH]; simpl; [done|].
  destruct (f x) eqn:Hx; [intros [= <-]; eauto|]. intros (y & ? & ?)%IH; eauto.
Qed.

Lemma first_some_none {A B} (f : A -> option B) l :
  first_some f l = None <-> forall x, In x l -> f x = None.
Proof.
  induction l as [|x l IH]; simpl; [split; [done|]; by intros|].
  destruct (f x) eqn:Hx.
  - split; [done|]. intros H. rewrite (H x (or_introl eq_refl)) in Hx. done.
  - rewrite IH. split; [intros H y [<-|Hy]; auto|auto].
Qed.

Lemma first_some_ext {A B} (f g : A -> option B) l :
  (forall x, In x l -> f x = g x) -> first_some f l = first_some g l.
Proof.
  induction l as [|x l IH]; simpl; intros H; [done|].
  rewrite (H x), IH; auto.
Qed.

Lemma Forall_flat_map {A B} (P : B -> Prop) (f : A -> list B) l :
  Forall P (flat_map f l) <-> forall x, In x l -> Forall P (f x).
Proof.
  induction l as [|x l IH]; simpl; [split; [by intros|done]|].
  rewrite Forall_app, IH. split; [intros [? ?] y [<-|?]; auto|auto].
Qed.

Lemma filter_length_le {A} (p q : A -> bool) l :
  (forall x, In x l -> p x = true -> q x = true) ->
  (length (List.filter p l) <= length (List.filter q l))%nat.
Proof.
  induction l as [|x l IH]; simpl; intros H; [done|].
  specialize (IH (fun y Hy => H y (or_intror Hy))). specialize (H x (or_introl eq_refl)).
  destruct (p x), (q x); simpl; lia.
Qed.

Lemma filter_length_lt {A} (p q : A -> bool) l x :
  (forall y, In y l -> p y = true -> q y = true) -> In x l -> p x = false -> q x = true ->
  (length (List.filter p l) < length (List.filter q l))%nat.
Proof.
  intros H Hx Hp Hq. apply in_split in Hx as (l1 & l2 & ->).
  rewrite !List.filter_app, !length_app. simpl. rewrite Hp, Hq. simpl.
  assert (H1 := filter_length_le p q l1). assert (H2 := filter_length_le p q l2).
  specialize (H1 (fun y Hy => H y (in_or_app _ _ _ (or_introl Hy)))).
  specialize (H2 (fun y Hy => H y (in_or_app l1 (x :: l2) y (or_intror (or_intror Hy))))). lia.
Qed.

Lemma foldM_map {S A A' B} (f : B -> A' -> M S B) (g : A -> A') l b st :
  foldM f b (map g l) st = foldM (fun b x => f b (g x)) b l st.
Proof.
  revert b st. induction l as [|x l IH]; intros b st; simpl; [done|]. cbv [mbind M_bind].
  destruct (f b (g x) st) as [[b'|e] st']; [apply IH|done].
Qed.

(** The first step of a computation *)
Lemma bind_ok {S A B} (m : M S A) (k : A -> M S B) a st st1 r :
  m st = (Ok a, st1) -> k a st1 = r -> (m ≫= k) st = r.
Proof. intros H1 H2. unfold mbind, M_bind. by rewrite H1. Qed.
Lemma bind_inv {S A B} (m : M S A) (k : A -> M S B) st r st2 : (m ≫= k) st = (Ok r, st2) ->
  exists a st1, m st = (Ok a, st1) /\ k a st1 = (Ok r, st2).
Proof. cbv [mbind M_bind]. destruct (m st) as [[a|e] st1]; [|done]. intros H. by exists a, st1. Qed.

(** One round of a loop *)
Lemma foldM_cons {S A B} (f : B -> A -> M S B) b b1 x l st st1 r :
  f b x st = (Ok b1, st1) -> foldM f b1 l st1 = r -> foldM f b (x :: l) st = r.
Proof. intros H1 H2. cbn [foldM]. unfold mbind, M_bind. by rewrite H1. Qed.

(** ** Computations that leave a part of the state alone *)

Definition frames {S X A} (f : S -> X) (m : M S A) : Prop := forall st, f (m st).2 = f st.

Section Frames.
Context {S X : Type} (f : S -> X).

Lemma frames_ret {A} (a : A) : frames f (mret a : M S A).
Proof. by intros st. Qed.

Lemma frames_raise {A} e : frames f (raise e : M S A).
Proof. by intros st. Qed.

Lemma frames_gets {A} (g : S -> A) : frames f (gets g).
Proof. by intros st. Qed.

Lemma frames_modify g : (forall st, f (g st) = f st) -> frames f (modify g).
Proof. intros H st. apply H. Qed.

Lemma frames_bind {A B} (m : M S A) (k : A -> M S B) :
  frames f m -> (forall a, frames f (k a)) -> frames f (m ≫= k).
Proof.
  intros Hm Hk st. unfold mbind, M_bind. specialize (Hm st).
  destruct (m st) as [[a|e] st']; simpl in *; [|done]. by rewrite Hk.
Qed.

Lemma frames_when b (m : M S unit) : frames f m -> frames f (when b m).
Proof. intros H. destruct b; [done|apply frames_ret]. Qed.

Lemma frames_foldM {A B} (g : B -> A -> M S B) l : (forall b x, frames f (g b x)) -> forall b, frames f (foldM g b l).
Proof.
  intros H. induction l as [|x l IH]; intros b; [apply frames_ret|]. simpl. by apply frames_bind.
Qed.

Lemma frames_forM {A} (l : list A) (g : A -> M S unit) : (forall x, frames f (g x)) -> frames f (forM_ l g).
Proof. intros H. by apply frames_foldM. Qed.

Lemma frames_first_some {A B} (g : A -> M S (option B)) l :
  (forall x, frames f (g x)) -> frames f (first_someM g l).
Proof.
  intros H. induction l as [|x l IH]; [apply frames_ret|]. simpl. apply frames_bind; [done|].
  intros [b|]; [apply frames_ret|done].
Qed.
End Frames.

(** How computations are taken apart *)
#[export] Hint Resolve frames_ret frames_raise frames_gets frames_when frames_foldM frames_forM frames_first_some : frame.
#[export] Hint Resolve frames_bind : frame.

(** ** Lists *)

Lemma existsb_ext_in {A} (f g : A -> bool) l : (forall x, In x l -> f x = g x) -> existsb f l = existsb g l.
Proof.
  induction l as [|x l IH]; intros H; simpl; [done|]. rewrite H by by left. rewrite IH; [done|]. intros y Hy. apply H. by right.
Qed.
