(* ===== verification/PyStr.v ===== *)
(** * Python's [str] and [int] as far as the source uses them

    Strings are [String.string]: one [ascii] per character.  The file holds the
    [str] methods ([startswith], [strip], [replace], ...), [int(s, base)],
    [str(n)] and [hex(n)], and the three quoting helpers of
    [scripts/menuconfig.py]: [escape], [unescape] and the regular expression
    [_conf_string_match].  The first block of theorems says that numbers and
    quoted strings survive being printed and read back. *)
From S2P Require Import Prelude.

(** ** Characters *)

Definition chr (n : nat) : ascii := ascii_of_nat n.
Definition NL : ascii := chr 10.
Definition BSL : ascii := "\"%char.
Definition QUOTE : ascii := chr 34.

(** [str.isspace] on one ASCII character *)
Definition is_space (c : ascii) : bool :=
  let n := nat_of_ascii c in
  ((9 <=? n)%nat && (n <=? 13)%nat) || ((28 <=? n)%nat && (n <=? 32)%nat).

(** ** Methods of [str] *)

Definition startswith (s p : string) : bool := String.prefix p s.

Definition slen (s : string) : Z := Z.of_nat (String.length s).

Fixpoint lstrip (s : string) : string :=
  match s with
  | EmptyString => EmptyString
  | String c s' => if is_space c then lstrip s' else s
  end.

Fixpoint rstrip (s : string) : string :=
  match s with
  | EmptyString => EmptyString
  | String c s' =>
      match rstrip s' with
      | EmptyString => if is_space c then EmptyString else String c EmptyString
      | r => String c r
      end
  end.

Definition strip (s : string) : string := lstrip (rstrip s).

(** [s.replace(c, r)] for a one-character [c] *)
Fixpoint replace_char (c : ascii) (r s : string) : string :=
  match s with
  | EmptyString => EmptyString
  | String d s' => if Ascii.eqb c d then r +:+ replace_char c r s'
                   else String d (replace_char c r s')
  end.

Fixpoint all_chars (p : ascii -> bool) (s : string) : bool :=
  match s with
  | EmptyString => true
  | String c s' => p c && all_chars p s'
  end.

(** [sep.join(l)] *)
Definition py_join (sep : string) (l : list string) : string := String.concat sep l.

(** [s1 < s2] on strings: by code points *)
Fixpoint str_ltb (s1 s2 : string) : bool :=
  match s1, s2 with
  | EmptyString, String _ _ => true
  | String a s1', String b s2' =>
      (nat_of_ascii a <? nat_of_ascii b)%nat
      || (Ascii.eqb a b && str_ltb s1' s2')
  | _, EmptyString => false
  end.

(** ** [int(s, base)] *)

(** The value of an alphanumeric digit, [0..35] *)
Definition digit_value (c : ascii) : option Z :=
  let n := Z.of_nat (nat_of_ascii c) in
  if (48 <=? n) && (n <=? 57) then Some (n - 48)
  else if (97 <=? n) && (n <=? 122) then Some (n - 87)
  else if (65 <=? n) && (n <=? 90) then Some (n - 55)
  else None.

(** The digits, with single underscores allowed between them *)
Fixpoint scan_digits (base : Z) (s : string) (acc : Z) (seen prev_us : bool) : option Z :=
  match s with
  | EmptyString => if prev_us || negb seen then None else Some acc
  | String c s' =>
      if Ascii.eqb c "_" then
        if prev_us then None else scan_digits base s' acc seen true
      else
        match digit_value c with
        | Some d => if d <? base then scan_digits base s' (acc * base + d) true false else None
        | None => None
        end
  end.

(** The radix a literal's prefix stands for: [0x], [0o], [0b] *)
Definition prefix_base (s : string) : option (Z * string) :=
  match s with
  | String z (String x rest) =>
      if Ascii.eqb z "0" then
        if Ascii.eqb x "x" || Ascii.eqb x "X" then Some (16, rest)
        else if Ascii.eqb x "o" || Ascii.eqb x "O" then Some (8, rest)
        else if Ascii.eqb x "b" || Ascii.eqb x "B" then Some (2, rest)
        else None
      else None
  | _ => None
  end.

Definition skip_underscore (s : string) : string :=
  match s with
  | String c rest => if Ascii.eqb c "_" then rest else s
  | EmptyString => s
  end.

Definition leading_underscore (s : string) : bool :=
  match s with String c _ => Ascii.eqb c "_" | EmptyString => false end.

(** The unsigned part: picks the radix when [base] is 0, eats the prefix *)
Definition int_body (s : string) (base : Z) : option Z :=
  let old_octal := (base =? 0) && startswith s "0" && bool_decide (prefix_base s = None) in
  let base' :=
    if base =? 0 then
      match prefix_base s with Some (b, _) => b | None => 10 end
    else base in
  let s' :=
    match prefix_base s with
    | Some (b, rest) => if b =? base' then skip_underscore rest else s
    | None => s
    end in
  if leading_underscore s' then None
  else
    match scan_digits base' s' 0 false false with
    | Some v => if old_octal && negb (v =? 0) then None else Some v
    | None => None
    end.

(** [int(s, base)]; [None] is [ValueError] *)
Definition py_int (s : string) (base : Z) : option Z :=
  match strip s with
  | String c rest =>
      if Ascii.eqb c "+" then int_body rest base
      else if Ascii.eqb c "-" then Z.opp <$> int_body rest base
      else int_body (String c rest) base
  | EmptyString => None
  end.

(** [_is_base_n(s, n)] *)
Definition is_base_n (s : string) (n : Z) : bool :=
  match py_int s n with Some _ => true | None => false end.

(** ** [str(n)] and [hex(n)] *)

Definition digit_char (d : Z) : ascii :=
  if d <? 10 then chr (Z.to_nat (d + 48)) else chr (Z.to_nat (d + 87)).

Fixpoint to_digits (fuel : nat) (base n : Z) (acc : string) : string :=
  match fuel with
  | O => acc
  | S fuel =>
      if n <? base then String (digit_char n) acc
      else to_digits fuel base (n / base) (String (digit_char (n mod base)) acc)
  end.

(** [log2 n + 1] digits are enough in any base *)
Definition digits (base n : Z) : string := to_digits (S (Z.to_nat (Z.log2 n))) base n "".

Definition py_str (z : Z) : string :=
  if z <? 0 then "-" +:+ digits 10 (- z) else digits 10 z.

Definition py_hex (z : Z) : string :=
  if z <? 0 then "-0x" +:+ digits 16 (- z) else "0x" +:+ digits 16 z.

(** [_strcmp(s1, s2)]: -1, 0 or 1 *)
Definition strcmp (s1 s2 : string) : Z :=
  (if str_ltb s2 s1 then 1 else 0) - (if str_ltb s1 s2 then 1 else 0).

(** ** Quoting *)

(** Backslashes are doubled first, then quotes get a backslash *)
Definition escape (s : string) : string :=
  replace_char QUOTE (String BSL (String QUOTE "")) (replace_char BSL (String BSL (String BSL "")) s).

(** A backslash followed by any character but a newline becomes that character *)
Fixpoint unescape (s : string) : string :=
  match s with
  | EmptyString => EmptyString
  | String c s' =>
      if Ascii.eqb c BSL then
        match s' with
        | String d s'' => if Ascii.eqb d NL then String c (String d (unescape s''))
                          else String d (unescape s'')
        | EmptyString => String c EmptyString
        end
      else String c (unescape s')
  end.

(** The part of [_conf_string_match] after the opening quote: characters other
    than quote and backslash, or a backslash and any character but a newline,
    up to the closing quote; the contents are returned *)
Fixpoint conf_string_body (s : string) : option string :=
  match s with
  | EmptyString => None
  | String c s' =>
      if Ascii.eqb c QUOTE then Some EmptyString
      else if Ascii.eqb c BSL then
        match s' with
        | String d s'' => if Ascii.eqb d NL then None
                          else (fun r => String c (String d r)) <$> conf_string_body s''
        | EmptyString => None
        end
      else String c <$> conf_string_body s'
  end.

(** [_conf_string_match(val).group(1)] *)
Definition conf_string_match (s : string) : option string :=
  match s with
  | String c s' => if Ascii.eqb c QUOTE then conf_string_body s' else None
  | EmptyString => None
  end.

(** ** Lemmas *)

Lemma append_cons c s t : String c s +:+ t = String c (s +:+ t).
Proof. reflexivity. Qed.

Lemma append_nil_l s : "" +:+ s = s.
Proof. reflexivity. Qed.

Lemma append_nil_r s : s +:+ "" = s.
Proof. induction s; [done|]. rewrite append_cons. congruence. Qed.

Lemma append_assoc s t u : (s +:+ t) +:+ u = s +:+ t +:+ u.
Proof. induction s; [done|]. rewrite !append_cons. congruence. Qed.

#[export] Hint Rewrite append_cons append_nil_l append_nil_r append_assoc : pystr.

Lemma lstrip_id s : all_chars (negb ∘ is_space) s = true -> lstrip s = s.
Proof. destruct s; simpl; [done|]. by destruct (is_space a). Qed.

Lemma rstrip_id s : all_chars (negb ∘ is_space) s = true -> rstrip s = s.
Proof.
  induction s as [|c s IH]; simpl; [done|]. intros [Hc Hs]%andb_true_iff.
  rewrite (IH Hs). destruct s; [|done]. by destruct (is_space c).
Qed.

Lemma strip_id s : all_chars (negb ∘ is_space) s = true -> strip s = s.
Proof. intros H. unfold strip. by rewrite rstrip_id, lstrip_id. Qed.

Lemma all_chars_impl (p q : ascii -> bool) s :
  (forall c, p c = true -> q c = true) -> all_chars p s = true -> all_chars q s = true.
Proof.
  intros Hpq. induction s; simpl; [done|].
  intros [? ?]%andb_true_iff. apply andb_true_iff; auto.
Qed.

Definition is_digit_of (base : Z) (c : ascii) : bool :=
  match digit_value c with Some d => d <? base | None => false end.

Lemma ascii_all (P : ascii -> Prop) :
  (forall n, (n < 256)%nat -> P (ascii_of_nat n)) -> forall c, P c.
Proof.
  intros H c. rewrite <- (ascii_nat_embedding c). apply H, nat_ascii_bounded.
Qed.

(** A boolean property of characters is decided by trying all of them *)
Lemma ascii_allb (p : ascii -> bool) :
  forallb p (map ascii_of_nat (seq 0 256)) = true -> forall c, p c = true.
Proof.
  intros H. apply ascii_all. intros n Hn.
  rewrite forallb_forall in H. apply H, in_map, in_seq. lia.
Qed.

Lemma digit_not_special base c :
  is_digit_of base c = true -> is_space c = false /\ Ascii.eqb c "_" = false
    /\ Ascii.eqb c "+" = false /\ Ascii.eqb c "-" = false.
Proof.
  unfold is_digit_of. intros H.
  assert (Hd : bool_decide (digit_value c = None) = false) by (by destruct (digit_value c)).
  clear H. pose proof (ascii_allb (fun c =>
    bool_decide (digit_value c = None) || negb (is_space c) && negb (Ascii.eqb c "_")
    && negb (Ascii.eqb c "+") && negb (Ascii.eqb c "-")) eq_refl c) as Ha.
  cbv beta in Ha. rewrite Hd in Ha. simpl in Ha. rewrite !andb_true_iff, !negb_true_iff in Ha.
  tauto.
Qed.

Lemma digit_value_char d : 0 <= d < 36 -> digit_value (digit_char d) = Some d.
Proof.
  intros Hd. assert (forallb (fun n => bool_decide (digit_value (digit_char (Z.of_nat n)) = Some (Z.of_nat n)))
    (seq 0 36) = true) as H by reflexivity.
  rewrite forallb_forall in H. specialize (H (Z.to_nat d)).
  rewrite Z2Nat.id in H by lia. eapply bool_decide_eq_true_1, H, in_seq. lia.
Qed.

Lemma is_digit_of_char base d : 0 <= d < base -> base <= 36 -> is_digit_of base (digit_char d) = true.
Proof. intros ? ?. unfold is_digit_of. rewrite digit_value_char by lia. lia. Qed.

Lemma scan_digit base d s acc seen us :
  0 <= d < base -> base <= 36 ->
  scan_digits base (String (digit_char d) s) acc seen us
  = scan_digits base s (acc * base + d) true false.
Proof.
  intros Hd Hb. destruct (digit_not_special base (digit_char d)) as (_ & Hu & _);
    [by apply is_digit_of_char|].
  cbn [scan_digits]. rewrite Hu, digit_value_char by lia.
  by rewrite (proj2 (Z.ltb_lt d base)) by lia.
Qed.

Section Digits.
Context (base : Z) (Hbase : 2 <= base <= 36).

Lemma div_fuel fuel n : base <= n < 2 ^ Z.of_nat (S fuel) -> 0 <= n / base < 2 ^ Z.of_nat fuel.
Proof.
  intros Hn. rewrite Nat2Z.inj_succ, Z.pow_succ_r in Hn by lia. split.
  - apply Z.div_pos; lia.
  - apply Z.div_lt_upper_bound; [lia|]. nia.
Qed.

(** Scanning the digits of [n] continues with [n] accumulated *)
Lemma scan_to_digits fuel n s :
  0 <= n < 2 ^ Z.of_nat fuel ->
  scan_digits base (to_digits fuel base n s) 0 false false
  = (if bool_decide (fuel = O) then scan_digits base s 0 false false
     else scan_digits base s n true false).
Proof.
  revert n s. induction fuel as [|fuel IH]; intros n s Hn; [done|].
  cbn [to_digits]. destruct (Z.ltb_spec n base) as [Hlt|Hge].
  - rewrite scan_digit by lia. reflexivity.
  - pose proof (div_fuel fuel n ltac:(lia)) as Hdiv.
    pose proof (Z.mod_pos_bound n base ltac:(lia)).
    rewrite IH by done. destruct fuel as [|fuel]; [simpl in *; lia|].
    rewrite !bool_decide_eq_false_2 by done. rewrite scan_digit by lia.
    f_equal. pose proof (Z.div_mod n base). lia.
Qed.

Lemma to_digits_all fuel n s :
  0 <= n -> all_chars (is_digit_of base) s = true ->
  all_chars (is_digit_of base) (to_digits fuel base n s) = true.
Proof.
  revert n s. induction fuel as [|fuel IH]; intros n s Hn Hs; cbn [to_digits]; [done|].
  destruct (Z.ltb_spec n base).
  - simpl. by rewrite is_digit_of_char by lia.
  - apply IH; [apply Z.div_pos; lia|]. simpl.
    pose proof (Z.mod_pos_bound n base ltac:(lia)). by rewrite is_digit_of_char by lia.
Qed.

Lemma digits_all n : 0 <= n -> all_chars (is_digit_of base) (digits base n) = true.
Proof. intros. by apply to_digits_all. Qed.

Lemma digits_scan n : 0 <= n -> scan_digits base (digits base n) 0 false false = Some n.
Proof.
  intros Hn. unfold digits. rewrite scan_to_digits; [done|].
  rewrite Nat2Z.inj_succ, Z2Nat.id by apply Z.log2_nonneg.
  destruct (decide (n = 0)) as [->|]; [done|]. pose proof (Z.log2_spec n). lia.
Qed.

Lemma digits_cons n : 0 <= n -> exists c s, digits base n = String c s /\ is_digit_of base c = true.
Proof.
  intros Hn. pose proof (digits_scan n Hn) as Hs. pose proof (digits_all n Hn) as Ha.
  destruct (digits base n) as [|c s]; [done|]. simpl in Ha.
  apply andb_true_iff in Ha as [Ha _]. eauto.
Qed.
End Digits.

Lemma strip_digits base pre n :
  2 <= base <= 36 -> 0 <= n -> all_chars (negb ∘ is_space) pre = true ->
  strip (pre +:+ digits base n) = pre +:+ digits base n.
Proof.
  intros Hb Hn Hp. apply strip_id. induction pre as [|c pre IH]; simpl in *.
  - eapply all_chars_impl, digits_all; [|exact Hb|done]. intros c Hc. simpl.
    apply digit_not_special in Hc as (-> & _). done.
  - apply andb_true_iff in Hp as [-> Hp]. by rewrite IH.
Qed.

(** In base 10 no digit string starts with a radix prefix *)
Lemma prefix_base_dec s : all_chars (is_digit_of 10) s = true -> prefix_base s = None.
Proof.
  destruct s as [|z [|x s]]; [done..|]. cbn [all_chars prefix_base].
  intros H.
  apply andb_true_iff in H as [_ H]. apply andb_true_iff in H as [Hx _].
  destruct (Ascii.eqb z "0"); [|done].
  pose proof (ascii_allb (fun x => negb (is_digit_of 10 x) || negb (Ascii.eqb x "x" || Ascii.eqb x "X"
    || Ascii.eqb x "o" || Ascii.eqb x "O" || Ascii.eqb x "b" || Ascii.eqb x "B")) eq_refl x) as Ha.
  cbv beta in Ha. rewrite Hx in Ha. simpl in Ha. rewrite !negb_orb, !andb_true_iff, !negb_true_iff in Ha.
  destruct Ha as (((((-> & ->) & ->) & ->) & ->) & ->). done.
Qed.

Lemma int_body_dec n : 0 <= n -> int_body (digits 10 n) 10 = Some n.
Proof.
  intros Hn. unfold int_body.
  rewrite (prefix_base_dec (digits 10 n)) by (apply digits_all; lia). simpl.
  rewrite digits_scan by lia. pose proof (digits_cons 10 ltac:(lia) n Hn) as (c & s & -> & Hc).
  apply digit_not_special in Hc as (_ & Hu & _). cbn. by rewrite Hu.
Qed.

Lemma int_body_hex n : 0 <= n -> int_body ("0x" +:+ digits 16 n) 16 = Some n.
Proof.
  intros Hn. change ("0x" +:+ digits 16 n) with (String "0" (String "x" (digits 16 n))).
  unfold int_body. cbn -[digits scan_digits skip_underscore].
  assert (Hs : skip_underscore (digits 16 n) = digits 16 n).
  { pose proof (digits_cons 16 ltac:(lia) n Hn) as (c & s & -> & Hc).
    apply digit_not_special in Hc as (_ & Hu & _). cbn. by rewrite Hu. }
  rewrite Hs, digits_scan by lia.
  pose proof (digits_cons 16 ltac:(lia) n Hn) as (c & s & -> & Hc).
  apply digit_not_special in Hc as (_ & Hu & _). cbn. by rewrite Hu.
Qed.

Lemma py_int_digits pre base n v :
  2 <= base <= 36 -> 0 <= n -> all_chars (negb ∘ is_space) pre = true ->
  int_body (pre +:+ digits base n) base = Some v ->
  (match pre with String c _ => negb (Ascii.eqb c "+" || Ascii.eqb c "-") | _ => true end) = true ->
  py_int (pre +:+ digits base n) base = Some v /\ py_int ("-" +:+ pre +:+ digits base n) base = Some (- v).
Proof.
  intros Hb Hn Hp Hv Hsign. unfold py_int.
  change ("-" +:+ pre +:+ digits base n) with (String "-" pre +:+ digits base n).
  rewrite !strip_digits by (simpl; rewrite ?Hp; done).
  split; [|rewrite append_cons; simpl; by rewrite Hv].
  destruct pre as [|c pre]; rewrite ?append_nil_l, ?append_cons in *.
  - pose proof (digits_cons base Hb n Hn) as (c & s & Hd & Hc). rewrite Hd in *.
    apply digit_not_special in Hc as (_ & _ & -> & ->). done.
  - apply negb_true_iff, orb_false_iff in Hsign as [-> ->]. done.
Qed.

Lemma py_int_str z : py_int (py_str z) 10 = Some z.
Proof.
  unfold py_str. destruct (Z.ltb_spec z 0) as [Hz|Hz].
  - destruct (py_int_digits "" 10 (- z) (- z)) as [_ H]; [lia..|done|by apply int_body_dec; lia|done|].
    rewrite append_nil_l in H. rewrite H. f_equal. lia.
  - destruct (py_int_digits "" 10 z z) as [H _]; [lia..|done|by apply int_body_dec|done|].
    exact H.
Qed.

Lemma py_int_hex z : py_int (py_hex z) 16 = Some z.
Proof.
  unfold py_hex. destruct (Z.ltb_spec z 0) as [Hz|Hz].
  - destruct (py_int_digits "0x" 16 (- z) (- z)) as [_ H]; [lia..|done|by apply int_body_hex; lia|done|].
    change ("-0x" +:+ digits 16 (- z)) with ("-" +:+ "0x" +:+ digits 16 (- z)).
    rewrite H. f_equal. lia.
  - destruct (py_int_digits "0x" 16 z z) as [H _]; [lia..|done|by apply int_body_hex|done|].
    exact H.
Qed.

Lemma is_base_n_py_int s n : is_base_n s n = true <-> is_Some (py_int s n).
Proof. unfold is_base_n. destruct (py_int s n); split; try done; by intros [? ?]. Qed.

(** *** Quoting *)

Lemma escape_cons c s :
  escape (String c s)
  = (if Ascii.eqb BSL c then String BSL (String BSL (escape s))
     else if Ascii.eqb QUOTE c then String BSL (String QUOTE (escape s))
     else String c (escape s)).
Proof.
  unfold escape. cbn [replace_char]. destruct (Ascii.eqb_spec BSL c) as [<-|Hb].
  - rewrite !append_cons, append_nil_l. reflexivity.
  - cbn [replace_char]. destruct (Ascii.eqb_spec QUOTE c); [|done].
    by rewrite !append_cons, append_nil_l.
Qed.

Lemma unescape_escape s : unescape (escape s) = s.
Proof.
  induction s as [|c s IH]; [done|]. rewrite escape_cons.
  destruct (Ascii.eqb_spec BSL c) as [<-|Hb]; [cbn; by rewrite IH|].
  destruct (Ascii.eqb_spec QUOTE c) as [<-|Hq]; [cbn; by rewrite IH|].
  cbn [unescape]. destruct (Ascii.eqb_spec c BSL); [congruence|]. by rewrite IH.
Qed.

Lemma conf_string_body_escape s t : conf_string_body (escape s +:+ String QUOTE t) = Some (escape s).
Proof.
  induction s as [|c s IH]; [done|]. rewrite escape_cons.
  destruct (Ascii.eqb_spec BSL c) as [<-|Hb]; [rewrite !append_cons; cbn; by rewrite IH|].
  destruct (Ascii.eqb_spec QUOTE c) as [<-|Hq]; [rewrite !append_cons; cbn; by rewrite IH|].
  rewrite append_cons. cbn [conf_string_body].
  destruct (Ascii.eqb_spec c QUOTE); [congruence|]. destruct (Ascii.eqb_spec c BSL); [congruence|].
  by rewrite IH.
Qed.

#[export] Hint Rewrite unescape_escape py_int_str py_int_hex : pystr.
