(* ===== verification/PyText.v ===== *)
(** * More of Python's [str]: lines, columns, searching

    What printing and parsing use on top of [PyStr]: [splitlines],
    [expandtabs], padding, [isspace], [isupper], [split], [replace] and the
    scanning that the regular expressions of the parser do.  Strings are ASCII. *)
From S2P Require Import Prelude PyStr.

(** ** Characters and classes of characters *)

Definition in_range_n (lo hi : nat) (c : ascii) : bool :=
  (lo <=? nat_of_ascii c)%nat && (nat_of_ascii c <=? hi)%nat.
Definition is_upper (c : ascii) : bool := in_range_n 65 90 c.
Definition is_lower (c : ascii) : bool := in_range_n 97 122 c.
Definition is_digit (c : ascii) : bool := in_range_n 48 57 c.
(** [\w] *)
Definition is_word (c : ascii) : bool := is_upper c || is_lower c || is_digit c || Ascii.eqb c "_".

(** [str.isspace] *)
Definition isspace (s : string) : bool := negb (String.eqb s "") && all_chars is_space s.

(** [str.isupper]: a cased character, and no lower-case one *)
Fixpoint any_char (p : ascii -> bool) (s : string) : bool :=
  match s with
  | EmptyString => false
  | String c s' => p c || any_char p s'
  end.
Definition isupper (s : string) : bool := any_char is_upper s && negb (any_char is_lower s).

Definition contains_char (c : ascii) (s : string) : bool := any_char (Ascii.eqb c) s.

(** [s[:-len(suffix)]] if [s.endswith(suffix)] *)
Fixpoint drop_suffix (suffix s : string) : option string :=
  if String.eqb s suffix then Some EmptyString
  else match s with
       | EmptyString => None
       | String c s' => String c <$> drop_suffix suffix s'
       end.

(** The longest prefix of characters in a class, and the rest *)
Fixpoint span (p : ascii -> bool) (s : string) : string * string :=
  match s with
  | EmptyString => (EmptyString, EmptyString)
  | String c s' => if p c then let '(a, b) := span p s' in (String c a, b) else (EmptyString, s)
  end.

(** ** Lines and columns *)

(** [str.splitlines] *)
Definition is_line_break (c : ascii) : bool := in_range_n 10 13 c || in_range_n 28 30 c.

Fixpoint splitlines (s : string) : list string :=
  let cons c ls := match ls with [] => [String c EmptyString] | l :: ls => String c l :: ls end in
  match s with
  | EmptyString => []
  | String c s' =>
      if Ascii.eqb c (chr 13) then
        match s' with
        | String d s'' => if Ascii.eqb d NL then EmptyString :: splitlines s'' else EmptyString :: splitlines s'
        | EmptyString => [EmptyString]
        end
      else if is_line_break c then EmptyString :: splitlines s'
      else cons c (splitlines s')
  end.

(** [str.expandtabs]: columns of eight, counted from the last line break *)
Definition spaces (n : nat) : string := String.concat "" (repeat " " n).

Fixpoint expandtabs_at (col : nat) (s : string) : string :=
  match s with
  | EmptyString => EmptyString
  | String c s' =>
      if Ascii.eqb c (chr 9) then
        let n := (8 - col mod 8)%nat in spaces n +:+ expandtabs_at (col + n)%nat s'
      else if Ascii.eqb c NL || Ascii.eqb c (chr 13) then String c (expandtabs_at 0%nat s')
      else String c (expandtabs_at (S col) s')
  end.
Definition expandtabs (s : string) : string := expandtabs_at 0%nat s.

(** [s.split(c)] for a one-character separator *)
Fixpoint split_on (c : ascii) (s : string) : list string :=
  match s with
  | EmptyString => [EmptyString]
  | String d s' =>
      if Ascii.eqb c d then EmptyString :: split_on c s'
      else match split_on c s' with
           | [] => [String d EmptyString]
           | l :: ls => String d l :: ls
           end
  end.

(** [s.split()], for a class of white space *)
Fixpoint fields_ (space : ascii -> bool) (s cur : string) : list string :=
  let last := if String.eqb cur "" then [] else [cur] in
  match s with
  | EmptyString => last
  | String c s' => if space c then last ++ fields_ space s' "" else fields_ space s' (cur +:+ String c "")
  end.
Definition fields (space : ascii -> bool) (s : string) : list string := fields_ space s "".

(** ['{:{}}'.format(s, n)]: padded on the right *)
Definition ljust (s : string) (n : nat) : string := s +:+ spaces (n - String.length s).

(** [s.replace(old, new)] for a nonempty [old] *)
Fixpoint replace_str (old new s : string) (skip : nat) : string :=
  match s with
  | EmptyString => EmptyString
  | String c s' =>
      match skip with
      | S k => replace_str old new s' k
      | O => if startswith s old then new +:+ replace_str old new s' (String.length old - 1)%nat
             else String c (replace_str old new s' 0%nat)
      end
  end.

(** [s.strip(chars)] *)
Fixpoint drop_while (p : ascii -> bool) (s : string) : string :=
  match s with
  | EmptyString => EmptyString
  | String c s' => if p c then drop_while p s' else s
  end.

Fixpoint drop_while_end (p : ascii -> bool) (s : string) : string :=
  match s with
  | EmptyString => EmptyString
  | String c s' =>
      match drop_while_end p s' with
      | EmptyString => if p c then EmptyString else String c EmptyString
      | r => String c r
      end
  end.

Definition strip_chars (p : ascii -> bool) (s : string) : string := drop_while p (drop_while_end p s).

(** [l[i]] with Python's negative indices; [None] is [IndexError] *)
Definition py_index {A} (l : list A) (i : Z) : option A :=
  let j := if i <? 0 then i + Z.of_nat (length l) else i in
  if j <? 0 then None else nth_error l (Z.to_nat j).

(** ** Examples *)

Example splitlines_ex : splitlines ("a" +:+ String (chr 13) (String NL ("b" +:+ String NL ""))) = ["a"; "b"].
Proof. reflexivity. Qed.
Example expandtabs_ex : expandtabs ("ab" +:+ String (chr 9) "c") = "ab      c".
Proof. reflexivity. Qed.
Example replace_str_ex : replace_str "aa" "b" "xaaaay" 0 = "xbby".
Proof. reflexivity. Qed.
