(* ===== verification/Model.v ===== *)
(** * The data of [scripts/menuconfig.py]: expressions, symbols, choices, menu nodes

    Objects are numbered: a [symid] stands for a [Symbol] object, a [choiceid]
    for a [Choice], a [nodeid] for a [MenuNode], so that object identity ([is])
    is equality of numbers.  Attributes that no longer change once the
    configuration has been parsed are in the records [Symbol], [Choice],
    [MenuNode] and [Config]; attributes that change while it is used (user
    values, the four caches, [_was_set], [_write_to_conf], [_old_val],
    [_visited], the warnings) are in [SymState], [ChoiceState] and [State]. *)
From S2P Require Import Prelude PyStr.

(** ** Constants *)

Inductive stype := UNKNOWN | BOOL | TRISTATE | STRING | INT | HEX.

Inductive relop := EQUAL | UNEQUAL | LESS | LESS_EQUAL | GREATER | GREATER_EQUAL.

#[export] Instance stype_eq_dec : EqDecision stype.
Proof. solve_decision. Defined.
#[export] Instance relop_eq_dec : EqDecision relop.
Proof. solve_decision. Defined.

Definition TYPE_TO_STR (t : stype) : string :=
  match t with
  | UNKNOWN => "unknown" | BOOL => "bool" | TRISTATE => "tristate"
  | STRING => "string" | INT => "int" | HEX => "hex"
  end.

Definition TYPE_TO_BASE (t : stype) : Z :=
  match t with HEX => 16 | INT => 10 | _ => 0 end.

Definition REL_TO_STR (r : relop) : string :=
  match r with
  | EQUAL => "=" | UNEQUAL => "!=" | LESS => "<"
  | LESS_EQUAL => "<=" | GREATER => ">" | GREATER_EQUAL => ">="
  end.

(** [TRI_TO_STR[v]]; [None] is [KeyError] *)
Definition TRI_TO_STR (v : Z) : option string :=
  if v =? 0 then Some "n" else if v =? 1 then Some "m" else if v =? 2 then Some "y" else None.

Definition STR_TO_TRI (s : string) : option Z :=
  if String.eqb s "n" then Some 0 else if String.eqb s "m" then Some 1
  else if String.eqb s "y" then Some 2 else None.

Definition is_bool_tristate (t : stype) : bool :=
  match t with BOOL | TRISTATE => true | _ => false end.
Definition is_int_hex (t : stype) : bool :=
  match t with INT | HEX => true | _ => false end.
Definition type_eqb (t1 t2 : stype) : bool := bool_decide (t1 = t2).

(** ** Expressions *)

Abbreviation symid := nat.
Abbreviation choiceid := nat.
Abbreviation nodeid := nat.

Inductive item := ISym (s : symid) | IChoice (c : choiceid).

#[export] Instance item_eq_dec : EqDecision item.
Proof. solve_decision. Defined.

(** A symbol or choice is an expression; the others are tuples whose first
    component is the operator.  The operands of a relation are symbols. *)
Inductive expr :=
| EItem (i : item)
| EAnd (e1 e2 : expr)
| EOr (e1 e2 : expr)
| ENot (e : expr)
| ERel (r : relop) (s1 s2 : symid).

#[export] Instance expr_eq_dec : EqDecision expr.
Proof. solve_decision. Defined.

Abbreviation ESym s := (EItem (ISym s)).
Abbreviation EChoice c := (EItem (IChoice c)).

(** ** Objects *)

Inductive node_item := NSym (s : symid) | NChoice (c : choiceid) | NMenu | NComment | NIf.

#[export] Instance node_item_eq_dec : EqDecision node_item.
Proof. solve_decision. Defined.

Record Symbol := mkSymbol {
  sym_name : string;
  sym_is_constant : bool;
  sym_orig_type : stype;
  sym_nodes : list nodeid;
  sym_defaults : list (expr * expr);
  sym_selects : list (symid * expr);
  sym_implies : list (symid * expr);
  sym_ranges : list (symid * symid * expr);
  sym_rev_dep : expr;
  sym_weak_rev_dep : expr;
  sym_direct_dep : expr;
  sym_choice : option choiceid;
  sym_env_var : option string;
  sym_is_allnoconfig_y : bool;
  sym_dependents : list item;
}.

Record Choice := mkChoice {
  ch_name : option string;
  ch_orig_type : stype;
  ch_nodes : list nodeid;
  ch_syms : list symid;
  ch_defaults : list (expr * expr);
  ch_direct_dep : expr;
  ch_is_optional : bool;
  ch_dependents : list item;
}.

Record MenuNode := mkMenuNode {
  nd_item : node_item;
  nd_next : option nodeid;
  nd_list : option nodeid;
  nd_parent : option nodeid;
  nd_prompt : option (string * expr);
  nd_dep : expr;
  nd_visibility : expr;
  nd_is_menuconfig : bool;
  nd_help : option string;
  nd_filename : string;
  nd_linenr : Z;
  nd_include_path : list (string * Z);
  nd_defaults : list (expr * expr);
  nd_selects : list (symid * expr);
  nd_implies : list (symid * expr);
  nd_ranges : list (symid * symid * expr);
}.

Record Config := mkConfig {
  c_syms : list Symbol;
  c_choices : list Choice;
  c_nodes : list MenuNode;
  c_n : symid;
  c_m : symid;
  c_y : symid;
  c_modules : symid;
  c_defconfig_list : option node_item;
  c_top_node : nodeid;
  c_unique_defined_syms : list symid;
  c_unique_choices : list choiceid;
  c_menus : list nodeid;
  c_comments : list nodeid;
  c_sym_table : gmap string symid;
  c_config_prefix : string;
  c_config_header : string;
  c_header_header : string;
}.

(** ** State *)

(** A user value: a tristate number for bool and tristate symbols, a string for the others *)
Inductive uval := UTri (v : Z) | UStr (s : string).

#[export] Instance uval_eq_dec : EqDecision uval.
Proof. solve_decision. Defined.

Record SymState := mkSymState {
  user_value : option uval;
  was_set : bool;
  write_to_conf : bool;
  cached_str_val : option string;
  cached_tri_val : option Z;
  cached_vis : option Z;
  cached_assignable : option (list Z);
  old_val : option string;
  visited : Z;
}.

(** [ch_cached_selection = None] is [_NO_CACHED_SELECTION] *)
Record ChoiceState := mkChoiceState {
  ch_user_value : option Z;
  ch_user_selection : option symid;
  ch_was_set : bool;
  ch_cached_vis : option Z;
  ch_cached_assignable : option (list Z);
  ch_cached_selection : option (option symid);
  ch_visited : Z;
}.

Record State := mkState {
  st_syms : gmap symid SymState;
  st_choices : gmap choiceid ChoiceState;
  st_warn : bool;
  st_warnings : list string;
  st_warn_assign_undef : bool;
  st_warn_assign_override : bool;
  st_warn_assign_redun : bool;
  st_warn_assign_no_prompt : bool;
  st_missing_syms : list (string * string);
}.

(** [Symbol.__init__], [Choice.__init__]: the attributes' initial values *)
Definition init_sym : SymState := mkSymState None false false None None None None None 0.
Definition init_choice : ChoiceState := mkChoiceState None None false None None None 0.

#[export] Instance SymState_inhabited : Inhabited SymState := populate init_sym.
#[export] Instance ChoiceState_inhabited : Inhabited ChoiceState := populate init_choice.

(** What an id outside the tables would denote; well-formed configurations have none *)
Definition no_symbol : Symbol :=
  mkSymbol "" true UNKNOWN [] [] [] [] [] (ESym 0%nat) (ESym 0%nat) (ESym 0%nat) None None false [].
Definition no_choice : Choice := mkChoice None UNKNOWN [] [] [] (ESym 0%nat) false [].
Definition no_node : MenuNode :=
  mkMenuNode NIf None None None None (ESym 0%nat) (ESym 0%nat) false None "" 0 [] [] [] [] [].

Section Access.
Context (cfg : Config).
Definition sym (s : symid) : Symbol := nth s (c_syms cfg) no_symbol.
Definition chc (c : choiceid) : Choice := nth c (c_choices cfg) no_choice.
Definition node (n : nodeid) : MenuNode := nth n (c_nodes cfg) no_node.
Definition e_n : expr := ESym (c_n cfg).
Definition e_m : expr := ESym (c_m cfg).
Definition e_y : expr := ESym (c_y cfg).
End Access.

(** *** Field updates *)

Definition set_user_value v (x : SymState) := mkSymState v (was_set x) (write_to_conf x)
  (cached_str_val x) (cached_tri_val x) (cached_vis x) (cached_assignable x) (old_val x) (visited x).
Definition set_was_set v (x : SymState) := mkSymState (user_value x) v (write_to_conf x)
  (cached_str_val x) (cached_tri_val x) (cached_vis x) (cached_assignable x) (old_val x) (visited x).
Definition set_write_to_conf v (x : SymState) := mkSymState (user_value x) (was_set x) v
  (cached_str_val x) (cached_tri_val x) (cached_vis x) (cached_assignable x) (old_val x) (visited x).
Definition set_cached_str_val v (x : SymState) := mkSymState (user_value x) (was_set x) (write_to_conf x)
  v (cached_tri_val x) (cached_vis x) (cached_assignable x) (old_val x) (visited x).
Definition set_cached_tri_val v (x : SymState) := mkSymState (user_value x) (was_set x) (write_to_conf x)
  (cached_str_val x) v (cached_vis x) (cached_assignable x) (old_val x) (visited x).
Definition set_cached_vis v (x : SymState) := mkSymState (user_value x) (was_set x) (write_to_conf x)
  (cached_str_val x) (cached_tri_val x) v (cached_assignable x) (old_val x) (visited x).
Definition set_cached_assignable v (x : SymState) := mkSymState (user_value x) (was_set x) (write_to_conf x)
  (cached_str_val x) (cached_tri_val x) (cached_vis x) v (old_val x) (visited x).
Definition set_old_val v (x : SymState) := mkSymState (user_value x) (was_set x) (write_to_conf x)
  (cached_str_val x) (cached_tri_val x) (cached_vis x) (cached_assignable x) v (visited x).
Definition set_visited v (x : SymState) := mkSymState (user_value x) (was_set x) (write_to_conf x)
  (cached_str_val x) (cached_tri_val x) (cached_vis x) (cached_assignable x) (old_val x) v.

Definition set_ch_user_value v (x : ChoiceState) := mkChoiceState v (ch_user_selection x) (ch_was_set x)
  (ch_cached_vis x) (ch_cached_assignable x) (ch_cached_selection x) (ch_visited x).
Definition set_ch_user_selection v (x : ChoiceState) := mkChoiceState (ch_user_value x) v (ch_was_set x)
  (ch_cached_vis x) (ch_cached_assignable x) (ch_cached_selection x) (ch_visited x).
Definition set_ch_was_set v (x : ChoiceState) := mkChoiceState (ch_user_value x) (ch_user_selection x) v
  (ch_cached_vis x) (ch_cached_assignable x) (ch_cached_selection x) (ch_visited x).
Definition set_ch_cached_vis v (x : ChoiceState) := mkChoiceState (ch_user_value x) (ch_user_selection x)
  (ch_was_set x) v (ch_cached_assignable x) (ch_cached_selection x) (ch_visited x).
Definition set_ch_cached_assignable v (x : ChoiceState) := mkChoiceState (ch_user_value x)
  (ch_user_selection x) (ch_was_set x) (ch_cached_vis x) v (ch_cached_selection x) (ch_visited x).
Definition set_ch_cached_selection v (x : ChoiceState) := mkChoiceState (ch_user_value x)
  (ch_user_selection x) (ch_was_set x) (ch_cached_vis x) (ch_cached_assignable x) v (ch_visited x).
Definition set_ch_visited v (x : ChoiceState) := mkChoiceState (ch_user_value x) (ch_user_selection x)
  (ch_was_set x) (ch_cached_vis x) (ch_cached_assignable x) (ch_cached_selection x) v.

Definition set_st_syms v (x : State) := mkState v (st_choices x) (st_warn x) (st_warnings x)
  (st_warn_assign_undef x) (st_warn_assign_override x) (st_warn_assign_redun x)
  (st_warn_assign_no_prompt x) (st_missing_syms x).
Definition set_st_choices v (x : State) := mkState (st_syms x) v (st_warn x) (st_warnings x)
  (st_warn_assign_undef x) (st_warn_assign_override x) (st_warn_assign_redun x)
  (st_warn_assign_no_prompt x) (st_missing_syms x).
Definition set_st_warn v (x : State) := mkState (st_syms x) (st_choices x) v (st_warnings x)
  (st_warn_assign_undef x) (st_warn_assign_override x) (st_warn_assign_redun x)
  (st_warn_assign_no_prompt x) (st_missing_syms x).
Definition set_st_warnings v (x : State) := mkState (st_syms x) (st_choices x) (st_warn x) v
  (st_warn_assign_undef x) (st_warn_assign_override x) (st_warn_assign_redun x)
  (st_warn_assign_no_prompt x) (st_missing_syms x).
Definition set_st_warn_assign_no_prompt v (x : State) := mkState (st_syms x) (st_choices x) (st_warn x)
  (st_warnings x) (st_warn_assign_undef x) (st_warn_assign_override x) (st_warn_assign_redun x)
  v (st_missing_syms x).
Definition set_st_missing_syms v (x : State) := mkState (st_syms x) (st_choices x) (st_warn x)
  (st_warnings x) (st_warn_assign_undef x) (st_warn_assign_override x) (st_warn_assign_redun x)
  (st_warn_assign_no_prompt x) v.

(** ** The monad of configuration code and its primitive accesses *)

Definition K : Type -> Type := M State.
#[export] Instance K_ret : MRet K := M_ret State.
#[export] Instance K_bind : MBind K := M_bind State.

Definition symst (st : State) (s : symid) : SymState := st_syms st !!! s.
Definition chst (st : State) (c : choiceid) : ChoiceState := st_choices st !!! c.

Definition sget {A} (f : SymState -> A) (s : symid) : K A := gets (fun st => f (symst st s)).
Definition cget {A} (f : ChoiceState -> A) (c : choiceid) : K A := gets (fun st => f (chst st c)).

Definition alter_sym (f : SymState -> SymState) (s : symid) (st : State) : State :=
  set_st_syms (<[s := f (symst st s)]> (st_syms st)) st.
Definition alter_choice (f : ChoiceState -> ChoiceState) (c : choiceid) (st : State) : State :=
  set_st_choices (<[c := f (chst st c)]> (st_choices st)) st.

Definition sput (f : SymState -> SymState) (s : symid) : K unit := modify (alter_sym f s).
Definition cput (f : ChoiceState -> ChoiceState) (c : choiceid) : K unit := modify (alter_choice f c).

(** [Kconfig._warn]: the message reaches [warnings] (and [stderr], not modelled)
    only when warnings are enabled *)
Definition warn_msg (msg : string) (loc : option (string * Z)) : string :=
  match loc with
  | None => "warning: " +:+ msg
  | Some (f, l) => f +:+ ":" +:+ py_str l +:+ ": warning: " +:+ msg
  end.

Definition warn_at (msg : string) (loc : option (string * Z)) : K unit :=
  modify (fun st => if st_warn st then set_st_warnings (st_warnings st ++ [warn_msg msg loc]) st else st).

Definition warn (msg : string) : K unit := warn_at msg None.

(** ** Functions on expressions *)

Fixpoint expr_items (e : expr) : list item :=
  match e with
  | EItem i => [i]
  | EAnd e1 e2 | EOr e1 e2 => expr_items e1 ++ expr_items e2
  | ENot e => expr_items e
  | ERel _ s1 s2 => [ISym s1; ISym s2]
  end.

Inductive binop := AND | OR.

Fixpoint split_expr (e : expr) (op : binop) : list expr :=
  match e, op with
  | EAnd e1 e2, AND => split_expr e1 AND ++ split_expr e2 AND
  | EOr e1 e2, OR => split_expr e1 OR ++ split_expr e2 OR
  | _, _ => [e]
  end.

Section Exprs.
Context (cfg : Config).

Definition standard_sc_expr_str (i : item) : string :=
  match i with
  | ISym s =>
      let x := sym cfg s in
      if sym_is_constant x && bool_decide (STR_TO_TRI (sym_name x) = None)
      then String QUOTE (escape (sym_name x) +:+ String QUOTE "") else sym_name x
  | IChoice c =>
      match ch_name (chc cfg c) with
      | Some n => if String.eqb n "" then "<choice>" else "<choice " +:+ n +:+ ">"
      | None => "<choice>"
      end
  end.

Definition paren (b : bool) (s : string) : string := if b then "(" +:+ s +:+ ")" else s.
Definition is_and (e : expr) : bool := match e with EAnd _ _ => true | _ => false end.
Definition is_or (e : expr) : bool := match e with EOr _ _ => true | _ => false end.

(** [expr_str] with [_parenthesize] *)
Fixpoint expr_str (f : item -> string) (e : expr) : string :=
  match e with
  | EItem i => f i
  | EAnd e1 e2 => paren (is_or e1) (expr_str f e1) +:+ " && " +:+ paren (is_or e2) (expr_str f e2)
  | EOr e1 e2 => paren (is_and e1) (expr_str f e1) +:+ " || " +:+ paren (is_and e2) (expr_str f e2)
  | ENot (EItem i) => "!" +:+ f i
  | ENot e1 => "!(" +:+ expr_str f e1 +:+ ")"
  | ERel r s1 s2 => f (ISym s1) +:+ " " +:+ REL_TO_STR r +:+ " " +:+ f (ISym s2)
  end.

Definition locs (ns : list nodeid) : string :=
  match ns with
  | [] => "(undefined)"
  | _ => "(defined at "
         +:+ py_join ", " (map (fun n => nd_filename (node cfg n) +:+ ":" +:+ py_str (nd_linenr (node cfg n))) ns)
         +:+ ")"
  end.

Definition sym_name_and_loc (s : symid) : string :=
  sym_name (sym cfg s) +:+ " " +:+ locs (sym_nodes (sym cfg s)).
Definition ch_name_and_loc (c : choiceid) : string :=
  standard_sc_expr_str (IChoice c) +:+ " " +:+ locs (ch_nodes (chc cfg c)).

(** [Kconfig._make_and], [Kconfig._make_or] *)
Definition make_and (e1 e2 : expr) : expr :=
  if bool_decide (e1 = e_y cfg) then e2
  else if bool_decide (e2 = e_y cfg) then e1
  else if bool_decide (e1 = e_n cfg) || bool_decide (e2 = e_n cfg) then e_n cfg
  else EAnd e1 e2.

Definition make_or (e1 e2 : expr) : expr :=
  if bool_decide (e1 = e_n cfg) then e2
  else if bool_decide (e2 = e_n cfg) then e1
  else if bool_decide (e1 = e_y cfg) || bool_decide (e2 = e_y cfg) then e_y cfg
  else EOr e1 e2.

(** [_expr_depends_on(expr, sym)], with Python's precedence of [and] over [or] *)
Fixpoint expr_depends_on (e : expr) (s : item) : bool :=
  match e with
  | EItem i => bool_decide (i = s)
  | ERel r l rt =>
      if bool_decide (r = EQUAL \/ r = UNEQUAL) then
        let check (right : symid) :=
          (bool_decide (r = EQUAL) && bool_decide (right = c_m cfg) || bool_decide (right = c_y cfg))
          || (bool_decide (r = UNEQUAL) && bool_decide (right = c_n cfg)) in
        if bool_decide (ISym rt = s) then check l
        else if negb (bool_decide (ISym l = s)) then false
        else check rt
      else false
  | EAnd e1 e2 => expr_depends_on e1 s || expr_depends_on e2 s
  | _ => false
  end.
End Exprs.
