(* ===== verification/Eval.v ===== *)
(** * Values of symbols and choices (the properties of [Symbol] and [Choice])

    Every Python property that calculates a value lazily is a Definition that
    takes the property accesses it performs from an [evaluator]; [ev n] ties
    the knot with recursion depth at most [n], and running out of depth raises
    [RecursionError] as the interpreter does.  The four caches and
    [_write_to_conf] are read and written as in the source. *)
From S2P Require Import Prelude PyStr Model.

(** The property accesses [sym.tri_value], [sym.str_value], [sym.visibility],
    [choice.tri_value], [choice.visibility], [choice.selection] *)
Record evaluator := mkEvaluator {
  ev_tri : symid -> K Z;
  ev_str : symid -> K string;
  ev_vis : symid -> K Z;
  ev_ctri : choiceid -> K Z;
  ev_cvis : choiceid -> K Z;
  ev_csel : choiceid -> K (option symid);
}.

Definition ev_bottom : evaluator := {|
  ev_tri := fun _ => raise RecursionError; ev_str := fun _ => raise RecursionError;
  ev_vis := fun _ => raise RecursionError; ev_ctri := fun _ => raise RecursionError;
  ev_cvis := fun _ => raise RecursionError; ev_csel := fun _ => raise RecursionError |}.

(** [try: m except ValueError: None] *)
Definition try_value_error {A} (m : K A) : K (option A) := fun st =>
  match m st with
  | (Ok a, st') => (Ok (Some a), st')
  | (Err ValueError, st') => (Ok None, st')
  | (Err e, st') => (Err e, st')
  end.

(** [TRI_TO_STR[v]] *)
Definition tri_to_str (v : Z) : K string :=
  match TRI_TO_STR v with Some s => mret s | None => raise KeyError end.

Definition num2str (base v : Z) : string := if base =? 10 then py_str v else py_hex v.

(** Python truth of a user value *)
Definition uval_truthy (u : option uval) : bool :=
  match u with
  | None => false
  | Some (UTri v) => negb (v =? 0)
  | Some (UStr s) => negb (String.eqb s "")
  end.

(** The comparison of a relation, from the sign of the difference *)
Definition rel_holds (r : relop) (comp : Z) : bool :=
  match r with
  | EQUAL => comp =? 0
  | UNEQUAL => negb (comp =? 0)
  | LESS => comp <? 0
  | LESS_EQUAL => comp <=? 0
  | GREATER => 0 <? comp
  | GREATER_EQUAL => 0 <=? comp
  end.

Section Eval.
Context (cfg : Config) (E : evaluator).

(** [_sym_to_num] *)
Definition sym_to_num (s : symid) : K Z :=
  let t := sym_orig_type (sym cfg s) in
  if is_bool_tristate t then ev_tri E s
  else v ← ev_str E s;
       match py_int v (TYPE_TO_BASE t) with Some z => mret z | None => raise ValueError end.

Definition rel_comp (s1 s2 : symid) : K Z :=
  let by_str := v1 ← ev_str E s1; v2 ← ev_str E s2; mret (strcmp v1 v2) in
  if type_eqb (sym_orig_type (sym cfg s1)) STRING && type_eqb (sym_orig_type (sym cfg s2)) STRING
  then by_str
  else
    r ← try_value_error (n1 ← sym_to_num s1; n2 ← sym_to_num s2; mret (n1 - n2));
    match r with Some c => mret c | None => by_str end.

(** [expr_value], with its short circuits *)
Fixpoint expr_value (e : expr) : K Z :=
  match e with
  | EItem (ISym s) => ev_tri E s
  | EItem (IChoice c) => ev_ctri E c
  | EAnd e1 e2 =>
      v1 ← expr_value e1;
      if v1 =? 0 then mret 0 else v2 ← expr_value e2; mret (Z.min v1 v2)
  | EOr e1 e2 =>
      v1 ← expr_value e1;
      if v1 =? 2 then mret 2 else v2 ← expr_value e2; mret (Z.max v1 v2)
  | ENot e1 => v ← expr_value e1; mret (2 - v)
  | ERel r s1 s2 => comp ← rel_comp s1 s2; mret (if rel_holds r comp then 2 else 0)
  end.

(** [default.str_value] for the value of a default *)
Definition default_str_value (e : expr) : K string :=
  match e with
  | EItem (ISym s) => ev_str E s
  | EItem (IChoice c) => v ← ev_ctri E c; tri_to_str v
  | _ => raise AttributeError
  end.

(** [Symbol.type], [Choice.type] *)
Definition sym_type (s : symid) : K stype :=
  let x := sym cfg s in
  if type_eqb (sym_orig_type x) TRISTATE then
    in_y ← match sym_choice x with
           | Some c => v ← ev_ctri E c; mret (v =? 2)
           | None => mret false
           end;
    if in_y : bool then mret BOOL
    else mv ← ev_tri E (c_modules cfg); mret (if mv =? 0 then BOOL else TRISTATE)
  else mret (sym_orig_type x).

Definition ch_type (c : choiceid) : K stype :=
  let x := chc cfg c in
  if type_eqb (ch_orig_type x) TRISTATE then
    mv ← ev_tri E (c_modules cfg); mret (if mv =? 0 then BOOL else TRISTATE)
  else mret (ch_orig_type x).

(** [_visibility]: the maximum over the prompts, then the adjustments *)
Definition prompts_value (ns : list nodeid) : K Z :=
  foldM (fun vis n =>
    match nd_prompt (node cfg n) with
    | Some (_, cond) => v ← expr_value cond; mret (Z.max vis v)
    | None => mret vis
    end) 0 ns.

Definition sym_visibility_ (s : symid) : K Z :=
  let x := sym cfg s in
  vis ← prompts_value (sym_nodes x);
  hidden ← match sym_choice x with
           | None => mret false
           | Some c =>
               h1 ← (if type_eqb (ch_orig_type (chc cfg c)) TRISTATE
                        && negb (type_eqb (sym_orig_type x) TRISTATE)
                     then v ← ev_ctri E c; mret (negb (v =? 2)) else mret false);
               if h1 : bool then mret true
               else if type_eqb (sym_orig_type x) TRISTATE && (vis =? 1)
               then v ← ev_ctri E c; mret (v =? 2) else mret false
           end;
  if hidden : bool then mret 0
  else if vis =? 1 then
    t ← sym_type s; mret (if type_eqb t TRISTATE then vis else 2)
  else mret vis.

Definition ch_visibility_ (c : choiceid) : K Z :=
  vis ← prompts_value (ch_nodes (chc cfg c));
  if vis =? 1 then
    t ← ch_type c; mret (if type_eqb t TRISTATE then vis else 2)
  else mret vis.

Definition sym_visibility (s : symid) : K Z :=
  c ← sget cached_vis s;
  match c with
  | Some v => mret v
  | None => v ← sym_visibility_ s; sput (set_cached_vis (Some v)) s;; mret v
  end.

Definition ch_visibility (c : choiceid) : K Z :=
  k ← cget ch_cached_vis c;
  match k with
  | Some v => mret v
  | None => v ← ch_visibility_ c; cput (set_ch_cached_vis (Some v)) c;; mret v
  end.

(** [Choice.tri_value] *)
Definition ch_tri_value (c : choiceid) : K Z :=
  u ← cget ch_user_value c;
  vis ← ev_cvis E c;
  let val0 := if ch_is_optional (chc cfg c) then 0 else 1 in
  let val := Z.min (match u with Some v => Z.max val0 v | None => val0 end) vis in
  if val =? 1 then t ← ch_type c; mret (if type_eqb t BOOL then 2 else val) else mret val.

(** [Choice._selection_from_defaults], [Choice._selection], [Choice.selection] *)
Definition selection_from_defaults (c : choiceid) : K (option symid) :=
  r ← first_someM (fun '(d, cond) =>
        v ← expr_value cond;
        if v =? 0 then mret None
        else match d with
             | EItem (ISym s) => vis ← ev_vis E s; mret (if vis =? 0 then None else Some s)
             | _ => raise AttributeError
             end) (ch_defaults (chc cfg c));
  match r with
  | Some s => mret (Some s)
  | None => first_someM (fun s => vis ← ev_vis E s; mret (if vis =? 0 then None else Some s))
              (ch_syms (chc cfg c))
  end.

Definition ch_selection_ (c : choiceid) : K (option symid) :=
  v ← ev_ctri E c;
  if negb (v =? 2) then mret None
  else
    us ← cget ch_user_selection c;
    user ← match us with
           | Some s => vis ← ev_vis E s; mret (if vis =? 0 then None else Some s)
           | None => mret None
           end;
    match user with
    | Some s => mret (Some s)
    | None => selection_from_defaults c
    end.

Definition ch_selection (c : choiceid) : K (option symid) :=
  k ← cget ch_cached_selection c;
  match k with
  | Some r => mret r
  | None => r ← ch_selection_ c; cput (set_ch_cached_selection (Some r)) c;; mret r
  end.

(** [Symbol._warn_select_unsatisfied_deps] *)
Definition first_and (e : expr) : expr :=
  match split_expr e AND with a :: _ => a | [] => e end.

Definition warn_select_unsatisfied_deps (s : symid) : K unit :=
  let x := sym cfg s in
  let str := expr_str (standard_sc_expr_str cfg) in
  dd ← expr_value (sym_direct_dep x); dds ← tri_to_str dd;
  rd ← expr_value (sym_rev_dep x); rds ← tri_to_str rd;
  msg ← foldM (fun msg select =>
          sv ← expr_value select;
          dv ← expr_value (sym_direct_dep x);
          if sv <=? dv then mret msg
          else match first_and select with
               | EItem (ISym t) =>
                   tv ← ev_str E t;
                   td ← expr_value (sym_direct_dep (sym cfg t)); tds ← tri_to_str td;
                   let msg := msg +:+ String NL (" - " +:+ sym_name_and_loc cfg t
                     +:+ ", with value " +:+ tv +:+ ", direct dependencies "
                     +:+ str (sym_direct_dep (sym cfg t)) +:+ " (value: " +:+ tds +:+ ")") in
                   match select with
                   | EAnd _ cond | EOr _ cond =>
                       cv ← expr_value cond; cvs ← tri_to_str cv;
                       mret (msg +:+ ", and select condition " +:+ str cond +:+ " (value: " +:+ cvs +:+ ")")
                   | _ => mret msg
                   end
               | _ => raise AttributeError
               end)
        (sym_name_and_loc cfg s +:+ " has direct dependencies " +:+ str (sym_direct_dep x)
         +:+ " with value " +:+ dds +:+ ", but is currently being " +:+ rds
         +:+ "-selected by the following symbols:")
        (split_expr (sym_rev_dep x) OR);
  warn msg.

(** [Symbol.tri_value]: the value of a symbol outside choices from its user
    value, or from defaults and implies *)
Definition tri_user_or_default (s : symid) (vis : Z) : K Z :=
  let x := sym cfg s in
  u ← sget user_value s;
  match (if vis =? 0 then None else u) with
  | Some (UTri uv) => mret (Z.min uv vis)
  | Some (UStr _) => raise TypeError
  | None =>
      r ← first_someM (fun '(d, cond) =>
            c ← expr_value cond;
            if c =? 0 then mret None
            else dv ← expr_value d;
                 let val := Z.min dv c in
                 when (negb (val =? 0)) (sput (set_write_to_conf true) s);;
                 mret (Some val)) (sym_defaults x);
      let val := default 0 r in
      w ← expr_value (sym_weak_rev_dep x);
      if w =? 0 then mret val
      else dd ← expr_value (sym_direct_dep x);
           if dd =? 0 then mret val
           else sput (set_write_to_conf true) s;; mret (Z.max w val)
  end.

(** Reverse dependencies take precedence *)
Definition tri_apply_select (s : symid) (val : Z) : K Z :=
  let x := sym cfg s in
  rd ← expr_value (sym_rev_dep x);
  if rd =? 0 then mret val
  else dd ← expr_value (sym_direct_dep x);
       when (dd <? rd) (warn_select_unsatisfied_deps s);;
       sput (set_write_to_conf true) s;;
       mret (Z.max rd val).

(** m is promoted to y *)
Definition tri_promote (s : symid) (val : Z) : K Z :=
  if val =? 1 then
    t ← sym_type s;
    if type_eqb t BOOL then mret 2
    else w ← expr_value (sym_weak_rev_dep (sym cfg s)); mret (if w =? 2 then 2 else val)
  else mret val.

Definition tri_value_ (s : symid) (vis : Z) : K Z :=
  match sym_choice (sym cfg s) with
  | None =>
      v1 ← tri_user_or_default s vis;
      v2 ← tri_apply_select s v1;
      tri_promote s v2
  | Some c =>
      if vis =? 2 then
        sel ← ev_csel E c; mret (if bool_decide (sel = Some s) then 2 else 0)
      else
        u ← sget user_value s;
        mret (if negb (vis =? 0) && uval_truthy u then 1 else 0)
  end.

Definition tri_value (s : symid) : K Z :=
  c ← sget cached_tri_val s;
  match c with
  | Some v => mret v
  | None =>
      let t := sym_orig_type (sym cfg s) in
      if negb (is_bool_tristate t) then
        when (negb (type_eqb t UNKNOWN))
          (warn ("The " +:+ TYPE_TO_STR t +:+ " symbol " +:+ sym_name_and_loc cfg s
                 +:+ " is being evaluated in a logical context "
                 +:+ "somewhere. It will always evaluate to n."));;
        sput (set_cached_tri_val (Some 0)) s;; mret 0
      else
        vis ← ev_vis E s;
        sput (set_write_to_conf (negb (vis =? 0))) s;;
        v ← tri_value_ s vis;
        sput (set_cached_tri_val (Some v)) s;; mret v
  end.

(** [Symbol.str_value] *)
Definition num_or_zero (s : symid) (base : Z) : K Z :=
  v ← ev_str E s; mret (default 0 (py_int v base)).

Definition active_range (s : symid) (base : Z) : K (option (Z * Z)) :=
  first_someM (fun '(low_expr, high_expr, cond) =>
    c ← expr_value cond;
    if c =? 0 then mret None
    else low ← num_or_zero low_expr base;
         high ← num_or_zero high_expr base;
         mret (Some (low, high))) (sym_ranges (sym cfg s)).

Definition in_range (r : option (Z * Z)) (v : Z) : bool :=
  match r with Some (low, high) => (low <=? v) && (v <=? high) | None => true end.

(** The user value of an int or hex symbol, if it is used *)
Definition int_hex_user (s : symid) (vis base : Z) (range : option (Z * Z)) : K (option string) :=
  u ← sget user_value s;
  if negb (vis =? 0) && uval_truthy u then
    match u with
    | Some (UStr uv) =>
        match py_int uv base with
        | None => raise ValueError
        | Some n =>
            if in_range range n then mret (Some uv)
            else
              match range with
              | Some (low, high) =>
                  warn ("user value " +:+ num2str base n +:+ " on the "
                        +:+ TYPE_TO_STR (sym_orig_type (sym cfg s)) +:+ " symbol "
                        +:+ sym_name_and_loc cfg s
                        +:+ " ignored due to being outside the active range (["
                        +:+ num2str base low +:+ ", " +:+ num2str base high
                        +:+ "]) -- falling back on defaults");;
                  mret None
              | None => mret None
              end
        end
    | _ => raise TypeError
    end
  else mret None.

(** The value from the defaults, clamped to the active range *)
Definition int_hex_default (s : symid) (base : Z) (range : option (Z * Z)) : K string :=
  let x := sym cfg s in
  d ← first_someM (fun '(d, cond) =>
        c ← expr_value cond;
        if c =? 0 then mret None
        else sput (set_write_to_conf true) s;;
             v ← default_str_value d; mret (Some v)) (sym_defaults x);
  let val := default "" d in
  let val_num := default 0 (py_int val base) in
  match range with
  | None => mret val
  | Some (low, high) =>
      let clamp := if val_num <? low then Some low
                   else if high <? val_num then Some high else None in
      match clamp with
      | None => mret val
      | Some k =>
          when (bool_decide (is_Some d))
            (warn ("default value " +:+ py_str val_num +:+ " on " +:+ sym_name_and_loc cfg s
                   +:+ " clamped to " +:+ num2str base k
                   +:+ " due to being outside the active range ([" +:+ num2str base low
                   +:+ ", " +:+ num2str base high +:+ "])"));;
          mret (if type_eqb (sym_orig_type x) INT then py_str k else py_hex k)
      end
  end.

Definition int_hex_value (s : symid) (vis : Z) : K string :=
  let base := TYPE_TO_BASE (sym_orig_type (sym cfg s)) in
  range ← active_range s base;
  u ← int_hex_user s vis base range;
  match u with
  | Some v => mret v
  | None => int_hex_default s base range
  end.

Definition string_value (s : symid) (vis : Z) : K string :=
  u ← sget user_value s;
  match (if vis =? 0 then None else u) with
  | Some (UStr v) => mret v
  | Some (UTri _) => raise TypeError
  | None =>
      d ← first_someM (fun '(d, cond) =>
            c ← expr_value cond;
            if c =? 0 then mret None
            else v ← default_str_value d;
                 sput (set_write_to_conf true) s;; mret (Some v)) (sym_defaults (sym cfg s));
      mret (default "" d)
  end.

Definition is_auto (s : symid) : bool :=
  bool_decide (is_Some (sym_env_var (sym cfg s))) || bool_decide (c_defconfig_list cfg = Some (NSym s)).

Definition str_value (s : symid) : K string :=
  c ← sget cached_str_val s;
  match c with
  | Some v => mret v
  | None =>
      let t := sym_orig_type (sym cfg s) in
      if is_bool_tristate t then
        v ← ev_tri E s; r ← tri_to_str v;
        sput (set_cached_str_val (Some r)) s;; mret r
      else if type_eqb t UNKNOWN then
        sput (set_cached_str_val (Some (sym_name (sym cfg s)))) s;; mret (sym_name (sym cfg s))
      else
        vis ← ev_vis E s;
        sput (set_write_to_conf (negb (vis =? 0))) s;;
        v ← (if is_int_hex t then int_hex_value s vis else string_value s vis);
        when (is_auto s) (sput (set_write_to_conf false) s);;
        sput (set_cached_str_val (Some v)) s;; mret v
  end.

(** [Choice.str_value] *)
Definition ch_str_value (c : choiceid) : K string := v ← ev_ctri E c; tri_to_str v.

(** [Symbol._assignable], [Symbol.assignable] *)
Definition sym_assignable_ (s : symid) : K (list Z) :=
  let x := sym cfg s in
  if negb (is_bool_tristate (sym_orig_type x)) then mret []
  else
    vis ← ev_vis E s;
    if vis =? 0 then mret []
    else
      rd ← expr_value (sym_rev_dep x);
      let no_m := t ← sym_type s;
                  if type_eqb t BOOL then mret true
                  else w ← expr_value (sym_weak_rev_dep x); mret (w =? 2) in
      if vis =? 2 then
        match sym_choice x with
        | Some _ => mret [2]
        | None =>
            if rd =? 0 then b ← no_m; mret (if b : bool then [0; 2] else [0; 1; 2])
            else if rd =? 2 then mret [2]
            else b ← no_m; mret (if b : bool then [2] else [1; 2])
        end
      else if rd =? 0 then
        w ← expr_value (sym_weak_rev_dep x); mret (if negb (w =? 2) then [0; 1] else [0; 2])
      else if rd =? 2 then mret [2]
      else mret [1].

Definition sym_assignable (s : symid) : K (list Z) :=
  c ← sget cached_assignable s;
  match c with
  | Some l => mret l
  | None => l ← sym_assignable_ s; sput (set_cached_assignable (Some l)) s;; mret l
  end.

(** [Choice._assignable], [Choice.assignable] *)
Definition ch_assignable_ (c : choiceid) : K (list Z) :=
  let x := chc cfg c in
  vis ← ev_cvis E c;
  if vis =? 0 then mret []
  else if vis =? 2 then
    t ← ch_type c;
    mret (if ch_is_optional x
          then (if type_eqb t BOOL then [0; 2] else [0; 1; 2])
          else (if type_eqb t BOOL then [2] else [1; 2]))
  else mret (if ch_is_optional x then [0; 1] else [1]).

Definition ch_assignable (c : choiceid) : K (list Z) :=
  k ← cget ch_cached_assignable c;
  match k with
  | Some l => mret l
  | None => l ← ch_assignable_ c; cput (set_ch_cached_assignable (Some l)) c;; mret l
  end.

(** [Symbol._str_default]: the value from defaults, as if there were no user value *)
Definition str_default (s : symid) : K string :=
  let x := sym cfg s in
  if is_bool_tristate (sym_orig_type x) then
    match sym_choice x with
    | Some _ => tri_to_str 0
    | None =>
        r ← first_someM (fun '(d, cond) =>
              c ← expr_value cond;
              if c =? 0 then mret None
              else v ← expr_value d; mret (Some (Z.min v c))) (sym_defaults x);
        rd ← expr_value (sym_rev_dep x);
        w ← expr_value (sym_weak_rev_dep x);
        let val := Z.max (Z.max rd w) (default 0 r) in
        if val =? 1 then
          t ← sym_type s; tri_to_str (if type_eqb t BOOL then 2 else val)
        else tri_to_str val
    end
  else if type_eqb (sym_orig_type x) UNKNOWN then mret ""
  else
    r ← first_someM (fun '(d, cond) =>
          c ← expr_value cond;
          if c =? 0 then mret None
          else v ← default_str_value d; mret (Some v)) (sym_defaults x);
    mret (default "" r).

(** [Symbol.config_string]: the line a symbol gets in a [.config] file *)
Definition config_string (s : symid) : K string :=
  val ← ev_str E s;
  w ← sget write_to_conf s;
  let x := sym cfg s in
  let p := c_config_prefix cfg in
  mret (
    if negb w then ""
    else if is_bool_tristate (sym_orig_type x) then
      if negb (String.eqb val "n") then p +:+ sym_name x +:+ "=" +:+ val +:+ String NL ""
      else "# " +:+ p +:+ sym_name x +:+ " is not set" +:+ String NL ""
    else if is_int_hex (sym_orig_type x) then p +:+ sym_name x +:+ "=" +:+ val +:+ String NL ""
    else p +:+ sym_name x +:+ "=" +:+ String QUOTE (escape val +:+ String QUOTE (String NL ""))).
End Eval.

(** The recursion, to depth [n] *)
Fixpoint ev (cfg : Config) (n : nat) : evaluator :=
  match n with
  | O => ev_bottom
  | S n =>
      let E := ev cfg n in
      {| ev_tri := tri_value cfg E; ev_str := str_value cfg E; ev_vis := sym_visibility cfg E;
         ev_ctri := ch_tri_value cfg E; ev_cvis := ch_visibility cfg E; ev_csel := ch_selection cfg E |}
  end.
