(* ===== verification/EvalSpec.v ===== *)
(** * What the values mean: the equations a configuration must solve

    A [valuation] gives every symbol and choice its value.  The [d_...]
    functions say, without caches, exceptions or state, what each value is in
    terms of the values of the others and of the user values; a valuation that
    satisfies all of them is a [model].  This is the abstract specification
    that the cached evaluator of [Eval] is proved to implement. *)
From S2P Require Import Prelude PyStr Model Eval.

Record valuation := mkValuation {
  v_tri : symid -> Z;
  v_str : symid -> string;
  v_vis : symid -> Z;
  v_ctri : choiceid -> Z;
  v_cvis : choiceid -> Z;
  v_csel : choiceid -> option symid;
}.

(** What the user has set: symbol values, choice modes, choice selections *)
Record uvals := mkUvals {
  u_sym : symid -> option uval;
  u_mode : choiceid -> option Z;
  u_sel : choiceid -> option symid;
}.

Definition uvals_of (st : State) : uvals :=
  mkUvals (fun s => user_value (symst st s)) (fun c => ch_user_value (chst st c))
          (fun c => ch_user_selection (chst st c)).

Section Spec.
Context (cfg : Config) (U : uvals) (rho : valuation).

Definition d_item (i : item) : Z :=
  match i with ISym s => v_tri rho s | IChoice c => v_ctri rho c end.

Definition d_num (s : symid) : option Z :=
  let t := sym_orig_type (sym cfg s) in
  if is_bool_tristate t then Some (v_tri rho s) else py_int (v_str rho s) (TYPE_TO_BASE t).

Definition d_comp (s1 s2 : symid) : Z :=
  let by_str := strcmp (v_str rho s1) (v_str rho s2) in
  if type_eqb (sym_orig_type (sym cfg s1)) STRING && type_eqb (sym_orig_type (sym cfg s2)) STRING
  then by_str
  else match d_num s1, d_num s2 with Some n1, Some n2 => n1 - n2 | _, _ => by_str end.

Fixpoint d_expr (e : expr) : Z :=
  match e with
  | EItem i => d_item i
  | EAnd e1 e2 => Z.min (d_expr e1) (d_expr e2)
  | EOr e1 e2 => Z.max (d_expr e1) (d_expr e2)
  | ENot e1 => 2 - d_expr e1
  | ERel r s1 s2 => if rel_holds r (d_comp s1 s2) then 2 else 0
  end.

Definition modules_off : bool := v_tri rho (c_modules cfg) =? 0.

Definition d_type (s : symid) : stype :=
  let x := sym cfg s in
  if type_eqb (sym_orig_type x) TRISTATE
     && (match sym_choice x with Some c => v_ctri rho c =? 2 | None => false end || modules_off)
  then BOOL else sym_orig_type x.

Definition d_ctype (c : choiceid) : stype :=
  if type_eqb (ch_orig_type (chc cfg c)) TRISTATE && modules_off then BOOL
  else ch_orig_type (chc cfg c).

Definition d_prompts (ns : list nodeid) : Z :=
  foldl (fun vis n => match nd_prompt (node cfg n) with
                      | Some (_, cond) => Z.max vis (d_expr cond) | None => vis end) 0 ns.

(** Is a choice symbol hidden by the mode of its choice? *)
Definition d_hidden (s : symid) (vis : Z) : bool :=
  match sym_choice (sym cfg s) with
  | None => false
  | Some c =>
      let st := type_eqb (sym_orig_type (sym cfg s)) TRISTATE in
      (type_eqb (ch_orig_type (chc cfg c)) TRISTATE && negb st && negb (v_ctri rho c =? 2))
      || (st && (vis =? 1) && (v_ctri rho c =? 2))
  end.

Definition d_vis (s : symid) : Z :=
  let vis := d_prompts (sym_nodes (sym cfg s)) in
  if d_hidden s vis then 0
  else if (vis =? 1) && negb (type_eqb (d_type s) TRISTATE) then 2 else vis.

Definition d_cvis (c : choiceid) : Z :=
  let vis := d_prompts (ch_nodes (chc cfg c)) in
  if (vis =? 1) && negb (type_eqb (d_ctype c) TRISTATE) then 2 else vis.

Definition d_ctri (c : choiceid) : Z :=
  let val0 := if ch_is_optional (chc cfg c) then 0 else 1 in
  let val := Z.min (match u_mode U c with Some v => Z.max val0 v | None => val0 end) (v_cvis rho c) in
  if (val =? 1) && type_eqb (d_ctype c) BOOL then 2 else val.

Definition if_visible (s : symid) : option symid :=
  if v_vis rho s =? 0 then None else Some s.

Definition d_sel_pick (dc : expr * expr) : option symid :=
  if d_expr dc.2 =? 0 then None
  else match dc.1 with EItem (ISym s) => if_visible s | _ => None end.

Definition d_sel_default (c : choiceid) : option symid :=
  match first_some d_sel_pick (ch_defaults (chc cfg c)) with
  | Some s => Some s
  | None => first_some if_visible (ch_syms (chc cfg c))
  end.

Definition d_csel (c : choiceid) : option symid :=
  if negb (v_ctri rho c =? 2) then None
  else match match u_sel U c with Some s => if_visible s | None => None end with
       | Some s => Some s
       | None => d_sel_default c
       end.

(** The first default whose condition is not n, as value and condition *)
Definition d_tri_pick (dc : expr * expr) : option Z :=
  if d_expr dc.2 =? 0 then None else Some (Z.min (d_expr dc.1) (d_expr dc.2)).

Definition d_tri_default (s : symid) : option Z :=
  first_some d_tri_pick (sym_defaults (sym cfg s)).

(** Does the user value of a bool or tristate symbol decide? *)
Definition d_user (s : symid) : option Z :=
  match u_sym U s with
  | Some (UTri v) => if v_vis rho s =? 0 then None else Some v
  | _ => None
  end.

Definition d_implied (s : symid) : Z :=
  if d_expr (sym_direct_dep (sym cfg s)) =? 0 then 0 else d_expr (sym_weak_rev_dep (sym cfg s)).

(** A bool or tristate symbol outside choices, before selects *)
Definition d_unselected (s : symid) : Z :=
  match d_user s with
  | Some v => Z.min v (v_vis rho s)
  | None => let val := default 0 (d_tri_default s) in
            if d_implied s =? 0 then val else Z.max (d_implied s) val
  end.

Definition d_selected (s : symid) : Z :=
  let rd := d_expr (sym_rev_dep (sym cfg s)) in
  if rd =? 0 then d_unselected s else Z.max rd (d_unselected s).

Definition d_promoted (s : symid) : bool :=
  type_eqb (d_type s) BOOL || (d_expr (sym_weak_rev_dep (sym cfg s)) =? 2).

Definition d_tri_free (s : symid) : Z :=
  let val := d_selected s in if (val =? 1) && d_promoted s then 2 else val.

Definition d_tri (s : symid) : Z :=
  if bool_decide (s = c_n cfg) then 0
  else if bool_decide (s = c_m cfg) then 1
  else if bool_decide (s = c_y cfg) then 2
  else if negb (is_bool_tristate (sym_orig_type (sym cfg s))) then 0
  else match sym_choice (sym cfg s) with
       | None => d_tri_free s
       | Some c =>
           if v_vis rho s =? 2 then (if bool_decide (v_csel rho c = Some s) then 2 else 0)
           else if negb (v_vis rho s =? 0) && uval_truthy (u_sym U s) then 1 else 0
       end.

Definition d_default_str (e : expr) : string :=
  match e with
  | EItem (ISym s) => v_str rho s
  | EItem (IChoice c) => default "" (TRI_TO_STR (v_ctri rho c))
  | _ => ""
  end.

Definition d_str_pick (dc : expr * expr) : option string :=
  if d_expr dc.2 =? 0 then None else Some (d_default_str dc.1).

Definition d_str_default (s : symid) : option string :=
  first_some d_str_pick (sym_defaults (sym cfg s)).

Definition d_num_str (base : Z) (s : symid) : Z := default 0 (py_int (v_str rho s) base).

Definition d_range_pick (base : Z) (lhc : symid * symid * expr) : option (Z * Z) :=
  let '(low, high, cond) := lhc in
  if d_expr cond =? 0 then None else Some (d_num_str base low, d_num_str base high).

Definition d_range (s : symid) : option (Z * Z) :=
  first_some (d_range_pick (TYPE_TO_BASE (sym_orig_type (sym cfg s)))) (sym_ranges (sym cfg s)).

(** The user value of an int or hex symbol that is visible and in range *)
Definition d_num_user (s : symid) : option string :=
  if negb (v_vis rho s =? 0) && uval_truthy (u_sym U s) then
    match u_sym U s with
    | Some (UStr v) =>
        match py_int v (TYPE_TO_BASE (sym_orig_type (sym cfg s))) with
        | Some n => if in_range (d_range s) n then Some v else None
        | None => None
        end
    | _ => None
    end
  else None.

Definition d_clamp (t : stype) (range : option (Z * Z)) (val : string) : string :=
  match range with
  | None => val
  | Some (low, high) =>
      let n := default 0 (py_int val (TYPE_TO_BASE t)) in
      let show := if type_eqb t INT then py_str else py_hex in
      if n <? low then show low else if high <? n then show high else val
  end.

Definition d_int_hex (s : symid) : string :=
  match d_num_user s with
  | Some v => v
  | None => d_clamp (sym_orig_type (sym cfg s)) (d_range s) (default "" (d_str_default s))
  end.

Definition d_str_user (s : symid) : option string :=
  match u_sym U s with
  | Some (UStr v) => if v_vis rho s =? 0 then None else Some v
  | _ => None
  end.

Definition d_string (s : symid) : string :=
  match d_str_user s with Some v => v | None => default "" (d_str_default s) end.

Definition d_str (s : symid) : string :=
  let t := sym_orig_type (sym cfg s) in
  if is_bool_tristate t then default "" (TRI_TO_STR (v_tri rho s))
  else if type_eqb t UNKNOWN then sym_name (sym cfg s)
  else if is_int_hex t then d_int_hex s else d_string s.

(** Does the symbol get a [.config] entry ([_write_to_conf])? *)
Definition d_wtc_unselected (s : symid) : bool :=
  match d_user s with
  | Some _ => false
  | None => match d_tri_default s with Some v => negb (v =? 0) | None => false end
            || negb (d_implied s =? 0)
  end.

Definition d_wtc_tri (s : symid) : bool :=
  negb (v_vis rho s =? 0)
  || match sym_choice (sym cfg s) with
     | Some _ => false
     | None => d_wtc_unselected s || negb (d_expr (sym_rev_dep (sym cfg s)) =? 0)
     end.

Definition d_wtc_str (s : symid) : bool :=
  (negb (v_vis rho s =? 0)
   || match (if is_int_hex (sym_orig_type (sym cfg s)) then d_num_user s else d_str_user s) with
      | Some _ => false
      | None => bool_decide (is_Some (d_str_default s))
      end)
  && negb (is_auto cfg s).

Definition is_tri_const (s : symid) : bool :=
  bool_decide (s = c_n cfg) || bool_decide (s = c_m cfg) || bool_decide (s = c_y cfg).

Definition d_wtc (s : symid) : bool :=
  let t := sym_orig_type (sym cfg s) in
  if is_tri_const s || type_eqb t UNKNOWN then false
  else if is_bool_tristate t then d_wtc_tri s else d_wtc_str s.

(** The values the user can set *)
Definition d_assignable (s : symid) : list Z :=
  let x := sym cfg s in
  let rd := d_expr (sym_rev_dep x) in
  let w := d_expr (sym_weak_rev_dep x) in
  let vis := v_vis rho s in
  if negb (is_bool_tristate (sym_orig_type x)) then []
  else if vis =? 0 then []
  else if vis =? 2 then
    match sym_choice x with
    | Some _ => [2]
    | None => if rd =? 0 then (if d_promoted s then [0; 2] else [0; 1; 2])
              else if rd =? 2 then [2]
              else if d_promoted s then [2] else [1; 2]
    end
  else if rd =? 0 then (if negb (w =? 2) then [0; 1] else [0; 2])
  else if rd =? 2 then [2] else [1].

Definition d_cassignable (c : choiceid) : list Z :=
  let o := ch_is_optional (chc cfg c) in
  let vis := v_cvis rho c in
  if vis =? 0 then []
  else if vis =? 2 then
    (if o then (if type_eqb (d_ctype c) BOOL then [0; 2] else [0; 1; 2])
     else (if type_eqb (d_ctype c) BOOL then [2] else [1; 2]))
  else (if o then [0; 1] else [1]).

(** A valuation that solves all the equations *)
Record is_model : Prop := {
  model_tri : forall s, v_tri rho s = d_tri s;
  model_str : forall s, v_str rho s = d_str s;
  model_vis : forall s, v_vis rho s = d_vis s;
  model_ctri : forall c, v_ctri rho c = d_ctri c;
  model_cvis : forall c, v_cvis rho c = d_cvis c;
  model_csel : forall c, v_csel rho c = d_csel c;
}.
End Spec.

(** One simultaneous application of the equations; iterating it from any
    valuation solves them when the dependencies are acyclic *)
Definition d_step (cfg : Config) (U : uvals) (rho : valuation) : valuation :=
  mkValuation (d_tri cfg U rho) (d_str cfg U rho) (d_vis cfg rho)
              (d_ctri cfg U rho) (d_cvis cfg rho) (d_csel cfg U rho).

(** ** The static reads of each value, and rankings *)

Inductive query :=
| QTri (s : symid) | QStr (s : symid) | QVis (s : symid)
| QCTri (c : choiceid) | QCVis (c : choiceid) | QCSel (c : choiceid).

Definition item_query (i : item) : query :=
  match i with ISym s => QTri s | IChoice c => QCTri c end.

Fixpoint expr_reads (e : expr) : list query :=
  match e with
  | EItem i => [item_query i]
  | EAnd e1 e2 | EOr e1 e2 => expr_reads e1 ++ expr_reads e2
  | ENot e1 => expr_reads e1
  | ERel _ s1 s2 => [QTri s1; QTri s2; QStr s1; QStr s2]
  end.

Section Reads.
Context (cfg : Config).

Definition type_reads (s : symid) : list query :=
  if type_eqb (sym_orig_type (sym cfg s)) TRISTATE
  then match sym_choice (sym cfg s) with Some c => [QCTri c] | None => [] end
       ++ [QTri (c_modules cfg)]
  else [].

Definition ctype_reads (c : choiceid) : list query :=
  if type_eqb (ch_orig_type (chc cfg c)) TRISTATE then [QTri (c_modules cfg)] else [].

Definition prompt_reads (ns : list nodeid) : list query :=
  flat_map (fun n => match nd_prompt (node cfg n) with
                     | Some (_, cond) => expr_reads cond | None => [] end) ns.

(** What the warning about unsatisfied dependencies looks at *)
Definition warn_select_reads (s : symid) : list query :=
  flat_map (fun select => match first_and select with
                          | EItem (ISym t) => QStr t :: expr_reads (sym_direct_dep (sym cfg t))
                          | _ => [] end)
    (split_expr (sym_rev_dep (sym cfg s)) OR).

Definition default_str_reads (e : expr) : list query :=
  match e with EItem (ISym s) => [QStr s] | EItem (IChoice c) => [QCTri c] | _ => [] end.

Definition reads (q : query) : list query :=
  match q with
  | QVis s =>
      let x := sym cfg s in
      prompt_reads (sym_nodes x) ++ type_reads s
      ++ match sym_choice x with Some c => [QCTri c] | None => [] end
  | QCVis c => prompt_reads (ch_nodes (chc cfg c)) ++ ctype_reads c
  | QCTri c => QCVis c :: ctype_reads c
  | QCSel c =>
      let x := chc cfg c in
      QCTri c :: map QVis (ch_syms x)
      ++ flat_map (fun '(d, cond) => expr_reads cond
           ++ match d with EItem (ISym s) => [QVis s] | _ => [] end) (ch_defaults x)
  | QTri s =>
      let x := sym cfg s in
      if negb (is_bool_tristate (sym_orig_type x)) then []
      else QVis s :: match sym_choice x with
           | Some c => [QCSel c]
           | None => flat_map (fun '(d, cond) => expr_reads d ++ expr_reads cond) (sym_defaults x)
                     ++ expr_reads (sym_weak_rev_dep x) ++ expr_reads (sym_direct_dep x)
                     ++ expr_reads (sym_rev_dep x) ++ type_reads s ++ warn_select_reads s
           end
  | QStr s =>
      let x := sym cfg s in
      if is_bool_tristate (sym_orig_type x) then [QTri s]
      else if type_eqb (sym_orig_type x) UNKNOWN then []
      else QVis s
           :: flat_map (fun '(low, high, cond) => QStr low :: QStr high :: expr_reads cond) (sym_ranges x)
           ++ flat_map (fun '(d, cond) => default_str_reads d ++ expr_reads cond) (sym_defaults x)
  end.

(** [rk] ranks the values so that each depends on lower-ranked ones only: the
    configuration has no dependency loop.  The three constants n, m and y have
    fixed values, read nothing and need no rank. *)
Definition fixed (q : query) : bool :=
  match q with QTri s => is_tri_const cfg s | _ => false end.

Definition ranked (rk : query -> nat) : Prop :=
  forall q, fixed q = false -> Forall (fun q' => (rk q' < rk q)%nat) (reads q).
End Reads.

(** What parsing and [_check_sym_sanity]/[_check_choice_sanity] establish, as
    far as evaluation relies on it *)
Record well_formed (cfg : Config) : Prop := {
  wf_tri_const : forall s, is_tri_const cfg s = true ->
    sym_orig_type (sym cfg s) = TRISTATE;
  wf_consts : c_n cfg <> c_m cfg /\ c_n cfg <> c_y cfg /\ c_m cfg <> c_y cfg;
  wf_defaults : forall s d cond, In (d, cond) (sym_defaults (sym cfg s)) ->
    is_bool_tristate (sym_orig_type (sym cfg s)) = false -> sym_orig_type (sym cfg s) <> UNKNOWN -> exists i, d = EItem i;
  wf_ch_defaults : forall c d cond, In (d, cond) (ch_defaults (chc cfg c)) -> exists s, d = ESym s;
  wf_selects : forall s select, In select (split_expr (sym_rev_dep (sym cfg s)) OR) ->
    exists t, first_and select = ESym t;
}.

(** User values have the type of their symbol; the user selection of a choice is one of its symbols *)
Record well_typed (cfg : Config) (U : uvals) : Prop := {
  wt_sym : forall s v, u_sym U s = Some v ->
    match sym_orig_type (sym cfg s), v with
    | (BOOL | TRISTATE), UTri z => 0 <= z <= 2
    | STRING, UStr _ => True
    | (INT | HEX), UStr x => is_base_n x (TYPE_TO_BASE (sym_orig_type (sym cfg s))) = true
    | UNKNOWN, _ => True
    | _, _ => False
    end;
  wt_mode : forall c v, u_mode U c = Some v -> 0 <= v <= 2;
  wt_sel : forall c s, u_sel U c = Some s -> In s (ch_syms (chc cfg c));
}.
