(* ===== verification/EvalRefine.v ===== *)
(** * The cached evaluator implements the equations

    For a configuration without dependency loops, every property access of
    [Eval], run to sufficient depth from a state whose caches agree with the
    model, returns the model's value, leaves every cache in agreement with it
    and sets [_write_to_conf] as the equations say. *)
From S2P Require Import Prelude PyStr Model Eval EvalSpec.

(** ** Reading back what was written *)

Lemma symst_alter f s st s' :
  symst (alter_sym f s st) s' = if decide (s = s') then f (symst st s) else symst st s'.
Proof.
  unfold symst, alter_sym. simpl. rewrite lookup_total_insert. by case_decide; subst.
Qed.

Lemma chst_alter f c st c' :
  chst (alter_choice f c st) c' = if decide (c = c') then f (chst st c) else chst st c'.
Proof.
  unfold chst, alter_choice. simpl. rewrite lookup_total_insert. by case_decide; subst.
Qed.

Lemma chst_alter_sym f s st c : chst (alter_sym f s st) c = chst st c.
Proof. done. Qed.
Lemma symst_alter_choice f c st s : symst (alter_choice f c st) s = symst st s.
Proof. done. Qed.

#[export] Hint Rewrite symst_alter chst_alter chst_alter_sym symst_alter_choice : kst.

Lemma type_eqb_refl t : type_eqb t t = true.
Proof. by apply bool_decide_eq_true. Qed.
Lemma type_eqb_eq t1 t2 : type_eqb t1 t2 = true <-> t1 = t2.
Proof. apply bool_decide_eq_true. Qed.

Section Refine.
Context (cfg : Config) (U : uvals) (rho : valuation) (rk : query -> nat).
Context (HM : is_model cfg U rho) (HR : ranked cfg rk)
        (WF : well_formed cfg) (WT : well_typed cfg U).

Definition tri_ok (v : Z) : Prop := 0 <= v <= 2.

Definition bounded (q : query) : Prop :=
  match q with
  | QTri s => tri_ok (v_tri rho s)
  | QVis s => tri_ok (v_vis rho s)
  | QCTri c => tri_ok (v_ctri rho c)
  | QCVis c => tri_ok (v_cvis rho c)
  | _ => True
  end.

Lemma expr_bounded e : Forall bounded (expr_reads e) -> tri_ok (d_expr cfg rho e).
Proof.
  induction e as [[s|c]|e1 IH1 e2 IH2|e1 IH1 e2 IH2|e1 IH1|r s1 s2]; simpl;
    rewrite ?Forall_app; intros H.
  1,2: by inversion H.
  1,2: destruct H as [H1 H2]; specialize (IH1 H1); specialize (IH2 H2); unfold tri_ok in *; lia.
  - specialize (IH1 H). unfold tri_ok in *. lia.
  - unfold tri_ok. destruct (rel_holds _ _); lia.
Qed.

Lemma prompts_bounded ns : Forall bounded (prompt_reads cfg ns) -> tri_ok (d_prompts cfg rho ns).
Proof.
  unfold d_prompts. assert (H0 : tri_ok 0) by (unfold tri_ok; lia). revert H0.
  generalize 0. induction ns as [|n ns IH]; intros v Hv; simpl; [done|].
  rewrite Forall_app. intros [Hn Hns]. apply IH; [|done].
  destruct (nd_prompt (node cfg n)) as [[p cond]|]; [|done].
  apply expr_bounded in Hn. unfold tri_ok in *. lia.
Qed.

Lemma first_default_bounded (l : list (expr * expr)) v :
  Forall bounded (flat_map (fun '(d, cond) => expr_reads d ++ expr_reads cond) l) ->
  first_some (d_tri_pick cfg rho) l = Some v -> tri_ok v.
Proof.
  rewrite Forall_flat_map. intros Hb ([d cond] & Hin & Hv)%first_some_in.
  specialize (Hb _ Hin). simpl in Hb. apply Forall_app in Hb as [H1 H2].
  apply expr_bounded in H1, H2. unfold d_tri_pick in Hv. simpl in Hv.
  destruct (_ =? 0); [done|]. injection Hv as <-.
  unfold tri_ok in *. lia.
Qed.

Lemma tri_free_bounded s :
  sym_choice (sym cfg s) = None -> is_bool_tristate (sym_orig_type (sym cfg s)) = true ->
  Forall bounded (reads cfg (QTri s)) -> tri_ok (d_tri_free cfg U rho s).
Proof.
  intros Hc Ht. cbn [reads]. rewrite Ht, Hc. simpl.
  rewrite Forall_cons, !Forall_app. intros (Hvis & Hdef & Hweak & Hdir & Hrev & _).
  apply expr_bounded in Hweak, Hdir, Hrev. simpl in Hvis.
  assert (Hu : tri_ok (d_unselected cfg U rho s)).
  { unfold d_unselected. destruct (d_user U rho s) as [v|] eqn:Hv.
    - unfold d_user in Hv. destruct (u_sym U s) as [[z|]|] eqn:Hz; [|done..].
      apply WT in Hz. destruct (v_vis rho s =? 0); [done|]. injection Hv as ->.
      destruct (sym_orig_type (sym cfg s)); simpl in *; try done; unfold tri_ok in *; lia.
    - clear Hv; assert (Hd : tri_ok (default 0 (d_tri_default cfg rho s))).
      { destruct (d_tri_default cfg rho s) as [v|] eqn:Hv; [|unfold tri_ok; simpl; lia].
        eapply first_default_bounded; [exact Hdef|exact Hv]. }
      unfold d_implied, tri_ok in *. repeat case_match; simpl in *; lia. }
  unfold d_tri_free, d_selected, tri_ok in *. repeat case_match; lia.
Qed.

Lemma all_bounded q : bounded q.
Proof.
  remember (rk q) as n eqn:Hn. revert q Hn. induction (lt_wf n) as [n _ IH]; intros q ->.
  destruct (fixed cfg q) eqn:Hfix.
  { destruct q as [s| | | | |]; try done. simpl in *. rewrite (model_tri _ _ _ HM). unfold d_tri, tri_ok.
    unfold is_tri_const in Hfix. repeat case_bool_decide; simpl in *; try lia. }
  assert (Hr : Forall bounded (reads cfg q)).
  { eapply Forall_impl; [exact (HR q Hfix)|]. intros q' Hq'. by apply (IH (rk q')). }
  destruct q as [s|s|s|c|c|c]; try done; simpl.
  - rewrite (model_tri _ _ _ HM). unfold d_tri. simpl in Hfix. unfold is_tri_const in Hfix.
    repeat case_bool_decide; try done.
    destruct (is_bool_tristate _) eqn:Ht; simpl; [|unfold tri_ok; lia].
    destruct (sym_choice (sym cfg s)) eqn:Hc; [|by apply tri_free_bounded].
    unfold tri_ok. repeat case_match; lia.
  - rewrite (model_vis _ _ _ HM). cbn [reads] in Hr. rewrite !Forall_app in Hr.
    destruct Hr as [Hp _]. apply prompts_bounded in Hp.
    unfold d_vis, tri_ok in *. repeat case_match; lia.
  - rewrite (model_ctri _ _ _ HM). cbn [reads] in Hr. apply Forall_cons in Hr as [Hv _]. simpl in Hv.
    pose proof (wt_mode _ _ WT c) as Hm. unfold d_ctri, tri_ok in *.
    destruct (u_mode U c) as [m|]; [specialize (Hm m eq_refl)|]; repeat case_match; lia.
  - rewrite (model_cvis _ _ _ HM). cbn [reads] in Hr. rewrite !Forall_app in Hr.
    destruct Hr as [Hp _]. apply prompts_bounded in Hp.
    unfold d_cvis, tri_ok in *. repeat case_match; lia.
Qed.

Lemma d_expr_bounded e : tri_ok (d_expr cfg rho e).
Proof. apply expr_bounded, Forall_forall. intros q _. apply all_bounded. Qed.

Lemma tri_to_str_ok v : tri_ok v -> exists t, TRI_TO_STR v = Some t.
Proof.
  unfold tri_ok, TRI_TO_STR. intros Hv.
  destruct (Z.eqb_spec v 0); [eauto|]. destruct (Z.eqb_spec v 1); [eauto|].
  destruct (Z.eqb_spec v 2); [eauto|lia].
Qed.

(** *** Coherent states *)

(** The evaluation that writes [_write_to_conf] of [s] *)
Definition writer (s : symid) : query :=
  if is_bool_tristate (sym_orig_type (sym cfg s)) then QTri s else QStr s.

(** Has the value that determines [_write_to_conf] been calculated? *)
Definition value_known (st : State) (s : symid) : Prop :=
  match sym_orig_type (sym cfg s) with
  | UNKNOWN => True
  | BOOL | TRISTATE => is_Some (cached_tri_val (symst st s))
  | _ => is_Some (cached_str_val (symst st s))
  end.

(** The state agrees with the model; [w] holds the current [_write_to_conf]
    of the symbols whose value is just being calculated *)
Record Coh (w : gmap symid bool) (st : State) : Prop := {
  coh_user : forall s, user_value (symst st s) = u_sym U s;
  coh_mode : forall c, ch_user_value (chst st c) = u_mode U c;
  coh_sel : forall c, ch_user_selection (chst st c) = u_sel U c;
  coh_tri : forall s v, cached_tri_val (symst st s) = Some v -> v = v_tri rho s;
  coh_str : forall s v, cached_str_val (symst st s) = Some v -> v = v_str rho s;
  coh_vis : forall s v, cached_vis (symst st s) = Some v -> v = v_vis rho s;
  coh_assignable : forall s l, cached_assignable (symst st s) = Some l -> l = d_assignable cfg rho s;
  coh_cvis : forall c v, ch_cached_vis (chst st c) = Some v -> v = v_cvis rho c;
  coh_csel : forall c v, ch_cached_selection (chst st c) = Some v -> v = v_csel rho c;
  coh_cassignable : forall c l, ch_cached_assignable (chst st c) = Some l -> l = d_cassignable cfg rho c;
  coh_const : forall s, is_tri_const cfg s = true -> is_Some (cached_tri_val (symst st s));
  coh_both : forall s, is_bool_tristate (sym_orig_type (sym cfg s)) = true ->
    is_Some (cached_str_val (symst st s)) -> is_Some (cached_tri_val (symst st s));
  coh_prog : forall s b, w !! s = Some b -> write_to_conf (symst st s) = b;
  coh_wtc : forall s, w !! s = None -> value_known st s -> write_to_conf (symst st s) = d_wtc cfg U rho s;
}.

(** [m], run from a state coherent up to [w], has the outcome [r] and leaves
    a state coherent up to [w'] *)
Definition outcome {A} (w : gmap symid bool) (m : K A) (r : res A) (w' : gmap symid bool) : Prop :=
  forall st, Coh w st -> exists st', m st = (r, st') /\ Coh w' st'.

Abbreviation runs w m a w' := (outcome w m (Ok a) w').

Lemma runs_ret {A} w (a b : A) : a = b -> runs w (mret a) b w.
Proof. intros <- st H. by exists st. Qed.

Lemma outcome_raise {A} w e : outcome w (raise e : K A) (Err e) w.
Proof. intros st H. by exists st. Qed.

Lemma outcome_bind {A B} w w1 w2 (m : K A) (k : A -> K B) a r :
  runs w m a w1 -> outcome w1 (k a) r w2 -> outcome w (m ≫= k) r w2.
Proof.
  intros Hm Hk st Hst. destruct (Hm st Hst) as (st1 & E1 & H1).
  destruct (Hk st1 H1) as (st2 & E2 & H2). exists st2. split; [|done].
  cbv [mbind K_bind M_bind]. by rewrite E1.
Qed.

Lemma outcome_bind_err {A B} w w1 (m : K A) (k : A -> K B) e :
  outcome w m (Err e) w1 -> outcome w (m ≫= k) (Err e) w1.
Proof.
  intros Hm st Hst. destruct (Hm st Hst) as (st1 & E1 & H1). exists st1.
  cbv [mbind K_bind M_bind]. by rewrite E1.
Qed.

Lemma outcome_eq {A} w (m : K A) r r' w1 w2 :
  outcome w m r w1 -> r = r' -> w1 = w2 -> outcome w m r' w2.
Proof. by intros ? <- <-. Qed.

Lemma runs_uget w s : runs w (sget user_value s) (u_sym U s) w.
Proof. intros st H. exists st. split; [|done]. cbv [sget gets]. by rewrite (coh_user _ _ H). Qed.

Lemma runs_mget w c : runs w (cget ch_user_value c) (u_mode U c) w.
Proof. intros st H. exists st. split; [|done]. cbv [cget gets]. by rewrite (coh_mode _ _ H). Qed.

Lemma runs_selget w c : runs w (cget ch_user_selection c) (u_sel U c) w.
Proof. intros st H. exists st. split; [|done]. cbv [cget gets]. by rewrite (coh_sel _ _ H). Qed.

Lemma runs_warn w msg : runs w (warn msg) tt w.
Proof.
  intros st H. eexists. split; [reflexivity|].
  destruct (st_warn st); [|done]. by destruct H; constructor.
Qed.

Lemma runs_when w b m : (b = true -> runs w m tt w) -> runs w (when b m) tt w.
Proof. destruct b; [auto|]. intros _. by apply runs_ret. Qed.

(** A value found in its cache is the model's; otherwise it is calculated *)
Lemma runs_cached {A B} w (get : K (option A)) (m : K B) (k : A -> K B) (b : B) :
  (forall st, Coh w st -> exists o, get st = (Ok o, st)
     /\ forall v, o = Some v -> runs w (k v) b w) ->
  runs w m b w ->
  runs w (get ≫= fun o => match o with Some v => k v | None => m end) b w.
Proof.
  intros Hget Hm st Hst. destruct (Hget st Hst) as (o & Eo & Ho).
  cbv [mbind K_bind M_bind]. rewrite Eo. destruct o as [v|]; [|by apply Hm].
  by apply (Ho v eq_refl).
Qed.

(** **** Writes *)

Ltac coh_write :=
  intros st H; eexists; split; [reflexivity|]; destruct H; constructor;
  unfold value_known in *; intros; autorewrite with kst in *;
  repeat case_decide; subst; simpl in *; eauto; try congruence.

Lemma runs_put_vis w s : runs w (sput (set_cached_vis (Some (v_vis rho s))) s) tt w.
Proof. coh_write. Qed.

Lemma runs_put_assignable w s :
  runs w (sput (set_cached_assignable (Some (d_assignable cfg rho s))) s) tt w.
Proof. coh_write. Qed.

Lemma runs_put_cvis w c : runs w (cput (set_ch_cached_vis (Some (v_cvis rho c))) c) tt w.
Proof. coh_write. Qed.

Lemma runs_put_csel w c : runs w (cput (set_ch_cached_selection (Some (v_csel rho c))) c) tt w.
Proof. coh_write. Qed.

Lemma runs_put_cassignable w c :
  runs w (cput (set_ch_cached_assignable (Some (d_cassignable cfg rho c))) c) tt w.
Proof. coh_write. Qed.

Lemma runs_put_wtc w s b : runs w (sput (set_write_to_conf b) s) tt (<[s := b]> w).
Proof.
  coh_write.
  - rewrite lookup_insert_eq in *. congruence.
  - rewrite lookup_insert_ne in * by done. eauto.
  - rewrite lookup_insert_eq in *. congruence.
  - rewrite lookup_insert_ne in * by done. eauto.
Qed.

(** A value that does not decide [_write_to_conf] *)
Lemma runs_put_tri_other w s :
  is_bool_tristate (sym_orig_type (sym cfg s)) = false ->
  runs w (sput (set_cached_tri_val (Some (v_tri rho s))) s) tt w.
Proof.
  intros Ht. coh_write.
  match goal with H : _ !! _ = None |- _ => eapply coh_wtc0 in H; [exact H|] end.
  destruct (sym_orig_type _); done.
Qed.

Lemma runs_put_str_unknown w s :
  type_eqb (sym_orig_type (sym cfg s)) UNKNOWN = true ->
  runs w (sput (set_cached_str_val (Some (v_str rho s))) s) tt w.
Proof.
  intros Ht%type_eqb_eq. coh_write.
  - by rewrite Ht in *.
  - match goal with H : _ !! _ = None |- _ => eapply coh_wtc0 in H; [exact H|] end. by rewrite Ht.
Qed.

Lemma coh_put_str_tri w st s :
  is_bool_tristate (sym_orig_type (sym cfg s)) = true -> is_Some (cached_tri_val (symst st s)) ->
  Coh w st -> Coh w (alter_sym (set_cached_str_val (Some (v_str rho s))) s st).
Proof.
  intros Ht Hk H. destruct H; constructor; unfold value_known in *; intros;
    autorewrite with kst in *; repeat case_decide; subst; simpl in *; eauto; try congruence.
  match goal with H : _ !! _ = None |- _ => eapply coh_wtc0 in H; [exact H|] end.
  by destruct (sym_orig_type _).
Qed.

(** Storing the value that does ends the calculation *)
Lemma runs_put_tri w s :
  w !! s = Some (d_wtc cfg U rho s) ->
  runs w (sput (set_cached_tri_val (Some (v_tri rho s))) s) tt (delete s w).
Proof.
  intros Hw. coh_write; rewrite ?lookup_delete_eq, ?lookup_delete_ne in * by done; eauto; done.
Qed.

Lemma runs_put_str w s :
  is_bool_tristate (sym_orig_type (sym cfg s)) = false -> w !! s = Some (d_wtc cfg U rho s) ->
  runs w (sput (set_cached_str_val (Some (v_str rho s))) s) tt (delete s w).
Proof.
  intros Ht Hw. coh_write; rewrite ?lookup_delete_eq, ?lookup_delete_ne in * by done; eauto; done.
Qed.

(** **** Loops *)

Lemma runs_first_some_write {A B} w (w' : B -> gmap symid bool) (f : A -> K (option B)) g l :
  (forall x, In x l -> runs w (f x) (g x) (match g x with None => w | Some b => w' b end)) ->
  runs w (first_someM f l) (first_some g l)
         (match first_some g l with None => w | Some b => w' b end).
Proof.
  induction l as [|x l IH]; simpl; intros H; [by apply runs_ret|].
  eapply outcome_bind; [by apply H; left|].
  destruct (g x); [by apply runs_ret|]. apply IH. auto.
Qed.

Lemma runs_first_some {A B} w (f : A -> K (option B)) g l :
  (forall x, In x l -> runs w (f x) (g x) w) -> runs w (first_someM f l) (first_some g l) w.
Proof.
  intros H. eapply outcome_eq; [apply (runs_first_some_write w (fun _ => w) f g)| |].
  - intros x Hx. eapply outcome_eq; [by apply H|done|]. by destruct (g x).
  - done.
  - by destruct (first_some g l).
Qed.

Lemma runs_foldM {A B} w (f : B -> A -> K B) g l b :
  (forall x b, In x l -> runs w (f b x) (g b x) w) -> runs w (foldM f b l) (foldl g b l) w.
Proof.
  revert b. induction l as [|x l IH]; simpl; intros b H; [by apply runs_ret|].
  eapply outcome_bind; [by apply H; left|]. apply IH. auto.
Qed.

(** *** The bodies, given the property accesses of lower rank *)

Section Body.
Context (E : evaluator) (r : nat).

Definition low (q : query) : Prop := (rk q < r)%nat.
Definition wok (w : gmap symid bool) : Prop :=
  forall s b, w !! s = Some b -> (r <= rk (writer s))%nat.

Record accesses_ok : Prop := {
  acc_tri : forall w s, wok w -> low (QTri s) -> runs w (ev_tri E s) (v_tri rho s) w;
  acc_str : forall w s, wok w -> low (QStr s) -> runs w (ev_str E s) (v_str rho s) w;
  acc_vis : forall w s, wok w -> low (QVis s) -> runs w (ev_vis E s) (v_vis rho s) w;
  acc_ctri : forall w c, wok w -> low (QCTri c) -> runs w (ev_ctri E c) (v_ctri rho c) w;
  acc_cvis : forall w c, wok w -> low (QCVis c) -> runs w (ev_cvis E c) (v_cvis rho c) w;
  acc_csel : forall w c, wok w -> low (QCSel c) -> runs w (ev_csel E c) (v_csel rho c) w;
  acc_known : forall s st v st', ev_tri E s st = (Ok v, st') -> is_Some (cached_tri_val (symst st' s));
}.
Context (HE : accesses_ok).

Lemma runs_tri_to_str w v : tri_ok v -> runs w (tri_to_str v) (default "" (TRI_TO_STR v)) w.
Proof. intros [t Ht]%tri_to_str_ok. unfold tri_to_str. rewrite Ht. by apply runs_ret. Qed.

Lemma runs_sym_to_num w s :
  wok w -> low (QTri s) -> low (QStr s) ->
  outcome w (sym_to_num cfg E s)
    (match d_num cfg rho s with Some z => Ok z | None => Err ValueError end) w.
Proof.
  intros Hw Ht Hs. unfold sym_to_num, d_num. destruct (is_bool_tristate _).
  - by apply (acc_tri HE).
  - eapply outcome_bind; [by apply (acc_str HE)|].
    destruct (py_int _ _); [by apply runs_ret|apply outcome_raise].
Qed.

Lemma runs_try {A} w (m : K A) (o : option A) w' :
  outcome w m (match o with Some a => Ok a | None => Err ValueError end) w' ->
  runs w (try_value_error m) o w'.
Proof.
  intros H st Hst. destruct (H st Hst) as (st' & E' & H'). exists st'.
  unfold try_value_error. rewrite E'. by destruct o.
Qed.

Lemma runs_rel_comp w s1 s2 :
  wok w -> Forall low [QTri s1; QTri s2; QStr s1; QStr s2] ->
  runs w (rel_comp cfg E s1 s2) (d_comp cfg rho s1 s2) w.
Proof.
  intros Hw Hl.
  rewrite !Forall_cons in Hl. destruct Hl as (Ht1 & Ht2 & Hs1 & Hs2 & _).
  assert (Hstr : runs w (v1 ← ev_str E s1; v2 ← ev_str E s2; mret (strcmp v1 v2))
                   (strcmp (v_str rho s1) (v_str rho s2)) w).
  { eapply outcome_bind; [by apply (acc_str HE)|].
    eapply outcome_bind; [by apply (acc_str HE)|]. by apply runs_ret. }
  unfold rel_comp, d_comp. destruct (_ && _); [done|].
  eapply outcome_bind.
  - apply (runs_try _ _ (match d_num cfg rho s1, d_num cfg rho s2 with
                         | Some n1, Some n2 => Some (n1 - n2) | _, _ => None end)).
    pose proof (runs_sym_to_num w s1 Hw Ht1 Hs1) as H1.
    pose proof (runs_sym_to_num w s2 Hw Ht2 Hs2) as H2.
    destruct (d_num cfg rho s1); [|by eapply outcome_bind_err].
    eapply outcome_bind; [done|].
    destruct (d_num cfg rho s2); [|by eapply outcome_bind_err].
    eapply outcome_bind; [done|]. by apply runs_ret.
  - destruct (d_num cfg rho s1), (d_num cfg rho s2); try done. by apply runs_ret.
Qed.

Lemma runs_expr w e :
  wok w -> Forall low (expr_reads e) -> runs w (expr_value cfg E e) (d_expr cfg rho e) w.
Proof.
  intros Hw. induction e as [[s|c]|e1 IH1 e2 IH2|e1 IH1 e2 IH2|e1 IH1|rel s1 s2];
    cbn [expr_reads expr_value d_expr d_item]; rewrite ?Forall_app; intros Hl.
  - apply (acc_tri HE); [done|]. by inversion Hl.
  - apply (acc_ctri HE); [done|]. by inversion Hl.
  - destruct Hl as [H1 H2]. pose proof (d_expr_bounded e2).
    eapply outcome_bind; [by apply IH1|]. destruct (Z.eqb_spec (d_expr cfg rho e1) 0).
    + apply runs_ret. unfold tri_ok in *. lia.
    + eapply outcome_bind; [by apply IH2|]. by apply runs_ret.
  - destruct Hl as [H1 H2]. pose proof (d_expr_bounded e2).
    eapply outcome_bind; [by apply IH1|]. destruct (Z.eqb_spec (d_expr cfg rho e1) 2).
    + apply runs_ret. unfold tri_ok in *. lia.
    + eapply outcome_bind; [by apply IH2|]. by apply runs_ret.
  - eapply outcome_bind; [by apply IH1|]. by apply runs_ret.
  - eapply outcome_bind; [by apply runs_rel_comp|]. by apply runs_ret.
Qed.

Lemma runs_type w s :
  wok w -> Forall low (type_reads cfg s) -> runs w (sym_type cfg E s) (d_type cfg rho s) w.
Proof.
  intros Hw. unfold sym_type, d_type, type_reads. destruct (type_eqb _ TRISTATE) eqn:Ht;
    [|intros; by apply runs_ret]. apply type_eqb_eq in Ht. rewrite Ht, Forall_app. intros [Hc Hm].
  apply Forall_cons in Hm as [Hm _]. simpl.
  eapply (outcome_bind _ w _ _ _
            (match sym_choice (sym cfg s) with Some c => v_ctri rho c =? 2 | None => false end)).
  { destruct (sym_choice (sym cfg s)) as [c|]; [|by apply runs_ret].
    eapply outcome_bind; [apply (acc_ctri HE); [done|by inversion Hc]|]. by apply runs_ret. }
  destruct (match sym_choice (sym cfg s) with Some c => v_ctri rho c =? 2 | None => false end);
    [by apply runs_ret|].
  eapply outcome_bind; [by apply (acc_tri HE)|]. by apply runs_ret.
Qed.

Lemma runs_ctype w c :
  wok w -> Forall low (ctype_reads cfg c) -> runs w (ch_type cfg E c) (d_ctype cfg rho c) w.
Proof.
  intros Hw. unfold ch_type, d_ctype, ctype_reads. destruct (type_eqb _ TRISTATE) eqn:Ht;
    [|intros; by apply runs_ret]. apply type_eqb_eq in Ht. rewrite Ht.
  intros [Hm _]%Forall_cons. eapply outcome_bind; [by apply (acc_tri HE)|]. by apply runs_ret.
Qed.

Lemma runs_prompts w ns :
  wok w -> Forall low (prompt_reads cfg ns) ->
  runs w (prompts_value cfg E ns) (d_prompts cfg rho ns) w.
Proof.
  intros Hw Hl. unfold prompt_reads in Hl. rewrite Forall_flat_map in Hl.
  apply runs_foldM. intros n vis Hn. specialize (Hl n Hn).
  destruct (nd_prompt (node cfg n)) as [[p cond]|]; [|by apply runs_ret].
  eapply outcome_bind; [by apply runs_expr|]. by apply runs_ret.
Qed.

Lemma runs_vis_ w s :
  wok w -> Forall low (reads cfg (QVis s)) -> runs w (sym_visibility_ cfg E s) (v_vis rho s) w.
Proof.
  intros Hw. cbn [reads]. rewrite !Forall_app. intros (Hp & Ht & Hc).
  rewrite (model_vis _ _ _ HM). unfold sym_visibility_, d_vis.
  eapply outcome_bind; [by apply runs_prompts|]. set (vis := d_prompts cfg rho _).
  eapply (outcome_bind _ w _ _ _ (d_hidden cfg rho s vis)).
  { unfold d_hidden. destruct (sym_choice (sym cfg s)) as [c|]; [|by apply runs_ret].
    apply Forall_cons in Hc as [Hc _].
    destruct (type_eqb (ch_orig_type _) TRISTATE); destruct (type_eqb (sym_orig_type _) TRISTATE); simpl.
    - eapply outcome_bind; [by apply runs_ret|]. destruct (vis =? 1); [|by apply runs_ret].
      eapply outcome_bind; [by apply (acc_ctri HE)|]. by apply runs_ret.
    - eapply outcome_bind; [eapply outcome_bind; [by apply (acc_ctri HE)|by apply runs_ret]|].
      destruct (v_ctri rho c =? 2); by apply runs_ret.
    - eapply outcome_bind; [by apply runs_ret|]. destruct (vis =? 1); [|by apply runs_ret].
      eapply outcome_bind; [by apply (acc_ctri HE)|]. by apply runs_ret.
    - eapply outcome_bind; [by apply runs_ret|]. by apply runs_ret. }
  destruct (d_hidden cfg rho s vis); [by apply runs_ret|].
  destruct (Z.eqb_spec vis 1); simpl; [|by apply runs_ret].
  eapply outcome_bind; [by apply runs_type|]. apply runs_ret. by destruct (type_eqb _ _).
Qed.

Lemma runs_cvis_ w c :
  wok w -> Forall low (reads cfg (QCVis c)) -> runs w (ch_visibility_ cfg E c) (v_cvis rho c) w.
Proof.
  intros Hw. cbn [reads]. rewrite !Forall_app. intros (Hp & Ht).
  rewrite (model_cvis _ _ _ HM). unfold ch_visibility_, d_cvis.
  eapply outcome_bind; [by apply runs_prompts|]. set (vis := d_prompts cfg rho _).
  destruct (Z.eqb_spec vis 1); simpl; [|by apply runs_ret].
  eapply outcome_bind; [by apply runs_ctype|]. apply runs_ret. by destruct (type_eqb _ _).
Qed.

Lemma runs_ctri_value w c :
  wok w -> Forall low (reads cfg (QCTri c)) -> runs w (ch_tri_value cfg E c) (v_ctri rho c) w.
Proof.
  intros Hw. cbn [reads]. rewrite Forall_cons. intros (Hv & Ht).
  rewrite (model_ctri _ _ _ HM). unfold ch_tri_value, d_ctri.
  eapply outcome_bind; [apply runs_mget|]. eapply outcome_bind; [by apply (acc_cvis HE)|].
  set (val := Z.min _ _). destruct (Z.eqb_spec val 1); simpl; [|by apply runs_ret].
  eapply outcome_bind; [by apply runs_ctype|]. by apply runs_ret.
Qed.

Lemma runs_if_visible w s :
  wok w -> low (QVis s) ->
  runs w (vis ← ev_vis E s; mret (if vis =? 0 then None else Some s)) (if_visible rho s) w.
Proof. intros. eapply outcome_bind; [by apply (acc_vis HE)|]. by apply runs_ret. Qed.

Lemma runs_selection_from_defaults w c :
  wok w -> Forall low (reads cfg (QCSel c)) ->
  runs w (selection_from_defaults cfg E c) (d_sel_default cfg rho c) w.
Proof.
  intros Hw. cbn [reads]. rewrite Forall_cons, !Forall_app, Forall_flat_map, Forall_map.
  intros (_ & Hs & Hd). unfold selection_from_defaults, d_sel_default.
  eapply (outcome_bind _ w).
  { apply (runs_first_some _ _ (d_sel_pick cfg rho)). intros [d cond] Hin. specialize (Hd _ Hin).
    simpl in Hd. apply Forall_app in Hd as [Hc Hd]. unfold d_sel_pick. simpl.
    eapply outcome_bind; [by apply runs_expr|]. destruct (_ =? 0); [by apply runs_ret|].
    destruct (wf_ch_defaults _ WF _ _ _ Hin) as [x ->]. apply Forall_cons in Hd as [Hd _].
    by apply runs_if_visible. }
  destruct (first_some _ _); [by apply runs_ret|].
  apply runs_first_some. intros x Hx. apply runs_if_visible; [done|].
  rewrite Forall_forall in Hs. apply Hs. by apply list_elem_of_In.
Qed.

Lemma runs_csel_ w c :
  wok w -> Forall low (reads cfg (QCSel c)) -> runs w (ch_selection_ cfg E c) (v_csel rho c) w.
Proof.
  intros Hw Hl. pose proof Hl as Hl'. cbn [reads] in Hl'.
  rewrite Forall_cons, !Forall_app, Forall_map in Hl'. destruct Hl' as (Hc & Hs & _).
  rewrite (model_csel _ _ _ HM). unfold ch_selection_, d_csel.
  eapply outcome_bind; [by apply (acc_ctri HE)|]. destruct (negb _); [by apply runs_ret|].
  eapply outcome_bind; [apply runs_selget|].
  eapply (outcome_bind _ w _ _ _ (match u_sel U c with Some s => if_visible rho s | None => None end)).
  { destruct (u_sel U c) as [x|] eqn:Hx; [|by apply runs_ret]. apply runs_if_visible; [done|].
    rewrite Forall_forall in Hs. apply Hs, list_elem_of_In. by apply (wt_sel _ _ WT). }
  destruct (match u_sel U c with Some s => if_visible rho s | None => None end); [by apply runs_ret|].
  by apply runs_selection_from_defaults.
Qed.

(** **** The warning about unsatisfied dependencies: only that it returns matters *)

Definition returns {A} (w : gmap symid bool) (m : K A) : Prop :=
  forall st, Coh w st -> exists a st', m st = (Ok a, st') /\ Coh w st'.

Lemma returns_runs {A} w (m : K A) a : runs w m a w -> returns w m.
Proof. intros H st Hst. destruct (H st Hst) as (st' & ? & ?). eauto. Qed.

Lemma returns_bind {A B} w (m : K A) (k : A -> K B) :
  returns w m -> (forall a, returns w (k a)) -> returns w (m ≫= k).
Proof.
  intros Hm Hk st Hst. destruct (Hm st Hst) as (a & st1 & E1 & H1).
  destruct (Hk a st1 H1) as (b & st2 & E2 & H2). exists b, st2. split; [|done].
  cbv [mbind K_bind M_bind]. by rewrite E1.
Qed.

Lemma returns_unit w (m : K unit) : returns w m -> runs w m tt w.
Proof. intros H st Hst. destruct (H st Hst) as ([] & st' & ? & ?). eauto. Qed.

Lemma returns_foldM {A B} w (f : B -> A -> K B) l b :
  (forall x b, In x l -> returns w (f b x)) -> returns w (foldM f b l).
Proof.
  revert b. induction l as [|x l IH]; simpl; intros b H; [by apply (returns_runs _ _ b), runs_ret|].
  apply returns_bind; [by apply H; left|]. intros b'. apply IH. auto.
Qed.

Lemma returns_expr_str {A} w e (k : Z -> string -> K A) :
  wok w -> Forall low (expr_reads e) -> (forall v t, returns w (k v t)) ->
  returns w (v ← expr_value cfg E e; t ← tri_to_str v; k v t).
Proof.
  intros Hw He Hk st Hst.
  destruct (runs_expr w e Hw He st Hst) as (st1 & E1 & H1).
  destruct (runs_tri_to_str w _ (d_expr_bounded e) st1 H1) as (st2 & E2 & H2).
  cbv [mbind K_bind M_bind]. rewrite E1, E2. by apply Hk.
Qed.

Lemma split_or_reads e x : In x (split_expr e OR) -> incl (expr_reads x) (expr_reads e).
Proof.
  induction e; simpl; intros Hx; try (destruct Hx as [<-|[]]; apply incl_refl).
  apply in_app_or in Hx as [Hx|Hx]; [apply incl_appl|apply incl_appr]; auto.
Qed.

Lemma incl_low l1 l2 : incl l1 l2 -> Forall low l2 -> Forall low l1.
Proof.
  rewrite !Forall_forall. intros Hi Hl q Hq. apply Hl.
  rewrite list_elem_of_In in *. auto.
Qed.

Lemma runs_warn_select w s :
  wok w -> Forall low (expr_reads (sym_rev_dep (sym cfg s))) ->
  Forall low (expr_reads (sym_direct_dep (sym cfg s))) -> Forall low (warn_select_reads cfg s) ->
  runs w (warn_select_unsatisfied_deps cfg E s) tt w.
Proof.
  intros Hw Hr Hd Hs. apply returns_unit. unfold warn_select_unsatisfied_deps.
  apply returns_expr_str; [done..|]. intros dd dds.
  apply returns_expr_str; [done..|]. intros rd rds.
  apply returns_bind; [|intros msg; by eapply returns_runs, runs_warn].
  unfold warn_select_reads in Hs. rewrite Forall_flat_map in Hs.
  apply returns_foldM. intros sel msg Hin. specialize (Hs sel Hin).
  pose proof (incl_low _ _ (split_or_reads _ _ Hin) Hr) as Hsel.
  apply returns_bind; [by eapply returns_runs, runs_expr|]. intros sv.
  apply returns_bind; [by eapply returns_runs, runs_expr|]. intros dv.
  destruct (_ <=? _); [by eapply returns_runs, runs_ret|].
  destruct (wf_selects _ WF _ _ Hin) as [t Ht]. rewrite Ht in *.
  apply Forall_cons in Hs as [Hst Hdt].
  apply returns_bind; [by eapply returns_runs, (acc_str HE)|]. intros tv.
  apply returns_expr_str; [done..|]. intros td tds. cbv zeta.
  destruct sel; try (by eapply returns_runs, runs_ret); cbn [expr_reads] in Hsel;
    apply Forall_app in Hsel as [_ Hsel]; apply returns_expr_str; try done;
    intros; by eapply returns_runs, runs_ret.
Qed.

(** **** [Symbol.tri_value] *)

Lemma runs_put_again w s b b' :
  runs (<[s := b]> w) (sput (set_write_to_conf b') s) tt (<[s := b']> w).
Proof. eapply outcome_eq; [apply runs_put_wtc|done|apply insert_insert_eq]. Qed.

Lemma wok_insert w s b : wok w -> r = rk (writer s) -> wok (<[s := b]> w).
Proof.
  intros Hw Hr s' b'. destruct (decide (s = s')) as [<-|Hs].
  - rewrite lookup_insert_eq. lia.
  - rewrite lookup_insert_ne by done. apply Hw.
Qed.

Lemma runs_tri_default w s b :
  wok (<[s := b]> w) ->
  Forall low (flat_map (fun '(d, cond) => expr_reads d ++ expr_reads cond) (sym_defaults (sym cfg s))) ->
  runs (<[s := b]> w)
    (first_someM (fun '(d, cond) =>
          c ← expr_value cfg E cond;
          if c =? 0 then mret None
          else dv ← expr_value cfg E d;
               let val := Z.min dv c in
               when (negb (val =? 0)) (sput (set_write_to_conf true) s);;
               mret (Some val)) (sym_defaults (sym cfg s)))
    (d_tri_default cfg rho s)
    (<[s := b || match d_tri_default cfg rho s with Some v => negb (v =? 0) | None => false end]> w).
Proof.
  intros Hw Hl. rewrite Forall_flat_map in Hl.
  eapply outcome_eq;
    [apply (runs_first_some_write _ (fun v => <[s := b || negb (v =? 0)]> w) _ (d_tri_pick cfg rho))|done|].
  - intros [d cond] Hin. specialize (Hl _ Hin). simpl in Hl. apply Forall_app in Hl as [Hd Hc].
    unfold d_tri_pick. simpl. eapply outcome_bind; [by apply runs_expr|].
    destruct (d_expr cfg rho cond =? 0); [by apply runs_ret|].
    eapply outcome_bind; [by apply runs_expr|]. set (v := Z.min _ _).
    destruct (v =? 0); simpl; rewrite ?orb_false_r, ?orb_true_r.
    + eapply outcome_bind; [by apply runs_ret|]. by apply runs_ret.
    + eapply outcome_bind; [apply runs_put_again|]. by apply runs_ret.
  - unfold d_tri_default. destruct (first_some _ _); by rewrite ?orb_false_r.
Qed.

Lemma runs_unselected w s b :
  wok (<[s := b]> w) -> is_bool_tristate (sym_orig_type (sym cfg s)) = true ->
  sym_choice (sym cfg s) = None -> Forall low (reads cfg (QTri s)) ->
  runs (<[s := b]> w) (tri_user_or_default cfg E s (v_vis rho s)) (d_unselected cfg U rho s)
       (<[s := b || d_wtc_unselected cfg U rho s]> w).
Proof.
  intros Hw Ht Hc. cbn [reads]. rewrite Ht, Hc. simpl. rewrite Forall_cons, !Forall_app.
  intros (_ & Hdef & Hweak & Hdir & _).
  unfold tri_user_or_default, d_unselected, d_wtc_unselected.
  eapply outcome_bind; [apply runs_uget|].
  assert (Hu : (if v_vis rho s =? 0 then None else u_sym U s) = UTri <$> d_user U rho s).
  { unfold d_user. destruct (u_sym U s) as [[z|x]|] eqn:Hz; [by destruct (_ =? 0)| |by destruct (_ =? 0)].
    apply WT in Hz. by destruct (sym_orig_type (sym cfg s)). }
  rewrite Hu. destruct (d_user U rho s) as [uv|]; simpl.
  { rewrite orb_false_r. by apply runs_ret. }
  eapply outcome_bind; [by apply runs_tri_default|].
  set (b1 := match d_tri_default cfg rho s with Some v => negb (v =? 0) | None => false end).
  assert (Hw1 : wok (<[s := b || b1]> w)).
  { intros s' b'. destruct (decide (s = s')) as [<-|Hs].
    - specialize (Hw s b). rewrite lookup_insert_eq in *. auto.
    - specialize (Hw s' b'). rewrite lookup_insert_ne in * by done. auto. }
  unfold d_implied.
  eapply outcome_bind; [by apply runs_expr|].
  destruct (Z.eqb_spec (d_expr cfg rho (sym_weak_rev_dep (sym cfg s))) 0) as [->|Hwk].
  { destruct (d_expr cfg rho (sym_direct_dep (sym cfg s)) =? 0); simpl; rewrite orb_false_r; by apply runs_ret. }
  eapply outcome_bind; [by apply runs_expr|].
  destruct (d_expr cfg rho (sym_direct_dep (sym cfg s)) =? 0).
  { simpl. rewrite orb_false_r. by apply runs_ret. }
  rewrite (proj2 (Z.eqb_neq _ 0) Hwk). simpl. rewrite !orb_true_r.
  eapply outcome_bind; [apply runs_put_again|]. by apply runs_ret.
Qed.

Lemma runs_selected w s b :
  wok (<[s := b]> w) -> is_bool_tristate (sym_orig_type (sym cfg s)) = true ->
  sym_choice (sym cfg s) = None -> Forall low (reads cfg (QTri s)) ->
  runs (<[s := b]> w) (tri_apply_select cfg E s (d_unselected cfg U rho s)) (d_selected cfg U rho s)
       (<[s := b || negb (d_expr cfg rho (sym_rev_dep (sym cfg s)) =? 0)]> w).
Proof.
  intros Hw Ht Hc. cbn [reads]. rewrite Ht, Hc. simpl. rewrite Forall_cons, !Forall_app.
  intros (_ & _ & _ & Hdir & Hrev & _ & Hwarn).
  unfold tri_apply_select, d_selected.
  eapply outcome_bind; [by apply runs_expr|].
  destruct (d_expr cfg rho (sym_rev_dep (sym cfg s)) =? 0); simpl.
  { rewrite orb_false_r. by apply runs_ret. }
  eapply outcome_bind; [by apply runs_expr|].
  eapply outcome_bind; [apply runs_when; intros _; by apply runs_warn_select|].
  rewrite orb_true_r. eapply outcome_bind; [apply runs_put_again|]. by apply runs_ret.
Qed.

Lemma runs_promote w s :
  wok w -> Forall low (expr_reads (sym_weak_rev_dep (sym cfg s))) -> Forall low (type_reads cfg s) ->
  runs w (tri_promote cfg E s (d_selected cfg U rho s)) (d_tri_free cfg U rho s) w.
Proof.
  intros Hw Hweak Hty. unfold tri_promote, d_tri_free, d_promoted.
  destruct (_ =? 1); simpl; [|by apply runs_ret].
  eapply outcome_bind; [by apply runs_type|]. destruct (type_eqb _ BOOL); [by apply runs_ret|].
  eapply outcome_bind; [by apply runs_expr|]. by apply runs_ret.
Qed.

Lemma runs_tri_value_ w s :
  wok w -> r = rk (writer s) -> fixed cfg (QTri s) = false ->
  is_bool_tristate (sym_orig_type (sym cfg s)) = true -> Forall low (reads cfg (QTri s)) ->
  runs (<[s := negb (v_vis rho s =? 0)]> w) (tri_value_ cfg E s (v_vis rho s)) (v_tri rho s)
       (<[s := d_wtc cfg U rho s]> w).
Proof.
  intros Hw Hr Hfix Ht Hl. pose proof Hl as Hl'. cbn [reads] in Hl'. rewrite Ht in Hl'. simpl in Hl'.
  assert (Hwi : forall b, wok (<[s := b]> w)) by (intros; by apply wok_insert).
  rewrite (model_tri _ _ _ HM). unfold tri_value_, d_tri, d_wtc, d_wtc_tri.
  simpl in Hfix. rewrite Hfix, Ht. unfold is_tri_const in Hfix.
  repeat case_bool_decide; try done. simpl.
  assert (Hu : type_eqb (sym_orig_type (sym cfg s)) UNKNOWN = false)
    by (by destruct (sym_orig_type (sym cfg s))).
  rewrite Hu.
  destruct (sym_choice (sym cfg s)) as [c|] eqn:Hc; simpl.
  - rewrite orb_false_r. rewrite !Forall_cons in Hl'. destruct Hl' as (_ & Hsel & _).
    destruct (Z.eqb_spec (v_vis rho s) 2) as [->|]; simpl.
    + eapply outcome_bind; [by apply (acc_csel HE)|]. by apply runs_ret.
    + eapply outcome_bind; [apply runs_uget|]. by apply runs_ret.
  - rewrite Forall_cons, !Forall_app in Hl'. destruct Hl' as (_ & _ & Hweak & _ & _ & Hty & _).
    rewrite orb_assoc.
    eapply outcome_bind; [by apply runs_unselected|].
    eapply outcome_bind; [by apply runs_selected|]. by apply runs_promote.
Qed.

(** **** [Symbol.str_value] *)

Lemma runs_num_or_zero w s base :
  wok w -> low (QStr s) -> runs w (num_or_zero E s base) (d_num_str rho base s) w.
Proof. intros. eapply outcome_bind; [by apply (acc_str HE)|]. by apply runs_ret. Qed.

Lemma runs_active_range w s :
  wok w ->
  Forall low (flat_map (fun '(l, h, cond) => QStr l :: QStr h :: expr_reads cond) (sym_ranges (sym cfg s))) ->
  runs w (active_range cfg E s (TYPE_TO_BASE (sym_orig_type (sym cfg s)))) (d_range cfg rho s) w.
Proof.
  intros Hw Hl. rewrite Forall_flat_map in Hl. apply runs_first_some.
  intros [[lo hi] cond] Hin. specialize (Hl _ Hin). simpl in Hl.
  rewrite !Forall_cons in Hl. destruct Hl as (Hlo & Hhi & Hc). unfold d_range_pick.
  eapply outcome_bind; [by apply runs_expr|]. destruct (_ =? 0); [by apply runs_ret|].
  eapply outcome_bind; [by apply runs_num_or_zero|].
  eapply outcome_bind; [by apply runs_num_or_zero|]. by apply runs_ret.
Qed.

Lemma runs_default_str w d :
  wok w -> (exists i, d = EItem i) -> Forall low (default_str_reads d) ->
  runs w (default_str_value E d) (d_default_str rho d) w.
Proof.
  intros Hw [[s|c] ->] [Hl _]%Forall_cons; simpl; [by apply (acc_str HE)|].
  eapply outcome_bind; [by apply (acc_ctri HE)|].
  apply runs_tri_to_str. apply (all_bounded (QCTri c)).
Qed.

Lemma str_defaults_low s d cond :
  Forall low (flat_map (fun '(d, cond) => default_str_reads d ++ expr_reads cond) (sym_defaults (sym cfg s))) ->
  In (d, cond) (sym_defaults (sym cfg s)) ->
  Forall low (default_str_reads d) /\ Forall low (expr_reads cond).
Proof. rewrite Forall_flat_map. intros Hl Hin. specialize (Hl _ Hin). by apply Forall_app. Qed.

Lemma runs_int_hex_user w s range :
  is_int_hex (sym_orig_type (sym cfg s)) = true -> range = d_range cfg rho s ->
  runs w (int_hex_user cfg s (v_vis rho s) (TYPE_TO_BASE (sym_orig_type (sym cfg s))) range)
       (d_num_user cfg U rho s) w.
Proof.
  intros Ht ->. unfold int_hex_user, d_num_user. eapply outcome_bind; [apply runs_uget|].
  destruct (negb _ && uval_truthy _) eqn:Hu; [|by apply runs_ret].
  destruct (u_sym U s) as [[z|x]|] eqn:Hx; [| |by rewrite andb_false_r in Hu].
  { apply WT in Hx. by destruct (sym_orig_type (sym cfg s)). }
  apply WT in Hx. assert (Hn : is_Some (py_int x (TYPE_TO_BASE (sym_orig_type (sym cfg s))))).
  { apply is_base_n_py_int. by destruct (sym_orig_type (sym cfg s)). }
  destruct Hn as [n ->]. destruct (in_range _ n) eqn:Hr; [by apply runs_ret|].
  destruct (d_range cfg rho s) as [[lo hi]|]; [|by apply runs_ret].
  eapply outcome_bind; [apply runs_warn|]. by apply runs_ret.
Qed.

Lemma runs_int_hex_default w s b range :
  wok (<[s := b]> w) -> is_int_hex (sym_orig_type (sym cfg s)) = true ->
  Forall low (flat_map (fun '(d, cond) => default_str_reads d ++ expr_reads cond) (sym_defaults (sym cfg s))) ->
  runs (<[s := b]> w)
    (int_hex_default cfg E s (TYPE_TO_BASE (sym_orig_type (sym cfg s))) range)
    (d_clamp (sym_orig_type (sym cfg s)) range (default "" (d_str_default cfg rho s)))
    (<[s := b || bool_decide (is_Some (d_str_default cfg rho s))]> w).
Proof.
  intros Hw Ht Hl. unfold int_hex_default, d_clamp.
  eapply (outcome_bind _ (<[s := b || bool_decide (is_Some (d_str_default cfg rho s))]> w)).
  { eapply outcome_eq;
      [apply (runs_first_some_write _ (fun _ => <[s := true]> w) _ (d_str_pick cfg rho))|done|].
    - intros [d cond] Hin. destruct (str_defaults_low s d cond Hl Hin) as [Hd Hc].
      unfold d_str_pick. simpl. eapply outcome_bind; [by apply runs_expr|].
      destruct (_ =? 0); [by apply runs_ret|].
      eapply outcome_bind; [apply runs_put_again|].
      eapply outcome_bind; [apply runs_default_str|]; [| |done|by apply runs_ret].
      + intros s' b' Hs'. destruct (decide (s = s')) as [<-|Hne].
        * apply (Hw s b). by rewrite lookup_insert_eq.
        * rewrite lookup_insert_ne in Hs' by done. apply (Hw s' b'). by rewrite lookup_insert_ne.
      + eapply (wf_defaults _ WF); [done|..]; by destruct (sym_orig_type (sym cfg s)).
    - unfold d_str_default. destruct (first_some _ _); simpl.
      + by rewrite orb_true_r.
      + by rewrite orb_false_r. }
  destruct range as [[lo hi]|]; [|by apply runs_ret].
  assert (Hmk : forall k, runs (<[s := b || bool_decide (is_Some (d_str_default cfg rho s))]> w)
    (when (bool_decide (is_Some (d_str_default cfg rho s))) (warn k)) tt
    (<[s := b || bool_decide (is_Some (d_str_default cfg rho s))]> w)).
  { intros k. apply runs_when. intros _. apply runs_warn. }
  destruct (_ <? lo); [|destruct (hi <? _); [|by apply runs_ret]];
    (eapply outcome_bind; [apply Hmk|]; apply runs_ret; by destruct (type_eqb _ INT)).
Qed.

Lemma runs_string_value w s b :
  wok (<[s := b]> w) -> sym_orig_type (sym cfg s) = STRING ->
  Forall low (flat_map (fun '(d, cond) => default_str_reads d ++ expr_reads cond) (sym_defaults (sym cfg s))) ->
  runs (<[s := b]> w) (string_value cfg E s (v_vis rho s)) (d_string cfg U rho s)
    (<[s := b || match d_str_user U rho s with Some _ => false
                 | None => bool_decide (is_Some (d_str_default cfg rho s)) end]> w).
Proof.
  intros Hw Ht Hl. unfold string_value, d_string.
  eapply outcome_bind; [apply runs_uget|].
  assert (Hu : (if v_vis rho s =? 0 then None else u_sym U s) = UStr <$> d_str_user U rho s).
  { unfold d_str_user. destruct (u_sym U s) as [[z|x]|] eqn:Hz; [|by destruct (_ =? 0)..].
    apply WT in Hz. by rewrite Ht in Hz. }
  rewrite Hu. destruct (d_str_user U rho s); simpl; [rewrite orb_false_r; by apply runs_ret|].
  eapply outcome_bind; [|by apply runs_ret].
  eapply outcome_eq;
    [apply (runs_first_some_write _ (fun _ => <[s := true]> w) _ (d_str_pick cfg rho))|done|].
  - intros [d cond] Hin. destruct (str_defaults_low s d cond Hl Hin) as [Hd Hc].
    unfold d_str_pick. simpl. eapply outcome_bind; [by apply runs_expr|].
    destruct (d_expr cfg rho cond =? 0); [by apply runs_ret|].
    eapply outcome_bind; [apply runs_default_str; [done| |done]|].
    { eapply (wf_defaults _ WF); [done|..]; by rewrite Ht. }
    eapply outcome_bind; [apply runs_put_again|]. by apply runs_ret.
  - unfold d_str_default. destruct (first_some _ _); simpl.
    + by rewrite orb_true_r.
    + by rewrite orb_false_r.
Qed.

(** **** The cached properties *)

Lemma runs_sym_visibility w s :
  wok w -> Forall low (reads cfg (QVis s)) -> runs w (sym_visibility cfg E s) (v_vis rho s) w.
Proof.
  intros Hw Hl. apply runs_cached.
  - intros st H. eexists. split; [reflexivity|]. intros v Hv. apply runs_ret, (coh_vis _ _ H s v Hv).
  - eapply outcome_bind; [by apply runs_vis_|].
    eapply outcome_bind; [apply runs_put_vis|]. by apply runs_ret.
Qed.

Lemma runs_ch_visibility w c :
  wok w -> Forall low (reads cfg (QCVis c)) -> runs w (ch_visibility cfg E c) (v_cvis rho c) w.
Proof.
  intros Hw Hl. apply runs_cached.
  - intros st H. eexists. split; [reflexivity|]. intros v Hv. apply runs_ret, (coh_cvis _ _ H c v Hv).
  - eapply outcome_bind; [by apply runs_cvis_|].
    eapply outcome_bind; [apply runs_put_cvis|]. by apply runs_ret.
Qed.

Lemma runs_ch_selection w c :
  wok w -> Forall low (reads cfg (QCSel c)) -> runs w (ch_selection cfg E c) (v_csel rho c) w.
Proof.
  intros Hw Hl. apply runs_cached.
  - intros st H. eexists. split; [reflexivity|]. intros v Hv. apply runs_ret, (coh_csel _ _ H c v Hv).
  - eapply outcome_bind; [by apply runs_csel_|].
    eapply outcome_bind; [apply runs_put_csel|]. by apply runs_ret.
Qed.

Lemma runs_tri_value w s :
  wok w -> (is_bool_tristate (sym_orig_type (sym cfg s)) = true -> w !! s = None) ->
  (fixed cfg (QTri s) = false -> r = rk (QTri s) /\ Forall low (reads cfg (QTri s))) ->
  runs w (tri_value cfg E s) (v_tri rho s) w.
Proof.
  intros Hw Hs Hq. destruct (fixed cfg (QTri s)) eqn:Hfix.
  { intros st Hst. exists st. split; [|done]. unfold tri_value, sget, gets. cbv [mbind K_bind M_bind].
    destruct (coh_const _ _ Hst s Hfix) as [v Hv]. rewrite Hv. by rewrite (coh_tri _ _ Hst s v Hv). }
  destruct (Hq eq_refl) as [Hr Hl]. apply runs_cached.
  - intros st H. eexists. split; [reflexivity|]. intros v Hv. apply runs_ret, (coh_tri _ _ H s v Hv).
  - cbv zeta. destruct (is_bool_tristate (sym_orig_type (sym cfg s))) eqn:Ht; cbn [negb].
    + specialize (Hs eq_refl). assert (Hr' : r = rk (writer s)) by (unfold writer; by rewrite Ht).
      eapply outcome_bind.
      { apply (acc_vis HE); [done|]. cbn [reads] in Hl. rewrite Ht in Hl. by apply Forall_cons in Hl as [? _]. }
      eapply outcome_bind; [apply runs_put_wtc|].
      eapply outcome_bind; [by apply runs_tri_value_|].
      eapply outcome_bind; [apply runs_put_tri; by rewrite lookup_insert_eq|].
      rewrite delete_insert_id by done. by apply runs_ret.
    + assert (Hv : v_tri rho s = 0).
      { rewrite (model_tri _ _ _ HM). unfold d_tri. simpl in Hfix. unfold is_tri_const in Hfix.
        repeat case_bool_decide; try done. by rewrite Ht. }
      rewrite <- Hv.
      eapply outcome_bind; [apply runs_when; intros _; apply runs_warn|].
      eapply outcome_bind; [by apply runs_put_tri_other|]. by apply runs_ret.
Qed.

Lemma runs_str_value w s :
  wok w -> w !! s = None -> r = rk (QStr s) -> Forall low (reads cfg (QStr s)) ->
  runs w (str_value cfg E s) (v_str rho s) w.
Proof.
  intros Hw Hs Hr Hl. apply runs_cached.
  { intros st H. eexists. split; [reflexivity|]. intros v Hv. apply runs_ret, (coh_str _ _ H s v Hv). }
  cbv zeta. cbn [reads] in Hl. pose proof (model_str _ _ _ HM s) as Hm. unfold d_str in Hm.
  destruct (is_bool_tristate (sym_orig_type (sym cfg s))) eqn:Ht.
  { apply Forall_cons in Hl as [Hl _]. intros st Hst.
    destruct (acc_tri HE w s Hw Hl st Hst) as (st1 & E1 & H1).
    destruct (tri_to_str_ok _ (all_bounded (QTri s))) as [t Et]. rewrite Et in Hm. simpl in Hm.
    eexists. split; [cbv [mbind K_bind M_bind]; rewrite E1; unfold tri_to_str; rewrite Et; subst t; reflexivity|].
    apply coh_put_str_tri; [done|by eapply (acc_known HE)|done]. }
  destruct (type_eqb (sym_orig_type (sym cfg s)) UNKNOWN) eqn:Hu.
  { rewrite <- Hm. eapply outcome_bind; [by apply runs_put_str_unknown|].
    by apply runs_ret. }
  rewrite Forall_cons, !Forall_app in Hl. destruct Hl as (Hvis & Hrange & Hdef).
  assert (Hr' : r = rk (writer s)) by (unfold writer; by rewrite Ht).
  assert (Hwi : forall b, wok (<[s := b]> w)) by (intros; by apply wok_insert).
  eapply outcome_bind; [by apply (acc_vis HE)|]. eapply outcome_bind; [apply runs_put_wtc|].
  set (b := negb (v_vis rho s =? 0)).
  set (b1 := match (if is_int_hex (sym_orig_type (sym cfg s)) then d_num_user cfg U rho s else d_str_user U rho s) with
             | Some _ => false | None => bool_decide (is_Some (d_str_default cfg rho s)) end).
  eapply (outcome_bind _ (<[s := b || b1]> w) _ _ _ (v_str rho s)).
  { rewrite Hm. unfold b1. destruct (is_int_hex (sym_orig_type (sym cfg s))) eqn:Hi.
    - unfold int_hex_value, d_int_hex. eapply outcome_bind; [by apply runs_active_range|].
      eapply outcome_bind; [by apply runs_int_hex_user|].
      destruct (d_num_user cfg U rho s); [rewrite orb_false_r; by apply runs_ret|].
      by apply runs_int_hex_default.
    - apply runs_string_value; [done| |done]. by destruct (sym_orig_type (sym cfg s)). }
  eapply (outcome_bind _ (<[s := (b || b1) && negb (is_auto cfg s)]> w) _ _ _ tt).
  { destruct (is_auto cfg s); simpl.
    - rewrite andb_false_r. apply runs_put_again.
    - rewrite andb_true_r. by apply runs_ret. }
  eapply outcome_bind.
  { apply runs_put_str; [done|]. rewrite lookup_insert_eq. f_equal. unfold d_wtc, d_wtc_str.
    rewrite Ht, Hu, orb_false_r. destruct (is_tri_const cfg s) eqn:Hc; [|done].
    apply (wf_tri_const _ WF) in Hc. by rewrite Hc in Ht. }
  rewrite delete_insert_id by done. by apply runs_ret.
Qed.

Lemma runs_no_m w s :
  wok w -> Forall low (expr_reads (sym_weak_rev_dep (sym cfg s))) -> Forall low (type_reads cfg s) ->
  runs w (t ← sym_type cfg E s;
          if type_eqb t BOOL then mret true
          else v ← expr_value cfg E (sym_weak_rev_dep (sym cfg s)); mret (v =? 2))
    (d_promoted cfg rho s) w.
Proof.
  intros Hw Hweak Hty. unfold d_promoted. eapply outcome_bind; [by apply runs_type|].
  destruct (type_eqb _ BOOL); [by apply runs_ret|].
  eapply outcome_bind; [by apply runs_expr|]. by apply runs_ret.
Qed.
(** [assignable] of symbols and choices *)

Lemma runs_sym_assignable w s :
  wok w -> low (QVis s) -> Forall low (expr_reads (sym_rev_dep (sym cfg s))) ->
  Forall low (expr_reads (sym_weak_rev_dep (sym cfg s))) -> Forall low (type_reads cfg s) ->
  runs w (sym_assignable cfg E s) (d_assignable cfg rho s) w.
Proof.
  intros Hw Hv Hr Hwk Ht. apply runs_cached.
  { intros st H. eexists. split; [reflexivity|]. intros l Hl. apply runs_ret, (coh_assignable _ _ H s l Hl). }
  eapply (outcome_bind _ w _ _ _ (d_assignable cfg rho s));
    [|eapply outcome_bind; [apply runs_put_assignable|]; by apply runs_ret].
  unfold sym_assignable_, d_assignable. cbv zeta.
  destruct (is_bool_tristate _); simpl; [|by apply runs_ret].
  eapply outcome_bind; [by apply (acc_vis HE)|]. destruct (v_vis rho s =? 0); [by apply runs_ret|].
  eapply outcome_bind; [by apply runs_expr|]. set (rd := d_expr cfg rho (sym_rev_dep (sym cfg s))).
  destruct (v_vis rho s =? 2).
  - destruct (sym_choice _); [by apply runs_ret|].
    destruct (rd =? 0); [|destruct (rd =? 2); [by apply runs_ret|]];
      (eapply outcome_bind; [by apply runs_no_m|]; by apply runs_ret).
  - destruct (rd =? 0); [eapply outcome_bind; [by apply runs_expr|]; by apply runs_ret|].
    destruct (rd =? 2); by apply runs_ret.
Qed.

Lemma runs_ch_assignable w c :
  wok w -> low (QCVis c) -> Forall low (ctype_reads cfg c) ->
  runs w (ch_assignable cfg E c) (d_cassignable cfg rho c) w.
Proof.
  intros Hw Hv Ht. apply runs_cached.
  { intros st H. eexists. split; [reflexivity|]. intros l Hl. apply runs_ret, (coh_cassignable _ _ H c l Hl). }
  eapply (outcome_bind _ w _ _ _ (d_cassignable cfg rho c));
    [|eapply outcome_bind; [apply runs_put_cassignable|]; by apply runs_ret].
  unfold ch_assignable_, d_cassignable.
  eapply outcome_bind; [by apply (acc_cvis HE)|]. destruct (v_cvis rho c =? 0); [by apply runs_ret|].
  destruct (v_cvis rho c =? 2); [|by apply runs_ret].
  eapply outcome_bind; [by apply runs_ctype|]. by apply runs_ret.
Qed.

End Body.

(** *** The recursion *)

Lemma wok_lookup r w s : wok r w -> (rk (writer s) < r)%nat -> w !! s = None.
Proof. intros Hw Hr. destruct (w !! s) as [b|] eqn:E; [|done]. apply Hw in E. lia. Qed.

Lemma wok_le r r' w : wok r' w -> (r <= r')%nat -> wok r w.
Proof. intros Hw Hr s b E. apply Hw in E. lia. Qed.

Lemma tri_value_known E s st v st' :
  tri_value cfg E s st = (Ok v, st') -> is_Some (cached_tri_val (symst st' s)).
Proof.
  unfold tri_value. cbv [mbind K_bind M_bind sget gets].
  destruct (cached_tri_val (symst st s)) as [v0|] eqn:E0; [intros [= <- <-]; by rewrite E0|].
  intros H. destruct (negb _).
  - destruct (when _ _ st) as [[[]|] st1]; [|done].
    injection H as <- <-. autorewrite with kst. by rewrite decide_True.
  - destruct (ev_vis E s st) as [[vis|] st1]; [|done]. simpl in H.
    destruct (tri_value_ cfg E s vis _) as [[tv|] st2]; [|done].
    injection H as <- <-. autorewrite with kst. by rewrite decide_True.
Qed.

Lemma str_value_known E s st v st' :
  str_value cfg E s st = (Ok v, st') -> is_Some (cached_str_val (symst st' s)).
Proof.
  unfold str_value. cbv [mbind K_bind M_bind sget gets].
  destruct (cached_str_val (symst st s)) as [v0|] eqn:E0; [intros [= <- <-]; by rewrite E0|].
  intros H. destruct (is_bool_tristate _).
  { destruct (ev_tri E s st) as [[tv|] st1]; [|done]. destruct (tri_to_str tv st1) as [[t|] st2]; [|done].
    injection H as <- <-. autorewrite with kst. by rewrite decide_True. }
  destruct (type_eqb _ UNKNOWN).
  { injection H as <- <-. autorewrite with kst. by rewrite decide_True. }
  destruct (ev_vis E s st) as [[vis|] st1]; [|done]. simpl in H.
  match type of H with context [(if ?b then ?x else ?y) ?z] =>
    destruct ((if b then x else y) z) as [[tv|] st2]; [|done] end.
  destruct (when _ _ st2) as [[[]|] st3]; [|done].
  injection H as <- <-. autorewrite with kst. by rewrite decide_True.
Qed.

Theorem ev_accesses n r : (r <= n)%nat -> accesses_ok (ev cfg n) r.
Proof.
  revert r. induction n as [|n IH]; intros r Hr.
  { split; [intros ??? Hq; unfold low in Hq; lia..|]. intros ???? Hq. done. }
  assert (Hrd : forall q, fixed cfg q = false -> Forall (low (rk q)) (reads cfg q)) by apply HR.
  split; [intros w x Hw Hq; unfold low in Hq; simpl..|intros ????; apply tri_value_known].
  - apply (runs_tri_value _ (rk (QTri x))); [apply IH; lia|eapply wok_le; [done|lia]| |auto].
    intros Ht. apply (wok_lookup r); [done|]. unfold writer. by rewrite Ht.
  - apply (runs_str_value _ (rk (QStr x))); [apply IH; lia|eapply wok_le; [done|lia]| |done|auto].
    apply (wok_lookup r); [done|]. unfold writer.
    destruct (is_bool_tristate _) eqn:Ht; [|done].
    specialize (Hrd (QStr x) eq_refl). cbn [reads] in Hrd. rewrite Ht in Hrd.
    apply Forall_cons in Hrd as [Hrd _]. unfold low in Hrd. lia.
  - apply (runs_sym_visibility _ (rk (QVis x))); [apply IH; lia|eapply wok_le; [done|lia]|auto].
  - apply (runs_ctri_value _ (rk (QCTri x))); [apply IH; lia|eapply wok_le; [done|lia]|auto].
  - apply (runs_ch_visibility _ (rk (QCVis x))); [apply IH; lia|eapply wok_le; [done|lia]|auto].
  - apply (runs_ch_selection _ (rk (QCSel x))); [apply IH; lia|eapply wok_le; [done|lia]|auto].
Qed.

(** From a coherent state in which nothing is in progress *)
Lemma wok_empty r : wok r ∅.
Proof. intros s b. by rewrite lookup_empty. Qed.
End Refine.
