(* ===== verification/Printing.v ===== *)
(** * Printing definitions in Kconfig format

    [MenuNode.custom_str], [Symbol.custom_str] and [Choice.custom_str] with the
    properties [orig_prompt], [orig_defaults], ... they use, and
    [MenuNode.referenced].  The function that prints a symbol or choice is an
    argument that may read values, so the printers run in the monad [K].
    Where the source compares expressions by identity the model compares them by
    structure: a condition whose last conjunct equals the node's dependency got
    it from the propagation of dependencies. *)
From S2P Require Import Prelude PyStr PyText Model Eval.

Section Printing.
Context (cfg : Config).

(** ** Properties without the node's dependency *)

(** [MenuNode._strip_dep] *)
Definition strip_dep (n : nodeid) (e : expr) : expr :=
  let dep := nd_dep (node cfg n) in
  if bool_decide (dep = e) then e_y cfg
  else match e with
       | EAnd e1 e2 => if bool_decide (e2 = dep) then e1 else e
       | _ => e
       end.

Definition orig_prompt (n : nodeid) : option (string * expr) :=
  (fun '(p, cond) => (p, strip_dep n cond)) <$> nd_prompt (node cfg n).
Definition orig_defaults (n : nodeid) : list (expr * expr) :=
  map (fun '(default, cond) => (default, strip_dep n cond)) (nd_defaults (node cfg n)).
Definition orig_selects (n : nodeid) : list (symid * expr) :=
  map (fun '(select, cond) => (select, strip_dep n cond)) (nd_selects (node cfg n)).
Definition orig_implies (n : nodeid) : list (symid * expr) :=
  map (fun '(imply, cond) => (imply, strip_dep n cond)) (nd_implies (node cfg n)).
Definition orig_ranges (n : nodeid) : list (symid * symid * expr) :=
  map (fun '(low, high, cond) => (low, high, strip_dep n cond)) (nd_ranges (node cfg n)).

(** [MenuNode.referenced], a set *)
Definition referenced (n : nodeid) : list item :=
  let x := node cfg n in
  expr_items (nd_dep x)
  ++ match nd_prompt x with Some (_, cond) => expr_items cond | None => [] end
  ++ match nd_item x with NMenu => expr_items (nd_visibility x) | _ => [] end
  ++ flat_map (fun '(value, cond) => expr_items value ++ expr_items cond) (nd_defaults x)
  ++ flat_map (fun '(value, cond) => ISym value :: expr_items cond) (nd_selects x)
  ++ flat_map (fun '(value, cond) => ISym value :: expr_items cond) (nd_implies x)
  ++ flat_map (fun '(low, high, cond) => ISym low :: ISym high :: expr_items cond) (nd_ranges x).

(** ** Expressions, with a printer that may read values *)

Fixpoint expr_strM (f : item -> K string) (e : expr) : K string :=
  match e with
  | EItem i => f i
  | EAnd e1 e2 =>
      s1 ← expr_strM f e1; s2 ← expr_strM f e2;
      mret (paren (is_or e1) s1 +:+ " && " +:+ paren (is_or e2) s2)
  | EOr e1 e2 =>
      s1 ← expr_strM f e1; s2 ← expr_strM f e2;
      mret (paren (is_and e1) s1 +:+ " || " +:+ paren (is_and e2) s2)
  | ENot (EItem i) => s ← f i; mret ("!" +:+ s)
  | ENot e1 => s ← expr_strM f e1; mret ("!(" +:+ s +:+ ")")
  | ERel r s1 s2 => a ← f (ISym s1); b ← f (ISym s2); mret (a +:+ " " +:+ REL_TO_STR r +:+ " " +:+ b)
  end.

Section With.
Context (f : item -> K string).
Local Abbreviation es := (expr_strM f).

(** A line with a condition, unless that is y: [indent_add_cond] *)
Definition indent_add (s : string) : string := String (chr 9) s.
Definition indent_add_cond (s : string) (cond : expr) : K string :=
  if bool_decide (cond = e_y cfg) then mret (indent_add s)
  else c ← es cond; mret (indent_add (s +:+ " if " +:+ c)).

(** [MenuNode._menu_comment_node_str] *)
Definition menu_comment_node_str (n : nodeid) : K string :=
  let x := node cfg n in
  let is_menu := bool_decide (nd_item x = NMenu) in
  p ← match nd_prompt x with Some (p, _) => mret p | None => raise TypeError end;
  let s := (if is_menu then "menu" else "comment") +:+ " " +:+ String QUOTE (p +:+ String QUOTE "") in
  s ← (if bool_decide (nd_dep x = e_y cfg) then mret s
       else d ← es (nd_dep x); mret (s +:+ String NL (String (chr 9) ("depends on " +:+ d))));
  if is_menu && negb (bool_decide (nd_visibility x = e_y cfg))
  then v ← es (nd_visibility x); mret (s +:+ String NL (String (chr 9) ("visible if " +:+ v)))
  else mret s.

(** The lines of the properties shared by symbols and choices, and of those of symbols *)
Definition type_lines (t : stype) (n : nodeid) : K (list string) :=
  match orig_prompt n with
  | None => mret (if type_eqb t UNKNOWN then [] else [indent_add (TYPE_TO_STR t)])
  | Some (p, cond) =>
      l ← indent_add_cond ((if type_eqb t UNKNOWN then "prompt" else TYPE_TO_STR t)
                           +:+ " " +:+ String QUOTE (escape p +:+ String QUOTE "")) cond;
      mret [l]
  end.

Definition option_lines (s : symid) : list string :=
  let x := sym cfg s in
  (if sym_is_allnoconfig_y x then [indent_add "option allnoconfig_y"] else [])
  ++ (if bool_decide (c_defconfig_list cfg = Some (NSym s)) then [indent_add "option defconfig_list"] else [])
  ++ match sym_env_var x with
     | Some v => [indent_add ("option env=" +:+ String QUOTE (v +:+ String QUOTE ""))] | None => [] end
  ++ (if bool_decide (s = c_modules cfg) then [indent_add "option modules"] else []).

Definition range_lines (n : nodeid) : K (list string) :=
  mapM (fun '(low, high, cond) =>
    a ← f (ISym low); b ← f (ISym high); indent_add_cond ("range " +:+ a +:+ " " +:+ b) cond) (orig_ranges n).
Definition default_lines (n : nodeid) : K (list string) :=
  mapM (fun '(default, cond) => d ← es default; indent_add_cond ("default " +:+ d) cond) (orig_defaults n).
Definition select_lines (word : string) (l : list (symid * expr)) : K (list string) :=
  mapM (fun '(target, cond) => a ← f (ISym target); indent_add_cond (word +:+ " " +:+ a) cond) l.
Definition dep_lines (n : nodeid) : K (list string) :=
  let dep := nd_dep (node cfg n) in
  if bool_decide (dep = e_y cfg) then mret [] else d ← es dep; mret [indent_add ("depends on " +:+ d)].
Definition help_lines (n : nodeid) : list string :=
  match nd_help (node cfg n) with
  | Some h => indent_add "help" :: map (fun l => indent_add ("  " +:+ l)) (splitlines h)
  | None => []
  end.

(** [MenuNode._sym_choice_node_str] *)
Definition sym_choice_node_str (n : nodeid) : K string :=
  let x := node cfg n in
  match nd_item x with
  | NSym s =>
      let head := (if nd_is_menuconfig x then "menuconfig " else "config ") +:+ sym_name (sym cfg s) in
      t ← type_lines (sym_orig_type (sym cfg s)) n;
      r ← range_lines n;
      d ← default_lines n;
      sel ← select_lines "select" (orig_selects n);
      imp ← select_lines "imply" (orig_implies n);
      dep ← dep_lines n;
      mret (py_join (String NL "") (head :: t ++ option_lines s ++ r ++ d ++ sel ++ imp ++ dep ++ help_lines n))
  | NChoice c =>
      let head := match ch_name (chc cfg c) with
                  | Some name => if String.eqb name "" then "choice" else "choice " +:+ name
                  | None => "choice"
                  end in
      t ← type_lines (ch_orig_type (chc cfg c)) n;
      d ← default_lines n;
      dep ← dep_lines n;
      mret (py_join (String NL "") (head :: t ++ d
              ++ (if ch_is_optional (chc cfg c) then [indent_add "optional"] else []) ++ dep ++ help_lines n))
  | _ => raise AttributeError
  end.

(** [MenuNode.custom_str], [Symbol.custom_str], [Choice.custom_str] *)
Definition node_custom_str (n : nodeid) : K string :=
  match nd_item (node cfg n) with
  | NMenu | NComment => menu_comment_node_str n
  | _ => sym_choice_node_str n
  end.
Definition item_nodes (i : item) : list nodeid :=
  match i with ISym s => sym_nodes (sym cfg s) | IChoice c => ch_nodes (chc cfg c) end.
Definition item_custom_str (i : item) : K string :=
  l ← mapM node_custom_str (item_nodes i);
  mret (py_join (String NL (String NL "")) l).
End With.

(** [__str__] of nodes, symbols and choices *)
Definition standard_str (i : item) : K string := mret (standard_sc_expr_str cfg i).
Definition node_str (n : nodeid) : K string := node_custom_str standard_str n.
Definition item_str (i : item) : K string := item_custom_str standard_str i.
Definition name_and_loc (i : item) : string :=
  match i with ISym s => sym_name_and_loc cfg s | IChoice c => ch_name_and_loc cfg c end.

(** With a printer that reads nothing, expressions are printed as by [expr_str] *)
Lemma expr_strM_pure (g : item -> string) e st :
  expr_strM (fun i => mret (g i)) e st = (Ok (expr_str g e), st).
Proof.
  revert st. induction e as [i|e1 IH1 e2 IH2|e1 IH1 e2 IH2|e1 IH1|r s1 s2]; intros st; try done.
  - cbn [expr_strM expr_str]. cbv [mbind K_bind M_bind]. by rewrite IH1, IH2.
  - cbn [expr_strM expr_str]. cbv [mbind K_bind M_bind]. by rewrite IH1, IH2.
  - destruct e1; cbn [expr_strM expr_str] in *; cbv [mbind K_bind M_bind] in *; by rewrite ?IH1.
Qed.
End Printing.
