(* ===== verification/DepLoop.v ===== *)
(** * The search for dependency loops

    [_check_dep_loop_sym], [_check_dep_loop_choice] and [_found_dep_loop]: a
    depth-first search over the dependents that [_build_dep] has recorded, with
    the marks kept in [_visited].  The two recursive functions are one function
    here, [check_dep_loop], whose argument says which of them is called. *)
From S2P Require Import Prelude PyStr Model Eval EvalSpec EvalRefine Printing.

(** ** The search *)

Inductive call :=
| VisitSym (s : symid) (ignore_choice : bool)
| VisitChoice (c : choiceid) (skip : option symid).

Section DepLoop.
Context (cfg : Config).

Definition call_item (k : call) : item := match k with VisitSym s _ => ISym s | VisitChoice c _ => IChoice c end.

Definition get_visited (i : item) : K Z := match i with ISym s => sget visited s | IChoice c => cget ch_visited c end.
Definition put_visited (v : Z) (i : item) : K unit :=
  match i with ISym s => sput (set_visited v) s | IChoice c => cput (set_ch_visited v) c end.

(** What a symbol or choice is searched through, in this order *)
Definition calls (k : call) : list call :=
  match k with
  | VisitSym s ignore_choice =>
      map (fun d => match d with IChoice c => VisitChoice c None | ISym d => VisitSym d false end)
        (sym_dependents (sym cfg s))
      ++ match sym_choice (sym cfg s) with
         | Some c => if ignore_choice then [] else [VisitChoice c (Some s)]
         | None => []
         end
  | VisitChoice c skip =>
      map (fun s => VisitSym s true) (List.filter (fun s => negb (bool_decide (skip = Some s))) (ch_syms (chc cfg c)))
  end.

(** The lines on the reverse dependencies of a symbol *)
Definition reverse_deps_str (i : item) : string :=
  let two := String NL (String NL "") in
  match i with
  | ISym s =>
      let x := sym cfg s in
      (if bool_decide (sym_rev_dep x = e_n cfg) then ""
       else "(select-related dependencies: " +:+ expr_str (standard_sc_expr_str cfg) (sym_rev_dep x) +:+ ")" +:+ two)
      +:+ (if bool_decide (sym_weak_rev_dep x = e_n cfg) then ""
           else "(imply-related dependencies: " +:+ expr_str (standard_sc_expr_str cfg) (sym_rev_dep x) +:+ ")" +:+ two)
  | IChoice _ => ""
  end.

(** The paragraph on one item of a loop *)
Definition loop_item_str (first i : item) : K string :=
  d ← item_str cfg i;
  let link := if bool_decide (i = first) then ""
              else "...depends on " +:+ match i with
                                        | ISym s => if bool_decide (is_Some (sym_choice (sym cfg s)))
                                                    then "the choice symbol " else ""
                                        | IChoice _ => ""
                                        end in
  let two := String NL (String NL "") in
  mret (link +:+ name_and_loc cfg i +:+ ", with definition..." +:+ two +:+ d +:+ two +:+ reverse_deps_str i).

(** [_found_dep_loop]: the first item of the list is where the loop was closed *)
Definition found_dep_loop (loop : list item) (cur : item) : K (list item) :=
  match loop with
  | [] => mret [cur]
  | first :: _ =>
      if bool_decide (cur = first) then
        l ← mapM (loop_item_str first) loop;
        raise (KconfigError (String NL ("Dependency loop" +:+ String NL ("===============" +:+ String NL (String NL "")))
          +:+ String.concat "" l +:+ "...depends again on " +:+ name_and_loc cfg first))
      else mret (loop ++ [cur])
  end.

(** [_check_dep_loop_sym] and [_check_dep_loop_choice]; a loop is returned as the
    list of its items so far *)
Fixpoint check_dep_loop (depth : nat) (k : call) : K (option (list item)) :=
  match depth with
  | O => raise RecursionError
  | S depth =>
      v ← get_visited (call_item k);
      if v =? 0 then
        put_visited 1 (call_item k);;
        loop ← first_someM (check_dep_loop depth) (calls k);
        match loop with
        | Some l => l ← found_dep_loop l (call_item k); mret (Some l)
        | None => put_visited 2 (call_item k);; mret None
        end
      else if v =? 2 then mret None
      else mret (Some [call_item k])
  end.

(** The loop over the defined symbols in [Kconfig._init] *)
Definition check_dep_loops (depth : nat) : K unit :=
  forM_ (c_unique_defined_syms cfg) (fun s => check_dep_loop depth (VisitSym s false);; mret tt).
End DepLoop.

(** ** Facts about the marks *)

Section Marks.
Context (cfg : Config).

Definition visited_at (st : State) (i : item) : Z :=
  match i with ISym s => visited (symst st s) | IChoice c => ch_visited (chst st c) end.

Definition mark (v : Z) (i : item) (st : State) : State :=
  match i with ISym s => alter_sym (set_visited v) s st | IChoice c => alter_choice (set_ch_visited v) c st end.

Lemma get_visited_eq i st : get_visited i st = (Ok (visited_at st i), st).
Proof. by destruct i. Qed.

Lemma put_visited_eq v i st : put_visited v i st = (Ok tt, mark v i st).
Proof. by destruct i. Qed.

Lemma visited_mark v i st j : visited_at (mark v i st) j = if decide (i = j) then v else visited_at st j.
Proof.
  destruct i as [s|c], j as [s'|c']; simpl; autorewrite with kst; repeat case_decide; try congruence; done.
Qed.

(** One call, unfolded *)
Lemma check_eq depth k st : check_dep_loop cfg (S depth) k st =
  if visited_at st (call_item k) =? 0 then
    match first_someM (check_dep_loop cfg depth) (calls cfg k) (mark 1 (call_item k) st) with
    | (Ok (Some l), st') => match found_dep_loop cfg l (call_item k) st' with
                            | (Ok l', st'') => (Ok (Some l'), st'')
                            | (Err e, st'') => (Err e, st'')
                            end
    | (Ok None, st') => (Ok None, mark 2 (call_item k) st')
    | (Err e, st') => (Err e, st')
    end
  else if visited_at st (call_item k) =? 2 then (Ok None, st) else (Ok (Some [call_item k]), st).
Proof.
  cbn [check_dep_loop]. cbv [mbind K_bind M_bind]. rewrite get_visited_eq.
  destruct (_ =? 0); [|by destruct (_ =? 2)]. rewrite put_visited_eq.
  destruct (first_someM _ _ _) as [[[l|]|e] st']; [done| |done]. by rewrite put_visited_eq.
Qed.

End Marks.

(** ** What a search leaves behind *)

Section Post.
Context (cfg : Config).

(** Marked as being on the search path *)
Definition gray (st : State) (i : item) : Prop := visited_at st i <> 0 /\ visited_at st i <> 2.

(** The path is as before, and what was done is still done *)
Record kept (st st' : State) : Prop := {
  kp_gray : forall i, gray st' i <-> gray st i;
  kp_done : forall i, visited_at st i = 2 -> visited_at st' i = 2;
}.

Lemma kept_trans st1 st2 st3 : kept st1 st2 -> kept st2 st3 -> kept st1 st3.
Proof. intros [G1 D1] [G2 D2]. split; [intros i; by rewrite G2|auto]. Qed.

(** The state of a search in which all calls of a list found nothing *)
Lemma calls_none (f : call -> K (option (list item))) l :
  (forall k st st', In k l -> f k st = (Ok None, st') -> kept st st' /\ visited_at st' (call_item k) = 2) ->
  forall st st', first_someM f l st = (Ok None, st') ->
    kept st st' /\ forall k, In k l -> visited_at st' (call_item k) = 2.
Proof.
  intros Hf. induction l as [|k l IH]; intros st st'; simpl.
  - intros [= <-]. by split.
  - cbv [mbind M_bind]. destruct (f k st) as [[[b|]|e] st1] eqn:E; [done| |done]. intros H.
    destruct (Hf k st st1 (or_introl eq_refl) E) as [K1 D1].
    destruct (IH (fun k' st st' Hk => Hf k' st st' (or_intror Hk)) st1 st' H) as [K2 D2].
    split; [by eapply kept_trans|]. intros k' [<-|Hk]; [by apply (kp_done _ _ K2)|auto].
Qed.

(** A loop in progress starts at an item of the path *)
Lemma calls_some (f : call -> K (option (list item))) l :
  (forall k st st', In k l -> f k st = (Ok None, st') -> kept st st' /\ visited_at st' (call_item k) = 2) ->
  (forall k st x st', In k l -> f k st = (Ok (Some x), st') -> exists i, head x = Some i /\ gray st i) ->
  forall st x st', first_someM f l st = (Ok (Some x), st') -> exists i, head x = Some i /\ gray st i.
Proof.
  intros Hf Hs. induction l as [|k l IH]; intros st x st'; [done|]. simpl.
  cbv [mbind M_bind]. destruct (f k st) as [[[b|]|e] st1] eqn:E; [|intros H|done].
  - intros [= <- <-]. eapply Hs; [by left|exact E].
  - destruct (Hf k st st1 (or_introl eq_refl) E) as [K1 _].
    destruct (IH (fun k' st st' Hk => Hf k' st st' (or_intror Hk))
                 (fun k' st x st' Hk => Hs k' st x st' (or_intror Hk)) st1 x st' H) as (i & Hi & Hg).
    exists i. split; [done|]. by apply (kp_gray _ _ K1).
Qed.

Lemma check_post depth :
  (forall k st st', check_dep_loop cfg depth k st = (Ok None, st') ->
     kept st st' /\ visited_at st' (call_item k) = 2)
  /\ (forall k st x st', check_dep_loop cfg depth k st = (Ok (Some x), st') -> exists i, head x = Some i /\ gray st i).
Proof.
  induction depth as [|depth [IH1 IH2]]; [by split|]. split.
  - intros k st st'. rewrite check_eq. destruct (Z.eqb_spec (visited_at st (call_item k)) 0) as [H0|H0].
    2: { destruct (Z.eqb_spec (visited_at st (call_item k)) 2); intros [= <-]. by split. }
    destruct (first_someM _ _ _) as [[[l|]|e] st1] eqn:E; [by destruct (found_dep_loop _ _ _ _) as [[]]| |done].
    intros [= <-]. apply calls_none in E as [[G D] _]; [|auto]. split.
    + split; intros i; unfold gray in *.
      * rewrite visited_mark. specialize (G i). rewrite visited_mark in G. case_decide; [subst; lia|done].
      * rewrite visited_mark. case_decide; [done|]. intros Hi. apply D. rewrite visited_mark. by case_decide.
    + rewrite visited_mark. by rewrite decide_True.
  - intros k st x st'. rewrite check_eq. destruct (Z.eqb_spec (visited_at st (call_item k)) 0) as [H0|H0].
    2: { destruct (Z.eqb_spec (visited_at st (call_item k)) 2); intros [= <- <-]. eexists. by split. }
    destruct (first_someM _ _ _) as [[[l|]|e] st1] eqn:E; [|done..].
    apply calls_some in E as (i & Hi & Hg); [|auto|intros k1 st2 x1 st3 _; apply IH2]. destruct l as [|y l]; [done|]. injection Hi as ->.
    unfold found_dep_loop. case_bool_decide as Hc.
    { cbv [mbind K_bind M_bind]. by destruct (mapM _ _ _) as [[]]. }
    intros [= <- <-]. exists i. split; [done|]. unfold gray in *. rewrite visited_mark in Hg. case_decide; [congruence|done].
Qed.

(** ** The depth of the search *)

Definition unvisited (all : list item) (st : State) : nat :=
  length (List.filter (fun i => visited_at st i =? 0) all).

(** The calls stay among the items of [all] *)
Definition closed_items (all : list item) : Prop :=
  forall k k', In (call_item k) all -> In k' (calls cfg k) -> In (call_item k') all.

Lemma unvisited_kept all st st' : kept st st' -> (unvisited all st' <= unvisited all st)%nat.
Proof.
  intros [G D]. apply filter_length_le. intros i _ Hi%Z.eqb_eq. apply Z.eqb_eq.
  specialize (G i). specialize (D i). unfold gray in G. lia.
Qed.

(** Printing a loop needs no recursion that could be too deep *)
Definition shallow {A} (m : K A) : Prop := forall st, (m st).1 <> Err RecursionError.

Lemma shallow_bind {A B} (m : K A) (g : A -> K B) : shallow m -> (forall a, shallow (g a)) -> shallow (m ≫= g).
Proof.
  intros Hm Hg st. unfold mbind, K_bind, M_bind. specialize (Hm st). destruct (m st) as [[a|e] st']; [apply Hg|].
  simpl in *. congruence.
Qed.
Lemma shallow_ret {A} (a : A) : shallow (mret a).
Proof. by intros st. Qed.
Lemma shallow_mapM {A B} (f : A -> K B) l : (forall x, shallow (f x)) -> shallow (mapM f l).
Proof.
  intros Hf. induction l as [|x l IH]; [by intros st|]. apply shallow_bind; [done|]. intros b.
  apply shallow_bind; [done|]. by intros r st.
Qed.
Lemma shallow_standard i : shallow (standard_str cfg i).
Proof. by intros st. Qed.
Lemma shallow_expr e : shallow (expr_strM (standard_str cfg) e).
Proof. intros st. unfold standard_str. by rewrite expr_strM_pure. Qed.
End Post.

#[export] Hint Resolve shallow_ret shallow_standard shallow_expr : kconf.

Ltac shallow :=
  repeat first
    [ apply shallow_bind; [|intros ?]
    | apply shallow_mapM; intros ?
    | progress (eauto with kconf nocore)
    | match goal with
      | |- shallow (match ?x with _ => _ end) => destruct x
      | |- shallow (fun _ => _) => intros ?
      | |- forall _, _ => intros ?
      end
    | by intros ? ].

Section Depth.
Context (cfg : Config).

Lemma shallow_node n : shallow (node_str cfg n).
Proof.
  unfold node_str, node_custom_str, menu_comment_node_str, sym_choice_node_str, type_lines, range_lines, default_lines,
    select_lines, dep_lines, indent_add_cond. shallow.
Qed.

Lemma shallow_loop_item first i : shallow (loop_item_str cfg first i).
Proof.
  unfold loop_item_str, item_str, item_custom_str. apply shallow_bind; [|intros; apply shallow_ret].
  apply shallow_bind; [|intros; apply shallow_ret]. apply shallow_mapM, shallow_node.
Qed.
Lemma shallow_found l i : shallow (found_dep_loop cfg l i).
Proof.
  unfold found_dep_loop. destruct l as [|x l]; [by intros st|]. case_bool_decide; [|by intros st].
  apply shallow_bind; [apply shallow_mapM, shallow_loop_item|]. by intros a st.
Qed.

(** A search of items from [all] does not go deeper than there are unvisited ones *)
Lemma check_depth all depth : closed_items cfg all -> forall k st, In (call_item k) all ->
  (unvisited all st < depth)%nat -> (check_dep_loop cfg depth k st).1 <> Err RecursionError.
Proof.
  intros Hcl. induction depth as [|depth IH]; intros k st Hk Hd; [lia|]. rewrite check_eq.
  destruct (Z.eqb_spec (visited_at st (call_item k)) 0) as [H0|H0]; [|by destruct (_ =? 2)].
  assert (Hm : (unvisited all (mark 1 (call_item k) st) < depth)%nat).
  { apply Nat.lt_le_trans with (unvisited all st); [|lia]. apply (filter_length_lt _ _ all (call_item k)); [|done|..].
    - intros i _. rewrite visited_mark. case_decide; [done|auto].
    - rewrite visited_mark. by rewrite decide_True.
    - by apply Z.eqb_eq. }
  assert (Hl : forall l st1, incl l (calls cfg k) -> (unvisited all st1 < depth)%nat ->
    (first_someM (check_dep_loop cfg depth) l st1).1 <> Err RecursionError).
  { induction l as [|k' l IHl]; intros st1 Hi Hu; [done|]. simpl. cbv [mbind M_bind].
    assert (Hk' : In (call_item k') all) by (apply (Hcl k); [done|apply Hi; by left]).
    specialize (IH k' st1 Hk' Hu). destruct (check_dep_loop cfg depth k' st1) as [[[b|]|e] st2] eqn:E; [done| |].
    - apply IHl; [by intros x Hx; apply Hi; right|].
      apply (check_post cfg depth) in E as [Hkept _]. pose proof (unvisited_kept all _ _ Hkept). lia.
    - simpl in *. congruence. }
  specialize (Hl (calls cfg k) _ (fun x Hx => Hx) Hm).
  destruct (first_someM _ _ _) as [[[l|]|e] st1]; [|done|].
  - pose proof (shallow_found l (call_item k) st1) as Hs. destruct (found_dep_loop _ _ _ _) as [[l'|e] st2]; [done|].
    simpl in *. congruence.
  - simpl in *. congruence.
Qed.
End Depth.

(** ** Searches without choices find every loop *)

Section Complete.
Context (cfg : Config).

Definition choice_free : Prop :=
  (forall s, sym_choice (sym cfg s) = None) /\ (forall s c, ~ In (IChoice c) (sym_dependents (sym cfg s))).

(** [d] depends on [s] *)
Definition depends (d s : symid) : Prop := In (ISym d) (sym_dependents (sym cfg s)).

(** No infinite chain of dependents starts at a symbol that is done *)
Definition done_acc (st : State) : Prop := forall s, visited_at st (ISym s) = 2 -> Acc depends s.

Lemma check_acc depth : choice_free -> forall s st st',
  check_dep_loop cfg depth (VisitSym s false) st = (Ok None, st') -> done_acc st -> done_acc st'.
Proof.
  intros [Hc Hd]. induction depth as [|depth IH]; intros s st st'; [done|]. rewrite check_eq. cbn [call_item].
  destruct (Z.eqb_spec (visited_at st (ISym s)) 0) as [H0|H0].
  2: { destruct (_ =? 2); by intros [= <-]. }
  destruct (first_someM _ _ _) as [[[l|]|e] st1] eqn:E; [by destruct (found_dep_loop _ _ _ _) as [[]]| |done].
  intros [= <-] Ha.
  assert (Hcalls : calls cfg (VisitSym s false) = map (fun d => match d with
     IChoice c => VisitChoice c None | ISym d => VisitSym d false end) (sym_dependents (sym cfg s))).
  { simpl. by rewrite Hc, app_nil_r. }
  assert (Hsym : forall k, In k (calls cfg (VisitSym s false)) -> exists d, k = VisitSym d false /\ depends d s).
  { intros k. rewrite Hcalls, in_map_iff. intros ([d|c] & <- & Hi); [eauto|by apply Hd in Hi]. }
  assert (Hm : done_acc (mark 1 (ISym s) st)).
  { intros x. rewrite visited_mark. case_decide; [done|auto]. }
  assert (Hl : forall l st1 st2, incl l (calls cfg (VisitSym s false)) ->
    first_someM (check_dep_loop cfg depth) l st1 = (Ok None, st2) -> done_acc st1 -> done_acc st2).
  { clear E st1. induction l as [|k l IHl]; intros st1 st2 Hi; simpl; [by intros [= <-]|]. cbv [mbind M_bind].
    destruct (check_dep_loop cfg depth k st1) as [[[b|]|e] st3] eqn:E; [done| |done]. intros E2 H1.
    destruct (Hsym k) as (d & -> & _); [apply Hi; by left|].
    apply (IHl st3 st2); [by intros x Hx; apply Hi; right|done|]. by apply (IH d st1 st3). }
  pose proof (Hl _ _ _ (fun x Hx => Hx) E Hm) as H1.
  apply (calls_none (check_dep_loop cfg depth)) in E as [_ Hdone].
  2: { intros k st2 st3 _. apply check_post. }
  intros x. change (visited_at (mark 2 (ISym s) st1) (ISym x) = 2 -> Acc depends x).
  rewrite visited_mark. case_decide as Hx; [|apply H1]. injection Hx as <-. intros _.
  constructor. intros d Hds. apply H1. apply (Hdone (VisitSym d false)). rewrite Hcalls. apply in_map_iff.
  by exists (ISym d).
Qed.

Lemma check_all_acc depth l : choice_free -> forall st st',
  forM_ l (fun s => check_dep_loop cfg depth (VisitSym s false);; mret tt) st = (Ok tt, st') ->
  (forall i, ~ gray st i) -> done_acc st -> forall s, In s l -> Acc depends s.
Proof.
  unfold forM_. intros Hf. induction l as [|s l IH]; intros st st' E Hg Ha x Hx; [done|].
  cbn [foldM] in E. cbv [mbind K_bind M_bind] in E.
  destruct (check_dep_loop cfg depth (VisitSym s false) st) as [[[b|]|e] st1] eqn:E1; [| |done].
  { apply check_post in E1 as (i & _ & Hi). by apply Hg in Hi. }
  pose proof (check_acc depth Hf s st st1 E1 Ha) as H1.
  apply check_post in E1 as [[G D] H2].
  assert (Hg1 : forall i, ~ gray st1 i) by (intros i; rewrite G; apply Hg).
  destruct Hx as [<-|Hx].
  - by apply H1.
  - exact (IH st1 st' E Hg1 H1 x Hx).
Qed.
End Complete.
