(* ===== verification/EvalDet.v ===== *)
(** * A cached value is fixed by the cached values it was calculated from

    The short circuits of [expr_value] and the early exits of the loops mean
    that a value is calculated from some of what it could read only.  The
    invariant [Det] says that each cached value follows from those values it
    reads that are cached as well, whatever the other values are.  Invalidation
    ([SetValue]) rests on it: it stops at objects without cached values.

    The proofs run over the same bodies as [EvalRefine]; since they only speak
    about evaluations that return, they need no ranking. *)
From S2P Require Import Prelude PyStr Model Eval EvalSpec EvalRefine.

(** The mode of a choice is not cached; it follows from its cached visibility *)
Definition cached_ctri (cfg : Config) (st : State) (c : choiceid) : option Z :=
  match ch_cached_vis (chst st c) with
  | None => None
  | Some vis =>
      let val0 := if ch_is_optional (chc cfg c) then 0 else 1 in
      let val := Z.min (match ch_user_value (chst st c) with Some v => Z.max val0 v | None => val0 end) vis in
      if val =? 1 then
        match ch_orig_type (chc cfg c) with
        | TRISTATE => m ← cached_tri_val (symst st (c_modules cfg)); Some (if m =? 0 then 2 else 1)
        | BOOL => Some 2
        | _ => Some 1
        end
      else Some val
  end.

Definition has_prompt (cfg : Config) (s : symid) : bool :=
  existsb (fun n => bool_decide (is_Some (nd_prompt (node cfg n)))) (sym_nodes (sym cfg s)).

(** What a value depends on: unlike [reads], without what only the warning reads,
    and with nothing for the constants and for the visibility of a symbol without
    prompts *)
Definition vreads (cfg : Config) (q : query) : list query :=
  match q with
  | QTri s =>
      let x := sym cfg s in
      if fixed cfg q || negb (is_bool_tristate (sym_orig_type x)) then []
      else QVis s :: match sym_choice x with
           | Some c => [QCSel c]
           | None => flat_map (fun '(d, cond) => expr_reads d ++ expr_reads cond) (sym_defaults x)
                     ++ expr_reads (sym_weak_rev_dep x) ++ expr_reads (sym_direct_dep x)
                     ++ expr_reads (sym_rev_dep x) ++ type_reads cfg s
           end
  | QVis s => if has_prompt cfg s then reads cfg q else []
  | _ => reads cfg q
  end.

Definition areads (cfg : Config) (s : symid) : list query :=
  let x := sym cfg s in
  QVis s :: (if has_prompt cfg s
             then expr_reads (sym_rev_dep x) ++ expr_reads (sym_weak_rev_dep x) ++ type_reads cfg s else []).

Definition careads (cfg : Config) (c : choiceid) : list query := QCVis c :: ctype_reads cfg c.

(** Valuations with tristate values *)
Definition tri_valued (r : valuation) : Prop := forall q, bounded r q.

Section Det.
Context (cfg : Config) (U : uvals) (rho : valuation).

(** The valuation has the cached value of [q], if there is one *)
Definition agrees (st : State) (r : valuation) (q : query) : Prop :=
  match q with
  | QTri s => forall v, cached_tri_val (symst st s) = Some v -> v_tri r s = v
  | QStr s => forall v, cached_str_val (symst st s) = Some v -> v_str r s = v
  | QVis s => forall v, cached_vis (symst st s) = Some v -> v_vis r s = v
  | QCTri c => forall v, cached_ctri cfg st c = Some v -> v_ctri r c = v
  | QCVis c => forall v, ch_cached_vis (chst st c) = Some v -> v_cvis r c = v
  | QCSel c => forall v, ch_cached_selection (chst st c) = Some v -> v_csel r c = v
  end.

Definition compat (L : list query) (st : State) (r : valuation) : Prop :=
  tri_valued r /\ forall q, In q L -> agrees st r q.

(** [Det st]: cached values follow from the cached values they read *)
Record Det (st : State) : Prop := {
  det_tri : forall s v, cached_tri_val (symst st s) = Some v ->
    forall r, compat (vreads cfg (QTri s)) st r -> d_tri cfg U r s = v;
  det_wtc : forall s, value_known cfg st s ->
    exists b, forall r, compat (vreads cfg (writer cfg s)) st r -> d_wtc cfg U r s = b;
  det_str : forall s v, cached_str_val (symst st s) = Some v ->
    forall r, compat (vreads cfg (QStr s)) st r -> d_str cfg U r s = v;
  det_vis : forall s v, cached_vis (symst st s) = Some v ->
    forall r, compat (vreads cfg (QVis s)) st r -> d_vis cfg r s = v;
  det_assignable : forall s l, cached_assignable (symst st s) = Some l ->
    forall r, compat (areads cfg s) st r -> d_assignable cfg r s = l;
  det_cvis : forall c v, ch_cached_vis (chst st c) = Some v ->
    forall r, compat (vreads cfg (QCVis c)) st r -> d_cvis cfg r c = v;
  det_csel : forall c v, ch_cached_selection (chst st c) = Some v ->
    forall r, compat (vreads cfg (QCSel c)) st r -> d_csel cfg U r c = v;
  det_cassignable : forall c l, ch_cached_assignable (chst st c) = Some l ->
    forall r, compat (careads cfg c) st r -> d_cassignable cfg r c = l;
}.

(** A cached value implies a cached visibility: the flag that invalidation looks at *)
Record Flags (st : State) : Prop := {
  flag_tri : forall s, is_bool_tristate (sym_orig_type (sym cfg s)) = true ->
    is_tri_const cfg s = false ->
    is_Some (cached_tri_val (symst st s)) -> is_Some (cached_vis (symst st s));
  flag_str : forall s, sym_orig_type (sym cfg s) <> UNKNOWN -> is_tri_const cfg s = false ->
    is_Some (cached_str_val (symst st s)) -> is_Some (cached_vis (symst st s));
  flag_assignable : forall s, is_bool_tristate (sym_orig_type (sym cfg s)) = true ->
    is_Some (cached_assignable (symst st s)) -> is_Some (cached_vis (symst st s));
  flag_csel : forall c, is_Some (ch_cached_selection (chst st c)) -> is_Some (ch_cached_vis (chst st c));
  flag_cassignable : forall c, is_Some (ch_cached_assignable (chst st c)) ->
    is_Some (ch_cached_vis (chst st c));
  flag_const : forall s, is_tri_const cfg s = true -> is_Some (cached_tri_val (symst st s));
}.

(** Evaluation only adds cached values *)
Record sub (st st' : State) : Prop := {
  sub_tri : forall s v, cached_tri_val (symst st s) = Some v -> cached_tri_val (symst st' s) = Some v;
  sub_str : forall s v, cached_str_val (symst st s) = Some v -> cached_str_val (symst st' s) = Some v;
  sub_vis : forall s v, cached_vis (symst st s) = Some v -> cached_vis (symst st' s) = Some v;
  sub_assignable : forall s v, cached_assignable (symst st s) = Some v ->
    cached_assignable (symst st' s) = Some v;
  sub_cvis : forall c v, ch_cached_vis (chst st c) = Some v -> ch_cached_vis (chst st' c) = Some v;
  sub_csel : forall c v, ch_cached_selection (chst st c) = Some v ->
    ch_cached_selection (chst st' c) = Some v;
  sub_cassignable : forall c v, ch_cached_assignable (chst st c) = Some v ->
    ch_cached_assignable (chst st' c) = Some v;
  sub_mode : forall c, ch_user_value (chst st' c) = ch_user_value (chst st c);
}.

Record Inv (st : State) : Prop := {
  inv_user : forall s, user_value (symst st s) = u_sym U s;
  inv_mode : forall c, ch_user_value (chst st c) = u_mode U c;
  inv_sel : forall c, ch_user_selection (chst st c) = u_sel U c;
  inv_model : forall q, agrees st rho q;
  inv_assignable : forall s l, cached_assignable (symst st s) = Some l -> l = d_assignable cfg rho s;
  inv_cassignable : forall c l, ch_cached_assignable (chst st c) = Some l -> l = d_cassignable cfg rho c;
  inv_det : Det st;
  inv_flags : Flags st;
}.

#[export] Instance sub_preorder : PreOrder sub.
Proof.
  split.
  - intros st. by split.
  - intros st1 st2 st3 [] []. split; intros; eauto. congruence.
Qed.

Lemma sub_ctri st st' c v : sub st st' -> cached_ctri cfg st c = Some v -> cached_ctri cfg st' c = Some v.
Proof.
  intros Hs. unfold cached_ctri. destruct (ch_cached_vis (chst st c)) as [vis|] eqn:Hv; [|done].
  rewrite (sub_cvis _ _ Hs _ _ Hv), (sub_mode _ _ Hs). cbv zeta. destruct (_ =? 1); [|done].
  destruct (ch_orig_type _); try done.
  destruct (cached_tri_val (symst st _)) as [m|] eqn:Hm; [|done].
  by rewrite (sub_tri _ _ Hs _ _ Hm).
Qed.

Lemma agrees_sub st st' r q : sub st st' -> agrees st' r q -> agrees st r q.
Proof.
  intros Hs Ha. destruct q; simpl in *; intros v Hv; apply Ha; [..|by apply (sub_ctri st)| |];
    by eapply Hs.
Qed.

Lemma compat_sub L st st' r : sub st st' -> compat L st' r -> compat L st r.
Proof. intros Hs [Hb Ha]. split; [done|]. intros q Hq. by eapply agrees_sub, Ha. Qed.

Lemma compat_app L1 L2 st r : compat (L1 ++ L2) st r <-> compat L1 st r /\ compat L2 st r.
Proof.
  unfold compat. split.
  - intros [Hb Ha]. split; split; try done; intros q Hq; apply Ha, in_or_app; auto.
  - intros [[Hb H1] [_ H2]]. split; [done|]. intros q [?|?]%in_app_or; auto.
Qed.

Lemma compat_incl L1 L2 st r : incl L1 L2 -> compat L2 st r -> compat L1 st r.
Proof. intros Hi [Hb Ha]. split; auto. Qed.
End Det.

Section Spec.
Context (cfg : Config) (U : uvals) (rho : valuation).
Context (HM : is_model cfg U rho) (HB : tri_valued rho) (WF : well_formed cfg) (WT : well_typed cfg U).

Abbreviation Inv := (Inv cfg U rho).
Abbreviation Det := (Det cfg U).
Abbreviation compat := (compat cfg).

Lemma model_agrees st L : Inv st -> compat L st rho.
Proof. intros H. split; [exact HB|]. intros q _. apply H. Qed.

(** What holds after a step: the invariant, and more is cached *)
Definition keeps {A} (m : K A) : Prop :=
  forall st rx st', Inv st -> m st = (rx, st') -> Inv st' /\ sub st st' /\ rx <> Err ValueError.

(** [spec L P m h phi]: the result of [m] is, in the sense of [phi], the value
    of [h] at every valuation that satisfies [P] and has the values of [L] that
    are cached in the end *)
Definition spec (L : list query) (P : valuation -> Prop) {A B} (m : K A) (h : valuation -> B)
    (phi : A -> B -> Prop) : Prop :=
  keeps m /\ forall st x st', Inv st -> m st = (Ok x, st') ->
    exists b, phi x b /\ forall r, compat L st' r -> P r -> h r = b.

Lemma keeps_ret {A} (x : A) : keeps (mret x).
Proof. intros st rx st' H [= <- <-]. done. Qed.

Lemma keeps_raise {A} e : e <> ValueError -> keeps (raise e : K A).
Proof. intros He st rx st' H [= <- <-]. split_and!; [done..|congruence]. Qed.

Lemma keeps_gets {A} (f : State -> A) : keeps (gets f).
Proof. intros st rx st' H [= <- <-]. done. Qed.

Lemma keeps_bind {A B} (m : K A) (k : A -> K B) :
  keeps m -> (forall a, keeps (k a)) -> keeps (m ≫= k).
Proof.
  intros Hm Hk st rx st' H. cbv [mbind K_bind M_bind]. destruct (m st) as [[a|e] st1] eqn:E1.
  - intros E2. destruct (Hm _ _ _ H E1) as (H1 & S1 & _).
    destruct (Hk a _ _ _ H1 E2) as (H2 & S2 & ?). split_and!; [done|by etrans|done].
  - intros [= <- <-]. destruct (Hm _ _ _ H E1) as (H1 & S1 & He). split_and!; [done..|congruence].
Qed.

Lemma keeps_when b m : keeps m -> keeps (when b m).
Proof. destruct b; [done|]. intros _. apply keeps_ret. Qed.

Lemma keeps_foldM {A B} (f : B -> A -> K B) l b : (forall x b, keeps (f b x)) -> keeps (foldM f b l).
Proof. intros H. revert b. induction l; simpl; intros b; [apply keeps_ret|by apply keeps_bind]. Qed.

Lemma spec_keeps L P {A B} (m : K A) (h : valuation -> B) phi : spec L P m h phi -> keeps m.
Proof. by intros []. Qed.

(** A result nothing is claimed of *)
Lemma spec_any L P {A} (m : K A) : keeps m -> spec L P m (fun _ => tt) (fun _ _ => True).
Proof. intros H. split; [done|]. intros. by exists tt. Qed.

Lemma spec_ret L P {A B} (x : A) (h : valuation -> B) (phi : A -> B -> Prop) b :
  phi x b -> (forall r, tri_valued r -> P r -> h r = b) -> spec L P (mret x) h phi.
Proof.
  intros Hx Hh. split; [apply keeps_ret|]. intros st ? st' _ [= <- <-]. exists b. split; [done|].
  intros r [Hr _]. auto.
Qed.

Lemma spec_raise L P {A B} e (h : valuation -> B) (phi : A -> B -> Prop) :
  e <> ValueError -> spec L P (raise e : K A) h phi.
Proof. intros He. split; [by apply keeps_raise|]. intros ???? [=]. Qed.

Lemma spec_bind L P {A B C D} (m : K A) (k : A -> K B) (f : valuation -> C) (h : valuation -> D) psi phi :
  spec L P m f psi ->
  (forall a c, psi a c -> spec L (fun r => P r /\ f r = c) (k a) h phi) ->
  spec L P (m ≫= k) h phi.
Proof.
  intros [Km Sm] Sk. split.
  - intros st rx st2 H. cbv [mbind K_bind M_bind]. destruct (m st) as [[a|e] st1] eqn:E1.
    + intros E2. destruct (Sm _ _ _ H E1) as (c & Hpsi & _).
      destruct (Km _ _ _ H E1) as (H1 & S1 & _).
      destruct (proj1 (Sk a c Hpsi) _ _ _ H1 E2) as (H2 & S2 & ?). split_and!; [done|by etrans|done].
    + intros [= <- <-]. destruct (Km _ _ _ H E1) as (H1 & S1 & He). split_and!; [done..|congruence].
  - intros st y st2 H. cbv [mbind K_bind M_bind]. destruct (m st) as [[a|e] st1] eqn:E1; [|done].
    intros E2. destruct (Sm _ _ _ H E1) as (c & Hpsi & Hc).
    destruct (Km _ _ _ H E1) as (H1 & S1 & _).
    destruct (proj1 (Sk a c Hpsi) _ _ _ H1 E2) as (H2 & S2 & _).
    destruct (proj2 (Sk a c Hpsi) _ _ _ H1 E2) as (b & Hphi & Hb).
    exists b. split; [done|]. intros r Hr Pr. apply Hb; [done|]. split; [done|].
    apply Hc; [by eapply compat_sub|done].
Qed.

Lemma spec_conseq L P {A B C} (m : K A) (f : valuation -> C) (h : valuation -> B) psi phi :
  spec L P m f psi ->
  (forall x c, psi x c -> exists b, phi x b /\ forall r, tri_valued r -> P r -> f r = c -> h r = b) ->
  spec L P m h phi.
Proof.
  intros [Km Sm] Himp. split; [done|]. intros st x st' H E.
  destruct (Sm _ _ _ H E) as (c & Hpsi & Hc). destruct (Himp _ _ Hpsi) as (b & Hphi & Hb).
  exists b. split; [done|]. intros r Hr Pr. apply Hb; [apply Hr|done|auto].
Qed.

Lemma spec_weaken L P P' {A B} (m : K A) (h : valuation -> B) phi :
  spec L P' m h phi -> (forall r, P r -> P' r) -> spec L P m h phi.
Proof.
  intros [Km Sm] Hp. split; [done|]. intros st x st' H E.
  destruct (Sm _ _ _ H E) as (b & ? & ?). exists b. auto.
Qed.

Abbreviation gives L P m h := (spec L P m h eq).

(** The last step of a body, when what it computes is what is wanted *)
Lemma gives_tail L P {A B} (m : K A) (f : valuation -> A) (h : valuation -> B) (phi : A -> B -> Prop) :
  gives L P m f -> (forall x, exists b, phi x b /\ forall r, tri_valued r -> P r -> f r = x -> h r = b) ->
  spec L P m h phi.
Proof. intros Hm H. eapply spec_conseq; [exact Hm|]. by intros x ? <-. Qed.

Lemma spec_bind_ret L P {A B C} (a : A) (k : A -> K B) (h : valuation -> C) phi :
  spec L P (k a) h phi -> spec L P (mret a ≫= k) h phi.
Proof. done. Qed.

(** Reading a user value *)
Lemma spec_bind_gets L P {A B C} (f : State -> A) (a : A) (k : A -> K B) (h : valuation -> C) phi :
  (forall st, Inv st -> f st = a) -> spec L P (k a) h phi -> spec L P (gets f ≫= k) h phi.
Proof.
  intros Hf [Kk Sk]. split.
  - intros st rx st' H. cbv [mbind K_bind M_bind gets]. rewrite (Hf st H). by apply Kk.
  - intros st x st' H. cbv [mbind K_bind M_bind gets]. rewrite (Hf st H). by apply Sk.
Qed.

Lemma spec_bind_user L P {B C} s (k : option uval -> K B) (h : valuation -> C) phi :
  spec L P (k (u_sym U s)) h phi -> spec L P (sget user_value s ≫= k) h phi.
Proof. apply spec_bind_gets. intros st H. apply (inv_user _ _ _ _ H). Qed.

Lemma spec_bind_sel L P {B C} c (k : option symid -> K B) (h : valuation -> C) phi :
  spec L P (k (u_sel U c)) h phi -> spec L P (cget ch_user_selection c ≫= k) h phi.
Proof. apply spec_bind_gets. intros st H. apply (inv_sel _ _ _ _ H). Qed.

Lemma gives_first_some L P {A B} (f : A -> K (option B)) (g : valuation -> A -> option B) l :
  (forall P x, In x l -> gives L P (f x) (fun r => g r x)) ->
  gives L P (first_someM f l) (fun r => first_some (g r) l).
Proof.
  revert P. induction l as [|x l IH]; simpl; intros P H; [by eapply (spec_ret _ _ _ _ _ None)|].
  eapply spec_bind; [apply H; by left|]. intros a ? <-. destruct a as [b|].
  - eapply spec_ret; [done|]. intros r _ [_ Hr]. by rewrite Hr.
  - eapply gives_tail; [apply IH; auto|]. intros o. exists o. split; [done|].
    intros r _ [_ Hr] Ho. by rewrite Hr.
Qed.

Lemma gives_foldM L P {A B} (f : B -> A -> K B) (g : valuation -> B -> A -> B) l b :
  (forall P x b, In x l -> gives L P (f b x) (fun r => g r b x)) ->
  gives L P (foldM f b l) (fun r => foldl (g r) b l).
Proof.
  revert P b. induction l as [|x l IH]; simpl; intros P b H; [by eapply (spec_ret _ _ _ _ _ b)|].
  eapply spec_bind; [apply H; by left|].
  intros a ? <-. eapply gives_tail; [apply IH; auto|]. intros o. exists o. split; [done|].
  intros r _ [_ Hr] Ho. by rewrite Hr.
Qed.

(** *** Writes *)

Lemma agrees_ctri st c :
  (forall c, ch_user_value (chst st c) = u_mode U c) ->
  agrees cfg st rho (QCVis c) ->
  (ch_orig_type (chc cfg c) = TRISTATE -> agrees cfg st rho (QTri (c_modules cfg))) ->
  agrees cfg st rho (QCTri c).
Proof.
  simpl. intros Hm Hv Ht v. unfold cached_ctri. destruct (ch_cached_vis (chst st c)) as [vis|] eqn:Ev; [|done].
  rewrite (model_ctri _ _ _ HM). unfold d_ctri, d_ctype, modules_off.
  rewrite (Hv vis eq_refl), Hm. cbv zeta. set (val := Z.min _ vis). destruct (Z.eqb_spec val 1) as [->|]; simpl.
  - destruct (ch_orig_type (chc cfg c)); simpl; try (by intros [= <-]).
    destruct (cached_tri_val _) as [m|] eqn:Em; [|done]. rewrite (Ht eq_refl m eq_refl). simpl.
    intros [= <-]. by destruct (m =? 0).
  - by intros [= <-].
Qed.

(** A step that keeps what is cached, and adds only what follows from it *)
Record grown (st st' : State) : Prop := {
  g_user : forall s, user_value (symst st' s) = user_value (symst st s);
  g_mode : forall c, ch_user_value (chst st' c) = ch_user_value (chst st c);
  g_sel : forall c, ch_user_selection (chst st' c) = ch_user_selection (chst st c);
  g_tri : forall s, is_Some (cached_tri_val (symst st s)) -> is_Some (cached_tri_val (symst st' s));
  g_str : forall s, is_Some (cached_str_val (symst st s)) -> is_Some (cached_str_val (symst st' s));
  g_vis : forall s, is_Some (cached_vis (symst st s)) -> is_Some (cached_vis (symst st' s));
  g_asg : forall s, is_Some (cached_assignable (symst st s)) -> is_Some (cached_assignable (symst st' s));
  g_cvis : forall c, is_Some (ch_cached_vis (chst st c)) -> is_Some (ch_cached_vis (chst st' c));
  g_csel : forall c, is_Some (ch_cached_selection (chst st c)) -> is_Some (ch_cached_selection (chst st' c));
  g_casg : forall c, is_Some (ch_cached_assignable (chst st c)) -> is_Some (ch_cached_assignable (chst st' c));
  g_new_tri : forall s v, cached_tri_val (symst st' s) = Some v -> cached_tri_val (symst st s) = Some v
    \/ forall r, compat (vreads cfg (QTri s)) st r -> d_tri cfg U r s = v;
  g_new_wtc : forall s, value_known cfg st' s -> value_known cfg st s
    \/ exists b, forall r, compat (vreads cfg (writer cfg s)) st r -> d_wtc cfg U r s = b;
  g_new_str : forall s v, cached_str_val (symst st' s) = Some v -> cached_str_val (symst st s) = Some v
    \/ forall r, compat (vreads cfg (QStr s)) st r -> d_str cfg U r s = v;
  g_new_vis : forall s v, cached_vis (symst st' s) = Some v -> cached_vis (symst st s) = Some v
    \/ forall r, compat (vreads cfg (QVis s)) st r -> d_vis cfg r s = v;
  g_new_asg : forall s v, cached_assignable (symst st' s) = Some v -> cached_assignable (symst st s) = Some v
    \/ forall r, compat (areads cfg s) st r -> d_assignable cfg r s = v;
  g_new_cvis : forall c v, ch_cached_vis (chst st' c) = Some v -> ch_cached_vis (chst st c) = Some v
    \/ forall r, compat (vreads cfg (QCVis c)) st r -> d_cvis cfg r c = v;
  g_new_csel : forall c v, ch_cached_selection (chst st' c) = Some v -> ch_cached_selection (chst st c) = Some v
    \/ forall r, compat (vreads cfg (QCSel c)) st r -> d_csel cfg U r c = v;
  g_new_casg : forall c v, ch_cached_assignable (chst st' c) = Some v -> ch_cached_assignable (chst st c) = Some v
    \/ forall r, compat (careads cfg c) st r -> d_cassignable cfg r c = v;
  g_flags : Flags cfg st';
}.

Lemma grown_agrees st st' q : Inv st -> grown st st' -> agrees cfg st' rho q.
Proof.
  intros H G. pose proof (inv_model _ _ _ _ H) as Hq.
  pose proof (fun L => model_agrees st L H) as Hr.
  assert (Hc : forall c, agrees cfg st' rho (QCVis c)).
  { intros c v Hv. destruct (g_new_cvis _ _ G c v Hv) as [Ho|Hn]; [by apply (Hq (QCVis c))|].
    rewrite (model_cvis _ _ _ HM). auto. }
  assert (Ht : forall s, agrees cfg st' rho (QTri s)).
  { intros s v Hv. destruct (g_new_tri _ _ G s v Hv) as [Ho|Hn]; [by apply (Hq (QTri s))|].
    rewrite (model_tri _ _ _ HM). auto. }
  destruct q as [s|s|s|c|c|c]; auto.
  - intros v Hv. destruct (g_new_str _ _ G s v Hv) as [Ho|Hn]; [by apply (Hq (QStr s))|].
    rewrite (model_str _ _ _ HM). auto.
  - intros v Hv. destruct (g_new_vis _ _ G s v Hv) as [Ho|Hn]; [by apply (Hq (QVis s))|].
    rewrite (model_vis _ _ _ HM). auto.
  - apply agrees_ctri; auto. intros c'. rewrite (g_mode _ _ G). apply H.
  - intros v Hv. destruct (g_new_csel _ _ G c v Hv) as [Ho|Hn]; [by apply (Hq (QCSel c))|].
    rewrite (model_csel _ _ _ HM). auto.
Qed.

Lemma grown_sub st st' : Inv st -> grown st st' -> sub st st'.
Proof.
  intros H G. pose proof (fun q => grown_agrees st st' q H G) as Hn.
  pose proof (inv_model _ _ _ _ H) as Ho. pose proof (fun L => model_agrees st L H) as Hr.
  split; [intros s v Hv..|intros c v Hv|intros c v Hv|intros c v Hv|apply (g_mode _ _ G)].
  - destruct (g_tri _ _ G s) as [v' E]; [by eauto|]. rewrite E.
    by rewrite <- (Hn (QTri s) v' E), (Ho (QTri s) v Hv).
  - destruct (g_str _ _ G s) as [v' E]; [by eauto|]. rewrite E.
    by rewrite <- (Hn (QStr s) v' E), (Ho (QStr s) v Hv).
  - destruct (g_vis _ _ G s) as [v' E]; [by eauto|]. rewrite E.
    by rewrite <- (Hn (QVis s) v' E), (Ho (QVis s) v Hv).
  - destruct (g_asg _ _ G s) as [v' E]; [by eauto|].
    destruct (g_new_asg _ _ G s v' E) as [E'|E']; [congruence|].
    rewrite E, (inv_assignable _ _ _ _ H s v Hv). f_equal. symmetry. auto.
  - destruct (g_cvis _ _ G c) as [v' E]; [by eauto|]. rewrite E.
    by rewrite <- (Hn (QCVis c) v' E), (Ho (QCVis c) v Hv).
  - destruct (g_csel _ _ G c) as [v' E]; [by eauto|]. rewrite E.
    by rewrite <- (Hn (QCSel c) v' E), (Ho (QCSel c) v Hv).
  - destruct (g_casg _ _ G c) as [v' E]; [by eauto|].
    destruct (g_new_casg _ _ G c v' E) as [E'|E']; [congruence|].
    rewrite E, (inv_cassignable _ _ _ _ H c v Hv). f_equal. symmetry. auto.
Qed.

Lemma grown_inv st st' : Inv st -> grown st st' -> Inv st' /\ sub st st'.
Proof.
  intros H G. pose proof (grown_sub st st' H G) as Hs. split; [|done].
  assert (HC : forall L r, compat L st' r -> compat L st r) by (intros; by eapply compat_sub).
  pose proof (fun q => grown_agrees st st' q H G) as Hn. pose proof (fun L => model_agrees st L H) as Hr.
  destruct H as [I1 I2 I3 I4 I5 I6 [D1 D2 D3 D4 D5 D6 D7 D8] IF]. split; auto.
  - intros s. rewrite (g_user _ _ G). auto.
  - intros c. rewrite (g_mode _ _ G). auto.
  - intros c. rewrite (g_sel _ _ G). auto.
  - intros s l Hl. destruct (g_new_asg _ _ G s l Hl); [auto|]. symmetry. auto.
  - intros s l Hl. destruct (g_new_casg _ _ G s l Hl); [auto|]. symmetry. auto.
  - split.
    + intros s v Hv. destruct (g_new_tri _ _ G s v Hv); eauto.
    + intros s Hv. destruct (g_new_wtc _ _ G s Hv) as [Hk|[b Hb]]; [|by eauto].
      destruct (D2 s Hk) as [b Hb]; eauto.
    + intros s v Hv. destruct (g_new_str _ _ G s v Hv); eauto.
    + intros s v Hv. destruct (g_new_vis _ _ G s v Hv); eauto.
    + intros s v Hv. destruct (g_new_asg _ _ G s v Hv); eauto.
    + intros s v Hv. destruct (g_new_cvis _ _ G s v Hv); eauto.
    + intros s v Hv. destruct (g_new_csel _ _ G s v Hv); eauto.
    + intros s v Hv. destruct (g_new_casg _ _ G s v Hv); eauto.
  - apply (g_flags _ _ G).
Qed.

Ltac grow :=
  intros; unfold value_known in *; autorewrite with kst in *; repeat case_decide; subst; simpl in *;
  simplify_eq; eauto.
Ltac grow_tac H := destruct (inv_flags _ _ _ _ H); split; [grow..|split; grow].

Lemma keeps_write (f : State -> State) : (forall st, Inv st -> grown st (f st)) -> keeps (modify f).
Proof. intros Hf st rx st' H [= <- <-]. destruct (grown_inv _ _ H (Hf st H)). by split_and!. Qed.

Lemma keeps_wtc s b : keeps (sput (set_write_to_conf b) s).
Proof. apply keeps_write. intros st H. grow_tac H. Qed.

Lemma keeps_warn msg : keeps (warn msg).
Proof. apply keeps_write. intros st H. destruct (st_warn st); grow_tac H. Qed.

Lemma put_vis s v st :
  Inv st -> (forall r, compat (vreads cfg (QVis s)) st r -> d_vis cfg r s = v) ->
  grown st (alter_sym (set_cached_vis (Some v)) s st).
Proof. intros H Hd. grow_tac H. Qed.

Lemma put_assignable s v st :
  Inv st -> (forall r, compat (areads cfg s) st r -> d_assignable cfg r s = v) ->
  (is_bool_tristate (sym_orig_type (sym cfg s)) = true -> is_Some (cached_vis (symst st s))) ->
  grown st (alter_sym (set_cached_assignable (Some v)) s st).
Proof. intros H Hd Hf. grow_tac H. Qed.

Lemma put_cvis c v st :
  Inv st -> (forall r, compat (vreads cfg (QCVis c)) st r -> d_cvis cfg r c = v) ->
  grown st (alter_choice (set_ch_cached_vis (Some v)) c st).
Proof. intros H Hd. grow_tac H. Qed.

Lemma put_csel c v st :
  Inv st -> (forall r, compat (vreads cfg (QCSel c)) st r -> d_csel cfg U r c = v) ->
  is_Some (ch_cached_vis (chst st c)) ->
  grown st (alter_choice (set_ch_cached_selection (Some v)) c st).
Proof. intros H Hd Hf. grow_tac H. Qed.

Lemma put_cassignable c v st :
  Inv st -> (forall r, compat (careads cfg c) st r -> d_cassignable cfg r c = v) ->
  is_Some (ch_cached_vis (chst st c)) ->
  grown st (alter_choice (set_ch_cached_assignable (Some v)) c st).
Proof. intros H Hd Hf. grow_tac H. Qed.

(** Storing a value that decides [_write_to_conf] *)
Lemma put_tri s v st :
  Inv st -> (forall r, compat (vreads cfg (QTri s)) st r -> d_tri cfg U r s = v) ->
  (is_bool_tristate (sym_orig_type (sym cfg s)) = true -> is_Some (cached_vis (symst st s)) /\
    exists b, forall r, compat (vreads cfg (QTri s)) st r -> d_wtc cfg U r s = b) ->
  grown st (alter_sym (set_cached_tri_val (Some v)) s st).
Proof.
  intros H Hd Hf. destruct (inv_flags _ _ _ _ H).
  split; try (by grow); [|split; grow; by destruct (Hf ltac:(done))].
  intros s' Hk. destruct (decide (s = s')) as [<-|Hne]; [|left; by grow].
  destruct (is_bool_tristate (sym_orig_type (sym cfg s))) eqn:Ht.
  - destruct (Hf eq_refl) as [_ [b Hb]]. right. exists b. unfold writer. by rewrite Ht.
  - left. unfold value_known in *. autorewrite with kst in Hk. rewrite decide_True in Hk by done.
    by destruct (sym_orig_type (sym cfg s)).
Qed.

Lemma put_str s v st :
  Inv st -> (forall r, compat (vreads cfg (QStr s)) st r -> d_str cfg U r s = v) ->
  (sym_orig_type (sym cfg s) <> UNKNOWN -> is_tri_const cfg s = false -> is_Some (cached_vis (symst st s))) ->
  (is_bool_tristate (sym_orig_type (sym cfg s)) = false -> sym_orig_type (sym cfg s) <> UNKNOWN ->
    exists b, forall r, compat (vreads cfg (QStr s)) st r -> d_wtc cfg U r s = b) ->
  grown st (alter_sym (set_cached_str_val (Some v)) s st).
Proof.
  intros H Hd Hf Hw. destruct (inv_flags _ _ _ _ H).
  split; try (by grow); [|split; grow].
  intros s' Hk. destruct (decide (s = s')) as [<-|Hne]; [|left; by grow].
  destruct (is_bool_tristate (sym_orig_type (sym cfg s))) eqn:Ht.
  - left. unfold value_known in *. autorewrite with kst in Hk. rewrite decide_True in Hk by done.
    by destruct (sym_orig_type (sym cfg s)).
  - destruct (decide (sym_orig_type (sym cfg s) = UNKNOWN)) as [Hu|Hu].
    + left. unfold value_known. by rewrite Hu.
    + right. destruct (Hw eq_refl Hu) as [b Hb]. exists b. unfold writer. by rewrite Ht.
Qed.

(** *** The bodies, given what the property accesses leave in the caches *)

Definition finds {A} (m : K A) (look : State -> option A) : Prop :=
  keeps m /\ forall st x st', Inv st -> m st = (Ok x, st') -> look st' = Some x.

Section Body.
Context (E : evaluator).

Record found : Prop := {
  find_tri : forall s, finds (ev_tri E s) (fun st => cached_tri_val (symst st s));
  find_str : forall s, finds (ev_str E s) (fun st => cached_str_val (symst st s));
  find_vis : forall s, finds (ev_vis E s) (fun st => cached_vis (symst st s));
  find_ctri : forall c, finds (ev_ctri E c) (fun st => cached_ctri cfg st c);
  find_cvis : forall c, finds (ev_cvis E c) (fun st => ch_cached_vis (chst st c));
  find_csel : forall c, finds (ev_csel E c) (fun st => ch_cached_selection (chst st c));
}.
Context (HE : found) (L : list query).

Lemma finds_gives {A} (m : K A) look (h : valuation -> A) q P :
  finds m look -> In q L -> (forall st r v, agrees cfg st r q -> look st = Some v -> h r = v) ->
  gives L P m h.
Proof.
  intros [Km Fm] Hq Hl. split; [done|]. intros st x st' H Em. exists x. split; [done|].
  intros r [_ Ha] _. eapply Hl; [by apply Ha|]. by eapply Fm.
Qed.

Lemma gives_tri P s : In (QTri s) L -> gives L P (ev_tri E s) (fun r => v_tri r s).
Proof. intros H. eapply finds_gives; [apply (find_tri HE)|exact H|]. simpl. auto. Qed.
Lemma gives_str P s : In (QStr s) L -> gives L P (ev_str E s) (fun r => v_str r s).
Proof. intros H. eapply finds_gives; [apply (find_str HE)|exact H|]. simpl. auto. Qed.
Lemma gives_vis P s : In (QVis s) L -> gives L P (ev_vis E s) (fun r => v_vis r s).
Proof. intros H. eapply finds_gives; [apply (find_vis HE)|exact H|]. simpl. auto. Qed.
Lemma gives_ctri P c : In (QCTri c) L -> gives L P (ev_ctri E c) (fun r => v_ctri r c).
Proof. intros H. eapply finds_gives; [apply (find_ctri HE)|exact H|]. simpl. auto. Qed.
Lemma gives_cvis P c : In (QCVis c) L -> gives L P (ev_cvis E c) (fun r => v_cvis r c).
Proof. intros H. eapply finds_gives; [apply (find_cvis HE)|exact H|]. simpl. auto. Qed.
Lemma gives_csel P c : In (QCSel c) L -> gives L P (ev_csel E c) (fun r => v_csel r c).
Proof. intros H. eapply finds_gives; [apply (find_csel HE)|exact H|]. simpl. auto. Qed.

Lemma gives_tri_to_str P v : gives L P (tri_to_str v) (fun _ => default "" (TRI_TO_STR v)).
Proof.
  unfold tri_to_str. destruct (TRI_TO_STR v); [by eapply spec_ret|by eapply spec_raise].
Qed.

(** [sym_to_num] is the one place that raises [ValueError] on purpose *)
Definition tries {A} (m : K A) (h : valuation -> option A) : Prop :=
  forall st rx st', Inv st -> m st = (rx, st') -> Inv st' /\ sub st st' /\
    match rx with
    | Ok x => forall r, compat L st' r -> h r = Some x
    | Err ValueError => forall r, compat L st' r -> h r = None
    | Err _ => True
    end.

Lemma tries_sym_to_num s :
  In (QTri s) L -> In (QStr s) L -> tries (sym_to_num cfg E s) (fun r => d_num cfg r s).
Proof.
  intros Ht Hs st rx st' H. unfold sym_to_num, d_num. destruct (is_bool_tristate _).
  - intros Em. destruct (gives_tri (fun _ => True) s Ht) as [K1 G1].
    destruct (K1 _ _ _ H Em) as (H1 & S1 & He). split_and!; [done..|].
    destruct rx as [x|e]; [|by destruct e].
    destruct (G1 _ _ _ H Em) as (b & <- & Hb). intros r Hr. by rewrite Hb.
  - cbv [mbind K_bind M_bind]. destruct (gives_str (fun _ => True) s Hs) as [K1 G1].
    destruct (ev_str E s st) as [[v|e] st1] eqn:Em; destruct (K1 _ _ _ H Em) as (H1 & S1 & He).
    + destruct (G1 _ _ _ H Em) as (b & <- & Hb).
      destruct (py_int v _) as [z|] eqn:Hz; intros [= <- <-]; split_and!; try done;
        intros r Hr; by rewrite (Hb r Hr I).
    + intros [= <- <-]. split_and!; [done..|]. by destruct e.
Qed.

Lemma tries_bind {A B} (m : K A) (k : A -> K B) h h' :
  tries m h -> (forall a, tries (k a) (h' a)) -> tries (m ≫= k) (fun r => a ← h r; h' a r).
Proof.
  intros Hm Hk st rx st' H. cbv [mbind K_bind M_bind option_bind].
  destruct (m st) as [[a|e] st1] eqn:Em; destruct (Hm _ _ _ H Em) as (H1 & S1 & R1).
  - intros Ek. destruct (Hk a _ _ _ H1 Ek) as (H2 & S2 & R2).
    split_and!; [done|by etrans|]. destruct rx as [x|[]]; try done;
      intros r Hr; rewrite (R1 r) by (by eapply compat_sub); by apply R2.
  - intros [= <- <-]. split_and!; [done..|]. destruct e; try done. intros r Hr. by rewrite R1.
Qed.

Lemma gives_try P {A} (m : K A) h : tries m h -> gives L P (try_value_error m) h.
Proof.
  intros Hm. unfold try_value_error. split.
  - intros st rx st' H Em. destruct (m st) as [[a|e] st1] eqn:E1;
      destruct (Hm _ _ _ H E1) as (H1 & S1 & R1); [injection Em as <- <-; done|].
    destruct e; injection Em as <- <-; split_and!; done.
  - intros st x st' H Em. destruct (m st) as [[a|e] st1] eqn:E1;
      destruct (Hm _ _ _ H E1) as (H1 & S1 & R1).
    + injection Em as <- <-. eauto.
    + destruct e; try done. injection Em as <- <-. eauto.
Qed.

(** Rewrites with what is known about the valuation [r] *)
Ltac use_facts :=
  intros; destruct_and?; cbv beta in *;
  repeat match goal with H : _ = _ |- _ => rewrite H end; simpl.
Ltac ret_tac := eapply spec_ret; [reflexivity|use_facts; try done].
Ltac tail_tac H :=
  eapply gives_tail; [by eapply H|]; intros ?x; exists x; split; [reflexivity|use_facts; try done].
Ltac bind_tac H := eapply spec_bind; [by eapply H|]; intros ?x ? <-.

Lemma gives_rel_comp P s1 s2 :
  incl [QTri s1; QTri s2; QStr s1; QStr s2] L ->
  gives L P (rel_comp cfg E s1 s2) (fun r => d_comp cfg r s1 s2).
Proof.
  intros Hi. assert (Ht1 : In (QTri s1) L) by (apply Hi; simpl; auto).
  assert (Ht2 : In (QTri s2) L) by (apply Hi; simpl; auto).
  assert (Hs1 : In (QStr s1) L) by (apply Hi; simpl; auto).
  assert (Hs2 : In (QStr s2) L) by (apply Hi; simpl; auto).
  assert (Hstr : forall P, gives L P (v1 ← ev_str E s1; v2 ← ev_str E s2; mret (strcmp v1 v2))
                   (fun r => strcmp (v_str r s1) (v_str r s2))).
  { intros P'. bind_tac gives_str. bind_tac gives_str. ret_tac. }
  unfold rel_comp, d_comp. destruct (_ && _); [apply Hstr|].
  eapply spec_bind.
  { apply gives_try. apply (tries_bind _ _ (fun r => d_num cfg r s1) (fun a r => b ← d_num cfg r s2; Some (a - b)));
      [by apply tries_sym_to_num|].
    intros a. apply (tries_bind _ _ (fun r => d_num cfg r s2) (fun b r => Some (a - b)));
      [by apply tries_sym_to_num|].
    intros b st rx st' H [= <- <-]. done. }
  intros o ? <-. destruct o as [c|].
  - eapply spec_ret; [reflexivity|]. intros r _ [_ Hr]. cbv [mbind option_bind] in Hr.
    destruct (d_num cfg r s1), (d_num cfg r s2); try done. by injection Hr.
  - eapply gives_tail; [apply Hstr|]. intros c. exists c. split; [done|].
    intros r _ [_ Hr] Hc. cbv [mbind option_bind] in Hr.
    by destruct (d_num cfg r s1), (d_num cfg r s2).
Qed.

Lemma d_expr_tri r e : tri_valued r -> 0 <= d_expr cfg r e <= 2.
Proof. intros Hr. apply expr_bounded, Forall_forall. intros q _. apply Hr. Qed.

Lemma gives_expr P e : incl (expr_reads e) L -> gives L P (expr_value cfg E e) (fun r => d_expr cfg r e).
Proof.
  revert P. induction e as [[s|c]|e1 IH1 e2 IH2|e1 IH1 e2 IH2|e1 IH1|rel s1 s2];
    cbn [expr_reads expr_value d_expr d_item]; intros P Hi.
  - apply gives_tri, Hi. by left.
  - apply gives_ctri, Hi. by left.
  - apply incl_app_inv in Hi as [Hi1 Hi2]. eapply spec_bind; [by apply IH1|]. intros v1 ? <-.
    destruct (Z.eqb_spec v1 0) as [->|].
    + eapply spec_ret; [reflexivity|]. intros r Hb [_ ->]. pose proof (d_expr_tri r e2 Hb). lia.
    + eapply spec_bind; [by apply IH2|]. intros v2 ? <-. ret_tac.
  - apply incl_app_inv in Hi as [Hi1 Hi2]. eapply spec_bind; [by apply IH1|]. intros v1 ? <-.
    destruct (Z.eqb_spec v1 2) as [->|].
    + eapply spec_ret; [reflexivity|]. intros r Hb [_ ->]. pose proof (d_expr_tri r e2 Hb). lia.
    + eapply spec_bind; [by apply IH2|]. intros v2 ? <-. ret_tac.
  - eapply spec_bind; [by apply IH1|]. intros v1 ? <-. ret_tac.
  - eapply spec_bind; [by apply gives_rel_comp|]. intros v1 ? <-. ret_tac.
Qed.

Lemma gives_type P s : incl (type_reads cfg s) L -> gives L P (sym_type cfg E s) (fun r => d_type cfg r s).
Proof.
  intros Hi. unfold sym_type, d_type, type_reads in *. destruct (type_eqb _ TRISTATE) eqn:Ht; [|ret_tac].
  apply type_eqb_eq in Ht. rewrite Ht. apply incl_app_inv in Hi as [Hc Hm].
  eapply (spec_bind _ _ _ _ (fun r => match sym_choice (sym cfg s) with
            Some c => v_ctri r c =? 2 | None => false end) _ eq).
  { destruct (sym_choice (sym cfg s)) as [c|]; [|ret_tac].
    eapply spec_bind; [apply gives_ctri, Hc; by left|]. intros v ? <-. ret_tac. }
  intros b ? <-. destruct b; [ret_tac|].
  eapply spec_bind; [apply gives_tri, Hm; by left|]. intros m ? <-. unfold modules_off. ret_tac.
Qed.

Lemma gives_ctype P c : incl (ctype_reads cfg c) L -> gives L P (ch_type cfg E c) (fun r => d_ctype cfg r c).
Proof.
  intros Hi. unfold ch_type, d_ctype, ctype_reads in *. destruct (type_eqb _ TRISTATE) eqn:Ht; [|ret_tac].
  apply type_eqb_eq in Ht. rewrite Ht.
  eapply spec_bind; [apply gives_tri, Hi; by left|]. intros m ? <-. unfold modules_off. ret_tac.
Qed.

Lemma gives_prompts P ns :
  incl (prompt_reads cfg ns) L -> gives L P (prompts_value cfg E ns) (fun r => d_prompts cfg r ns).
Proof.
  intros Hi. apply gives_foldM. intros P' n vis Hn.
  assert (Hin : forall q, In q (match nd_prompt (node cfg n) with
                  Some (_, cond) => expr_reads cond | None => [] end) -> In q L).
  { intros q Hq. apply Hi, in_flat_map. eauto. }
  destruct (nd_prompt (node cfg n)) as [[p cond]|]; [|ret_tac].
  eapply spec_bind; [by apply gives_expr|]. intros v ? <-. ret_tac.
Qed.

Lemma gives_vis_ P s :
  incl (reads cfg (QVis s)) L -> gives L P (sym_visibility_ cfg E s) (fun r => d_vis cfg r s).
Proof.
  cbn [reads]. intros (Hp & Hi)%incl_app_inv. apply incl_app_inv in Hi as (Ht & Hc).
  unfold sym_visibility_, d_vis.
  eapply spec_bind; [by apply gives_prompts|]. intros vis ? <-.
  eapply (spec_bind _ _ _ _ (fun r => d_hidden cfg r s vis) _ eq).
  { unfold d_hidden. destruct (sym_choice (sym cfg s)) as [c|]; [|ret_tac].
    assert (Hc' : In (QCTri c) L) by (apply Hc; by left).
    destruct (type_eqb (ch_orig_type _) TRISTATE); destruct (type_eqb (sym_orig_type _) TRISTATE); simpl.
    - apply spec_bind_ret.
      destruct (vis =? 1); [|ret_tac]. bind_tac gives_ctri. ret_tac.
    - eapply spec_bind; [bind_tac gives_ctri; by eapply (spec_ret _ _ _ (fun r => negb (v_ctri r c =? 2)) eq); [|use_facts]|].
      intros h ? <-. destruct h; ret_tac.
    - apply spec_bind_ret.
      destruct (vis =? 1); [|ret_tac]. bind_tac gives_ctri. ret_tac.
    - apply spec_bind_ret. ret_tac. }
  intros h ? <-. destruct h; [ret_tac|].
  destruct (Z.eqb_spec vis 1) as [->|Hv].
  - eapply spec_bind; [by apply gives_type|]. intros t ? <-. ret_tac. by destruct (type_eqb t TRISTATE).
  - ret_tac. by rewrite (proj2 (Z.eqb_neq _ _) Hv).
Qed.

Lemma gives_cvis_ P c :
  incl (vreads cfg (QCVis c)) L -> gives L P (ch_visibility_ cfg E c) (fun r => d_cvis cfg r c).
Proof.
  cbn [vreads reads]. intros (Hp & Ht)%incl_app_inv. unfold ch_visibility_, d_cvis.
  eapply spec_bind; [by apply gives_prompts|]. intros vis ? <-.
  destruct (Z.eqb_spec vis 1) as [->|Hv].
  - eapply spec_bind; [by apply gives_ctype|]. intros t ? <-. ret_tac. by destruct (type_eqb t TRISTATE).
  - ret_tac. by rewrite (proj2 (Z.eqb_neq _ _) Hv).
Qed.

(** The mode of a choice: its cached ingredients determine it *)
Lemma finds_ch_tri_value c : finds (ch_tri_value cfg E c) (fun st => cached_ctri cfg st c).
Proof.
  assert (Kt : forall c, keeps (ch_type cfg E c)).
  { intros c'. unfold ch_type. destruct (type_eqb _ _); [|apply keeps_ret].
    apply keeps_bind; [apply (find_tri HE)|]. intros. apply keeps_ret. }
  split.
  { apply keeps_bind; [apply keeps_gets|]. intros u. apply keeps_bind; [apply (find_cvis HE)|].
    intros vis. cbv zeta. destruct (_ =? 1); [|apply keeps_ret].
    apply keeps_bind; [apply Kt|]. intros. apply keeps_ret. }
  intros st x st' H. unfold ch_tri_value, cget, gets. cbv [mbind K_bind M_bind].
  destruct (ev_cvis E c st) as [[vis|e] st1] eqn:E1; [|done].
  destruct (proj1 (find_cvis HE c) _ _ _ H E1) as (H1 & S1 & _).
  pose proof (proj2 (find_cvis HE c) _ _ _ H E1) as F1. unfold cached_ctri.
  rewrite <- (sub_mode _ _ S1). cbv zeta. set (val := Z.min _ vis).
  destruct (val =? 1) eqn:Hval.
  - unfold ch_type. destruct (type_eqb (ch_orig_type (chc cfg c)) TRISTATE) eqn:Ht.
    + apply type_eqb_eq in Ht. cbv [mbind K_bind M_bind].
      destruct (ev_tri E (c_modules cfg) st1) as [[m|e] st2] eqn:E2; [|done].
      destruct (proj1 (find_tri HE _) _ _ _ H1 E2) as (H2 & S2 & _).
      pose proof (proj2 (find_tri HE _) _ _ _ H1 E2) as F2. simpl.
      intros Ex. assert (st' = st2) as -> by (destruct (_ =? 0); by injection Ex).
      rewrite (sub_cvis _ _ S2 _ _ F1), (sub_mode _ _ S2). fold val. rewrite Hval, F2. simpl.
      apply Z.eqb_eq in Hval. rewrite ?Ht. destruct (m =? 0); injection Ex as <-; simpl; congruence.
    + intros [= <- <-]. rewrite F1. fold val. rewrite Hval.
      apply Z.eqb_eq in Hval. rewrite Hval. by destruct (ch_orig_type (chc cfg c)).
  - intros [= <- <-]. rewrite F1. fold val. by rewrite Hval.
Qed.

Lemma gives_if_visible P s :
  In (QVis s) L ->
  gives L P (vis ← ev_vis E s; mret (if vis =? 0 then None else Some s)) (fun r => if_visible r s).
Proof. intros Hs. bind_tac gives_vis. unfold if_visible. ret_tac. Qed.

Lemma gives_csel_ P c :
  incl (vreads cfg (QCSel c)) L -> gives L P (ch_selection_ cfg E c) (fun r => d_csel cfg U r c).
Proof.
  cbn [vreads reads]. intros Hi.
  assert (Hc : In (QCTri c) L) by (apply Hi; by left).
  assert (Hs : forall s, In s (ch_syms (chc cfg c)) -> In (QVis s) L).
  { intros s Hs. apply Hi. right. apply in_or_app. left. by apply in_map. }
  assert (Hd : forall d cond, In (d, cond) (ch_defaults (chc cfg c)) -> incl (expr_reads cond) L
                 /\ match d with EItem (ISym s) => In (QVis s) L | _ => True end).
  { intros d cond Hin. split.
    - intros q Hq. apply Hi. right. apply in_or_app. right. apply in_flat_map.
      exists (d, cond). split; [done|]. apply in_or_app. by left.
    - destruct d as [[s|]| | | |]; try done. apply Hi. right. apply in_or_app. right. apply in_flat_map.
      exists (ESym s, cond). split; [done|]. apply in_or_app. right. by left. }
  unfold ch_selection_, d_csel. bind_tac gives_ctri.
  destruct (negb _) eqn:Hy; [ret_tac; by rewrite Hy|].
  apply spec_bind_sel.
  eapply (spec_bind _ _ _ _ (fun r => match u_sel U c with Some s => if_visible r s | None => None end) _ eq).
  { destruct (u_sel U c) as [s|] eqn:Hu; [|ret_tac]. apply gives_if_visible, Hs. by apply (wt_sel _ _ WT). }
  intros user ? <-. destruct user as [s|].
  { ret_tac. }
  unfold selection_from_defaults.
  eapply (spec_bind _ _ _ _ (fun r => first_some (d_sel_pick cfg r) (ch_defaults (chc cfg c))) _ eq).
  { apply gives_first_some. intros P' [d cond] Hin. destruct (Hd d cond Hin) as [Hcond Hsym].
    destruct (wf_ch_defaults _ WF _ _ _ Hin) as [s ->]. unfold d_sel_pick. simpl.
    eapply spec_bind; [by apply gives_expr|]. intros v ? <-.
    destruct (v =? 0) eqn:Hv; [ret_tac|].
    eapply gives_tail; [by apply gives_if_visible|]. intros o. exists o. split; [done|].
    by use_facts. }
  intros o ? <-. destruct o as [s|]; [unfold d_sel_default; ret_tac|].
  eapply gives_tail; [apply (gives_first_some _ _ _ (fun r s => if_visible r s)); intros; apply gives_if_visible; auto|].
  intros o. exists o. split; [done|]. unfold d_sel_default. by use_facts.
Qed.
End Body.

Ltac use_facts :=
  intros; destruct_and?; cbv beta in *;
  repeat match goal with H : _ = _ |- _ => rewrite H end; simpl.
Ltac ret_tac := eapply spec_ret; [reflexivity|use_facts; try done].

Section Values.
Context (E : evaluator) (HE : found E) (L : list query).

Lemma keeps_expr e : keeps (expr_value cfg E e).
Proof. eapply spec_keeps, (gives_expr E HE (expr_reads e) (fun _ => True)), incl_refl. Qed.

Lemma keeps_tri_to_str v : keeps (tri_to_str v).
Proof. unfold tri_to_str. destruct (TRI_TO_STR v); [apply keeps_ret|by apply keeps_raise]. Qed.

Lemma keeps_warn_select s : keeps (warn_select_unsatisfied_deps cfg E s).
Proof.
  pose proof (fun s => proj1 (find_str E HE s)) as Hstr.
  unfold warn_select_unsatisfied_deps. repeat (apply keeps_bind; [apply keeps_expr || apply keeps_tri_to_str|intros]).
  apply keeps_bind; [|intros; apply keeps_warn]. apply keeps_foldM. intros sel msg.
  repeat (apply keeps_bind; [apply keeps_expr|intros]). destruct (_ <=? _); [apply keeps_ret|].
  destruct (first_and sel) as [[t|]| | | |]; try by apply keeps_raise.
  apply keeps_bind; [apply Hstr|intros]. repeat (apply keeps_bind; [apply keeps_expr || apply keeps_tri_to_str|intros]).
  cbv zeta. destruct sel; try apply keeps_ret;
    repeat (apply keeps_bind; [apply keeps_expr || apply keeps_tri_to_str|intros]); apply keeps_ret.
Qed.

(** A step whose result is not used *)
Lemma spec_seq P {A B} (m : K unit) (k : K A) (h : valuation -> B) phi :
  keeps m -> spec L P k h phi -> spec L P (m;; k) h phi.
Proof.
  intros Km Sk. eapply spec_bind; [by apply spec_any|]. intros [] ? _.
  eapply spec_weaken; [exact Sk|]. by intros r [? _].
Qed.

Lemma spec_tri_user_or_default P s vis :
  incl (flat_map (fun '(d, cond) => expr_reads d ++ expr_reads cond) (sym_defaults (sym cfg s))) L ->
  incl (expr_reads (sym_weak_rev_dep (sym cfg s))) L ->
  incl (expr_reads (sym_direct_dep (sym cfg s))) L ->
  (forall r, P r -> v_vis r s = vis) ->
  spec L P (tri_user_or_default cfg E s vis)
    (fun r => (d_unselected cfg U r s, d_wtc_unselected cfg U r s)) (fun a b => a = b.1).
Proof.
  intros Hdef Hw Hd Hvis. unfold tri_user_or_default, d_unselected, d_wtc_unselected.
  apply spec_bind_user. destruct (vis =? 0) eqn:Hv0; [|destruct (u_sym U s) as [[uv|]|] eqn:Hu].
  2: { eapply (spec_ret _ _ _ _ _ (_, _)); [reflexivity|]. intros r _ Pr. unfold d_user.
       by rewrite Hu, (Hvis r Pr), Hv0. }
  2: { by apply spec_raise. }
  all: assert (Hno : forall r, P r -> d_user U r s = None)
    by (intros r Pr; unfold d_user; rewrite (Hvis r Pr), ?Hu, ?Hv0; by destruct (u_sym U s) as [[]|]).
  all: eapply (spec_bind _ _ _ _ (fun r => d_tri_default cfg r s) _ eq);
    [apply (gives_first_some _ _ _ (fun r => d_tri_pick cfg r)); intros P' [d cond] Hin;
     assert (Hdc : incl (expr_reads d) L /\ incl (expr_reads cond) L)
       by (split; intros q Hq; apply Hdef, in_flat_map; exists (d, cond); (split; [done|]); apply in_or_app; auto);
     destruct Hdc as [H1 H2]; unfold d_tri_pick; simpl;
     eapply spec_bind; [by apply gives_expr|]; intros c ? <-; destruct (c =? 0) eqn:Hc;
     [ret_tac|]; eapply spec_bind; [by apply gives_expr|]; intros dv ? <-; cbv zeta;
     apply spec_seq; [apply keeps_when, keeps_wtc|]; ret_tac
    |intros o ? <-].
  all: eapply spec_bind; [by apply gives_expr|]; intros w ? <-; cbv zeta;
    destruct (w =? 0) eqn:Hw0;
    [eapply (spec_ret _ _ _ _ _ (_, _)); [reflexivity|]; intros r _ [[Pr Ho] Hwr];
     rewrite (Hno r Pr), Ho; unfold d_implied; rewrite Hwr; apply Z.eqb_eq in Hw0 as ->;
     destruct (d_expr cfg r (sym_direct_dep (sym cfg s)) =? 0); simpl; reflexivity|].
  all: eapply spec_bind; [by apply gives_expr|]; intros dd ? <-; destruct (dd =? 0) eqn:Hd0;
    [eapply (spec_ret _ _ _ _ _ (_, _)); [reflexivity|]; intros r _ [[[Pr Ho] Hwr] Hdr];
     rewrite (Hno r Pr), Ho; unfold d_implied; rewrite Hdr, Hd0; simpl; reflexivity|];
    apply spec_seq; [apply keeps_wtc|];
    eapply (spec_ret _ _ _ _ _ (_, _)); [reflexivity|]; intros r _ [[[Pr Ho] Hwr] Hdr];
    rewrite (Hno r Pr), Ho; unfold d_implied; rewrite Hdr, Hd0, Hwr, Hw0; simpl; reflexivity.
Qed.

Lemma spec_tri_apply_select P s val :
  incl (expr_reads (sym_rev_dep (sym cfg s))) L ->
  (forall r, P r -> d_unselected cfg U r s = val) ->
  spec L P (tri_apply_select cfg E s val)
    (fun r => (d_selected cfg U r s, negb (d_expr cfg r (sym_rev_dep (sym cfg s)) =? 0))) (fun a b => a = b.1).
Proof.
  intros Hr Hval. unfold tri_apply_select, d_selected.
  eapply spec_bind; [by apply gives_expr|]. intros rd ? <-. destruct (rd =? 0) eqn:H0.
  { eapply (spec_ret _ _ _ _ _ (_, _)); [reflexivity|]. intros r _ [Pr Hrd]. by rewrite Hrd, H0, (Hval r Pr). }
  eapply spec_bind; [apply spec_any, keeps_expr|]. intros dd ? _.
  apply spec_seq; [apply keeps_when, keeps_warn_select|]. apply spec_seq; [apply keeps_wtc|].
  eapply (spec_ret _ _ _ _ _ (_, _)); [reflexivity|]. intros r _ [[Pr Hrd] _]. by rewrite Hrd, H0, (Hval r Pr).
Qed.

Lemma gives_tri_promote P s val :
  incl (expr_reads (sym_weak_rev_dep (sym cfg s))) L -> incl (type_reads cfg s) L ->
  (forall r, P r -> d_selected cfg U r s = val) ->
  gives L P (tri_promote cfg E s val) (fun r => d_tri_free cfg U r s).
Proof.
  intros Hw Ht Hval. unfold tri_promote, d_tri_free, d_promoted. destruct (val =? 1) eqn:H1.
  - eapply spec_bind; [by apply gives_type|]. intros t ? <-. destruct (type_eqb t BOOL) eqn:Hb.
    { eapply spec_ret; [reflexivity|]. intros r _ [Pr Hty]. by rewrite (Hval r Pr), H1, Hty, Hb. }
    eapply spec_bind; [by apply gives_expr|]. intros w ? <-.
    eapply spec_ret; [reflexivity|]. intros r _ [[Pr Hty] Hwr]. by rewrite (Hval r Pr), H1, Hty, Hb, Hwr.
  - eapply spec_ret; [reflexivity|]. intros r _ Pr. by rewrite (Hval r Pr), H1.
Qed.

Lemma spec_tri_value_ P s vis :
  fixed cfg (QTri s) = false -> is_bool_tristate (sym_orig_type (sym cfg s)) = true ->
  incl (vreads cfg (QTri s)) L -> (forall r, P r -> v_vis r s = vis) ->
  spec L P (tri_value_ cfg E s vis) (fun r => (d_tri cfg U r s, d_wtc cfg U r s)) (fun a b => a = b.1).
Proof.
  intros Hfix Ht Hi Hvis. cbn [vreads] in Hi. rewrite Hfix, Ht in Hi. cbn [negb orb] in Hi.
  unfold tri_value_, d_tri, d_wtc, d_wtc_tri. simpl in Hfix. rewrite Hfix, Ht.
  unfold is_tri_const in Hfix. repeat case_bool_decide; try done. cbn [negb].
  assert (Hu : type_eqb (sym_orig_type (sym cfg s)) UNKNOWN = false)
    by (by destruct (sym_orig_type (sym cfg s))).
  rewrite Hu. destruct (sym_choice (sym cfg s)) as [c|] eqn:Hc; simpl.
  - assert (Hsel : In (QCSel c) L) by (apply Hi; simpl; auto).
    destruct (vis =? 2) eqn:H2.
    + eapply spec_bind; [by apply gives_csel|]. intros sel ? <-.
      eapply (spec_ret _ _ _ _ _ (_, _)); [reflexivity|]. intros r _ [Pr Hr].
      by rewrite (Hvis r Pr), H2, Hr.
    + apply spec_bind_user. eapply (spec_ret _ _ _ _ _ (_, _)); [reflexivity|]. intros r _ Pr.
      by rewrite (Hvis r Pr), H2.
  - apply incl_cons_inv in Hi as [_ Hi]. apply incl_app_inv in Hi as [Hdef Hi].
    apply incl_app_inv in Hi as [Hw Hi]. apply incl_app_inv in Hi as [Hd Hi].
    apply incl_app_inv in Hi as [Hr Hty].
    eapply spec_bind; [by eapply spec_tri_user_or_default|]. intros v1 [v1' b1] ->. simpl.
    eapply spec_bind; [apply (spec_tri_apply_select _ s); [done|]; intros r [_ Hx]; by injection Hx|].
    intros v2 [v2' b2] ->. simpl.
    eapply gives_tail; [apply (gives_tri_promote _ s); [done..|]; intros r [_ Hx]; by injection Hx|].
    intros x. eexists (x, _). split; [reflexivity|]. intros r _ [[Pr Hx1] Hx2] Hx3.
    injection Hx1 as _ Hb1. injection Hx2 as _ Hb2. by rewrite (Hvis r Pr), Hx3, Hb1, Hb2.
Qed.

(** [Symbol.str_value] *)

Lemma gives_num_or_zero P s base :
  In (QStr s) L -> gives L P (num_or_zero E s base) (fun r => d_num_str r base s).
Proof.
  intros Hs. unfold num_or_zero, d_num_str. eapply spec_bind; [by apply gives_str|]. intros v ? <-. ret_tac.
Qed.

Lemma gives_active_range P s :
  incl (flat_map (fun '(l, h, cond) => QStr l :: QStr h :: expr_reads cond) (sym_ranges (sym cfg s))) L ->
  gives L P (active_range cfg E s (TYPE_TO_BASE (sym_orig_type (sym cfg s)))) (fun r => d_range cfg r s).
Proof.
  intros Hi. apply (gives_first_some _ _ _ (fun r => d_range_pick cfg r _)).
  intros P' [[lo hi] cond] Hin.
  assert (Hq : forall q, In q (QStr lo :: QStr hi :: expr_reads cond) -> In q L)
    by (intros q Hq; apply Hi, in_flat_map; by exists (lo, hi, cond)).
  unfold d_range_pick. eapply spec_bind; [apply gives_expr; [done|]; intros q ?; apply Hq; simpl; auto|].
  intros c ? <-. destruct (c =? 0) eqn:Hc; [ret_tac|].
  eapply spec_bind; [apply gives_num_or_zero, Hq; simpl; auto|]. intros low ? <-.
  eapply spec_bind; [apply gives_num_or_zero, Hq; simpl; auto|]. intros high ? <-. ret_tac.
Qed.

Lemma gives_int_hex_user P s range :
  is_int_hex (sym_orig_type (sym cfg s)) = true ->
  (forall r, P r -> v_vis r s = range.1 /\ d_range cfg r s = range.2) ->
  gives L P (int_hex_user cfg s range.1 (TYPE_TO_BASE (sym_orig_type (sym cfg s))) range.2)
       (fun r => d_num_user cfg U r s).
Proof.
  destruct range as [vis range]. simpl. intros Ht Hr. unfold int_hex_user, d_num_user.
  apply spec_bind_user. destruct (negb (vis =? 0) && uval_truthy (u_sym U s)) eqn:Hc.
  2: { eapply spec_ret; [reflexivity|]. intros r _ [-> _]%Hr. by rewrite Hc. }
  destruct (u_sym U s) as [[z|x]|] eqn:Hu; [by apply spec_raise| |by apply spec_raise].
  pose proof (wt_sym _ _ WT s _ Hu) as Hx.
  assert (Hn : is_Some (py_int x (TYPE_TO_BASE (sym_orig_type (sym cfg s)))))
    by (apply is_base_n_py_int; by destruct (sym_orig_type (sym cfg s))).
  destruct Hn as [n Hn]. rewrite Hn. destruct (in_range range n) eqn:Hin.
  { eapply spec_ret; [reflexivity|]. intros r _ [-> ->]%Hr. by rewrite Hc, Hin. }
  destruct range as [[lo hi]|].
  - apply spec_seq; [apply keeps_warn|]. eapply spec_ret; [reflexivity|].
    intros r _ [-> ->]%Hr. by rewrite Hc, Hin.
  - eapply spec_ret; [reflexivity|]. intros r _ [-> ->]%Hr. by rewrite Hc, Hin.
Qed.

Lemma gives_default_str P d :
  incl (default_str_reads d) L -> gives L P (default_str_value E d) (fun r => d_default_str r d).
Proof.
  intros Hi. destruct d as [[s|c]| | | |]; simpl in *; try by apply spec_raise.
  - apply gives_str; [done|]. apply Hi. by left.
  - eapply spec_bind; [apply gives_ctri; [done|]; apply Hi; by left|]. intros v ? <-.
    eapply gives_tail; [apply gives_tri_to_str|]. intros t. exists t. split; [done|].
    intros r _ [_ ->]. by intros <-.
Qed.

(** The loop over the defaults of an int, hex or string symbol *)
Lemma gives_str_default_loop P s (w : K unit) (after : bool) :
  incl (flat_map (fun '(d, cond) => default_str_reads d ++ expr_reads cond) (sym_defaults (sym cfg s))) L ->
  keeps w ->
  gives L P (first_someM (fun '(d, cond) =>
      c ← expr_value cfg E cond;
      if c =? 0 then mret None
      else if after then v ← default_str_value E d; w;; mret (Some v)
           else w;; v ← default_str_value E d; mret (Some v)) (sym_defaults (sym cfg s)))
    (fun r => d_str_default cfg r s).
Proof.
  intros Hi Kw. apply (gives_first_some _ _ _ (fun r => d_str_pick cfg r)). intros P' [d cond] Hin.
  assert (Hq : forall q, In q (default_str_reads d ++ expr_reads cond) -> In q L)
    by (intros q Hq; apply Hi, in_flat_map; by exists (d, cond)).
  unfold d_str_pick. simpl.
  eapply spec_bind; [apply gives_expr; [done|]; intros q ?; apply Hq, in_or_app; auto|].
  intros c ? <-. destruct (c =? 0) eqn:Hc; [ret_tac|].
  assert (Hd : incl (default_str_reads d) L) by (intros q ?; apply Hq, in_or_app; auto).
  destruct after; [|apply spec_seq; [done|]];
    (eapply spec_bind; [by apply gives_default_str|]; intros v ? <-);
    [apply spec_seq; [done|]|]; ret_tac.
Qed.

Lemma spec_int_hex_value P s vis :
  is_int_hex (sym_orig_type (sym cfg s)) = true ->
  incl (vreads cfg (QStr s)) L -> (forall r, P r -> v_vis r s = vis) ->
  spec L P (int_hex_value cfg E s vis)
    (fun r => (d_int_hex cfg U r s, match d_num_user cfg U r s with
                 Some _ => false | None => bool_decide (is_Some (d_str_default cfg r s)) end))
    (fun a b => a = b.1).
Proof.
  intros Ht Hi Hvis. cbn [vreads reads] in Hi.
  replace (is_bool_tristate (sym_orig_type (sym cfg s))) with false in Hi
    by (by destruct (sym_orig_type (sym cfg s))).
  replace (type_eqb (sym_orig_type (sym cfg s)) UNKNOWN) with false in Hi
    by (by destruct (sym_orig_type (sym cfg s))).
  apply incl_cons_inv in Hi as [_ Hi]. apply incl_app_inv in Hi as [Hr Hd].
  unfold int_hex_value, d_int_hex.
  eapply spec_bind; [by apply gives_active_range|]. intros range ? <-.
  eapply spec_bind.
  { apply (gives_int_hex_user _ s (vis, range)); [done|]. intros r [Pr ->]. split; [auto|done]. }
  intros u ? <-. simpl. destruct u as [v|].
  { eapply (spec_ret _ _ _ _ _ (_, _)); [reflexivity|]. intros r _ [_ ->]. reflexivity. }
  unfold int_hex_default.
  eapply spec_bind; [by apply (gives_str_default_loop _ s _ false), keeps_wtc|]. intros d ? <-. cbv zeta.
  assert (Hret : forall P' x, x = d_clamp (sym_orig_type (sym cfg s)) range (default "" d) ->
    (forall r, P' r -> (d_num_user cfg U r s = None /\ d_range cfg r s = range) /\ d_str_default cfg r s = d) ->
    spec L P' (mret x) (fun r => (match d_num_user cfg U r s with Some v => v
         | None => d_clamp (sym_orig_type (sym cfg s)) (d_range cfg r s) (default "" (d_str_default cfg r s)) end,
         match d_num_user cfg U r s with
         Some _ => false | None => bool_decide (is_Some (d_str_default cfg r s)) end)) (fun a b => a = b.1)).
  { intros P' x -> HP. eapply (spec_ret _ _ _ _ _ (_, _)); [reflexivity|].
    intros r _ [[-> ->] ->]%HP. reflexivity. }
  assert (HP : forall r, ((P r /\ d_range cfg r s = range) /\ d_num_user cfg U r s = None)
      /\ d_str_default cfg r s = d ->
    (d_num_user cfg U r s = None /\ d_range cfg r s = range) /\ d_str_default cfg r s = d) by (intros; tauto).
  unfold d_clamp in Hret. destruct range as [[lo hi]|]; [|by apply Hret].
  destruct (_ <? lo); [|destruct (hi <? _); [|by apply Hret]];
    (apply spec_seq; [apply keeps_when, keeps_warn|]; apply Hret; [by destruct (type_eqb _ INT)|done]).
Qed.

Lemma spec_string_value P s vis :
  sym_orig_type (sym cfg s) = STRING ->
  incl (vreads cfg (QStr s)) L -> (forall r, P r -> v_vis r s = vis) ->
  spec L P (string_value cfg E s vis)
    (fun r => (d_string cfg U r s, match d_str_user U r s with
                 Some _ => false | None => bool_decide (is_Some (d_str_default cfg r s)) end))
    (fun a b => a = b.1).
Proof.
  intros Ht Hi Hvis. cbn [vreads reads] in Hi. rewrite Ht in Hi. simpl in Hi.
  apply incl_cons_inv in Hi as [_ Hi]. apply incl_app_inv in Hi as [_ Hd].
  unfold string_value, d_string, d_str_user. apply spec_bind_user.
  assert (Hnone : forall P' (H' : forall r, P' r -> v_vis r s = vis),
    ((vis =? 0) = true \/ u_sym U s = None) ->
    spec L P' (d ← (first_someM (fun '(d, cond) => c ← expr_value cfg E cond;
                    if c =? 0 then mret None
                    else v ← default_str_value E d; sput (set_write_to_conf true) s;; mret (Some v))
                  (sym_defaults (sym cfg s))); mret (default "" d))
      (fun r => (match match u_sym U s with Some (UStr v) => if v_vis r s =? 0 then None else Some v
                   | _ => None end with Some v => v | None => default "" (d_str_default cfg r s) end,
         match match u_sym U s with Some (UStr v) => if v_vis r s =? 0 then None else Some v
                   | _ => None end with
         Some _ => false | None => bool_decide (is_Some (d_str_default cfg r s)) end))
      (fun a b => a = b.1)).
  { intros P' H' Hu.
    eapply spec_bind; [by apply (gives_str_default_loop _ s _ true), keeps_wtc|]. intros d ? <-.
    eapply (spec_ret _ _ _ _ _ (_, _)); [reflexivity|]. intros r _ [Pr Hr]. rewrite Hr, (H' r Pr).
    destruct Hu as [->| ->]; [|reflexivity]. destruct (u_sym U s) as [[]|]; reflexivity. }
  destruct (vis =? 0) eqn:Hv; [by apply Hnone; auto|].
  destruct (u_sym U s) as [[z|x]|] eqn:Hu; [by apply spec_raise| |by apply Hnone; auto].
  eapply (spec_ret _ _ _ _ _ (_, _)); [reflexivity|]. intros r _ Pr. rewrite (Hvis r Pr), Hv. reflexivity.
Qed.

(** [assignable] *)

Lemma gives_no_m P s :
  incl (expr_reads (sym_weak_rev_dep (sym cfg s))) L -> incl (type_reads cfg s) L ->
  gives L P (t ← sym_type cfg E s;
          if type_eqb t BOOL then mret true
          else v ← expr_value cfg E (sym_weak_rev_dep (sym cfg s)); mret (v =? 2))
    (fun r => d_promoted cfg r s).
Proof.
  intros Hw Ht. unfold d_promoted. eapply spec_bind; [by apply gives_type|]. intros t ? <-.
  destruct (type_eqb t BOOL) eqn:Hb; [ret_tac|].
  eapply spec_bind; [by apply gives_expr|]. intros w ? <-. ret_tac.
Qed.

Lemma gives_assignable_ P s :
  has_prompt cfg s = true ->
  incl (areads cfg s) L -> gives L P (sym_assignable_ cfg E s) (fun r => d_assignable cfg r s).
Proof.
  unfold areads. intros ->. intros [Hv Hi]%incl_cons_inv. apply incl_app_inv in Hi as [Hr Hi].
  apply incl_app_inv in Hi as [Hw Ht].
  unfold sym_assignable_, d_assignable. cbv zeta. destruct (is_bool_tristate _); simpl; [|ret_tac].
  eapply spec_bind; [by apply gives_vis|]. intros vis ? <-. destruct (vis =? 0) eqn:H0; [ret_tac|].
  eapply spec_bind; [by apply gives_expr|]. intros rd ? <-. destruct (vis =? 2) eqn:H2.
  - destruct (sym_choice _); [ret_tac|].
    destruct (rd =? 0) eqn:Hr0; [|destruct (rd =? 2) eqn:Hr2; [ret_tac|]];
      (eapply spec_bind; [by apply gives_no_m|]; intros b ? <-; ret_tac).
  - destruct (rd =? 0) eqn:Hr0; [eapply spec_bind; [by apply gives_expr|]; intros w ? <-; ret_tac|].
    destruct (rd =? 2) eqn:Hr2; ret_tac.
Qed.

Lemma gives_cassignable_ P c :
  incl (careads cfg c) L -> gives L P (ch_assignable_ cfg E c) (fun r => d_cassignable cfg r c).
Proof.
  unfold careads. intros [Hv Ht]%incl_cons_inv. unfold ch_assignable_, d_cassignable.
  eapply spec_bind; [by apply gives_cvis|]. intros vis ? <-. destruct (vis =? 0) eqn:H0; [ret_tac|].
  destruct (vis =? 2) eqn:H2; [|ret_tac].
  eapply spec_bind; [by apply gives_ctype|]. intros t ? <-. ret_tac.
Qed.
End Values.

(** *** The cached properties *)

Section Cached.
Context (E : evaluator) (HE : found E).

(** A property that looks into its cache, calculates on a miss and stores the result *)
Lemma finds_cached {A} (look : State -> option A) (body : K A) (put : A -> State -> State) m :
  (forall st, m st = (c ← gets look; match c with Some v => mret v
                | None => v ← body; modify (put v);; mret v end) st) ->
  keeps body ->
  (forall st0 x st, Inv st0 -> body st0 = (Ok x, st) -> Inv st -> sub st0 st ->
     grown st (put x st) /\ look (put x st) = Some x) ->
  finds m look.
Proof.
  intros Hm Kb Hput.
  assert (Hall : forall st rx st', Inv st -> m st = (rx, st') ->
    (Inv st' /\ sub st st' /\ rx <> Err ValueError) /\ forall x, rx = Ok x -> look st' = Some x).
  { intros st rx st' H. rewrite Hm. cbv [mbind K_bind M_bind gets].
    destruct (look st) as [v|] eqn:El; [intros [= <- <-]; split; [done|]; by intros ? [= <-]|].
    destruct (body st) as [[x|e] st1] eqn:Eb; destruct (Kb _ _ _ H Eb) as (H1 & S1 & He).
    - intros [= <- <-]. destruct (Hput _ _ _ H Eb H1 S1) as [G Hl].
      destruct (grown_inv _ _ H1 G). split; [split_and!; [done|by etrans|done]|]. by intros ? [= <-].
    - intros [= <- <-]. split; [split_and!; [done..|congruence]|]. done. }
  split.
  - intros st rx st' H Em. by apply (Hall _ _ _ H Em).
  - intros st x st' H Em. by apply (proj2 (Hall _ _ _ H Em)).
Qed.

(** Without prompts the visibility is n whatever the rest *)
Lemma has_prompt_false s n :
  has_prompt cfg s = false -> In n (sym_nodes (sym cfg s)) -> nd_prompt (node cfg n) = None.
Proof.
  unfold has_prompt. intros Hp Hn. destruct (nd_prompt (node cfg n)) eqn:E'; [|done].
  enough (false = true) by done. rewrite <- Hp. apply existsb_exists. exists n. by rewrite E'.
Qed.

Lemma no_prompts_value ns :
  (forall n, In n ns -> nd_prompt (node cfg n) = None) -> prompts_value cfg E ns = mret 0.
Proof.
  unfold prompts_value. induction ns as [|n ns IH]; intros Hn; [done|]. cbn [foldM].
  rewrite (Hn n (or_introl eq_refl)). change (foldM (fun vis n => match nd_prompt (node cfg n) with
    | Some (_, cond) => v ← expr_value cfg E cond; mret (Z.max vis v) | None => mret vis end) 0 ns = mret 0).
  apply IH. intros m Hm. apply Hn. by right.
Qed.

Lemma d_prompts_none r ns :
  (forall n, In n ns -> nd_prompt (node cfg n) = None) -> d_prompts cfg r ns = 0.
Proof.
  unfold d_prompts. induction ns as [|n ns IH]; intros Hn; simpl; [done|].
  rewrite (Hn n (or_introl eq_refl)). apply IH. intros m Hm. apply Hn. by right.
Qed.

Lemma gives_vis_promptless L P s :
  has_prompt cfg s = false -> gives L P (sym_visibility_ cfg E s) (fun r => d_vis cfg r s).
Proof.
  intros Hp. assert (Hn := fun n => has_prompt_false s n Hp).
  unfold sym_visibility_, d_vis. rewrite (no_prompts_value _ Hn).
  apply spec_bind_ret. eapply spec_bind.
  { eapply (spec_any _ _). destruct (sym_choice _) as [c|]; [|apply keeps_ret].
    apply keeps_bind.
    - destruct (_ && _); [|apply keeps_ret].
      apply keeps_bind; [apply (find_ctri E HE)|intros; apply keeps_ret].
    - intros [|]; [apply keeps_ret|]. rewrite andb_false_r. apply keeps_ret. }
  intros h ? _. destruct h; (eapply spec_ret; [reflexivity|]); intros r _ _;
    rewrite (d_prompts_none r _ Hn); by destruct (d_hidden cfg r s 0).
Qed.

Lemma finds_vis s : finds (sym_visibility cfg E s) (fun st => cached_vis (symst st s)).
Proof.
  assert (Sb : gives (vreads cfg (QVis s)) (fun _ => True) (sym_visibility_ cfg E s) (fun r => d_vis cfg r s)).
  { cbn [vreads]. destruct (has_prompt cfg s) eqn:Hp; [|by apply gives_vis_promptless].
    apply gives_vis_; [done|apply incl_refl]. }
  destruct Sb as [Kb Sb].
  apply (finds_cached _ _ (fun v => alter_sym (set_cached_vis (Some v)) s) _ (fun _ => eq_refl) Kb).
  intros st0 x st H0 Eb H _. destruct (Sb _ _ _ H0 Eb) as (? & <- & Hr).
  split; [apply put_vis; auto|]. autorewrite with kst. by rewrite decide_True.
Qed.

Lemma finds_cvis c : finds (ch_visibility cfg E c) (fun st => ch_cached_vis (chst st c)).
Proof.
  destruct (gives_cvis_ E HE _ (fun _ => True) c (incl_refl _)) as [Kb Sb].
  apply (finds_cached _ _ (fun v => alter_choice (set_ch_cached_vis (Some v)) c) _ (fun _ => eq_refl) Kb).
  intros st0 x st H0 Eb H _. destruct (Sb _ _ _ H0 Eb) as (? & <- & Hr).
  split; [apply put_cvis; auto|]. autorewrite with kst. by rewrite decide_True.
Qed.

(** The mode of a choice is calculated from its visibility *)
Lemma ctri_vis st c v : cached_ctri cfg st c = Some v -> is_Some (ch_cached_vis (chst st c)).
Proof. unfold cached_ctri. destruct (ch_cached_vis _); [eauto|done]. Qed.

Lemma keeps_csel_ c : keeps (ch_selection_ cfg E c).
Proof. eapply spec_keeps, (gives_csel_ E HE _ (fun _ => True)), incl_refl. Qed.

(** A bind leaves what its first step cached *)
Lemma bind_found {A B C} (m : K A) (k : A -> K B) (look : State -> option C) st y st' :
  (forall st st' v, sub st st' -> look st = Some v -> look st' = Some v) ->
  keeps m -> (forall a, keeps (k a)) -> Inv st ->
  (forall a st1, m st = (Ok a, st1) -> is_Some (look st1)) ->
  (m ≫= k) st = (Ok y, st') -> is_Some (look st').
Proof.
  intros Hsub Km Kk H Hf. cbv [mbind K_bind M_bind]. destruct (m st) as [[a|e] st1] eqn:Em; [|done].
  destruct (Hf a st1 eq_refl) as [v Hv]. intros Ek. destruct (Km _ _ _ H Em) as (H1 & _ & _).
  destruct (Kk a _ _ _ H1 Ek) as (_ & S2 & _). eauto.
Qed.

Lemma csel_vis c st0 x st :
  Inv st0 -> ch_selection_ cfg E c st0 = (Ok x, st) -> is_Some (ch_cached_vis (chst st c)).
Proof.
  intros H. unfold ch_selection_.
  assert (Kv : forall s, keeps (vis ← ev_vis E s; mret (if vis =? 0 then None else Some s))).
  { intros s. apply keeps_bind; [apply (find_vis E HE)|]. intros; apply keeps_ret. }
  assert (Kf : forall A B (f : A -> K (option B)) l, (forall x, In x l -> keeps (f x)) -> keeps (first_someM f l)).
  { intros A B f l. induction l as [|y l IH]; simpl; intros Hf; [apply keeps_ret|].
    apply keeps_bind; [apply Hf; by left|]. intros [b|]; [apply keeps_ret|]. auto. }
  apply (bind_found _ _ (fun st => ch_cached_vis (chst st c))); [intros ?? v Hs Hv; by apply Hs|apply (find_ctri E HE)| |done|].
  2: { intros a st1 Ea. eapply ctri_vis, (proj2 (find_ctri E HE c) _ _ _ H Ea). }
  intros v. destruct (negb _); [apply keeps_ret|].
  apply keeps_bind; [apply keeps_gets|]. intros us. apply keeps_bind.
  { destruct us; [apply Kv|apply keeps_ret]. }
  intros [s|]; [apply keeps_ret|]. unfold selection_from_defaults. apply keeps_bind.
  - apply Kf. intros [d cond] Hin. apply keeps_bind; [by apply keeps_expr|]. intros cv.
    destruct (cv =? 0); [apply keeps_ret|]. destruct (wf_ch_defaults _ WF _ _ _ Hin) as [s ->]. apply Kv.
  - intros [s|]; [apply keeps_ret|]. apply Kf. intros; apply Kv.
Qed.

Lemma finds_csel c : finds (ch_selection cfg E c) (fun st => ch_cached_selection (chst st c)).
Proof.
  destruct (gives_csel_ E HE _ (fun _ => True) c (incl_refl _)) as [Kb Sb].
  apply (finds_cached _ _ (fun v => alter_choice (set_ch_cached_selection (Some v)) c) _ (fun _ => eq_refl) Kb).
  intros st0 x st H0 Eb H _. destruct (Sb _ _ _ H0 Eb) as (? & <- & Hr).
  split; [apply put_csel; auto; exact (csel_vis _ _ _ _ H0 Eb)|]. autorewrite with kst. by rewrite decide_True.
Qed.

Lemma finds_tri s : finds (tri_value cfg E s) (fun st => cached_tri_val (symst st s)).
Proof.
  destruct (is_bool_tristate (sym_orig_type (sym cfg s))) eqn:Ht.
  2: { apply (finds_cached _ (
         when (negb (type_eqb (sym_orig_type (sym cfg s)) UNKNOWN))
           (warn ("The " +:+ TYPE_TO_STR (sym_orig_type (sym cfg s)) +:+ " symbol " +:+ sym_name_and_loc cfg s
               +:+ " is being evaluated in a logical context "
               +:+ "somewhere. It will always evaluate to n."));; mret 0)
           (fun v => alter_sym (set_cached_tri_val (Some v)) s)).
       - intros st. unfold tri_value. cbv [mbind K_bind M_bind sget gets]. rewrite Ht. cbn [negb].
         destruct (cached_tri_val _); [done|]. by destruct (when _ _ st) as [[[]|] st1].
       - apply keeps_bind; [apply keeps_when, keeps_warn|intros; apply keeps_ret].
       - intros st0 x st _ Ex H _. assert (x = 0) as ->.
         { revert Ex. cbv [mbind K_bind M_bind]. destruct (when _ _ st0) as [[[]|] st1]; [by intros [= <-]|done]. }
         split; [|autorewrite with kst; by rewrite decide_True].
         apply put_tri; [done| |by rewrite Ht]. intros r _. unfold d_tri.
         assert (Hf : is_tri_const cfg s = false).
         { destruct (is_tri_const cfg s) eqn:Hc; [|done]. apply (wf_tri_const _ WF) in Hc. by rewrite Hc in Ht. }
         unfold is_tri_const in Hf. repeat case_bool_decide; try done. by rewrite Ht. }
  destruct (fixed cfg (QTri s)) eqn:Hfix.
  { assert (Hc : forall st rx st', Inv st -> tri_value cfg E s st = (rx, st') ->
      st' = st /\ exists v, rx = Ok v /\ cached_tri_val (symst st s) = Some v).
    { intros st rx st' H. destruct (flag_const _ _ (inv_flags _ _ _ _ H) s Hfix) as [v Hv].
      unfold tri_value, sget, gets. cbv [mbind K_bind M_bind]. rewrite Hv. intros [= <- <-]. eauto. }
    split.
    - intros st rx st' H Em. destruct (Hc _ _ _ H Em) as (-> & v & -> & _). by split_and!.
    - intros st x st' H Em. by destruct (Hc _ _ _ H Em) as (-> & v & [= ->] & ?). }
  pose (body := vis ← ev_vis E s; sput (set_write_to_conf (negb (vis =? 0))) s;; tri_value_ cfg E s vis).
  assert (Sb : spec (vreads cfg (QTri s)) (fun _ => True) body
             (fun r => (d_tri cfg U r s, d_wtc cfg U r s)) (fun a b => a = b.1)).
  { unfold body. eapply spec_bind.
    { apply gives_vis; [done|]. cbn [vreads]. rewrite Hfix, Ht. by left. }
    intros vis ? <-. apply spec_seq; [apply keeps_wtc|].
    apply spec_tri_value_; [done..|apply incl_refl|]. by intros r [_ ?]. }
  destruct Sb as [Kb Sb].
  apply (finds_cached _ body (fun v => alter_sym (set_cached_tri_val (Some v)) s) _).
  - intros st. unfold tri_value. cbv [mbind K_bind M_bind sget gets]. rewrite Ht. cbn [negb].
    destruct (cached_tri_val _); [done|]. unfold body. cbv [mbind K_bind M_bind].
    by destruct (ev_vis E s st) as [[vis|] st1].
  - done.
  - intros st0 x st H0 Eb H S. split; [|autorewrite with kst; by rewrite decide_True].
    destruct (Sb _ _ _ H0 Eb) as ([v b] & -> & Hr). simpl.
    apply put_tri; [done| |].
    { intros r Hc. specialize (Hr r Hc I). by injection Hr. }
    intros _. split; [|exists b; intros r Hc; specialize (Hr r Hc I); by injection Hr].
    revert Eb. unfold body. apply (bind_found _ _ (fun st => cached_vis (symst st s)));
      [intros ?? w Hs Hv; by apply Hs|apply (find_vis E HE)| |done|].
    + intros vis. apply keeps_bind; [apply keeps_wtc|]. intros _.
      eapply spec_keeps, (spec_tri_value_ E HE (vreads cfg (QTri s)) (fun r => v_vis r s = vis)); auto using incl_refl.
    + intros a st1 Ea. rewrite (proj2 (find_vis E HE s) _ _ _ H0 Ea). eauto.
Qed.

Lemma finds_str_tri s :
  is_bool_tristate (sym_orig_type (sym cfg s)) = true ->
  finds (str_value cfg E s) (fun st => cached_str_val (symst st s)).
Proof.
  intros Ht. assert (Hr : vreads cfg (QStr s) = [QTri s]) by (cbn [vreads reads]; by rewrite Ht).
  assert (Sb : gives (vreads cfg (QStr s)) (fun _ => True) (v ← ev_tri E s; tri_to_str v) (fun r => d_str cfg U r s)).
  { unfold d_str. rewrite Hr, Ht. eapply spec_bind; [apply gives_tri; [done|by left]|]. intros v ? <-.
    eapply gives_tail; [apply gives_tri_to_str|]. intros t. exists t. split; [done|].
    intros r _ [_ ->]. by intros <-. }
  destruct Sb as [Kb Sb].
  apply (finds_cached _ (v ← ev_tri E s; tri_to_str v) (fun v => alter_sym (set_cached_str_val (Some v)) s));
    [|exact Kb|].
  - intros st. unfold str_value. cbv [mbind K_bind M_bind sget gets]. rewrite Ht.
    destruct (cached_str_val _); [done|]. by destruct (ev_tri E s st) as [[v|] st1].
  - intros st0 x st H0 Eb H S. split; [|autorewrite with kst; by rewrite decide_True].
    destruct (Sb _ _ _ H0 Eb) as (? & <- & Hd).
    apply put_str; [done|auto| |by rewrite Ht].
    intros _ Hc. apply (flag_tri _ _ (inv_flags _ _ _ _ H)); [done..|].
    revert Eb. apply (bind_found _ _ (fun st => cached_tri_val (symst st s)));
      [intros ?? w Hs Hv; by apply Hs|apply (find_tri E HE)|intros; apply keeps_tri_to_str|done|].
    intros a st1 Ea. rewrite (proj2 (find_tri E HE s) _ _ _ H0 Ea). eauto.
Qed.

Lemma finds_str_unknown s :
  sym_orig_type (sym cfg s) = UNKNOWN ->
  finds (str_value cfg E s) (fun st => cached_str_val (symst st s)).
Proof.
  intros Ht.
  apply (finds_cached _ (mret (sym_name (sym cfg s))) (fun v => alter_sym (set_cached_str_val (Some v)) s));
    [|apply keeps_ret|].
  - intros st. unfold str_value. cbv [mbind K_bind M_bind sget gets]. rewrite Ht. simpl.
    by destruct (cached_str_val _).
  - intros st0 x st H0 [= <- <-] _ _. split; [|autorewrite with kst; by rewrite decide_True].
    apply put_str; [done| |done..]. intros r _. unfold d_str. by rewrite Ht.
Qed.

Lemma finds_str_other s :
  is_bool_tristate (sym_orig_type (sym cfg s)) = false -> sym_orig_type (sym cfg s) <> UNKNOWN ->
  finds (str_value cfg E s) (fun st => cached_str_val (symst st s)).
Proof.
  intros Ht Hu. assert (Hu' : type_eqb (sym_orig_type (sym cfg s)) UNKNOWN = false)
    by (by destruct (sym_orig_type (sym cfg s))).
  set (isnum := is_int_hex (sym_orig_type (sym cfg s))).
  pose (ghost r := match (if isnum then d_num_user cfg U r s else d_str_user U r s) with
                   Some _ => false | None => bool_decide (is_Some (d_str_default cfg r s)) end).
  pose (body := vis ← ev_vis E s; sput (set_write_to_conf (negb (vis =? 0))) s;;
                v ← (if isnum then int_hex_value cfg E s vis else string_value cfg E s vis);
                when (is_auto cfg s) (sput (set_write_to_conf false) s);; mret v).
  assert (Hv : In (QVis s) (vreads cfg (QStr s))) by (cbn [vreads reads]; rewrite Ht, Hu'; by left).
  assert (Sv : forall P vis, (forall r, P r -> v_vis r s = vis) ->
    spec (vreads cfg (QStr s)) P (if isnum then int_hex_value cfg E s vis else string_value cfg E s vis)
      (fun r => (d_str cfg U r s, ghost r)) (fun a b => a = b.1)).
  { intros P vis Hvis. unfold ghost, d_str. rewrite Ht, Hu'. fold isnum. destruct isnum eqn:Hn.
    - by apply spec_int_hex_value; [..|apply incl_refl|].
    - apply spec_string_value; [done| |apply incl_refl|done].
      by destruct (sym_orig_type (sym cfg s)). }
  assert (Sb : spec (vreads cfg (QStr s)) (fun _ => True) body
             (fun r => (d_str cfg U r s, d_wtc cfg U r s)) (fun a b => a = b.1)).
  { unfold body. eapply spec_bind; [by apply gives_vis|]. intros vis ? <-.
    apply spec_seq; [apply keeps_wtc|].
    eapply spec_bind; [apply Sv; by intros r [_ ?]|]. intros v [v' g] ->. simpl.
    apply spec_seq; [apply keeps_when, keeps_wtc|].
    eapply (spec_ret _ _ _ _ _ (_, _)); [reflexivity|].
    intros r _ [[_ Hvr] Hx]. injection Hx as Hx1 Hx2.
    unfold d_wtc, d_wtc_str. fold isnum. fold (ghost r). rewrite Hx1, Hx2, Ht, Hu', Hvr. reflexivity. }
  destruct Sb as [Kb Sb].
  apply (finds_cached _ body (fun v => alter_sym (set_cached_str_val (Some v)) s)); [|exact Kb|].
  - intros st. unfold str_value. cbv [mbind K_bind M_bind sget gets]. rewrite Ht, Hu'.
    destruct (cached_str_val _); [done|]. unfold body, isnum. cbv [mbind K_bind M_bind].
    destruct (ev_vis E s st) as [[vis|] st1]; [|done]. cbv [sput modify].
    destruct (is_int_hex _);
      [destruct (int_hex_value cfg E s vis _) as [[v|] st2]|destruct (string_value cfg E s vis _) as [[v|] st2]];
      try done; by destruct (is_auto cfg s).
  - intros st0 x st H0 Eb H S. split; [|autorewrite with kst; by rewrite decide_True].
    destruct (Sb _ _ _ H0 Eb) as ([v b] & -> & Hr). simpl.
    apply put_str; [done| | |].
    { intros r Hc. specialize (Hr r Hc I). by injection Hr. }
    2: { intros _ _. exists b. intros r Hc. specialize (Hr r Hc I). by injection Hr. }
    intros _ _. revert Eb. unfold body. apply (bind_found _ _ (fun st => cached_vis (symst st s)));
      [intros ?? w Hs Hw; by apply Hs|apply (find_vis E HE)| |done|].
    + intros vis. apply keeps_bind; [apply keeps_wtc|]. intros _.
      apply keeps_bind; [|intros; apply keeps_bind; [apply keeps_when, keeps_wtc|intros; apply keeps_ret]].
      eapply spec_keeps, (Sv (fun r => v_vis r s = vis)); auto.
    + intros a st1 Ea. rewrite (proj2 (find_vis E HE s) _ _ _ H0 Ea). eauto.
Qed.

Lemma finds_str s : finds (str_value cfg E s) (fun st => cached_str_val (symst st s)).
Proof.
  destruct (is_bool_tristate (sym_orig_type (sym cfg s))) eqn:Ht; [by apply finds_str_tri|].
  destruct (decide (sym_orig_type (sym cfg s) = UNKNOWN)); [by apply finds_str_unknown|by apply finds_str_other].
Qed.

Lemma keeps_type s : keeps (sym_type cfg E s).
Proof. eapply spec_keeps, (gives_type E HE (type_reads cfg s) (fun _ => True)), incl_refl. Qed.

Lemma keeps_assignable_ s : keeps (sym_assignable_ cfg E s).
Proof.
  unfold sym_assignable_. destruct (negb _); [apply keeps_ret|].
  apply keeps_bind; [apply (find_vis E HE)|]. intros vis.
  assert (Kn : keeps (t ← sym_type cfg E s; if type_eqb t BOOL then mret true
    else w ← expr_value cfg E (sym_weak_rev_dep (sym cfg s)); mret (w =? 2))).
  { apply keeps_bind; [apply keeps_type|]. intros t. destruct (type_eqb _ _); [apply keeps_ret|].
    apply keeps_bind; [by apply keeps_expr|intros; apply keeps_ret]. }
  destruct (vis =? 0); [apply keeps_ret|]. apply keeps_bind; [by apply keeps_expr|]. intros rd. cbv zeta.
  destruct (vis =? 2).
  - destruct (sym_choice _); [apply keeps_ret|].
    destruct (rd =? 0); [apply keeps_bind; [done|intros; apply keeps_ret]|].
    destruct (rd =? 2); [apply keeps_ret|apply keeps_bind; [done|intros; apply keeps_ret]].
  - destruct (rd =? 0); [apply keeps_bind; [by apply keeps_expr|intros; apply keeps_ret]|].
    destruct (rd =? 2); apply keeps_ret.
Qed.

Lemma gives_assignable_promptless P s :
  has_prompt cfg s = false ->
  gives (areads cfg s) P (sym_assignable_ cfg E s) (fun r => d_assignable cfg r s).
Proof.
  intros Hp. split; [apply keeps_assignable_|]. intros st x st' H.
  unfold sym_assignable_, areads, d_assignable. rewrite Hp. destruct (negb _); [intros [= <- <-]; eauto|].
  cbv [mbind K_bind M_bind]. destruct (ev_vis E s st) as [[vis|e] st1] eqn:E1; [|done].
  destruct (proj1 (find_vis E HE s) _ _ _ H E1) as (H1 & _ & _).
  pose proof (proj2 (find_vis E HE s) _ _ _ H E1) as F. cbv beta in F.
  assert (vis = 0) as ->.
  { rewrite <- (inv_model _ _ _ _ H1 (QVis s) vis F), (model_vis _ _ _ HM). unfold d_vis.
    rewrite d_prompts_none by (intros; by eapply has_prompt_false). simpl.
    by destruct (d_hidden cfg rho s 0). }
  intros [= <- <-]. exists []. split; [done|]. intros r [_ Ha] _.
  by rewrite (Ha (QVis s) (or_introl eq_refl) 0 F).
Qed.

Lemma finds_assignable s : finds (sym_assignable cfg E s) (fun st => cached_assignable (symst st s)).
Proof.
  assert (Sb : gives (areads cfg s) (fun _ => True) (sym_assignable_ cfg E s) (fun r => d_assignable cfg r s)).
  { destruct (has_prompt cfg s) eqn:Hp; [apply gives_assignable_; [done..|apply incl_refl]|].
    by apply gives_assignable_promptless. }
  destruct Sb as [Kb Sb].
  apply (finds_cached _ _ (fun v => alter_sym (set_cached_assignable (Some v)) s) _ (fun _ => eq_refl) Kb).
  intros st0 x st H0 Eb H _. destruct (Sb _ _ _ H0 Eb) as (? & <- & Hr).
  split; [|autorewrite with kst; by rewrite decide_True].
  apply put_assignable; [done|auto|]. intros Ht. revert Eb. unfold sym_assignable_. rewrite Ht. cbn [negb].
  apply (bind_found _ _ (fun st => cached_vis (symst st s)));
    [intros ?? w Hs Hv; by apply Hs|apply (find_vis E HE)| |done|].
  - pose proof (keeps_assignable_ s) as Ka. intros vis.
    assert (Kn : keeps (t ← sym_type cfg E s; if type_eqb t BOOL then mret true
      else w ← expr_value cfg E (sym_weak_rev_dep (sym cfg s)); mret (w =? 2))).
    { apply keeps_bind; [apply keeps_type|]. intros t. destruct (type_eqb _ _); [apply keeps_ret|].
      apply keeps_bind; [by apply keeps_expr|intros; apply keeps_ret]. }
    destruct (vis =? 0); [apply keeps_ret|]. apply keeps_bind; [by apply keeps_expr|]. intros rd. cbv zeta.
    destruct (vis =? 2).
    + destruct (sym_choice _); [apply keeps_ret|].
      destruct (rd =? 0); [apply keeps_bind; [done|intros; apply keeps_ret]|].
      destruct (rd =? 2); [apply keeps_ret|apply keeps_bind; [done|intros; apply keeps_ret]].
    + destruct (rd =? 0); [apply keeps_bind; [by apply keeps_expr|intros; apply keeps_ret]|].
      destruct (rd =? 2); apply keeps_ret.
  - intros a st1 Ea. rewrite (proj2 (find_vis E HE s) _ _ _ H0 Ea). eauto.
Qed.

Lemma finds_cassignable c : finds (ch_assignable cfg E c) (fun st => ch_cached_assignable (chst st c)).
Proof.
  destruct (gives_cassignable_ E HE _ (fun _ => True) c (incl_refl _)) as [Kb Sb].
  apply (finds_cached _ _ (fun v => alter_choice (set_ch_cached_assignable (Some v)) c) _ (fun _ => eq_refl) Kb).
  intros st0 x st H0 Eb H _. destruct (Sb _ _ _ H0 Eb) as (? & <- & Hr).
  split; [|autorewrite with kst; by rewrite decide_True].
  apply put_cassignable; [done|auto|]. revert Eb. unfold ch_assignable_.
  apply (bind_found _ _ (fun st => ch_cached_vis (chst st c)));
    [intros ?? w Hs Hv; by apply Hs|apply (find_cvis E HE)| |done|].
  - intros vis. assert (Kt : keeps (ch_type cfg E c))
      by (eapply spec_keeps, (gives_ctype E HE (ctype_reads cfg c) (fun _ => True)), incl_refl).
    destruct (vis =? 0); [apply keeps_ret|]. destruct (vis =? 2); [|apply keeps_ret].
    apply keeps_bind; [done|intros; apply keeps_ret].
  - intros a st1 Ea. rewrite (proj2 (find_cvis E HE c) _ _ _ H0 Ea). eauto.
Qed.
End Cached.

(** The recursion *)
Theorem found_ev n : found (ev cfg n).
Proof.
  induction n as [|n IH].
  - split; intros; (split; [by apply keeps_raise|]); intros ???? [=].
  - split; intros; simpl.
    + by apply finds_tri.
    + by apply finds_str.
    + by apply finds_vis.
    + by apply finds_ch_tri_value.
    + by apply finds_cvis.
    + by apply finds_csel.
Qed.
End Spec.
