(* ===== verification/Values.v ===== *)
(** * Solving the equations, and what their solutions satisfy

    Every dependency-ranked configuration has exactly one model; the section
    [Laws] derives what menu users rely on (choice exclusivity, selects, bool
    symbols are never m, ranges, [assignable]).  The theorems at the end carry
    these to the cached code of [Eval]. *)
From S2P Require Import Prelude PyStr Model Eval EvalSpec EvalRefine.

(** ** Agreement of two valuations on a query *)

Definition agree (r1 r2 : valuation) (q : query) : Prop :=
  match q with
  | QTri s => v_tri r1 s = v_tri r2 s
  | QStr s => v_str r1 s = v_str r2 s
  | QVis s => v_vis r1 s = v_vis r2 s
  | QCTri c => v_ctri r1 c = v_ctri r2 c
  | QCVis c => v_cvis r1 c = v_cvis r2 c
  | QCSel c => v_csel r1 c = v_csel r2 c
  end.

(** The user values a query looks at itself *)
Definition same_user (U1 U2 : uvals) (q : query) : Prop :=
  match q with
  | QTri s | QStr s => u_sym U1 s = u_sym U2 s
  | QCTri c => u_mode U1 c = u_mode U2 c
  | QCSel c => u_sel U1 c = u_sel U2 c
  | _ => True
  end.

(** ** The solution, by iterating the equations *)

Definition zero_valuation : valuation :=
  mkValuation (fun _ => 0) (fun _ => "") (fun _ => 0) (fun _ => 0) (fun _ => 0) (fun _ => None).

Fixpoint approx (cfg : Config) (U : uvals) (n : nat) : valuation :=
  match n with O => zero_valuation | S n => d_step cfg U (approx cfg U n) end.

Definition solve (cfg : Config) (U : uvals) (rk : query -> nat) : valuation :=
  mkValuation (fun s => v_tri (approx cfg U (S (rk (QTri s)))) s)
    (fun s => v_str (approx cfg U (S (rk (QStr s)))) s)
    (fun s => v_vis (approx cfg U (S (rk (QVis s)))) s)
    (fun c => v_ctri (approx cfg U (S (rk (QCTri c)))) c)
    (fun c => v_cvis (approx cfg U (S (rk (QCVis c)))) c)
    (fun c => v_csel (approx cfg U (S (rk (QCSel c)))) c).

(** ** A finite check of a ranking *)

(** Levels of symbols, of choice modes and of choice selections *)
Definition rank_of (lv clv slv : list nat) (q : query) : nat :=
  match q with
  | QCVis c => 6 * nth c clv 0
  | QCTri c => 6 * nth c clv 0 + 1
  | QVis s => 6 * nth s lv 0 + 1
  | QCSel c => 6 * nth c slv 0 + 2
  | QTri s => 6 * nth s lv 0 + 3
  | QStr s => 6 * nth s lv 0 + 4
  end%nat.

(** The three constants read nothing but each other *)
Definition rank_for (cfg : Config) (lv clv slv : list nat) (q : query) : nat :=
  if fixed cfg q then 0%nat
  else match q with
       | QStr s => if is_tri_const cfg s then 1%nat else rank_of lv clv slv q
       | _ => rank_of lv clv slv q
       end.

Definition ranked_at (cfg : Config) (rk : query -> nat) (q : query) : bool :=
  fixed cfg q || forallb (fun q' => (rk q' <? rk q)%nat) (reads cfg q).

Definition ranked_check (cfg : Config) (lv clv slv : list nat) : bool :=
  let rk := rank_for cfg lv clv slv in
  forallb (fun s => ranked_at cfg rk (QTri s) && ranked_at cfg rk (QStr s) && ranked_at cfg rk (QVis s))
    (seq 0 (length (c_syms cfg)))
  && forallb (fun c => ranked_at cfg rk (QCTri c) && ranked_at cfg rk (QCVis c) && ranked_at cfg rk (QCSel c))
    (seq 0 (length (c_choices cfg)))
  && (length clv <=? length (c_choices cfg))%nat && (length slv <=? length (c_choices cfg))%nat.

(** The state right after construction: only n, m and y have a value *)
Definition init_state (cfg : Config) : State :=
  mkState (<[c_n cfg := set_cached_tri_val (Some 0) init_sym]>
            (<[c_m cfg := set_cached_tri_val (Some 1) init_sym]>
              (<[c_y cfg := set_cached_tri_val (Some 2) init_sym]> ∅)))
          ∅ true [] false true true true [].

Definition no_user : uvals := mkUvals (fun _ => None) (fun _ => None) (fun _ => None).

(** The [.config] line of the specification *)
Definition d_config_string (cfg : Config) (U : uvals) (rho : valuation) (s : symid) : string :=
  let x := sym cfg s in
  let p := c_config_prefix cfg in
  let val := v_str rho s in
  if negb (d_wtc cfg U rho s) then ""
  else if is_bool_tristate (sym_orig_type x) then
    if negb (String.eqb val "n") then p +:+ sym_name x +:+ "=" +:+ val +:+ String NL ""
    else "# " +:+ p +:+ sym_name x +:+ " is not set" +:+ String NL ""
  else if is_int_hex (sym_orig_type x) then p +:+ sym_name x +:+ "=" +:+ val +:+ String NL ""
  else p +:+ sym_name x +:+ "=" +:+ String QUOTE (escape val +:+ String QUOTE (String NL "")).

(** ** Each equation depends only on what it reads *)

Section Ext.
Context (cfg : Config) (U1 U2 : uvals) (r1 r2 : valuation).

Lemma d_expr_ext e : Forall (agree r1 r2) (expr_reads e) -> d_expr cfg r1 e = d_expr cfg r2 e.
Proof.
  induction e as [[s|c]|e1 IH1 e2 IH2|e1 IH1 e2 IH2|e1 IH1|r s1 s2]; cbn [expr_reads d_expr d_item];
    rewrite ?Forall_app; intros H.
  1,2: by inversion H.
  1,2: destruct H; by rewrite IH1, IH2.
  - by rewrite IH1.
  - rewrite !Forall_cons in H. simpl in H. destruct H as (H1 & H2 & H3 & H4 & _).
    unfold d_comp, d_num. by rewrite H1, H2, H3, H4.
Qed.

Lemma d_type_ext s : Forall (agree r1 r2) (type_reads cfg s) -> d_type cfg r1 s = d_type cfg r2 s.
Proof.
  unfold type_reads, d_type, modules_off. destruct (type_eqb _ TRISTATE); [|done].
  rewrite Forall_app. intros [Hc Hm]. apply Forall_cons in Hm as [Hm _]. simpl in Hm. rewrite Hm.
  destruct (sym_choice _); [|done]. apply Forall_cons in Hc as [Hc _]. simpl in Hc. by rewrite Hc.
Qed.

Lemma d_ctype_ext c : Forall (agree r1 r2) (ctype_reads cfg c) -> d_ctype cfg r1 c = d_ctype cfg r2 c.
Proof.
  unfold ctype_reads, d_ctype, modules_off. destruct (type_eqb _ TRISTATE); [|done].
  intros [Hm _]%Forall_cons. simpl in Hm. by rewrite Hm.
Qed.

Lemma d_prompts_ext ns :
  Forall (agree r1 r2) (prompt_reads cfg ns) -> d_prompts cfg r1 ns = d_prompts cfg r2 ns.
Proof.
  unfold d_prompts. generalize 0. induction ns as [|n ns IH]; intros v; simpl; [done|].
  rewrite Forall_app. intros [Hn Hns]. rewrite IH by done. f_equal.
  destruct (nd_prompt _) as [[p cond]|]; [|done]. by rewrite (d_expr_ext cond).
Qed.

Lemma d_vis_ext s : Forall (agree r1 r2) (reads cfg (QVis s)) -> d_vis cfg r1 s = d_vis cfg r2 s.
Proof.
  cbn [reads]. rewrite !Forall_app. intros (Hp & Ht & Hc). unfold d_vis, d_hidden.
  rewrite d_prompts_ext, d_type_ext by done.
  destruct (sym_choice _); [|done]. apply Forall_cons in Hc as [Hc _]. simpl in Hc. by rewrite Hc.
Qed.

Lemma d_cvis_ext c : Forall (agree r1 r2) (reads cfg (QCVis c)) -> d_cvis cfg r1 c = d_cvis cfg r2 c.
Proof.
  cbn [reads]. rewrite !Forall_app. intros (Hp & Ht). unfold d_cvis.
  by rewrite d_prompts_ext, d_ctype_ext.
Qed.

Lemma d_ctri_ext c :
  same_user U1 U2 (QCTri c) -> Forall (agree r1 r2) (reads cfg (QCTri c)) ->
  d_ctri cfg U1 r1 c = d_ctri cfg U2 r2 c.
Proof.
  cbn [reads same_user]. rewrite Forall_cons. intros Hu (Hv & Ht). simpl in Hv. unfold d_ctri.
  by rewrite Hu, Hv, d_ctype_ext.
Qed.

Lemma first_some_in_ext {A B} (f g : A -> option B) (rd : A -> list query) l :
  Forall (agree r1 r2) (flat_map rd l) ->
  (forall x, In x l -> Forall (agree r1 r2) (rd x) -> f x = g x) ->
  first_some f l = first_some g l.
Proof. rewrite Forall_flat_map. intros Hl H. apply first_some_ext. auto. Qed.

Lemma if_visible_ext s : agree r1 r2 (QVis s) -> if_visible r1 s = if_visible r2 s.
Proof. simpl. unfold if_visible. by intros ->. Qed.

Lemma d_csel_ext c :
  same_user U1 U2 (QCSel c) -> (forall s, u_sel U1 c = Some s -> In s (ch_syms (chc cfg c))) ->
  Forall (agree r1 r2) (reads cfg (QCSel c)) ->
  d_csel cfg U1 r1 c = d_csel cfg U2 r2 c.
Proof.
  cbn [reads same_user]. rewrite Forall_cons, Forall_app, Forall_map. intros Hu Hsel (Hc & Hs & Hd).
  simpl in Hc. rewrite Forall_forall in Hs. unfold d_csel. rewrite Hc, <- Hu.
  destruct (negb _); [done|].
  assert (Huser : match u_sel U1 c with Some s => if_visible r1 s | None => None end
                  = match u_sel U1 c with Some s => if_visible r2 s | None => None end).
  { destruct (u_sel U1 c) as [s|]; [|done]. apply if_visible_ext, Hs, list_elem_of_In; auto. }
  rewrite Huser. destruct (match u_sel U1 c with Some s => if_visible r2 s | None => None end); [done|].
  unfold d_sel_default.
  rewrite (first_some_in_ext (d_sel_pick cfg r1) (d_sel_pick cfg r2) _ _ Hd).
  - destruct (first_some _ _); [done|]. apply first_some_ext. intros s Hin.
    apply if_visible_ext, Hs, list_elem_of_In; auto.
  - intros [d cond] _ [H1 H2]%Forall_app. unfold d_sel_pick. simpl. rewrite (d_expr_ext cond) by done.
    destruct d as [[s|]| | | |]; try done. apply Forall_cons in H2 as [H2 _].
    by rewrite (if_visible_ext s).
Qed.

Lemma d_tri_ext s :
  same_user U1 U2 (QTri s) -> (fixed cfg (QTri s) = false -> Forall (agree r1 r2) (reads cfg (QTri s))) ->
  d_tri cfg U1 r1 s = d_tri cfg U2 r2 s.
Proof.
  cbn [reads same_user fixed]. unfold d_tri, is_tri_const. intros Hu Hl.
  repeat case_bool_decide; try done. specialize (Hl eq_refl).
  destruct (is_bool_tristate _); simpl in *; [|done].
  apply Forall_cons in Hl as [Hv Hl]. simpl in Hv. rewrite Hv, Hu.
  destruct (sym_choice (sym cfg s)) as [c|] eqn:Hc.
  { apply Forall_cons in Hl as [Hl _]. simpl in Hl. by rewrite Hl. }
  rewrite !Forall_app in Hl. destruct Hl as (Hdef & Hw & Hd & Hr & Ht & _).
  assert (Hpick : d_tri_default cfg r1 s = d_tri_default cfg r2 s).
  { apply (first_some_in_ext _ _ _ _ Hdef). intros [d cond] _ [Hp1 Hp2]%Forall_app.
    unfold d_tri_pick. simpl. by rewrite (d_expr_ext d), (d_expr_ext cond). }
  unfold d_tri_free, d_selected, d_unselected, d_user, d_implied, d_promoted.
  by rewrite Hpick, d_type_ext, Hv, Hu, !(d_expr_ext _ Hw), !(d_expr_ext _ Hd), !(d_expr_ext _ Hr).
Qed.

Lemma d_str_ext s :
  same_user U1 U2 (QStr s) -> Forall (agree r1 r2) (reads cfg (QStr s)) ->
  d_str cfg U1 r1 s = d_str cfg U2 r2 s.
Proof.
  cbn [reads same_user]. unfold d_str. intros Hu Hl. destruct (is_bool_tristate _).
  { apply Forall_cons in Hl as [Hl _]. simpl in Hl. by rewrite Hl. }
  destruct (type_eqb _ UNKNOWN); [done|].
  rewrite Forall_cons, Forall_app in Hl. destruct Hl as (Hv & Hr & Hd). simpl in Hv.
  assert (Hrange : d_range cfg r1 s = d_range cfg r2 s).
  { apply (first_some_in_ext _ _ _ _ Hr). intros [[lo hi] cond] _ Hin.
    rewrite !Forall_cons in Hin. destruct Hin as (H1 & H2 & H3). simpl in H1, H2.
    unfold d_range_pick, d_num_str. by rewrite (d_expr_ext cond), H1, H2. }
  assert (Hdef : d_str_default cfg r1 s = d_str_default cfg r2 s).
  { apply (first_some_in_ext _ _ _ _ Hd). intros [d cond] _ [H1 H2]%Forall_app.
    unfold d_str_pick. simpl. rewrite (d_expr_ext cond) by done.
    destruct d as [[x|c]| | | |]; try done; apply Forall_cons in H1 as [H1 _]; simpl in *; by rewrite H1. }
  unfold d_int_hex, d_string, d_num_user, d_str_user. by rewrite Hrange, Hdef, Hv, Hu.
Qed.
End Ext.

(** ** Existence and uniqueness *)

Section Solve.
Context (cfg : Config) (rk : query -> nat) (HR : ranked cfg rk).

(** Two solutions for user values that agree where it matters agree *)
Lemma models_agree U1 U2 r1 r2 q :
  is_model cfg U1 r1 -> is_model cfg U2 r2 -> well_typed cfg U1 ->
  (forall q', (rk q' <= rk q)%nat -> same_user U1 U2 q') -> agree r1 r2 q.
Proof.
  intros M1 M2 WT. remember (rk q) as n eqn:Hn. revert q Hn.
  induction (lt_wf n) as [n _ IH]; intros q -> Hu.
  assert (Hr : fixed cfg q = false -> Forall (agree r1 r2) (reads cfg q)).
  { intros Hf. eapply Forall_impl; [exact (HR q Hf)|]. intros q' Hq'. cbv beta in Hq'.
    apply (IH (rk q') Hq'); [done|]. intros q'' Hq''. apply Hu. lia. }
  specialize (Hu q ltac:(lia)).
  destruct q as [s|s|s|c|c|c]; simpl.
  - rewrite (model_tri _ _ _ M1), (model_tri _ _ _ M2). by apply d_tri_ext.
  - rewrite (model_str _ _ _ M1), (model_str _ _ _ M2). apply d_str_ext; auto.
  - rewrite (model_vis _ _ _ M1), (model_vis _ _ _ M2). apply d_vis_ext; auto.
  - rewrite (model_ctri _ _ _ M1), (model_ctri _ _ _ M2). apply d_ctri_ext; auto.
  - rewrite (model_cvis _ _ _ M1), (model_cvis _ _ _ M2). apply d_cvis_ext; auto.
  - rewrite (model_csel _ _ _ M1), (model_csel _ _ _ M2). apply d_csel_ext; auto. apply WT.
Qed.

Context (U : uvals) (WT : well_typed cfg U).

Lemma step_agree r1 r2 q :
  (fixed cfg q = false -> Forall (agree r1 r2) (reads cfg q)) ->
  agree (d_step cfg U r1) (d_step cfg U r2) q.
Proof.
  intros H. assert (Hu : same_user U U q) by (by destruct q).
  destruct q as [s|s|s|c|c|c]; simpl.
  - by apply d_tri_ext.
  - apply d_str_ext; auto.
  - apply d_vis_ext; auto.
  - apply d_ctri_ext; auto.
  - apply d_cvis_ext; auto.
  - apply d_csel_ext; auto. apply WT.
Qed.

Lemma approx_stable q n m :
  (rk q < n)%nat -> (rk q < m)%nat -> agree (approx cfg U n) (approx cfg U m) q.
Proof.
  revert q m. induction n as [|n IH]; intros q m Hn Hm; [lia|].
  destruct m as [|m]; [lia|]. simpl. apply step_agree. intros Hf.
  eapply Forall_impl; [exact (HR q Hf)|]. intros q' Hq'. cbv beta in Hq'. apply IH; lia.
Qed.

Lemma solve_agree q n : (rk q < n)%nat -> agree (solve cfg U rk) (approx cfg U n) q.
Proof.
  intros Hn. pose proof (approx_stable q (S (rk q)) n ltac:(lia) Hn) as H. by destruct q.
Qed.

Lemma solve_step q : agree (solve cfg U rk) (d_step cfg U (solve cfg U rk)) q.
Proof.
  assert (H : agree (d_step cfg U (approx cfg U (rk q))) (d_step cfg U (solve cfg U rk)) q).
  { apply step_agree. intros Hf. eapply Forall_impl; [exact (HR q Hf)|]. intros q' Hq'.
    cbv beta in Hq'. pose proof (solve_agree q' (rk q) Hq') as Ha.
    destruct q'; simpl in *; congruence. }
  pose proof (solve_agree q (S (rk q)) ltac:(lia)) as Ha.
  destruct q; simpl in *; congruence.
Qed.

Lemma solve_is_model : is_model cfg U (solve cfg U rk).
Proof.
  split; intros x.
  - apply (solve_step (QTri x)).
  - apply (solve_step (QStr x)).
  - apply (solve_step (QVis x)).
  - apply (solve_step (QCTri x)).
  - apply (solve_step (QCVis x)).
  - apply (solve_step (QCSel x)).
Qed.
End Solve.

Lemma ranked_at_sound cfg rk q :
  ranked_at cfg rk q = true -> fixed cfg q = false ->
  Forall (fun q' => (rk q' < rk q)%nat) (reads cfg q).
Proof.
  unfold ranked_at. intros H Hf. rewrite Hf in H. simpl in H.
  apply Forall_forall. intros q' Hq'. rewrite forallb_forall in H.
  apply list_elem_of_In in Hq'. apply H in Hq'. apply Nat.ltb_lt in Hq'. done.
Qed.

Lemma ranked_check_sound cfg lv clv slv :
  ranked_check cfg lv clv slv = true -> ranked cfg (rank_for cfg lv clv slv).
Proof.
  unfold ranked_check. rewrite !andb_true_iff, !forallb_forall. intros (((Hs & Hc) & Hl1) & Hl2).
  apply Nat.leb_le in Hl1, Hl2.
  assert (Hsym : forall s, ~ (s < length (c_syms cfg))%nat -> sym cfg s = no_symbol).
  { intros s Hn. unfold sym. apply nth_overflow. lia. }
  assert (Hchc : forall c, ~ (c < length (c_choices cfg))%nat ->
     chc cfg c = no_choice /\ nth c clv 0%nat = 0%nat /\ nth c slv 0%nat = 0%nat).
  { intros c Hn. unfold chc. rewrite !nth_overflow by lia. done. }
  assert (Hins : forall s, (s < length (c_syms cfg))%nat -> In s (seq 0 (length (c_syms cfg))))
    by (intros; apply in_seq; lia).
  assert (Hinc : forall c, (c < length (c_choices cfg))%nat -> In c (seq 0 (length (c_choices cfg))))
    by (intros; apply in_seq; lia).
  intros q Hf. destruct q as [s|s|s|c|c|c].
  1-3: destruct (decide (s < length (c_syms cfg))%nat) as [Hlt|Hge];
    [specialize (Hs s (Hins s Hlt)); rewrite !andb_true_iff in Hs; apply ranked_at_sound; tauto|];
    cbn [reads]; unfold type_reads; rewrite ?(Hsym s Hge); constructor.
  all: destruct (decide (c < length (c_choices cfg))%nat) as [Hlt|Hge];
    [specialize (Hc c (Hinc c Hlt)); rewrite !andb_true_iff in Hc; apply ranked_at_sound; tauto|];
    destruct (Hchc c Hge) as (Hc' & H1 & H2); apply Forall_forall; intros q'; rewrite list_elem_of_In;
    cbn [reads]; unfold ctype_reads; rewrite Hc'; simpl; intros Hq'; destruct_or?; subst; try done;
    unfold rank_for; cbn [fixed rank_of]; rewrite ?H1, ?H2; lia.
Qed.

(** ** The initial state is coherent *)

Lemma no_user_typed cfg : well_typed cfg no_user.
Proof. by split. Qed.

Lemma init_sym_lookup cfg s :
  symst (init_state cfg) s
  = if bool_decide (s = c_n cfg) then set_cached_tri_val (Some 0) init_sym
    else if bool_decide (s = c_m cfg) then set_cached_tri_val (Some 1) init_sym
    else if bool_decide (s = c_y cfg) then set_cached_tri_val (Some 2) init_sym else init_sym.
Proof.
  unfold symst, init_state. simpl. rewrite !lookup_total_insert.
  repeat case_decide; repeat case_bool_decide; subst; done.
Qed.

Lemma init_coherent cfg rho :
  well_formed cfg -> is_model cfg no_user rho -> Coh cfg no_user rho ∅ (init_state cfg).
Proof.
  intros WF HM.
  assert (Hs : forall s, exists o, symst (init_state cfg) s = set_cached_tri_val o init_sym
     /\ (forall v, o = Some v -> is_tri_const cfg s = true /\ v = v_tri rho s)
     /\ (is_tri_const cfg s = true -> is_Some o)).
  { intros s. rewrite init_sym_lookup, (model_tri _ _ _ HM). unfold d_tri, is_tri_const.
    pose proof (wf_consts _ WF).
    repeat case_bool_decide; simpl; eexists; (split; [reflexivity|]); split; try done;
      intros; simplify_eq; eauto. }
  assert (Hc : forall c, chst (init_state cfg) c = init_choice).
  { intros c. unfold chst. simpl. by rewrite lookup_total_empty. }
  split; intros x; try (destruct (Hs x) as (o & Ho & Ho1 & Ho2); unfold value_known; rewrite ?Ho; simpl);
    try (rewrite Hc; simpl); try done.
  - intros v Hv. apply Ho1. done.
  - intros _ Hk. unfold d_wtc. destruct (is_tri_const cfg x) eqn:Hx; [done|].
    destruct (sym_orig_type (sym cfg x)); try done; destruct Hk as [v Hk]; try done;
      apply Ho1 in Hk as [Hk _]; done.
Qed.

(** ** What every model satisfies *)

Section Laws.
Context (cfg : Config) (U : uvals) (rho : valuation) (rk : query -> nat).
Context (HM : is_model cfg U rho) (HR : ranked cfg rk)
        (WF : well_formed cfg) (WT : well_typed cfg U).

Lemma tri_bounds s : 0 <= v_tri rho s <= 2.
Proof. exact (all_bounded cfg U rho rk HM HR WT (QTri s)). Qed.
Lemma vis_bounds s : 0 <= v_vis rho s <= 2.
Proof. exact (all_bounded cfg U rho rk HM HR WT (QVis s)). Qed.
Lemma ctri_bounds c : 0 <= v_ctri rho c <= 2.
Proof. exact (all_bounded cfg U rho rk HM HR WT (QCTri c)). Qed.
Lemma expr_bounds e : 0 <= d_expr cfg rho e <= 2.
Proof. exact (d_expr_bounded cfg U rho rk HM HR WT e). Qed.

Lemma not_const_tri s :
  is_tri_const cfg s = false -> is_bool_tristate (sym_orig_type (sym cfg s)) = true ->
  v_tri rho s = match sym_choice (sym cfg s) with
                | None => d_tri_free cfg U rho s
                | Some c => if v_vis rho s =? 2 then (if bool_decide (v_csel rho c = Some s) then 2 else 0)
                            else if negb (v_vis rho s =? 0) && uval_truthy (u_sym U s) then 1 else 0
                end.
Proof.
  intros Hc Ht. rewrite (model_tri _ _ _ HM). unfold d_tri. unfold is_tri_const in Hc.
  repeat case_bool_decide; try done. by rewrite Ht.
Qed.

(** A visible choice symbol of a choice in y mode has visibility y *)
Lemma choice_y_vis s c :
  sym_choice (sym cfg s) = Some c -> v_ctri rho c = 2 ->
  is_bool_tristate (sym_orig_type (sym cfg s)) = true ->
  v_vis rho s = 0 \/ v_vis rho s = 2.
Proof.
  intros Hc Hy Ht. pose proof (vis_bounds s) as Hb. pose proof (model_vis _ _ _ HM s) as Hv.
  unfold d_vis, d_hidden, d_type in Hv. rewrite Hc, Hy in Hv. simpl in Hv.
  destruct (sym_orig_type (sym cfg s)); try done; cbn in Hv; rewrite ?andb_true_r, ?andb_false_r in Hv;
    simpl in Hv; destruct (Z.eqb_spec (d_prompts cfg rho (sym_nodes (sym cfg s))) 1); simpl in Hv;
    rewrite ?orb_true_r in Hv; simpl in Hv; lia.
Qed.

Lemma csel_visible c s : v_csel rho c = Some s -> v_ctri rho c = 2 /\ v_vis rho s <> 0.
Proof.
  rewrite (model_csel _ _ _ HM). unfold d_csel.
  destruct (Z.eqb_spec (v_ctri rho c) 2) as [Hy|]; [|done]. simpl. intros H. split; [done|].
  assert (Hv : forall s', if_visible rho s' = Some s -> v_vis rho s <> 0).
  { intros s'. unfold if_visible. destruct (Z.eqb_spec (v_vis rho s') 0); [done|]. by intros [= <-]. }
  destruct (u_sel U c) as [s'|]; [destruct (if_visible rho s') eqn:E; [|clear E]|].
  - injection H as ->. by apply (Hv s').
  - unfold d_sel_default in H. destruct (first_some (d_sel_pick cfg rho) _) eqn:E.
    + injection H as ->. apply first_some_in in E as ([d cond] & _ & E). unfold d_sel_pick in E.
      destruct (_ =? 0); [done|]. destruct d as [[x|]| | | |]; try done. by apply (Hv x).
    + apply first_some_in in H as (x & _ & H). by apply (Hv x).
  - unfold d_sel_default in H. destruct (first_some (d_sel_pick cfg rho) _) eqn:E.
    + injection H as ->. apply first_some_in in E as ([d cond] & _ & E). unfold d_sel_pick in E.
      destruct (_ =? 0); [done|]. destruct d as [[x|]| | | |]; try done. by apply (Hv x).
    + apply first_some_in in H as (x & _ & H). by apply (Hv x).
Qed.

Lemma choice_selects s c :
  is_tri_const cfg s = false -> is_bool_tristate (sym_orig_type (sym cfg s)) = true ->
  sym_choice (sym cfg s) = Some c -> v_ctri rho c = 2 ->
  v_tri rho s = if bool_decide (v_csel rho c = Some s) then 2 else 0.
Proof.
  intros Hn Ht Hc Hy. rewrite not_const_tri, Hc by done.
  destruct (choice_y_vis s c) as [H0|H2]; [done..| |].
  - rewrite H0. simpl. case_bool_decide as Hs; [|done]. apply csel_visible in Hs as [_ Hs]. done.
  - by rewrite H2.
Qed.

Lemma bool_not_m s :
  is_tri_const cfg s = false -> d_type cfg rho s = BOOL -> v_tri rho s <> 1.
Proof.
  intros Hn Hb. assert (Ht : is_bool_tristate (sym_orig_type (sym cfg s)) = true).
  { unfold d_type in Hb. destruct (sym_orig_type (sym cfg s)); done. }
  rewrite not_const_tri by done. destruct (sym_choice (sym cfg s)) as [c|] eqn:Hc.
  - assert (Hv : v_vis rho s <> 1).
    { rewrite (model_vis _ _ _ HM). unfold d_vis. rewrite Hb. cbn.
      repeat case_match; try lia. rewrite andb_true_r in *. lia. }
    pose proof (vis_bounds s). destruct (Z.eqb_spec (v_vis rho s) 2); [by case_bool_decide|].
    assert (v_vis rho s = 0) as -> by lia. done.
  - unfold d_tri_free, d_promoted. rewrite Hb. cbn. rewrite andb_true_r. repeat case_match; lia.
Qed.

Lemma select_lower_bound s :
  is_tri_const cfg s = false -> is_bool_tristate (sym_orig_type (sym cfg s)) = true ->
  sym_choice (sym cfg s) = None ->
  d_expr cfg rho (sym_rev_dep (sym cfg s)) <= v_tri rho s.
Proof.
  intros Hn Ht Hc. pose proof (tri_bounds s) as Hb.
  destruct (Z.eqb_spec (d_expr cfg rho (sym_rev_dep (sym cfg s))) 0) as [|Hr]; [lia|].
  rewrite not_const_tri, Hc by done. unfold d_tri_free, d_selected.
  rewrite (proj2 (Z.eqb_neq _ 0) Hr). repeat case_match; lia.
Qed.

(** Without selects and implies the value stays within the visibility once the user has set it *)
Lemma user_value_upper_bound s v :
  is_tri_const cfg s = false -> is_bool_tristate (sym_orig_type (sym cfg s)) = true ->
  sym_choice (sym cfg s) = None -> u_sym U s = Some (UTri v) ->
  v_vis rho s <> 0 -> d_expr cfg rho (sym_rev_dep (sym cfg s)) = 0 ->
  d_expr cfg rho (sym_weak_rev_dep (sym cfg s)) <> 2 ->
  v_tri rho s <= v_vis rho s.
Proof.
  intros Hn Ht Hc Hu Hv Hr Hw. rewrite not_const_tri, Hc by done.
  unfold d_tri_free, d_selected, d_unselected, d_user. rewrite Hr, Hu. simpl.
  rewrite (proj2 (Z.eqb_neq _ 0) Hv). unfold d_promoted.
  destruct (Z.eqb_spec (Z.min v (v_vis rho s)) 1); simpl; [|lia].
  rewrite (proj2 (Z.eqb_neq _ 2) Hw), orb_false_r.
  destruct (type_eqb (d_type cfg rho s) BOOL) eqn:Hb; [|lia]. apply type_eqb_eq in Hb.
  enough (v_vis rho s <> 1) by lia. rewrite (model_vis _ _ _ HM). unfold d_vis. rewrite Hb. cbn.
  repeat case_match; try lia. rewrite andb_true_r in *. lia.
Qed.

(** The number an int or hex symbol stands for lies in its active range *)
Lemma clamp_in_range t lo hi val :
  is_int_hex t = true -> lo <= hi ->
  lo <= default 0 (py_int (d_clamp t (Some (lo, hi)) val) (TYPE_TO_BASE t)) <= hi.
Proof.
  intros Ht Hr. unfold d_clamp.
  destruct (Z.ltb_spec (default 0 (py_int val (TYPE_TO_BASE t))) lo);
    [|destruct (Z.ltb_spec hi (default 0 (py_int val (TYPE_TO_BASE t)))); [|lia]];
    (destruct t; try done; cbn; autorewrite with pystr; simpl; lia).
Qed.

Lemma int_hex_in_range s lo hi :
  is_int_hex (sym_orig_type (sym cfg s)) = true ->
  d_range cfg rho s = Some (lo, hi) -> lo <= hi ->
  lo <= default 0 (py_int (v_str rho s) (TYPE_TO_BASE (sym_orig_type (sym cfg s)))) <= hi.
Proof.
  intros Ht Hr Hle. rewrite (model_str _ _ _ HM). unfold d_str.
  assert (H1 : is_bool_tristate (sym_orig_type (sym cfg s)) = false) by (by destruct (sym_orig_type _)).
  assert (H2 : type_eqb (sym_orig_type (sym cfg s)) UNKNOWN = false) by (by destruct (sym_orig_type _)).
  rewrite H1, H2, Ht. unfold d_int_hex.
  destruct (d_num_user cfg U rho s) as [v|] eqn:Hu.
  - unfold d_num_user in Hu. destruct (negb _ && _); [|done].
    destruct (u_sym U s) as [[z|x]|]; [done| |done].
    destruct (py_int x _) as [n|] eqn:Hn; [|done]. rewrite Hr in Hu. simpl in Hu.
    destruct ((lo <=? n) && (n <=? hi)) eqn:Hin; [|done]. injection Hu as <-. rewrite Hn. simpl. lia.
  - rewrite Hr. by apply clamp_in_range.
Qed.
End Laws.

(** ** The cached code *)

Section Code.
Context (cfg : Config) (U : uvals) (rho : valuation) (rk : query -> nat).
Context (HM : is_model cfg U rho) (HR : ranked cfg rk)
        (WF : well_formed cfg) (WT : well_typed cfg U).

Lemma code_tri n st s :
  (rk (QTri s) < n)%nat -> Coh cfg U rho ∅ st ->
  exists st', ev_tri (ev cfg n) s st = (Ok (v_tri rho s), st') /\ Coh cfg U rho ∅ st'.
Proof.
  intros Hn Hst.
  apply (acc_tri _ _ _ _ _ _ (ev_accesses cfg U rho rk HM HR WF WT n n ltac:(lia))); [apply wok_empty|done..].
Qed.

Lemma code_str n st s :
  (rk (QStr s) < n)%nat -> Coh cfg U rho ∅ st ->
  exists st', ev_str (ev cfg n) s st = (Ok (v_str rho s), st') /\ Coh cfg U rho ∅ st'
    /\ write_to_conf (symst st' s) = d_wtc cfg U rho s.
Proof.
  intros Hn Hst.
  destruct (acc_str _ _ _ _ _ _ (ev_accesses cfg U rho rk HM HR WF WT n n ltac:(lia)) ∅ s
              (wok_empty _ _ _) Hn st Hst) as (st' & E & H').
  exists st'. split_and!; [done..|]. apply (coh_wtc _ _ _ _ _ H'); [apply lookup_empty|].
  assert (Hk : is_Some (cached_str_val (symst st' s))).
  { destruct n as [|n]; [lia|]. eapply (str_value_known cfg (ev cfg n)). exact E. }
  unfold value_known. destruct (sym_orig_type (sym cfg s)) eqn:Ht; try done;
    apply (coh_both _ _ _ _ _ H'); rewrite ?Ht; done.
Qed.

Lemma code_vis n st s :
  (rk (QVis s) < n)%nat -> Coh cfg U rho ∅ st ->
  exists st', ev_vis (ev cfg n) s st = (Ok (v_vis rho s), st') /\ Coh cfg U rho ∅ st'.
Proof.
  intros Hn Hst.
  apply (acc_vis _ _ _ _ _ _ (ev_accesses cfg U rho rk HM HR WF WT n n ltac:(lia))); [apply wok_empty|done..].
Qed.

Lemma code_expr n st e :
  Forall (fun q => (rk q < n)%nat) (expr_reads e) -> Coh cfg U rho ∅ st ->
  exists st', expr_value cfg (ev cfg n) e st = (Ok (d_expr cfg rho e), st') /\ Coh cfg U rho ∅ st'.
Proof.
  intros Hn Hst.
  apply (runs_expr _ _ _ _ HM HR WT _ _ (ev_accesses cfg U rho rk HM HR WF WT n n ltac:(lia)));
    [apply wok_empty|done..].
Qed.

Lemma code_config_string n st s :
  (rk (QStr s) < n)%nat -> Coh cfg U rho ∅ st ->
  exists st', config_string cfg (ev cfg n) s st = (Ok (d_config_string cfg U rho s), st')
    /\ Coh cfg U rho ∅ st'.
Proof.
  intros Hn Hst. destruct (code_str n st s Hn Hst) as (st' & E & H' & Hw).
  exists st'. split; [|done]. unfold config_string, sget, gets. cbv [mbind K_bind M_bind].
  rewrite E. unfold d_config_string. by rewrite Hw.
Qed.
End Code.
