(* ===== verification/SetValue.v ===== *)
(** * Setting user values and invalidating what depends on them

    [Symbol.set_value], [Symbol.unset_value], [Choice.set_value],
    [Choice.unset_value], [Kconfig.unset_values] and the invalidation of cached
    values.  The invariant [Valid] of the theorems below does not mention a
    model: it holds initially and is kept by every operation, and in a valid
    state every cached value is the one the current user values determine. *)
From S2P Require Import Prelude PyStr Model Eval EvalSpec EvalRefine EvalDet Values.

(** ** Definitions *)

Definition clear_sym (x : SymState) : SymState :=
  set_cached_str_val None (set_cached_tri_val None (set_cached_vis None (set_cached_assignable None x))).

Definition clear_choice (x : ChoiceState) : ChoiceState :=
  set_ch_cached_vis None (set_ch_cached_assignable None (set_ch_cached_selection None x)).

(** [Symbol._invalidate], [Choice._invalidate] *)
Definition invalidate (i : item) : K unit :=
  match i with
  | ISym s => sput clear_sym s
  | IChoice c => cput clear_choice c
  end.

(** [Kconfig._invalidate_all] *)
Definition invalidate_all (cfg : Config) : K unit :=
  forM_ (c_unique_defined_syms cfg) (fun s => invalidate (ISym s));;
  forM_ (c_unique_choices cfg) (fun c => invalidate (IChoice c)).

Definition dependents (cfg : Config) (i : item) : list item :=
  match i with
  | ISym s => sym_dependents (sym cfg s)
  | IChoice c => ch_dependents (chc cfg c)
  end.

(** [item._cached_vis is not None] *)
Definition flagged (st : State) (i : item) : bool :=
  match i with
  | ISym s => bool_decide (is_Some (cached_vis (symst st s)))
  | IChoice c => bool_decide (is_Some (ch_cached_vis (chst st c)))
  end.

(** [Symbol._rec_invalidate], [Choice._rec_invalidate], to recursion depth [n] *)
Fixpoint rec_invalidate (cfg : Config) (n : nat) (i : item) : K unit :=
  match n with
  | O => raise RecursionError
  | S n =>
      if bool_decide (i = ISym (c_modules cfg)) then invalidate_all cfg
      else
        invalidate i;;
        forM_ (dependents cfg i) (fun z =>
          f ← gets (fun st => flagged st z); when f (rec_invalidate cfg n z))
  end.

Section Set_.
Context (cfg : Config) (depth : nat).

(** [Symbol._rec_invalidate_if_has_prompt] *)
Definition rec_invalidate_if_has_prompt (s : symid) : K unit :=
  if has_prompt cfg s then rec_invalidate cfg depth (ISym s)
  else
    w ← gets st_warn_assign_no_prompt;
    when w (warn (sym_name_and_loc cfg s +:+ " has no prompt, meaning user values have no effect on it")).

(** ["TRI_TO_STR[value] if value in TRI_TO_STR else "'{}'".format(value)"] *)
Definition show_value (v : uval) : string :=
  match v with
  | UTri z => match TRI_TO_STR z with Some t => t | None => "'" +:+ py_str z +:+ "'" end
  | UStr x => "'" +:+ x +:+ "'"
  end.

Definition warn_invalid (v : uval) (name_loc : string) (t : stype) : K unit :=
  warn ("the value " +:+ show_value v +:+ " is invalid for " +:+ name_loc
        +:+ ", which has type " +:+ TYPE_TO_STR t +:+ " -- assignment ignored").

(** ["n"], ["m"] and ["y"] stand for 0, 1 and 2 *)
Definition tri_of_str (v : uval) : uval :=
  match v with
  | UStr x => match STR_TO_TRI x with Some z => UTri z | None => v end
  | UTri _ => v
  end.

(** Is the value valid for the type of the symbol? *)
Definition valid_for_type (t : stype) (v : uval) : bool :=
  match t, v with
  | BOOL, UTri z => (z =? 2) || (z =? 0)
  | TRISTATE, UTri z => bool_decide (is_Some (TRI_TO_STR z))
  | STRING, UStr _ => true
  | INT, UStr x => is_base_n x 10
  | HEX, UStr x => is_base_n x 16 && (0 <=? default 0 (py_int x 16))
  | _, _ => false
  end.

(** [Symbol.set_value] *)
Definition set_value (s : symid) (value : uval) : K bool :=
  let x := sym cfg s in
  let value := if is_bool_tristate (sym_orig_type x) then tri_of_str value else value in
  u ← sget user_value s;
  if bool_decide (u = Some value) && bool_decide (sym_choice x = None) then
    sput (set_was_set true) s;; mret true
  else if negb (valid_for_type (sym_orig_type x) value) then
    warn_invalid value (sym_name_and_loc cfg s) (sym_orig_type x);; mret false
  else
    sput (set_user_value (Some value)) s;;
    sput (set_was_set true) s;;
    match sym_choice x, value with
    | Some c, UTri 2 =>
        cput (set_ch_user_selection (Some s)) c;;
        cput (set_ch_was_set true) c;;
        rec_invalidate cfg depth (IChoice c);; mret true
    | _, _ => rec_invalidate_if_has_prompt s;; mret true
    end.

(** [Symbol.unset_value] *)
Definition unset_value (s : symid) : K unit :=
  u ← sget user_value s;
  when (bool_decide (is_Some u))
    (sput (set_user_value None) s;; rec_invalidate_if_has_prompt s).

(** [Choice.set_value] *)
Definition ch_set_value (c : choiceid) (value : uval) : K bool :=
  let x := chc cfg c in
  let value := tri_of_str value in
  u ← cget ch_user_value c;
  if bool_decide (UTri <$> u = Some value) then
    cput (set_ch_was_set true) c;; mret true
  else
    match value with
    | UTri z =>
        if valid_for_type (ch_orig_type x) value then
          cput (set_ch_user_value (Some z)) c;;
          cput (set_ch_was_set true) c;;
          rec_invalidate cfg depth (IChoice c);; mret true
        else warn_invalid value (ch_name_and_loc cfg c) (ch_orig_type x);; mret false
    | UStr _ => warn_invalid value (ch_name_and_loc cfg c) (ch_orig_type x);; mret false
    end.

(** [Choice.unset_value] *)
Definition ch_unset_value (c : choiceid) : K unit :=
  u ← cget ch_user_value c;
  us ← cget ch_user_selection c;
  when (bool_decide (is_Some u) || bool_decide (is_Some us))
    (cput (set_ch_user_value None) c;; cput (set_ch_user_selection None) c;;
     rec_invalidate cfg depth (IChoice c)).

(** [Kconfig.unset_values] *)
Definition unset_values : K unit :=
  modify (set_st_warn_assign_no_prompt false);;
  try_finally
    (forM_ (c_unique_defined_syms cfg) unset_value;;
     forM_ (c_unique_choices cfg) ch_unset_value)
    (modify (set_st_warn_assign_no_prompt true)).
End Set_.

(** ** What the operations rely on: the dependents are complete

    [Kconfig._build_dep] and [Kconfig._add_choice_deps] establish it; constant
    and undefined symbols are never invalidated and need no dependents. *)

Definition item_of (q : query) : item :=
  match q with
  | QTri s | QStr s | QVis s => ISym s
  | QCTri c | QCVis c | QCSel c => IChoice c
  end.

(** Nothing a static item has ever changes *)
Definition is_static (cfg : Config) (i : item) : bool :=
  match i with
  | ISym s => negb (bool_decide (s ∈ c_unique_defined_syms cfg))
  | IChoice c => negb (bool_decide (c ∈ c_unique_choices cfg))
  end.

Definition covered (cfg : Config) (i : item) (q' : query) : Prop :=
  item_of q' = i \/ is_static cfg (item_of q') = true
  \/ (is_static cfg i = false
      /\ (item_of q' = ISym (c_modules cfg) \/ In i (dependents cfg (item_of q')))).

Definition item_reads (cfg : Config) (i : item) : list query :=
  match i with
  | ISym s => vreads cfg (QTri s) ++ vreads cfg (QStr s) ++ vreads cfg (QVis s) ++ areads cfg s
  | IChoice c => vreads cfg (QCTri c) ++ vreads cfg (QCVis c) ++ vreads cfg (QCSel c) ++ careads cfg c
  end.

Definition all_items (cfg : Config) : list item :=
  map ISym (seq 0 (length (c_syms cfg))) ++ map IChoice (seq 0 (length (c_choices cfg))).

Record deps_ok (cfg : Config) : Prop := {
  dep_reads : forall i q', In q' (item_reads cfg i) -> covered cfg i q';
  dep_static : forall i z, In z (dependents cfg i) -> is_static cfg z = false;
  dep_bounded : forall i z, In z (dependents cfg i) -> In z (all_items cfg);
  dep_prompt : forall s, is_static cfg (ISym s) = true -> has_prompt cfg s = false;
  dep_choice : forall s c, sym_choice (sym cfg s) = Some c ->
    In s (ch_syms (chc cfg c)) /\ is_static cfg (IChoice c) = false
    /\ (has_prompt cfg s = true -> In (ISym s) (dependents cfg (IChoice c)));
  dep_const : forall s, is_tri_const cfg s = true -> is_static cfg (ISym s) = true;
  dep_static_choice : forall c, is_static cfg (IChoice c) = true -> ch_orig_type (chc cfg c) <> TRISTATE;
}.

(** ** What invalidation does to the state *)

(** The caches of [i], and the mode of a choice, are as before *)
Definition same_at (st st' : State) (i : item) : Prop :=
  match i with
  | ISym s =>
      cached_tri_val (symst st' s) = cached_tri_val (symst st s)
      /\ cached_str_val (symst st' s) = cached_str_val (symst st s)
      /\ cached_vis (symst st' s) = cached_vis (symst st s)
      /\ cached_assignable (symst st' s) = cached_assignable (symst st s)
      /\ write_to_conf (symst st' s) = write_to_conf (symst st s)
  | IChoice c =>
      ch_cached_vis (chst st' c) = ch_cached_vis (chst st c)
      /\ ch_cached_selection (chst st' c) = ch_cached_selection (chst st c)
      /\ ch_cached_assignable (chst st' c) = ch_cached_assignable (chst st c)
      /\ ch_user_value (chst st' c) = ch_user_value (chst st c)
  end.

(** Nothing is cached for [i] *)
Definition clear_at (st : State) (i : item) : Prop :=
  match i with
  | ISym s =>
      cached_tri_val (symst st s) = None /\ cached_str_val (symst st s) = None
      /\ cached_vis (symst st s) = None /\ cached_assignable (symst st s) = None
  | IChoice c =>
      ch_cached_vis (chst st c) = None /\ ch_cached_selection (chst st c) = None
      /\ ch_cached_assignable (chst st c) = None
  end.

(** User values and [_was_set] are left alone *)
Definition same_users (st st' : State) : Prop :=
  (forall s, user_value (symst st' s) = user_value (symst st s))
  /\ (forall c, ch_user_value (chst st' c) = ch_user_value (chst st c)
             /\ ch_user_selection (chst st' c) = ch_user_selection (chst st c)).

Section Inval.
Context (cfg : Config).

(** Some objects lost their caches; no object that depends on one of them has cached values *)
Record inval (st st' : State) : Prop := {
  iv_users : same_users st st';
  iv_each : forall i, same_at st st' i
    \/ (clear_at st' i /\ forall z, In z (dependents cfg i) -> flagged st' z = false);
  iv_modules : same_at st st' (ISym (c_modules cfg))
    \/ forall i, is_static cfg i = false -> clear_at st' i;
  iv_static : forall i, is_static cfg i = true -> same_at st st' i;
  iv_wtc : forall s, write_to_conf (symst st' s) = write_to_conf (symst st s);
}.

Lemma same_at_refl st i : same_at st st i.
Proof. by destruct i. Qed.

Lemma same_at_trans st1 st2 st3 i : same_at st1 st2 i -> same_at st2 st3 i -> same_at st1 st3 i.
Proof. destruct i; simpl; intros; destruct_and!; split_and!; congruence. Qed.

Lemma same_clear st1 st2 i : same_at st1 st2 i -> clear_at st1 i -> clear_at st2 i.
Proof. destruct i; simpl; intros; destruct_and!; split_and!; congruence. Qed.

Lemma clear_flagged st i : clear_at st i -> flagged st i = false.
Proof. destruct i; simpl; intros; destruct_and!; by rewrite bool_decide_eq_false, <- eq_None_not_Some. Qed.

Lemma same_flagged st1 st2 i : same_at st1 st2 i -> flagged st2 i = flagged st1 i.
Proof.
  destruct i as [s|c]; simpl; [intros (_ & _ & Hv & _)|intros (Hv & _)]; apply bool_decide_ext; by rewrite Hv.
Qed.

Lemma inval_flagged st st' i : inval st st' -> flagged st i = false -> flagged st' i = false.
Proof.
  intros H Hf. destruct (iv_each _ _ H i) as [Hs|[Hc _]]; [|by apply clear_flagged].
  by rewrite (same_flagged _ _ _ Hs).
Qed.

Lemma inval_clear st st' i : inval st st' -> clear_at st i -> clear_at st' i.
Proof.
  intros H Hf. destruct (iv_each _ _ H i) as [Hs|[Hc _]]; [|done]. by eapply same_clear.
Qed.

#[export] Instance inval_preorder : PreOrder inval.
Proof.
  split.
  - intros st. split; try done; intros; auto using same_at_refl.
  - intros st1 st2 st3 H1 H2. pose proof H1 as [[U1 U1'] E1 M1 S1 N1]. pose proof H2 as [[U2 U2'] E2 M2 S2 N2].
    split.
    + split; [congruence|]. intros c. destruct (U1' c), (U2' c). split; congruence.
    + intros i. destruct (E2 i) as [Hs2|?]; [|auto]. destruct (E1 i) as [Hs1|[Hc1 Hd1]].
      * left. by eapply same_at_trans.
      * right. split; [by eapply same_clear|]. intros z Hz. eapply inval_flagged; [done|]. auto.
    + destruct M2 as [Hs2|?]; [|auto]. destruct M1 as [Hs1|Hc1].
      * left. by eapply same_at_trans.
      * right. intros i Hi. eapply inval_clear; eauto.
    + intros i Hi. eapply same_at_trans; eauto.
    + congruence.
Qed.

Context (DO : deps_ok cfg).

Lemma invalidate_eq i st : exists st', invalidate i st = (Ok tt, st')
  /\ clear_at st' i /\ same_users st st' /\ (forall j, j <> i -> same_at st st' j)
  /\ forall s, write_to_conf (symst st' s) = write_to_conf (symst st s).
Proof.
  destruct i as [s|c]; (eexists; split; [reflexivity|]); split_and!.
  - simpl. autorewrite with kst. by rewrite decide_True.
  - split; [|done]. intros s'. autorewrite with kst. by case_decide; subst.
  - intros [s'|c] Hne; [|by split_and!]. simpl. autorewrite with kst.
    rewrite decide_False by congruence. done.
  - intros s'. autorewrite with kst. by case_decide; subst.
  - simpl. autorewrite with kst. by rewrite decide_True.
  - split; [done|]. intros c'. autorewrite with kst. by case_decide; subst.
  - intros [s|c'] Hne; [by split_and!|]. simpl. autorewrite with kst.
    rewrite decide_False by congruence. done.
  - done.
Qed.

(** Invalidating a list of objects *)
Lemma invalidate_list_eq (l : list item) st :
  exists st', forM_ l invalidate st = (Ok tt, st') /\ same_users st st'
    /\ (forall i, i ∈ l -> clear_at st' i) /\ (forall i, i ∉ l -> same_at st st' i)
    /\ (forall i, clear_at st i -> clear_at st' i)
    /\ forall s, write_to_conf (symst st' s) = write_to_conf (symst st s).
Proof.
  revert st. induction l as [|i l IH]; intros st.
  - exists st. split_and!; try done; intros; [set_solver|apply same_at_refl].
  - destruct (invalidate_eq i st) as (st1 & E1 & C1 & [U1 U1'] & S1 & N1).
    destruct (IH st1) as (st2 & E2 & [U2 U2'] & C2 & S2 & K2 & N2).
    exists st2. split_and!.
    + unfold forM_ in *. simpl. cbv [mbind K_bind M_bind]. by rewrite E1.
    + split; [congruence|]. intros c. destruct (U1' c), (U2' c). split; congruence.
    + intros j [->|Hj]%elem_of_cons; auto.
    + intros j [Hj Hn]%not_elem_of_cons. eapply same_at_trans; eauto.
    + intros j Hj. apply K2. destruct (decide (j = i)) as [->|Hne]; [done|].
      eapply same_clear; eauto.
    + congruence.
Qed.

Lemma invalidate_all_eq st : exists st', invalidate_all cfg st = (Ok tt, st') /\ inval st st'
  /\ (forall i, is_static cfg i = false -> clear_at st' i).
Proof.
  destruct (invalidate_list_eq (map ISym (c_unique_defined_syms cfg)) st)
    as (st1 & E1 & [U1 U1'] & C1 & S1 & K1 & N1).
  destruct (invalidate_list_eq (map IChoice (c_unique_choices cfg)) st1)
    as (st2 & E2 & [U2 U2'] & C2 & S2 & K2 & N2).
  exists st2. assert (Hall : forall i, is_static cfg i = false -> clear_at st2 i).
  { intros [s|c]; simpl; intros H%negb_false_iff%bool_decide_eq_true.
    - apply (K2 (ISym s)), (C1 (ISym s)). by apply list_elem_of_fmap_2.
    - apply (C2 (IChoice c)). by apply list_elem_of_fmap_2. }
  assert (Hst : forall i, is_static cfg i = true -> same_at st st2 i).
  { intros i Hi. eapply same_at_trans; [apply S1|apply S2]; intros (x & -> & Hx)%list_elem_of_fmap;
      simpl in Hi; by rewrite bool_decide_true in Hi. }
  split_and!; [|split|exact Hall].
  - unfold invalidate_all, forM_ in *. rewrite foldM_map in E1, E2. cbv [mbind K_bind M_bind].
    by rewrite E1, E2.
  - split; [congruence|]. intros c. destruct (U1' c), (U2' c). split; congruence.
  - intros i. destruct (is_static cfg i) eqn:Hi; [auto|]. right. split; [auto|].
    intros z Hz. apply clear_flagged, Hall. by eapply dep_static.
  - destruct (is_static cfg (ISym (c_modules cfg))) eqn:Hi; auto.
  - done.
  - congruence.
Qed.

(** The objects other than [i] that have cached values *)
Definition cached_others (st : State) (i : item) : nat :=
  length (List.filter (fun j => flagged st j && negb (bool_decide (j = i))) (all_items cfg)).

Definition rec_post (i : item) (st st' : State) : Prop :=
  inval st st' /\ clear_at st' i /\ forall z, In z (dependents cfg i) -> flagged st' z = false.

(** Recursion to a depth of one more than the number of objects with cached
    values always suffices, dependency loops or not *)
Lemma rec_invalidate_ok n i st :
  is_static cfg i = false -> (cached_others st i < n)%nat ->
  exists st', rec_invalidate cfg n i st = (Ok tt, st') /\ rec_post i st st'.
Proof.
  revert i st. induction n as [|n IH]; intros i st Hi Hn; [lia|]. cbn [rec_invalidate].
  case_bool_decide as Hm.
  { destruct (invalidate_all_eq st) as (st' & E' & H' & C'). exists st'. split_and!; [done..|split_and!; [done|auto|]].
    intros z Hz. apply clear_flagged, C'. by eapply dep_static. }
  destruct (invalidate_eq i st) as (st1 & E1 & C1 & U1 & S1 & N1).
  assert (Hloop : forall l sta, incl l (dependents cfg i) -> clear_at sta i ->
    (forall j, flagged sta j = true -> flagged st j = true) ->
    exists stb, forM_ l (fun z => f ← gets (fun st => flagged st z); when f (rec_invalidate cfg n z)) sta = (Ok tt, stb)
      /\ inval sta stb /\ forall z, In z l -> flagged stb z = false).
  { induction l as [|z l IHl]; intros sta Hl Ca Fa; [by exists sta|].
    apply incl_cons_inv in Hl as [Hz Hl].
    assert (Hstep : exists stb, (f ← gets (fun st => flagged st z); when f (rec_invalidate cfg n z)) sta = (Ok tt, stb)
       /\ inval sta stb /\ flagged stb z = false).
    { cbv [mbind K_bind M_bind gets]. destruct (flagged sta z) eqn:Fz; [|by exists sta].
      destruct (IH z sta) as (stb & Eb & Hb & Cb & _); [by eapply dep_static| |].
      - unfold cached_others in *. eapply Nat.lt_le_trans; [|apply Nat.lt_succ_r, Hn].
        apply (filter_length_lt _ _ _ z); [|by eapply dep_bounded|by rewrite bool_decide_true, andb_false_r|].
        + intros j _ [Fj _]%andb_true_iff. rewrite (Fa j Fj). simpl.
          rewrite bool_decide_eq_false_2; [done|]. intros ->. by rewrite (clear_flagged _ _ Ca) in Fj.
        + rewrite (Fa z Fz). simpl. rewrite bool_decide_eq_false_2; [done|].
          intros ->. by rewrite (clear_flagged _ _ Ca) in Fz.
      - exists stb. split_and!; [done..|by apply clear_flagged]. }
    destruct Hstep as (stb & Eb & Hb & Fb).
    destruct (IHl stb) as (stc & Ec & Hc & Fc); [done|by eapply inval_clear| |].
    { intros j Fj. apply Fa. destruct (flagged sta j) eqn:Hj; [done|].
      by rewrite (inval_flagged _ _ _ Hb Hj) in Fj. }
    exists stc. split_and!.
    - unfold forM_ in *. cbn [foldM]. unfold mbind at 1, M_bind at 1. rewrite Eb. exact Ec.
    - by etrans.
    - intros j [<-|Hj]; [by eapply inval_flagged|auto]. }
  destruct (Hloop (dependents cfg i) st1) as (st2 & E2 & H2 & F2); [apply incl_refl|done| |].
  { intros j Fj. destruct (decide (j = i)) as [->|Hne]; [by rewrite (clear_flagged _ _ C1) in Fj|].
    by rewrite <- (same_flagged _ _ _ (S1 j Hne)). }
  exists st2. split; [cbv [mbind K_bind M_bind]; by rewrite E1|].
  pose proof H2 as [[V2 V2'] E2' M2 T2 N2]. destruct U1 as [U1 U1'].
  split_and!; [split|by eapply inval_clear|done].
  - split; [congruence|]. intros c. destruct (U1' c), (V2' c). split; congruence.
  - intros j. destruct (decide (j = i)) as [->|Hne]; [right; split; [by eapply inval_clear|done]|].
    destruct (E2' j) as [Hs|?]; [|auto]. left. eapply same_at_trans; eauto.
  - destruct M2 as [Hs|?]; [|auto]. left. eapply same_at_trans; [apply S1; congruence|done].
  - intros j Hj. eapply same_at_trans; [apply S1; congruence|auto].
  - congruence.
Qed.
End Inval.
