(* ===== verification/Validity.v ===== *)
(** * Valid states: cached values are those the current user values determine

    [Valid] is the invariant of a configuration in use.  It is kept by every
    property access and by every change of a user value, and it implies that
    the caches agree with the model of the current user values. *)
From S2P Require Import Prelude PyStr Model Eval EvalSpec EvalRefine EvalDet Values SetValue.

Record Valid (cfg : Config) (U : uvals) (st : State) : Prop := {
  vd_user : forall s, user_value (symst st s) = u_sym U s;
  vd_mode : forall c, ch_user_value (chst st c) = u_mode U c;
  vd_sel : forall c, ch_user_selection (chst st c) = u_sel U c;
  vd_det : Det cfg U st;
  vd_flags : Flags cfg st;
  vd_both : forall s, is_bool_tristate (sym_orig_type (sym cfg s)) = true ->
    is_Some (cached_str_val (symst st s)) -> is_Some (cached_tri_val (symst st s));
  vd_wtc : forall s, value_known cfg st s -> forall r, compat cfg (vreads cfg (writer cfg s)) st r ->
    d_wtc cfg U r s = write_to_conf (symst st s);
}.

(** The user values after setting one of them *)
Definition set_user (U : uvals) (s : symid) (v : option uval) : uvals :=
  mkUvals (fun s' => if decide (s = s') then v else u_sym U s') (u_mode U) (u_sel U).
Definition set_mode (U : uvals) (c : choiceid) (v : option Z) : uvals :=
  mkUvals (u_sym U) (fun c' => if decide (c = c') then v else u_mode U c') (u_sel U).
Definition set_sel (U : uvals) (c : choiceid) (v : option symid) : uvals :=
  mkUvals (u_sym U) (u_mode U) (fun c' => if decide (c = c') then v else u_sel U c').

Lemma vreads_reads cfg q q' : In q' (vreads cfg q) -> fixed cfg q = false /\ In q' (reads cfg q).
Proof.
  destruct q as [s|s|s|c|c|c]; try (by intros H; split).
  - cbn [vreads reads fixed]. destruct (is_tri_const cfg s); [done|]. simpl.
    destruct (negb _); [done|]. intros [<-|H]; [split; [done|by left]|]. split; [done|]. right.
    destruct (sym_choice _); [done|]. rewrite !in_app_iff in *. tauto.
  - cbn [vreads]. destruct (has_prompt cfg s); [|done]. by intros H; split.
Qed.

Section Valid_.
Context (cfg : Config) (U : uvals) (rho : valuation) (rk : query -> nat).
Context (HM : is_model cfg U rho) (HR : ranked cfg rk)
        (WF : well_formed cfg) (WT : well_typed cfg U).

Lemma model_tri_valued : tri_valued rho.
Proof. intros q. by eapply all_bounded. Qed.

Lemma valid_agrees st q : Valid cfg U st -> agrees cfg st rho q.
Proof.
  intros V. remember (rk q) as n eqn:Hn. revert q Hn. induction (lt_wf n) as [n _ IH]; intros q ->.
  assert (Hc : compat cfg (vreads cfg q) st rho).
  { split; [apply model_tri_valued|]. intros q' [Hf Hq']%vreads_reads. eapply IH; [|done].
    specialize (HR q Hf). rewrite Forall_forall in HR. by apply HR, list_elem_of_In. }
  destruct V as [V1 V2 V3 [D1 D2 D3 D4 D5 D6 D7 D8] VF VB VW].
  destruct q as [s|s|s|c|c|c]; simpl.
  - intros v Hv. rewrite (model_tri _ _ _ HM). eauto.
  - intros v Hv. rewrite (model_str _ _ _ HM). eauto.
  - intros v Hv. rewrite (model_vis _ _ _ HM). eauto.
  - destruct Hc as [_ Hc]. apply (agrees_ctri cfg U rho HM); [done|apply (Hc (QCVis c)); by left|].
    intros Ht. apply (Hc (QTri _)). cbn [vreads reads]. unfold ctype_reads. rewrite Ht. right. by left.
  - intros v Hv. rewrite (model_cvis _ _ _ HM). eauto.
  - intros v Hv. rewrite (model_csel _ _ _ HM). eauto.
Qed.

Lemma valid_compat st L : Valid cfg U st -> compat cfg L st rho.
Proof. intros V. split; [apply model_tri_valued|]. intros q _. by apply valid_agrees. Qed.

Lemma valid_inv st : Valid cfg U st -> Inv cfg U rho st.
Proof.
  intros V. pose proof (fun L => valid_compat st L V) as Hc. split; try apply V.
  - intros q. by apply valid_agrees.
  - intros s l Hl. symmetry. by apply (det_assignable _ _ _ (vd_det _ _ _ V) s l Hl).
  - intros c l Hl. symmetry. by apply (det_cassignable _ _ _ (vd_det _ _ _ V) c l Hl).
Qed.

Lemma valid_coh st : Valid cfg U st -> Coh cfg U rho ∅ st.
Proof.
  intros V. pose proof (fun q => valid_agrees st q V) as Ha. pose proof (valid_inv st V) as HI.
  split; try apply V.
  - intros s v Hv. symmetry. by apply (Ha (QTri s)).
  - intros s v Hv. symmetry. by apply (Ha (QStr s)).
  - intros s v Hv. symmetry. by apply (Ha (QVis s)).
  - apply HI.
  - intros c v Hv. symmetry. by apply (Ha (QCVis c)).
  - intros c v Hv. symmetry. by apply (Ha (QCSel c)).
  - apply HI.
  - intros s b. by rewrite lookup_empty.
  - intros s _ Hk. symmetry. apply (vd_wtc _ _ _ V s Hk). by apply valid_compat.
Qed.

Lemma inv_coh_valid st : Inv cfg U rho st -> Coh cfg U rho ∅ st -> Valid cfg U st.
Proof.
  intros HI HC. split; try apply HI.
  - apply (coh_both _ _ _ _ _ HC).
  - intros s Hk r Hr. destruct (det_wtc _ _ _ (inv_det _ _ _ _ HI) s Hk) as [b Hb].
    rewrite (Hb r Hr), <- (Hb rho); [symmetry; apply (coh_wtc _ _ _ _ _ HC); [apply lookup_empty|done]|].
    apply (model_agrees cfg U rho model_tri_valued st _ HI).
Qed.

(** Every property access returns the model's value and leaves a valid state *)
Lemma valid_access {A} (m : K A) (a : A) st :
  outcome cfg U rho ∅ m (Ok a) ∅ -> keeps cfg U rho m -> Valid cfg U st ->
  exists st', m st = (Ok a, st') /\ Valid cfg U st'.
Proof.
  intros Ho Hk V. destruct (Ho st (valid_coh st V)) as (st' & E & HC). exists st'. split; [done|].
  destruct (Hk _ _ _ (valid_inv st V) E) as (HI & _ & _). by apply inv_coh_valid.
Qed.

Lemma ev_found n : found cfg U rho (ev cfg n).
Proof. apply found_ev; [done|apply model_tri_valued|done|done]. Qed.

Lemma valid_tri n s st : (rk (QTri s) < n)%nat -> Valid cfg U st ->
  exists st', ev_tri (ev cfg n) s st = (Ok (v_tri rho s), st') /\ Valid cfg U st'.
Proof.
  intros Hn. apply valid_access; [|apply (find_tri _ _ _ _ (ev_found n))].
  by apply (acc_tri _ _ _ _ _ _ (ev_accesses cfg U rho rk HM HR WF WT n n ltac:(lia))), Hn; apply wok_empty.
Qed.
End Valid_.

(** ** Changing a user value *)

(** The user value of [s] is the same, or does not matter because [s] is invisible *)
Definition irrelevant (U U' : uvals) (r : valuation) (s : symid) : Prop :=
  u_sym U' s = u_sym U s \/ v_vis r s = 0.

Section Irrelevant.
Context (cfg : Config) (U U' : uvals) (r : valuation) (s : symid) (HU : irrelevant U U' r s).

Lemma irr_user : d_user U' r s = d_user U r s.
Proof.
  unfold d_user. destruct HU as [->| ->]; [done|]. destruct (u_sym U' s) as [[]|], (u_sym U s) as [[]|]; done.
Qed.

Lemma irr_str_user : d_str_user U' r s = d_str_user U r s.
Proof.
  unfold d_str_user. destruct HU as [->| ->]; [done|]. destruct (u_sym U' s) as [[]|], (u_sym U s) as [[]|]; done.
Qed.

Lemma irr_num_user : d_num_user cfg U' r s = d_num_user cfg U r s.
Proof. unfold d_num_user. by destruct HU as [->| ->]. Qed.

Lemma irr_truthy : negb (v_vis r s =? 0) && uval_truthy (u_sym U' s) = negb (v_vis r s =? 0) && uval_truthy (u_sym U s).
Proof. by destruct HU as [->| ->]. Qed.

Lemma irr_tri : d_tri cfg U' r s = d_tri cfg U r s.
Proof.
  unfold d_tri, d_tri_free, d_selected, d_unselected. by rewrite irr_user, irr_truthy.
Qed.

Lemma irr_str : d_str cfg U' r s = d_str cfg U r s.
Proof. unfold d_str, d_int_hex, d_string. by rewrite irr_num_user, irr_str_user. Qed.

Lemma irr_wtc : d_wtc cfg U' r s = d_wtc cfg U r s.
Proof.
  unfold d_wtc, d_wtc_tri, d_wtc_str, d_wtc_unselected. by rewrite irr_user, irr_num_user, irr_str_user.
Qed.
End Irrelevant.

Section Change.
Context (cfg : Config) (U U' : uvals) (rho : valuation) (rk : query -> nat).
Context (HM : is_model cfg U rho) (HR : ranked cfg rk)
        (WF : well_formed cfg) (WT : well_typed cfg U) (DO : deps_ok cfg).
Context (st st' : State) (V : Valid cfg U st).
Context (Heach : forall i, same_at st st' i
           \/ (clear_at st' i /\ forall z, In z (dependents cfg i) -> flagged st' z = false))
        (Hmod : same_at st st' (ISym (c_modules cfg))
           \/ forall i, is_static cfg i = false -> clear_at st' i)
        (Hstatic : forall i, is_static cfg i = true -> same_at st st' i)
        (Hwtc : forall s, write_to_conf (symst st' s) = write_to_conf (symst st s)).
Context (Huser : forall s, user_value (symst st' s) = u_sym U' s)
        (Hmode : forall c, ch_user_value (chst st' c) = u_mode U' c)
        (Hsel : forall c, ch_user_selection (chst st' c) = u_sel U' c).
Context (Hu : forall s, u_sym U' s = u_sym U s \/ flagged st' (ISym s) = false \/ has_prompt cfg s = false)
        (Hc : forall c, (u_mode U' c = u_mode U c /\ u_sel U' c = u_sel U c) \/ clear_at st' (IChoice c)).

Lemma agrees_kept r q : same_at st st' (item_of q) -> agrees cfg st' r q -> agrees cfg st r q.
Proof.
  destruct q as [s|s|s|c|c|c]; simpl; intros Hs Ha v; try (destruct_and!; intros Hv; apply Ha; congruence).
  destruct Hs as (H1 & _ & _ & H4). unfold cached_ctri in *. rewrite H1, H4 in Ha.
  destruct (ch_cached_vis (chst st c)) as [vis|] eqn:Ev; [|done]. cbv zeta in *.
  destruct (_ =? 1); [|apply Ha]. destruct (ch_orig_type (chc cfg c)) eqn:Ht; try apply Ha.
  destruct Hmod as [(E & _)|Hall]; [rewrite E in Ha; apply Ha|].
  destruct (Hall (IChoice c)) as [E _]; [|congruence].
  destruct (is_static cfg (IChoice c)) eqn:Hst; [|done]. by apply (dep_static_choice _ DO) in Hst.
Qed.

Lemma reads_kept i q : same_at st st' i -> flagged st' i = true -> In q (item_reads cfg i) ->
  same_at st st' (item_of q).
Proof.
  intros Hs Hf Hq. destruct (dep_reads _ DO i q Hq) as [->|[Hst|[Hni [->|Hin]]]]; [done|by apply Hstatic|..].
  - destruct Hmod as [?|Hall]; [done|]. by rewrite (clear_flagged _ _ (Hall i Hni)) in Hf.
  - destruct (Heach (item_of q)) as [?|[_ Hd]]; [done|]. by rewrite (Hd i Hin) in Hf.
Qed.

Lemma compat_kept i L r : same_at st st' i -> flagged st' i = true -> incl L (item_reads cfg i) ->
  compat cfg L st' r -> compat cfg L st r.
Proof.
  intros Hs Hf Hi [Hb Ha]. split; [done|]. intros q Hq. apply agrees_kept; [|auto].
  eapply reads_kept; eauto.
Qed.

Lemma reads_of q : incl (vreads cfg q) (item_reads cfg (item_of q)).
Proof. destruct q; cbn [item_of item_reads]; intros q' Hq; rewrite !in_app_iff; tauto. Qed.
Lemma areads_of s : incl (areads cfg s) (item_reads cfg (ISym s)).
Proof. cbn [item_reads]. intros q' Hq; rewrite !in_app_iff; tauto. Qed.
Lemma careads_of c : incl (careads cfg c) (item_reads cfg (IChoice c)).
Proof. cbn [item_reads]. intros q' Hq; rewrite !in_app_iff; tauto. Qed.

(** A cached visibility of a symbol without prompts is n *)
Lemma promptless_vis s v :
  has_prompt cfg s = false -> cached_vis (symst st s) = Some v -> v = 0.
Proof.
  intros Hp Hv. rewrite <- (valid_agrees cfg U rho rk HM HR WT st (QVis s) V v Hv).
  rewrite (model_vis _ _ _ HM). unfold d_vis.
  rewrite d_prompts_none by (intros; by eapply has_prompt_false). simpl. by destruct (d_hidden cfg rho s 0).
Qed.

(** Where a value with a cached visibility is still cached, the change is irrelevant *)
Lemma kept_irrelevant r s : same_at st st' (ISym s) -> flagged st' (ISym s) = true ->
  agrees cfg st' r (QVis s) -> irrelevant U U' r s.
Proof.
  intros Hs Hf Ha. destruct (Hu s) as [?|[Hn|Hp]]; [by left|congruence|]. right.
  simpl in Hs. destruct_and!. apply bool_decide_eq_true in Hf as [v Hv].
  rewrite (Ha v Hv). apply (promptless_vis s); congruence.
Qed.

Ltac kept_or_clear i :=
  destruct (Heach i) as [?Hs|[?Hcl _]]; simpl in *; destruct_and!;
  [|repeat match goal with H : is_Some _ |- _ => destruct H end; congruence].

Lemma flags_change : Flags cfg st'.
Proof.
  destruct (vd_flags _ _ _ V) as [F1 F2 F3 F4 F5 F6]. split.
  - intros s Ht Hn Hk. kept_or_clear (ISym s).
    replace (cached_vis (symst st' s)) with (cached_vis (symst st s)) by done. apply F1; congruence.
  - intros s Ht Hn Hk. kept_or_clear (ISym s).
    replace (cached_vis (symst st' s)) with (cached_vis (symst st s)) by done. apply F2; congruence.
  - intros s Ht Hk. kept_or_clear (ISym s).
    replace (cached_vis (symst st' s)) with (cached_vis (symst st s)) by done. apply F3; congruence.
  - intros c Hk. kept_or_clear (IChoice c).
    replace (ch_cached_vis (chst st' c)) with (ch_cached_vis (chst st c)) by done. apply F4; congruence.
  - intros c Hk. kept_or_clear (IChoice c).
    replace (ch_cached_vis (chst st' c)) with (ch_cached_vis (chst st c)) by done. apply F5; congruence.
  - intros s Hk. pose proof (Hstatic (ISym s) (dep_const _ DO s Hk)) as Hs. simpl in Hs. destruct_and!.
    replace (cached_tri_val (symst st' s)) with (cached_tri_val (symst st s)) by done. auto.
Qed.

Lemma flagged_vis s : is_Some (cached_vis (symst st' s)) -> flagged st' (ISym s) = true.
Proof. intros Hs. by apply bool_decide_eq_true. Qed.
Lemma flagged_cvis c : is_Some (ch_cached_vis (chst st' c)) -> flagged st' (IChoice c) = true.
Proof. intros Hs. by apply bool_decide_eq_true. Qed.

Lemma kept_sym s :
  is_Some (cached_tri_val (symst st' s)) \/ is_Some (cached_str_val (symst st' s))
  \/ is_Some (cached_vis (symst st' s)) \/ is_Some (cached_assignable (symst st' s)) ->
  same_at st st' (ISym s).
Proof.
  destruct (Heach (ISym s)) as [?|[Hcl _]]; [done|]. simpl in Hcl. destruct_and!.
  intros [[]|[[]|[[]|[]]]]; congruence.
Qed.

Lemma kept_choice c :
  is_Some (ch_cached_vis (chst st' c)) \/ is_Some (ch_cached_selection (chst st' c))
  \/ is_Some (ch_cached_assignable (chst st' c)) -> same_at st st' (IChoice c).
Proof.
  destruct (Heach (IChoice c)) as [?|[Hcl _]]; [done|]. simpl in Hcl. destruct_and!.
  intros [[]|[[]|[]]]; congruence.
Qed.

Ltac kept_at Hs L := assert (Hs : L) by ((apply kept_sym || apply kept_choice); eauto).
Ltac cached_before Hs := simpl in Hs; destruct_and!; congruence.

Lemma fixed_tri V0 r s :
  fixed cfg (QTri s) || negb (is_bool_tristate (sym_orig_type (sym cfg s))) = true ->
  d_tri cfg V0 r s = d_tri cfg U r s.
Proof.
  intros H. unfold d_tri. simpl in H. unfold is_tri_const in H. repeat case_bool_decide; try done.
  simpl in H. by rewrite H.
Qed.

(** The visibility of a symbol that is not fixed is among what its values read *)
Lemma writer_reads_vis s :
  sym_orig_type (sym cfg s) <> UNKNOWN -> is_tri_const cfg s = false ->
  In (QVis s) (vreads cfg (writer cfg s)).
Proof.
  intros Hu' Hn. unfold writer. destruct (is_bool_tristate (sym_orig_type (sym cfg s))) eqn:Ht; cbn [vreads reads].
  - rewrite Ht. simpl. rewrite Hn. by left.
  - rewrite Ht. destruct (type_eqb _ UNKNOWN) eqn:He; [by apply type_eqb_eq in He|by left].
Qed.

Lemma known_flagged s :
  sym_orig_type (sym cfg s) <> UNKNOWN -> is_tri_const cfg s = false -> value_known cfg st' s ->
  same_at st st' (ISym s) /\ flagged st' (ISym s) = true.
Proof.
  pose proof flags_change as F. unfold value_known. intros Hu' Hn Hk.
  destruct (is_bool_tristate (sym_orig_type (sym cfg s))) eqn:Ht.
  - assert (Hk' : is_Some (cached_tri_val (symst st' s))) by (by destruct (sym_orig_type (sym cfg s))).
    split; [apply kept_sym; auto|]. by apply flagged_vis, (flag_tri _ _ F).
  - assert (Hk' : is_Some (cached_str_val (symst st' s))) by (by destruct (sym_orig_type (sym cfg s))).
    split; [apply kept_sym; auto|]. by apply flagged_vis, (flag_str _ _ F).
Qed.

Lemma known_same s : same_at st st' (ISym s) -> value_known cfg st' s -> value_known cfg st s.
Proof. simpl. unfold value_known. intros (-> & -> & _). by destruct (sym_orig_type _). Qed.

Lemma wtc_change s r :
  value_known cfg st' s -> compat cfg (vreads cfg (writer cfg s)) st' r ->
  d_wtc cfg U' r s = write_to_conf (symst st' s).
Proof.
  intros Hk Hr. rewrite Hwtc.
  destruct (decide (sym_orig_type (sym cfg s) = UNKNOWN)) as [Hun|Hun].
  { rewrite <- (vd_wtc _ _ _ V s) with (r := rho); [|unfold value_known; by rewrite Hun|by eapply valid_compat].
    unfold d_wtc. by rewrite Hun, orb_true_r. }
  destruct (is_tri_const cfg s) eqn:Hn.
  { rewrite <- (vd_wtc _ _ _ V s) with (r := rho); [unfold d_wtc; by rewrite Hn| |by eapply valid_compat].
    apply known_same; [|done]. by apply Hstatic, dep_const. }
  destruct (known_flagged s Hun Hn Hk) as [Hs Hf].
  rewrite (irr_wtc cfg U U').
  - apply (vd_wtc _ _ _ V s); [by apply known_same|].
    eapply compat_kept; [exact Hs|exact Hf| |exact Hr].
    intros q Hq. replace (ISym s) with (item_of (writer cfg s)) by (unfold writer; by destruct (is_bool_tristate _)).
    by apply reads_of.
  - apply kept_irrelevant; [done..|]. by apply Hr, writer_reads_vis.
Qed.

Lemma det_change_tri s v r :
  cached_tri_val (symst st' s) = Some v -> compat cfg (vreads cfg (QTri s)) st' r -> d_tri cfg U' r s = v.
Proof.
  intros Hv Hr. kept_at Hs (same_at st st' (ISym s)).
  assert (Hv0 : cached_tri_val (symst st s) = Some v) by cached_before Hs.
  pose proof (det_tri _ _ _ (vd_det _ _ _ V) s v Hv0) as D1.
  destruct (fixed cfg (QTri s) || negb (is_bool_tristate (sym_orig_type (sym cfg s)))) eqn:Hfix.
  - rewrite fixed_tri by done. apply D1. split; [apply Hr|]. cbn [vreads]. by rewrite Hfix.
  - assert (Hq : In (QVis s) (vreads cfg (QTri s))) by (cbn [vreads]; rewrite Hfix; by left).
    apply orb_false_iff in Hfix as [Hfix Ht%negb_false_iff].
    assert (Hf : flagged st' (ISym s) = true) by (apply flagged_vis, (flag_tri _ _ flags_change); eauto).
    rewrite (irr_tri cfg U U'); [|apply kept_irrelevant; [done..|by apply Hr]].
    apply D1. eapply compat_kept; [exact Hs|exact Hf|apply (reads_of (QTri s))|exact Hr].
Qed.

Lemma det_change_str s v r :
  cached_str_val (symst st' s) = Some v -> compat cfg (vreads cfg (QStr s)) st' r -> d_str cfg U' r s = v.
Proof.
  intros Hv Hr. kept_at Hs (same_at st st' (ISym s)).
  assert (Hv0 : cached_str_val (symst st s) = Some v) by cached_before Hs.
  pose proof (det_str _ _ _ (vd_det _ _ _ V) s v Hv0) as D3.
  destruct (decide (sym_orig_type (sym cfg s) = UNKNOWN)) as [Hun|Hun].
  { rewrite <- (D3 r); [unfold d_str; by rewrite Hun|]. split; [apply Hr|].
    cbn [vreads reads]. by rewrite Hun. }
  destruct (is_bool_tristate (sym_orig_type (sym cfg s))) eqn:Ht.
  { replace (d_str cfg U' r s) with (d_str cfg U r s) by (unfold d_str; by rewrite Ht).
    apply D3. split; [apply Hr|]. intros q Hq. apply agrees_kept; [|by apply Hr].
    cbn [vreads reads] in Hq. rewrite Ht in Hq. by destruct Hq as [<-|[]]. }
  assert (Hn : is_tri_const cfg s = false).
  { destruct (is_tri_const cfg s) eqn:Hk; [|done]. apply (wf_tri_const _ WF) in Hk. by rewrite Hk in Ht. }
  pose proof (writer_reads_vis s Hun Hn) as Hq. unfold writer in Hq. rewrite Ht in Hq.
  assert (Hf : flagged st' (ISym s) = true) by (apply flagged_vis, (flag_str _ _ flags_change); eauto).
  rewrite (irr_str cfg U U'); [|apply kept_irrelevant; [done..|by apply Hr]].
  apply D3. eapply compat_kept; [exact Hs|exact Hf|apply (reads_of (QStr s))|exact Hr].
Qed.

Lemma det_change : Det cfg U' st'.
Proof.
  pose proof flags_change as [F1 F2 F3 F4 F5 F6].
  destruct (vd_det _ _ _ V) as [D1 D2 D3 D4 D5 D6 D7 D8]. split.
  - intros s v Hv r Hr. by apply det_change_tri.
  - intros s Hk. eexists. intros r Hr. by apply wtc_change.
  - intros s v Hv r Hr. by apply det_change_str.
  - intros s v Hv r Hr. kept_at Hs (same_at st st' (ISym s)).
    apply (D4 s v); [cached_before Hs|].
    eapply compat_kept; [exact Hs|apply flagged_vis; eauto|apply (reads_of (QVis s))|exact Hr].
  - intros s l Hl r Hr. kept_at Hs (same_at st st' (ISym s)).
    assert (Hl0 : cached_assignable (symst st s) = Some l) by cached_before Hs.
    destruct (is_bool_tristate (sym_orig_type (sym cfg s))) eqn:Ht.
    + apply (D5 s l Hl0). eapply compat_kept; [exact Hs|apply flagged_vis, F3; eauto|apply areads_of|exact Hr].
    + pose proof (inv_assignable _ _ _ _ (valid_inv cfg U rho rk HM HR WT st V) s l Hl0) as ->.
      unfold d_assignable. by rewrite Ht.
  - intros c v Hv r Hr. kept_at Hs (same_at st st' (IChoice c)).
    apply (D6 c v); [cached_before Hs|].
    eapply compat_kept; [exact Hs|apply flagged_cvis; eauto|apply (reads_of (QCVis c))|exact Hr].
  - intros c v Hv r Hr. kept_at Hs (same_at st st' (IChoice c)).
    assert (Hsel' : u_sel U' c = u_sel U c).
    { destruct (Hc c) as [[_ ?]|Hcl]; [done|]. cached_before Hcl. }
    replace (d_csel cfg U' r c) with (d_csel cfg U r c) by (unfold d_csel; by rewrite Hsel').
    apply (D7 c v); [cached_before Hs|].
    eapply compat_kept; [exact Hs|apply flagged_cvis, F4; eauto|apply (reads_of (QCSel c))|exact Hr].
  - intros c l Hl r Hr. kept_at Hs (same_at st st' (IChoice c)).
    apply (D8 c l); [cached_before Hs|].
    eapply compat_kept; [exact Hs|apply flagged_cvis, F5; eauto|apply careads_of|exact Hr].
Qed.

Lemma valid_change : Valid cfg U' st'.
Proof.
  split; try done.
  - apply det_change.
  - apply flags_change.
  - intros s Ht [v Hv]. kept_at Hs (same_at st st' (ISym s)).
    simpl in Hs. destruct Hs as (-> & E & _). apply (vd_both _ _ _ V); [done|]. rewrite <- E. eauto.
  - intros s Hk r Hr. by apply wtc_change.
Qed.
End Change.
