(* ===== verification/Session.v ===== *)
(** * Using a configuration: changes and readings in any order

    Every change of a user value keeps the state valid, so that what is read
    later is always the value the equations give for the user values then in
    force: the caches and their partial invalidation cannot be observed. *)
From S2P Require Import Prelude PyStr Model Eval EvalSpec EvalRefine EvalDet Values SetValue Validity.

(** ** The user values after each change *)

Definition typed_value (cfg : Config) (s : symid) (v : uval) : uval :=
  if is_bool_tristate (sym_orig_type (sym cfg s)) then tri_of_str v else v.

Definition accepts (cfg : Config) (s : symid) (v : uval) : bool :=
  valid_for_type (sym_orig_type (sym cfg s)) (typed_value cfg s v).

Definition after_set_value (cfg : Config) (U : uvals) (s : symid) (v : uval) : uvals :=
  if accepts cfg s v then
    let U1 := set_user U s (Some (typed_value cfg s v)) in
    match sym_choice (sym cfg s), typed_value cfg s v with
    | Some c, UTri 2 => set_sel U1 c (Some s)
    | _, _ => U1
    end
  else U.

Definition after_ch_set_value (cfg : Config) (U : uvals) (c : choiceid) (v : uval) : uvals :=
  match tri_of_str v with
  | UTri z => if valid_for_type (ch_orig_type (chc cfg c)) (UTri z) then set_mode U c (Some z) else U
  | UStr _ => U
  end.

Definition ch_accepts (cfg : Config) (c : choiceid) (v : uval) : bool :=
  match tri_of_str v with
  | UTri z => valid_for_type (ch_orig_type (chc cfg c)) (UTri z)
  | UStr _ => false
  end.

(** User values that [set_value] accepts *)
Record user_ok (cfg : Config) (U : uvals) : Prop := {
  uo_sym : forall s v, u_sym U s = Some v -> valid_for_type (sym_orig_type (sym cfg s)) v = true;
  uo_mode : forall c v, u_mode U c = Some v -> valid_for_type (ch_orig_type (chc cfg c)) (UTri v) = true;
  uo_sel : forall c s, u_sel U c = Some s -> In s (ch_syms (chc cfg c));
}.

Lemma tri_value_range z : is_Some (TRI_TO_STR z) -> 0 <= z <= 2.
Proof.
  unfold TRI_TO_STR. intros [t Ht]. destruct (Z.eqb_spec z 0); [lia|].
  destruct (Z.eqb_spec z 1); [lia|]. destruct (Z.eqb_spec z 2); [lia|done].
Qed.

Lemma valid_for_type_range t z : valid_for_type t (UTri z) = true -> 0 <= z <= 2.
Proof.
  destruct t; simpl; try done; [lia|]. intros H%bool_decide_eq_true. by apply tri_value_range.
Qed.

Lemma user_ok_typed cfg U : user_ok cfg U -> well_typed cfg U.
Proof.
  intros [Hs Hm Hl]. split; [|intros c v Hv; eapply valid_for_type_range; eauto|done].
  intros s v Hv. specialize (Hs s v Hv). destruct v as [z|x].
  - pose proof (valid_for_type_range _ _ Hs). by destruct (sym_orig_type _).
  - destruct (sym_orig_type _); simpl in *; try done. by apply andb_true_iff in Hs as [? _].
Qed.

Lemma user_ok_set_value cfg U s v :
  deps_ok cfg -> user_ok cfg U -> user_ok cfg (after_set_value cfg U s v).
Proof.
  intros DO [Hs Hm Hl]. unfold after_set_value, accepts.
  destruct (valid_for_type _ _) eqn:Hv; [|by split].
  assert (H1 : user_ok cfg (set_user U s (Some (typed_value cfg s v)))).
  { split; simpl; try done. intros s' v'. case_decide; [|auto]. subst. by intros [= <-]. }
  destruct (sym_choice (sym cfg s)) as [c|] eqn:Hc; [|done].
  destruct (typed_value cfg s v) as [z|x]; [|done].
  destruct (decide (z = 2)) as [->|Hz].
  - split; simpl; try apply H1. intros c' s'. case_decide; [|apply Hl]. subst. intros [= <-].
    by apply (dep_choice _ DO) in Hc as [? _].
  - by destruct z as [|[| [] |]|].
Qed.

Lemma user_ok_ch_set_value cfg U c v : user_ok cfg U -> user_ok cfg (after_ch_set_value cfg U c v).
Proof.
  intros [Hs Hm Hl]. unfold after_ch_set_value. destruct (tri_of_str v) as [z|x]; [|by split].
  destruct (valid_for_type _ _) eqn:Hv; [|by split]. split; simpl; try done.
  intros c' z'. case_decide; [|auto]. subst. by intros [= <-].
Qed.

Section Change.
Context (cfg : Config) (rk : query -> nat).
Context (HR : ranked cfg rk) (WF : well_formed cfg) (DO : deps_ok cfg).
Context (depth : nat) (Hdepth : (length (all_items cfg) < depth)%nat).

Lemma solved U : user_ok cfg U -> is_model cfg U (solve cfg U rk).
Proof. intros HU. apply solve_is_model; [done|by apply user_ok_typed]. Qed.

Lemma depth_ok st i : (cached_others cfg st i < depth)%nat.
Proof.
  eapply Nat.le_lt_trans; [|exact Hdepth]. unfold cached_others.
  apply List.filter_length_le.
Qed.

(** Only user values differ *)
Record user_step (root : item) (st st1 : State) : Prop := {
  us_sym : forall s, same_at st st1 (ISym s);
  us_choice : forall c, IChoice c <> root -> same_at st st1 (IChoice c);
}.

(** A change of user values followed by an invalidation from [root] *)
Lemma valid_rec root U U' st st1 st' :
  Valid cfg U st -> user_ok cfg U -> user_step root st st1 -> is_static cfg root = false ->
  rec_post cfg root st1 st' ->
  (forall s, user_value (symst st1 s) = u_sym U' s) ->
  (forall c, ch_user_value (chst st1 c) = u_mode U' c) ->
  (forall c, ch_user_selection (chst st1 c) = u_sel U' c) ->
  (forall s, u_sym U' s = u_sym U s \/ flagged st' (ISym s) = false \/ has_prompt cfg s = false) ->
  (forall c, (u_mode U' c = u_mode U c /\ u_sel U' c = u_sel U c) \/ IChoice c = root) ->
  Valid cfg U' st'.
Proof.
  intros V HU [US UC] Hroot ([[Ws Wc] We Wm Wst Ww] & Wclr & Wdep) H1 H2 H3 Hu Hc.
  assert (Hsame : forall i, i <> root -> same_at st st1 i) by (intros [s|c] Hi; auto).
  eapply (valid_change cfg U U' _ rk (solved U HU) HR WF (user_ok_typed _ _ HU) DO st st' V).
  - intros i. destruct (decide (i = root)) as [->|Hi]; [by right|].
    destruct (We i) as [Hs|?]; [|by right]. left. eapply same_at_trans; eauto.
  - destruct Wm as [Hs|?]; [|by right]. left. eapply same_at_trans; [apply US|done].
  - intros i Hi. eapply same_at_trans; [apply Hsame; intros ->; congruence|auto].
  - intros s. rewrite Ww. apply (US s).
  - intros s. by rewrite Ws.
  - intros c. by rewrite (proj1 (Wc c)).
  - intros c. by rewrite (proj2 (Wc c)).
  - done.
  - intros c. destruct (Hc c) as [?|Hr]; [by left|]. right. by rewrite Hr.
Qed.

(** A change of user values that invalidates nothing *)
Lemma valid_same U U' st st' :
  Valid cfg U st -> user_ok cfg U -> (forall i, same_at st st' i) ->
  (forall s, user_value (symst st' s) = u_sym U' s) ->
  (forall c, ch_user_value (chst st' c) = u_mode U' c) ->
  (forall c, ch_user_selection (chst st' c) = u_sel U' c) ->
  (forall s, u_sym U' s = u_sym U s \/ has_prompt cfg s = false) ->
  (forall c, u_sel U' c = u_sel U c) -> (forall c, u_mode U' c = u_mode U c) ->
  Valid cfg U' st'.
Proof.
  intros V HU Hs H1 H2 H3 Hu Hl Hm.
  eapply (valid_change cfg U U' _ rk (solved U HU) HR WF (user_ok_typed _ _ HU) DO st st' V); auto.
  - intros s. apply (Hs (ISym s)).
  - intros s. destruct (Hu s); auto.
Qed.

Lemma static_promptless s : has_prompt cfg s = true -> is_static cfg (ISym s) = false.
Proof.
  intros Hp. destruct (is_static cfg (ISym s)) eqn:Hs; [|done]. apply (dep_prompt _ DO) in Hs. congruence.
Qed.

(** The end of [set_value] and [unset_value] *)
Lemma rec_if_prompt_valid U U' s v st st1 :
  Valid cfg U st -> user_ok cfg U -> (forall i, same_at st st1 i) ->
  (forall s', user_value (symst st1 s') = u_sym U' s') ->
  (forall c, ch_user_value (chst st1 c) = u_mode U' c) ->
  (forall c, ch_user_selection (chst st1 c) = u_sel U' c) ->
  U' = set_user U s v ->
  exists st', rec_invalidate_if_has_prompt cfg depth s st1 = (Ok tt, st') /\ Valid cfg U' st'.
Proof.
  intros V HU Hs H1 H2 H3 ->. unfold rec_invalidate_if_has_prompt. destruct (has_prompt cfg s) eqn:Hp.
  - pose proof (static_promptless s Hp) as Hst.
    destruct (rec_invalidate_ok cfg DO depth (ISym s) st1 Hst (depth_ok _ _)) as (st' & E & HP).
    exists st'. split; [done|]. eapply (valid_rec (ISym s)); eauto.
    + by split.
    + intros s'. simpl. case_decide; [|auto]. subst. right; left. apply (clear_flagged st' (ISym _)), HP.
  - cbv [mbind K_bind M_bind gets].
    assert (Hv : forall st', (forall i, same_at st1 st' i) -> same_users st1 st' -> Valid cfg (set_user U s v) st').
    { intros st' Hs' [U1 U2]. eapply (valid_same U); eauto.
      - intros i. eapply same_at_trans; eauto.
      - intros s'. by rewrite U1.
      - intros c. by rewrite (proj1 (U2 c)).
      - intros c. by rewrite (proj2 (U2 c)).
      - intros s'. simpl. case_decide; [|auto]. subst. auto. }
    destruct (st_warn_assign_no_prompt st1); simpl; eexists; (split; [reflexivity|]); apply Hv;
      try (intros i; apply same_at_refl); try done.
    + intros i. destruct (st_warn st1); by destruct i.
    + destruct (st_warn st1); by split.
Qed.

Lemma symst_put_user v s st s' :
  user_value (symst (alter_sym (set_user_value v) s st) s') = if decide (s = s') then v else user_value (symst st s').
Proof. autorewrite with kst. by case_decide; subst. Qed.

Lemma same_at_put_sym f s st i :
  (forall x, cached_tri_val (f x) = cached_tri_val x /\ cached_str_val (f x) = cached_str_val x
     /\ cached_vis (f x) = cached_vis x /\ cached_assignable (f x) = cached_assignable x
     /\ write_to_conf (f x) = write_to_conf x) ->
  same_at st (alter_sym f s st) i.
Proof.
  intros Hf. destruct i as [s'|c]; [|by split_and!]. simpl. autorewrite with kst.
  case_decide; [|by split_and!]. subst. apply Hf.
Qed.

(** [Symbol.set_value] accepts exactly the values of the symbol's type, and then
    reading any value gives what the equations say for the changed user values *)
Lemma set_value_valid U s v st :
  Valid cfg U st -> user_ok cfg U ->
  exists st', set_value cfg depth s v st = (Ok (accepts cfg s v), st')
    /\ Valid cfg (after_set_value cfg U s v) st'.
Proof.
  intros V HU. unfold set_value, after_set_value, accepts. fold (typed_value cfg s v).
  set (tv := typed_value cfg s v). cbv [mbind K_bind M_bind sget gets]. rewrite (vd_user _ _ _ V).
  destruct (bool_decide (u_sym U s = Some tv) && bool_decide (sym_choice (sym cfg s) = None)) eqn:Hsame.
  { apply andb_true_iff in Hsame as [Hv%bool_decide_eq_true Hn%bool_decide_eq_true].
    rewrite Hn, (uo_sym _ _ HU s tv Hv). eexists. split; [reflexivity|].
    eapply (valid_same U); eauto.
    - intros i. by apply same_at_put_sym.
    - intros s'. simpl. autorewrite with kst. repeat case_decide; subst; simpl; by rewrite (vd_user _ _ _ V).
    - intros c. apply V.
    - intros c. apply V.
    - intros s'. simpl. case_decide; [|auto]. subst. left. by rewrite Hv. }
  destruct (valid_for_type (sym_orig_type (sym cfg s)) tv) eqn:Hok; simpl.
  2: { eexists. split; [reflexivity|]. eapply (valid_same U); eauto; destruct (st_warn st); try apply V.
       all: intros i; apply same_at_refl || by destruct i. }
  set (st1 := alter_sym (set_was_set true) s (alter_sym (set_user_value (Some tv)) s st)).
  assert (Hs1 : forall i, same_at st st1 i)
    by (intros i; eapply same_at_trans; apply same_at_put_sym; done).
  assert (Hu1 : forall s', user_value (symst st1 s') = u_sym (set_user U s (Some tv)) s').
  { intros s'. unfold st1. simpl. autorewrite with kst. repeat case_decide; subst; simpl; try done; apply V. }
  assert (Hno : forall b : bool, (b = true -> False) ->
    exists st', (rec_invalidate_if_has_prompt cfg depth s;; mret true) st1 = (Ok true, st')
      /\ Valid cfg (set_user U s (Some tv)) st').
  { intros _ _. destruct (rec_if_prompt_valid U _ s (Some tv) st st1 V HU Hs1 Hu1) as (st' & E & V');
      [apply V..|done|]. exists st'. split; [|done]. cbv [mbind K_bind M_bind]. by rewrite E. }
  specialize (Hno false ltac:(done)).
  destruct (sym_choice (sym cfg s)) as [c|] eqn:Hc; [|exact Hno].
  destruct tv as [z|x] eqn:Htv; [|exact Hno].
  destruct (decide (z = 2)) as [->|Hz]; [|by destruct z as [|[| [] |]|]].
  clear Hno. destruct (dep_choice _ DO s c Hc) as (Hin & Hst & Hdep).
  set (st2 := alter_choice (set_ch_was_set true) c (alter_choice (set_ch_user_selection (Some s)) c st1)).
  destruct (rec_invalidate_ok cfg DO depth (IChoice c) st2 Hst (depth_ok _ _)) as (st' & E & HP).
  exists st'. split; [cbv [mbind K_bind M_bind cput modify]; fold st1; fold st2; by rewrite E|].
  eapply (valid_rec (IChoice c) U); eauto.
  - split.
    + intros s'. apply (Hs1 (ISym s')).
    + intros c' Hne. eapply same_at_trans; [apply Hs1|]. unfold st2. simpl. autorewrite with kst.
      rewrite !decide_False by congruence. by split_and!.
  - intros c'. unfold st2. simpl. autorewrite with kst. repeat case_decide; subst; simpl; try done; apply V.
  - intros c'. unfold st2. simpl. autorewrite with kst. repeat case_decide; subst; simpl; try done; apply V.
  - intros s'. destruct (decide (s = s')) as [<-|Hne]; [|left; simpl; by rewrite decide_False].
    destruct (has_prompt cfg s) eqn:Hp; [|auto]. right; left. by apply (proj2 (proj2 HP)), Hdep.
  - intros c'. simpl. destruct (decide (c = c')) as [->|]; auto.
Qed.

Lemma unset_value_valid U s st :
  Valid cfg U st -> user_ok cfg U ->
  exists st', unset_value cfg depth s st = (Ok tt, st') /\ Valid cfg (set_user U s None) st'.
Proof.
  intros V HU. unfold unset_value. cbv [mbind K_bind M_bind sget gets]. rewrite (vd_user _ _ _ V).
  case_bool_decide as Hu; simpl.
  - apply (rec_if_prompt_valid U _ s None st); try done; try apply V.
    + intros i. by apply same_at_put_sym.
    + intros s'. simpl. autorewrite with kst. case_decide; subst; simpl; [done|apply V].
  - exists st. split; [done|]. eapply (valid_same U); eauto; try apply V.
    + intros i; apply same_at_refl.
    + intros s'. simpl. rewrite (vd_user _ _ _ V). case_decide; [|done]. subst. by apply eq_None_not_Some.
    + intros s'. simpl. case_decide; [|auto]. subst. left. symmetry. by apply eq_None_not_Some.
Qed.

(** The changes of a choice *)
Lemma ch_change_valid U U' c f st :
  Valid cfg U st -> user_ok cfg U -> is_static cfg (IChoice c) = false ->
  (forall x, ch_user_value (f x) = u_mode U' c) -> (forall x, ch_user_selection (f x) = u_sel U' c \/
     (ch_user_selection (f x) = ch_user_selection x /\ u_sel U' c = u_sel U c)) ->
  (forall s, u_sym U' s = u_sym U s) ->
  (forall c', c' <> c -> u_mode U' c' = u_mode U c' /\ u_sel U' c' = u_sel U c') ->
  exists st', rec_invalidate cfg depth (IChoice c) (alter_choice f c st) = (Ok tt, st') /\ Valid cfg U' st'.
Proof.
  intros V HU Hst Hm Hl Hs Hc.
  destruct (rec_invalidate_ok cfg DO depth (IChoice c) (alter_choice f c st) Hst (depth_ok _ _)) as (st' & E & HP).
  exists st'. split; [done|]. eapply (valid_rec (IChoice c) U); eauto.
  - split; [by intros s; split_and!|]. intros c' Hne. simpl. autorewrite with kst.
    rewrite decide_False by congruence. by split_and!.
  - intros s. rewrite Hs. apply V.
  - intros c'. autorewrite with kst. case_decide as Hd; [subst; apply Hm|].
    rewrite (proj1 (Hc c' (not_eq_sym Hd))). apply V.
  - intros c'. autorewrite with kst. case_decide as Hd.
    + subst. destruct (Hl (chst st c')) as [?|[-> ->]]; [done|]. apply V.
    + rewrite (proj2 (Hc c' (not_eq_sym Hd))). apply V.
  - intros c'. destruct (decide (c' = c)) as [->|Hne]; auto.
Qed.

Lemma alter_choice_twice f g c st :
  alter_choice g c (alter_choice f c st) = alter_choice (fun x => g (f x)) c st.
Proof.
  unfold alter_choice. simpl. unfold chst at 1. simpl. rewrite lookup_total_insert_eq.
  unfold set_st_choices. simpl. by rewrite insert_insert_eq.
Qed.

Lemma ch_set_value_valid U c v st :
  Valid cfg U st -> user_ok cfg U -> is_static cfg (IChoice c) = false ->
  exists st', ch_set_value cfg depth c v st = (Ok (ch_accepts cfg c v), st')
    /\ Valid cfg (after_ch_set_value cfg U c v) st'.
Proof.
  intros V HU Hst. unfold ch_set_value, after_ch_set_value, ch_accepts.
  cbv [mbind K_bind M_bind cget gets]. rewrite (vd_mode _ _ _ V).
  assert (Hw : forall U', U' = U -> forall b, exists st', (warn_invalid (tri_of_str v) (ch_name_and_loc cfg c) (ch_orig_type (chc cfg c));;
     mret b : K bool) st = (Ok b, st') /\ Valid cfg U' st').
  { intros U' -> b. eexists. split; [reflexivity|].
    eapply (valid_same U); eauto; destruct (st_warn st); try apply V; intros i; by destruct i. }
  destruct (tri_of_str v) as [z|x].
  2: { rewrite bool_decide_eq_false_2 by (by destruct (u_mode U c)). by apply Hw. }
  destruct (bool_decide (UTri <$> u_mode U c = Some (UTri z))) eqn:Hsame.
  { apply bool_decide_eq_true in Hsame. destruct (u_mode U c) as [z'|] eqn:Hm; [|done]. injection Hsame as ->.
    rewrite (uo_mode _ _ HU c z Hm). eexists. split; [reflexivity|].
    eapply (valid_same U); eauto; try apply V.
    - intros [s|c']; [by split_and!|]. simpl. autorewrite with kst. by case_decide; subst; split_and!.
    - intros c'. simpl. autorewrite with kst. repeat case_decide; subst; simpl; rewrite (vd_mode _ _ _ V); done.
    - intros c'. simpl. autorewrite with kst. case_decide; subst; simpl; apply V.
    - intros c'. simpl. case_decide; subst; done. }
  destruct (valid_for_type (ch_orig_type (chc cfg c)) (UTri z)); [|by apply Hw].
  destruct (ch_change_valid U (set_mode U c (Some z)) c
              (fun x => set_ch_was_set true (set_ch_user_value (Some z) x)) st V HU Hst)
    as (st' & E & V'); try done.
  - intros x. simpl. by rewrite decide_True.
  - intros x. right. done.
  - intros c' Hne. simpl. by rewrite decide_False.
  - exists st'. split; [|done]. cbv [cput modify]. by rewrite alter_choice_twice, E.
Qed.

Lemma ch_unset_value_valid U c st :
  Valid cfg U st -> user_ok cfg U -> is_static cfg (IChoice c) = false ->
  exists st', ch_unset_value cfg depth c st = (Ok tt, st')
    /\ Valid cfg (set_sel (set_mode U c None) c None) st'.
Proof.
  intros V HU Hst. unfold ch_unset_value. cbv [mbind K_bind M_bind cget gets].
  rewrite (vd_mode _ _ _ V), (vd_sel _ _ _ V).
  destruct (_ || _) eqn:Hu; simpl.
  - rewrite alter_choice_twice. apply (ch_change_valid U); try done.
    + intros x. simpl. by rewrite decide_True.
    + intros x. left. simpl. by rewrite decide_True.
    + intros c' Hne. simpl. by rewrite !decide_False.
  - apply orb_false_iff in Hu as [Hm%bool_decide_eq_false Hs%bool_decide_eq_false].
    apply eq_None_not_Some in Hm, Hs. exists st. split; [done|].
    eapply (valid_same U); eauto; try apply V.
    + intros i; apply same_at_refl.
    + intros c'. simpl. case_decide; subst; rewrite (vd_mode _ _ _ V); done.
    + intros c'. simpl. case_decide; subst; rewrite (vd_sel _ _ _ V); done.
    + intros c'. simpl. case_decide; subst; done.
    + intros c'. simpl. case_decide; subst; done.
Qed.
End Change.

(** ** Sessions: any sequence of changes and readings *)

Inductive op :=
| OSet (s : symid) (v : uval) | OUnset (s : symid)
| OChoiceSet (c : choiceid) (v : uval) | OChoiceUnset (c : choiceid)
| OTri (s : symid) | OStr (s : symid) | OVisibility (s : symid) | OAssignable (s : symid)
| OConfigString (s : symid) | OExpr (e : expr)
| OChoiceTri (c : choiceid) | OChoiceVisibility (c : choiceid) | OChoiceSelection (c : choiceid)
| OChoiceAssignable (c : choiceid).

Inductive answer :=
| ANone | ABool (b : bool) | ATri (v : Z) | AStr (x : string) | AList (l : list Z) | ASym (s : option symid).

Definition answered {A} (f : A -> answer) (m : K A) : K answer := x ← m; mret (f x).

Definition run_op (cfg : Config) (n : nat) (o : op) : K answer :=
  let E := ev cfg n in
  match o with
  | OSet s v => answered ABool (set_value cfg n s v)
  | OUnset s => answered (fun _ => ANone) (unset_value cfg n s)
  | OChoiceSet c v => answered ABool (ch_set_value cfg n c v)
  | OChoiceUnset c => answered (fun _ => ANone) (ch_unset_value cfg n c)
  | OTri s => answered ATri (ev_tri E s)
  | OStr s => answered AStr (ev_str E s)
  | OVisibility s => answered ATri (ev_vis E s)
  | OAssignable s => answered AList (sym_assignable cfg E s)
  | OConfigString s => answered AStr (config_string cfg E s)
  | OExpr e => answered ATri (expr_value cfg E e)
  | OChoiceTri c => answered ATri (ev_ctri E c)
  | OChoiceVisibility c => answered ATri (ev_cvis E c)
  | OChoiceSelection c => answered ASym (ev_csel E c)
  | OChoiceAssignable c => answered AList (ch_assignable cfg E c)
  end.

(** The specification: the user values after an operation, and what it answers *)
Definition user_after (cfg : Config) (U : uvals) (o : op) : uvals :=
  match o with
  | OSet s v => after_set_value cfg U s v
  | OUnset s => set_user U s None
  | OChoiceSet c v => after_ch_set_value cfg U c v
  | OChoiceUnset c => set_sel (set_mode U c None) c None
  | _ => U
  end.

Definition spec_answer (cfg : Config) (rk : query -> nat) (U : uvals) (o : op) : answer :=
  let rho := solve cfg U rk in
  match o with
  | OSet s v => ABool (accepts cfg s v)
  | OChoiceSet c v => ABool (ch_accepts cfg c v)
  | OUnset _ | OChoiceUnset _ => ANone
  | OTri s => ATri (v_tri rho s)
  | OStr s => AStr (v_str rho s)
  | OVisibility s => ATri (v_vis rho s)
  | OAssignable s => AList (d_assignable cfg rho s)
  | OConfigString s => AStr (d_config_string cfg U rho s)
  | OExpr e => ATri (d_expr cfg rho e)
  | OChoiceTri c => ATri (v_ctri rho c)
  | OChoiceVisibility c => ATri (v_cvis rho c)
  | OChoiceSelection c => ASym (v_csel rho c)
  | OChoiceAssignable c => AList (d_cassignable cfg rho c)
  end.

Fixpoint spec_answers (cfg : Config) (rk : query -> nat) (U : uvals) (ops : list op) : list answer :=
  match ops with
  | [] => []
  | o :: ops => spec_answer cfg rk U o :: spec_answers cfg rk (user_after cfg U o) ops
  end.

(** Choices that take part are defined in the configuration *)
Definition op_ok (cfg : Config) (o : op) : bool :=
  match o with
  | OChoiceSet c _ | OChoiceUnset c => negb (is_static cfg (IChoice c))
  | _ => true
  end.

Lemma user_ok_after cfg U o : deps_ok cfg -> user_ok cfg U -> user_ok cfg (user_after cfg U o).
Proof.
  intros DO HU. destruct o; simpl; try done.
  - by apply user_ok_set_value.
  - destruct HU as [H1 H2 H3]. split; simpl; try done. intros s' v. case_decide; [done|auto].
  - by apply user_ok_ch_set_value.
  - destruct HU as [H1 H2 H3]. split; simpl; try done; intros c' v; case_decide; try done; auto.
Qed.

Section Run.
Context (cfg : Config) (rk : query -> nat).
Context (HR : ranked cfg rk) (WF : well_formed cfg) (DO : deps_ok cfg).
Context (n : nat) (Hrank : forall q, (rk q < n)%nat) (Hitems : (length (all_items cfg) < n)%nat).

Lemma answered_ok {A} (f : A -> answer) (m : K A) a st U :
  (exists st', m st = (Ok a, st') /\ Valid cfg U st') ->
  exists st', answered f m st = (Ok (f a), st') /\ Valid cfg U st'.
Proof. intros (st' & E & V). exists st'. split; [|done]. unfold answered. cbv [mbind K_bind M_bind]. by rewrite E. Qed.

Lemma all_low (L : list query) : Forall (low rk n) L.
Proof. apply Forall_forall. intros q _. apply Hrank. Qed.

Lemma run_op_ok U st o :
  Valid cfg U st -> user_ok cfg U -> op_ok cfg o = true ->
  exists st', run_op cfg n o st = (Ok (spec_answer cfg rk U o), st') /\ Valid cfg (user_after cfg U o) st'.
Proof.
  intros V HU Hop. pose proof (user_ok_typed _ _ HU) as WT. pose proof (solved cfg rk HR U HU) as HM.
  assert (HA : accesses_ok cfg U (solve cfg U rk) rk (ev cfg n) n) by by apply ev_accesses.
  assert (HF : found cfg U (solve cfg U rk) (ev cfg n)) by by eapply ev_found.
  assert (Hmt : tri_valued (solve cfg U rk)) by by eapply model_tri_valued.
  assert (Hacc : forall A (m : K A) a, outcome cfg U (solve cfg U rk) ∅ m (Ok a) ∅ ->
     keeps cfg U (solve cfg U rk) m -> exists st', m st = (Ok a, st') /\ Valid cfg U st')
    by (intros; by eapply valid_access).
  assert (Hno : forall r, wok cfg rk r ∅) by (intros; apply wok_empty).
  destruct o; cbn [run_op spec_answer user_after];
    (apply answered_ok || apply (answered_ok (fun _ => ANone) _ tt)).
  - by eapply set_value_valid.
  - by eapply unset_value_valid.
  - eapply ch_set_value_valid; try done. by apply negb_true_iff.
  - eapply ch_unset_value_valid; try done. by apply negb_true_iff.
  - apply Hacc; [|apply HF]. by apply (acc_tri _ _ _ _ _ _ HA); [|apply Hrank].
  - apply Hacc; [|apply HF]. by apply (acc_str _ _ _ _ _ _ HA); [|apply Hrank].
  - apply Hacc; [|apply HF]. by apply (acc_vis _ _ _ _ _ _ HA); [|apply Hrank].
  - apply Hacc; [|by eapply finds_assignable].
    eapply runs_sym_assignable; eauto; [apply Hrank|apply all_low..].
  - apply Hacc; [|apply keeps_bind; [apply HF|intros; apply keeps_bind; [apply keeps_gets|intros; apply keeps_ret]]].
    intros st0 H0. by eapply code_config_string.
  - apply Hacc; [|by eapply keeps_expr]. eapply runs_expr; eauto. apply all_low.
  - apply Hacc; [|apply HF]. by apply (acc_ctri _ _ _ _ _ _ HA); [|apply Hrank].
  - apply Hacc; [|apply HF]. by apply (acc_cvis _ _ _ _ _ _ HA); [|apply Hrank].
  - apply Hacc; [|apply HF]. by apply (acc_csel _ _ _ _ _ _ HA); [|apply Hrank].
  - apply Hacc; [|by eapply finds_cassignable].
    eapply runs_ch_assignable; eauto; [apply Hrank|apply all_low..].
Qed.

Lemma run_ops_ok U st ops :
  Valid cfg U st -> user_ok cfg U -> forallb (op_ok cfg) ops = true ->
  exists st', mapM (run_op cfg n) ops st = (Ok (spec_answers cfg rk U ops), st').
Proof.
  revert U st. induction ops as [|o ops IH]; intros U st V HU Hops; [by exists st|].
  simpl in Hops. apply andb_true_iff in Hops as [Ho Hops].
  destruct (run_op_ok U st o V HU Ho) as (st1 & E1 & V1).
  destruct (IH _ st1 V1 (user_ok_after _ _ _ DO HU) Hops) as (st2 & E2).
  exists st2. simpl. cbv [mbind M_bind]. by rewrite E1, E2.
Qed.
End Run.

(** ** The interface of a loaded configuration

    What the clients of the configuration rely on: parsing and post-processing
    have produced a well-formed configuration without dependency loops and with
    complete dependents.  [depth] bounds the recursion of the interpreter. *)
Class Loaded (cfg : Config) := {
  rank : query -> nat;
  depth : nat;
  loaded_ranked : ranked cfg rank;
  loaded_wf : well_formed cfg;
  loaded_deps : deps_ok cfg;
  loaded_depth : forall q, (rank q < depth)%nat;
  loaded_items : (length (all_items cfg) < depth)%nat;
}.

(** A state of a configuration in use, with the user values [U] *)
Record InUse (cfg : Config) (U : uvals) (st : State) : Prop := {
  use_valid : Valid cfg U st;
  use_user : user_ok cfg U;
}.

Section Interface.
Context (cfg : Config) `{L : Loaded cfg}.

(** The values the equations give for the user values [U] *)
Definition solution (U : uvals) : valuation := solve cfg U rank.
Definition evaluate : evaluator := ev cfg depth.

Lemma solution_model U : user_ok cfg U -> is_model cfg U (solution U).
Proof. apply solved, loaded_ranked. Qed.

Lemma in_use_model U st : InUse cfg U st -> is_model cfg U (solution U).
Proof. intros [_ HU]. by apply solution_model. Qed.
Lemma in_use_typed U st : InUse cfg U st -> well_typed cfg U.
Proof. intros [_ HU]. by apply user_ok_typed. Qed.

Lemma step_in_use U st o :
  InUse cfg U st -> op_ok cfg o = true ->
  exists st', run_op cfg depth o st = (Ok (spec_answer cfg rank U o), st') /\ InUse cfg (user_after cfg U o) st'.
Proof.
  intros [V HU] Ho.
  destruct (run_op_ok cfg rank loaded_ranked loaded_wf loaded_deps depth loaded_depth loaded_items U st o V HU Ho)
    as (st' & E & V').
  exists st'. split; [done|]. split; [done|]. apply user_ok_after; [apply loaded_deps|done].
Qed.

(** An operation without its wrapping *)
Lemma unwrap {A} (f : A -> answer) (m : K A) a U st :
  (forall x y, f x = f y -> x = y) ->
  (exists st', answered f m st = (Ok (f a), st') /\ InUse cfg U st') ->
  exists st', m st = (Ok a, st') /\ InUse cfg U st'.
Proof.
  intros Hf (st' & E & H). exists st'. split; [|done]. revert E. unfold answered. cbv [mbind K_bind M_bind].
  destruct (m st) as [[x|e] st1]; [|done]. intros [= Hx <-]. by rewrite (Hf _ _ Hx).
Qed.

Lemma read_tri U st s : InUse cfg U st ->
  exists st', ev_tri evaluate s st = (Ok (v_tri (solution U) s), st') /\ InUse cfg U st'.
Proof. intros H. apply (unwrap ATri); [congruence|]. exact (step_in_use U st (OTri s) H eq_refl). Qed.

Lemma read_str U st s : InUse cfg U st ->
  exists st', ev_str evaluate s st = (Ok (v_str (solution U) s), st') /\ InUse cfg U st'.
Proof. intros H. apply (unwrap AStr); [congruence|]. exact (step_in_use U st (OStr s) H eq_refl). Qed.

Lemma read_vis U st s : InUse cfg U st ->
  exists st', ev_vis evaluate s st = (Ok (v_vis (solution U) s), st') /\ InUse cfg U st'.
Proof. intros H. apply (unwrap ATri); [congruence|]. exact (step_in_use U st (OVisibility s) H eq_refl). Qed.

Lemma read_expr U st e : InUse cfg U st ->
  exists st', expr_value cfg evaluate e st = (Ok (d_expr cfg (solution U) e), st') /\ InUse cfg U st'.
Proof. intros H. apply (unwrap ATri); [congruence|]. exact (step_in_use U st (OExpr e) H eq_refl). Qed.

Lemma read_assignable U st s : InUse cfg U st ->
  exists st', sym_assignable cfg evaluate s st = (Ok (d_assignable cfg (solution U) s), st') /\ InUse cfg U st'.
Proof. intros H. apply (unwrap AList); [congruence|]. exact (step_in_use U st (OAssignable s) H eq_refl). Qed.

Lemma read_config_string U st s : InUse cfg U st ->
  exists st', config_string cfg evaluate s st = (Ok (d_config_string cfg U (solution U) s), st') /\ InUse cfg U st'.
Proof. intros H. apply (unwrap AStr); [congruence|]. exact (step_in_use U st (OConfigString s) H eq_refl). Qed.

Lemma read_ctri U st c : InUse cfg U st ->
  exists st', ev_ctri evaluate c st = (Ok (v_ctri (solution U) c), st') /\ InUse cfg U st'.
Proof. intros H. apply (unwrap ATri); [congruence|]. exact (step_in_use U st (OChoiceTri c) H eq_refl). Qed.

Lemma read_cvis U st c : InUse cfg U st ->
  exists st', ev_cvis evaluate c st = (Ok (v_cvis (solution U) c), st') /\ InUse cfg U st'.
Proof. intros H. apply (unwrap ATri); [congruence|]. exact (step_in_use U st (OChoiceVisibility c) H eq_refl). Qed.

Lemma read_csel U st c : InUse cfg U st ->
  exists st', ev_csel evaluate c st = (Ok (v_csel (solution U) c), st') /\ InUse cfg U st'.
Proof. intros H. apply (unwrap ASym); [congruence|]. exact (step_in_use U st (OChoiceSelection c) H eq_refl). Qed.

Lemma change_sym U st s v : InUse cfg U st ->
  exists st', set_value cfg depth s v st = (Ok (accepts cfg s v), st') /\ InUse cfg (after_set_value cfg U s v) st'.
Proof. intros H. apply (unwrap ABool); [congruence|]. exact (step_in_use U st (OSet s v) H eq_refl). Qed.
End Interface.
