(* ===== verification/Checks.v ===== *)
(** * Finite checks of a configuration

    Boolean versions of the conditions [well_formed] and [deps_ok] on a
    concrete configuration, and their soundness. *)
From S2P Require Import Prelude PyStr Model Eval EvalSpec EvalRefine EvalDet Values SetValue Validity Session.

Definition is_item (e : expr) : bool := match e with EItem _ => true | _ => false end.
Definition is_sym (e : expr) : bool := match e with EItem (ISym _) => true | _ => false end.

Definition wf_check (cfg : Config) : bool :=
  forallb (fun s => type_eqb (sym_orig_type (sym cfg s)) TRISTATE) [c_n cfg; c_m cfg; c_y cfg]
  && negb (c_n cfg =? c_m cfg)%nat && negb (c_n cfg =? c_y cfg)%nat && negb (c_m cfg =? c_y cfg)%nat
  && forallb (fun x => is_bool_tristate (sym_orig_type x) || type_eqb (sym_orig_type x) UNKNOWN
                        || forallb (fun dc => is_item dc.1) (sym_defaults x)) (c_syms cfg)
  && forallb (fun x => forallb (fun dc => is_sym dc.1) (ch_defaults x)) (c_choices cfg)
  && forallb (fun x => forallb (fun e => is_sym (first_and e)) (split_expr (sym_rev_dep x) OR)) (c_syms cfg).

Definition covered_check (cfg : Config) (i : item) (q' : query) : bool :=
  bool_decide (item_of q' = i) || is_static cfg (item_of q')
  || (negb (is_static cfg i)
      && (bool_decide (item_of q' = ISym (c_modules cfg)) || bool_decide (i ∈ dependents cfg (item_of q')))).

Definition item_check (cfg : Config) (i : item) : bool :=
  forallb (covered_check cfg i) (item_reads cfg i)
  && forallb (fun z => negb (is_static cfg z) && bool_decide (z ∈ all_items cfg)) (dependents cfg i)
  && match i with
     | ISym s =>
         (negb (is_static cfg i) || negb (has_prompt cfg s))
         && (negb (is_tri_const cfg s) || is_static cfg i)
         && match sym_choice (sym cfg s) with
            | Some c => bool_decide (s ∈ ch_syms (chc cfg c)) && negb (is_static cfg (IChoice c))
                        && (negb (has_prompt cfg s) || bool_decide (i ∈ dependents cfg (IChoice c)))
            | None => true
            end
     | IChoice c => negb (is_static cfg i) || negb (type_eqb (ch_orig_type (chc cfg c)) TRISTATE)
     end.

Definition deps_check (cfg : Config) : bool :=
  forallb (item_check cfg) (all_items cfg)
  && forallb (fun s => (s <? length (c_syms cfg))%nat) (c_unique_defined_syms cfg).

Definition user_check (l : list (symid * uval)) (cfg : Config) : bool :=
  forallb (fun '(s, v) => valid_for_type (sym_orig_type (sym cfg s)) v) l.

(** ** Soundness *)

Lemma sym_in_or_none cfg s : In (sym cfg s) (c_syms cfg) \/ sym cfg s = no_symbol.
Proof.
  unfold sym. destruct (decide (s < length (c_syms cfg))%nat).
  - left. by apply nth_In.
  - right. apply nth_overflow. lia.
Qed.

Lemma chc_in_or_none cfg c : In (chc cfg c) (c_choices cfg) \/ chc cfg c = no_choice.
Proof.
  unfold chc. destruct (decide (c < length (c_choices cfg))%nat).
  - left. by apply nth_In.
  - right. apply nth_overflow. lia.
Qed.

Lemma wf_check_sound cfg : wf_check cfg = true -> well_formed cfg.
Proof.
  unfold wf_check. rewrite !andb_true_iff. intros ((((((Ht & H1) & H2) & H3) & Hd) & Hc) & Hs).
  rewrite !forallb_forall in *. split.
  - intros s Hn. apply type_eqb_eq, Ht. unfold is_tri_const in Hn.
    repeat case_bool_decide; subst; simpl; auto. done.
  - rewrite !negb_true_iff, !Nat.eqb_neq in *. done.
  - intros s d cond Hin Hb Hu. destruct (sym_in_or_none cfg s) as [Hx|Hx]; [|by rewrite Hx in Hin].
    specialize (Hd _ Hx). rewrite Hb in Hd. destruct (type_eqb _ UNKNOWN) eqn:Hk; [by apply type_eqb_eq in Hk|]. simpl in Hd. rewrite forallb_forall in Hd.
    specialize (Hd _ Hin). simpl in Hd. destruct d; try done. eauto.
  - intros c d cond Hin. destruct (chc_in_or_none cfg c) as [Hx|Hx]; [|by rewrite Hx in Hin].
    specialize (Hc _ Hx). rewrite forallb_forall in Hc. specialize (Hc _ Hin). simpl in Hc.
    destruct d as [[]| | | |]; try done. eauto.
  - intros s select Hin. destruct (sym_in_or_none cfg s) as [Hx|Hx].
    + specialize (Hs _ Hx). rewrite forallb_forall in Hs. specialize (Hs _ Hin).
      destruct (first_and select) as [[]| | | |]; try done. eauto.
    + rewrite Hx in Hin. simpl in Hin. destruct Hin as [<-|[]]. simpl. eauto.
Qed.

Lemma covered_check_sound cfg i q' : covered_check cfg i q' = true -> covered cfg i q'.
Proof.
  unfold covered_check, covered. rewrite !orb_true_iff, andb_true_iff, orb_true_iff, negb_true_iff,
    !bool_decide_eq_true, list_elem_of_In. tauto.
Qed.

Lemma in_all_items cfg i :
  In i (all_items cfg) <->
  match i with ISym s => (s < length (c_syms cfg))%nat | IChoice c => (c < length (c_choices cfg))%nat end.
Proof.
  unfold all_items. rewrite in_app_iff, !in_map_iff. destruct i as [s|c]; split.
  - intros [(x & [= ->] & ?%in_seq)|(x & ? & _)]; [lia|done].
  - intros Hs. left. exists s. split; [done|]. apply in_seq. lia.
  - intros [(x & ? & _)|(x & [= ->] & ?%in_seq)]; [done|lia].
  - intros Hs. right. exists c. split; [done|]. apply in_seq. lia.
Qed.

(** An id outside the tables stands for nothing that could change *)
Lemma outside_item cfg i q' :
  ~ In i (all_items cfg) -> In q' (item_reads cfg i) -> item_of q' = i.
Proof.
  rewrite in_all_items. destruct i as [s|c]; intros Hn.
  - assert (Hx : sym cfg s = no_symbol) by (apply nth_overflow; lia).
    unfold item_reads, vreads, areads, has_prompt. cbn [reads]. rewrite Hx. simpl.
    rewrite orb_true_r. simpl. by intros [<-|[]].
  - assert (Hx : chc cfg c = no_choice) by (apply nth_overflow; lia).
    unfold item_reads, vreads, careads. cbn [reads]. unfold ctype_reads. rewrite Hx. simpl.
    intros [<-|[<-|[<-|[]]]]; done.
Qed.

Lemma outside_dependents cfg i : ~ In i (all_items cfg) -> dependents cfg i = [].
Proof.
  rewrite in_all_items. destruct i as [s|c]; intros Hn; simpl.
  - assert (Hx : sym cfg s = no_symbol) by (apply nth_overflow; lia). by rewrite Hx.
  - assert (Hx : chc cfg c = no_choice) by (apply nth_overflow; lia). by rewrite Hx.
Qed.

Lemma deps_check_sound cfg : deps_check cfg = true -> deps_ok cfg.
Proof.
  unfold deps_check. rewrite andb_true_iff, !forallb_forall. intros [Hi Hu].
  assert (Hitem : forall i, In i (all_items cfg) -> item_check cfg i = true) by done.
  assert (Hdec : forall i, In i (all_items cfg) \/ ~ In i (all_items cfg)).
  { intros i. rewrite in_all_items. destruct i; lia. }
  unfold item_check in Hitem. setoid_rewrite andb_true_iff in Hitem. setoid_rewrite andb_true_iff in Hitem.
  setoid_rewrite forallb_forall in Hitem.
  assert (Hout : forall s, ~ In (ISym s) (all_items cfg) -> is_static cfg (ISym s) = true).
  { intros s Hn. simpl. apply negb_true_iff, bool_decide_eq_false. intros Hs%list_elem_of_In%Hu%Nat.ltb_lt.
    by apply Hn, in_all_items. }
  split.
  - intros i q' Hq. destruct (Hdec i) as [Hin|Hn]; [|left; by eapply outside_item].
    by apply covered_check_sound, Hitem.
  - intros i z Hz. destruct (Hdec i) as [Hin|Hn]; [|by rewrite outside_dependents in Hz].
    destruct (Hitem i Hin) as [[_ Hd] _]. specialize (Hd z Hz). apply andb_true_iff in Hd as [Hd _].
    by apply negb_true_iff.
  - intros i z Hz. destruct (Hdec i) as [Hin|Hn]; [|by rewrite outside_dependents in Hz].
    destruct (Hitem i Hin) as [[_ Hd] _]. specialize (Hd z Hz). apply andb_true_iff in Hd as [_ Hd].
    by apply bool_decide_eq_true, list_elem_of_In in Hd.
  - intros s Hs. destruct (Hdec (ISym s)) as [Hin|Hn].
    + destruct (Hitem _ Hin) as [_ Hd]. rewrite !andb_true_iff, Hs in Hd. simpl in Hd.
      destruct Hd as [[Hd _] _]. by apply negb_true_iff.
    + unfold has_prompt. assert (Hx : sym cfg s = no_symbol).
      { apply nth_overflow. rewrite in_all_items in Hn. lia. }
      by rewrite Hx.
  - intros s c Hc. destruct (Hdec (ISym s)) as [Hin|Hn].
    + destruct (Hitem _ Hin) as [_ Hd]. rewrite !andb_true_iff, Hc, !andb_true_iff in Hd.
      destruct Hd as [_ [[H1 H2] H3]]. split_and!.
      * by apply bool_decide_eq_true, list_elem_of_In in H1.
      * by apply negb_true_iff.
      * intros Hp. rewrite Hp in H3. simpl in H3. by apply bool_decide_eq_true, list_elem_of_In in H3.
    + assert (Hx : sym cfg s = no_symbol).
      { apply nth_overflow. rewrite in_all_items in Hn. lia. }
      by rewrite Hx in Hc.
  - intros s Hs. destruct (Hdec (ISym s)) as [Hin|Hn]; [|auto].
    destruct (Hitem _ Hin) as [_ Hd]. rewrite !andb_true_iff, Hs in Hd. by destruct Hd as [[_ Hd] _].
  - intros c Hs Ht. destruct (Hdec (IChoice c)) as [Hin|Hn].
    + destruct (Hitem _ Hin) as [_ Hd]. by rewrite Hs, Ht in Hd.
    + assert (Hx : chc cfg c = no_choice).
      { apply nth_overflow. rewrite in_all_items in Hn. lia. }
      by rewrite Hx in Ht.
Qed.

(** ** The initial state is valid *)

Lemma user_ok_none cfg : user_ok cfg no_user.
Proof. by split. Qed.

Lemma init_valid cfg : well_formed cfg -> Valid cfg no_user (init_state cfg).
Proof.
  intros WF. assert (Hs : forall s, symst (init_state cfg) s = init_sym \/
    (is_tri_const cfg s = true /\ exists v, symst (init_state cfg) s = set_cached_tri_val (Some v) init_sym
       /\ forall r, d_tri cfg no_user r s = v)).
  { intros s. destruct (wf_consts _ WF) as (N1 & N2 & N3). unfold symst, init_state, is_tri_const, d_tri. simpl.
    rewrite !lookup_total_insert. repeat case_decide; repeat case_bool_decide; subst; simpl; try done; eauto 6. }
  assert (Hc : forall c, chst (init_state cfg) c = init_choice) by (intros c; exact (lookup_total_empty c)).
  assert (Hno : forall s, cached_str_val (symst (init_state cfg) s) = None
     /\ cached_vis (symst (init_state cfg) s) = None /\ cached_assignable (symst (init_state cfg) s) = None
     /\ user_value (symst (init_state cfg) s) = None /\ write_to_conf (symst (init_state cfg) s) = false)
    by (intros s; by destruct (Hs s) as [->|(_ & v & -> & _)]).
  assert (Htri : forall s v, cached_tri_val (symst (init_state cfg) s) = Some v ->
     is_tri_const cfg s = true /\ forall r, d_tri cfg no_user r s = v).
  { intros s v. destruct (Hs s) as [->|(Hn & w & -> & Hw)]; [done|]. by intros [= <-]. }
  assert (Hconst : forall s, is_tri_const cfg s = true -> is_Some (cached_tri_val (symst (init_state cfg) s))).
  { intros s Hn. unfold is_tri_const in Hn. unfold symst, init_state. simpl.
    rewrite !lookup_total_insert. repeat case_decide; subst; simpl; eauto.
    all: repeat case_bool_decide; subst; done. }
  assert (Hwtc : forall s, value_known cfg (init_state cfg) s -> forall r, d_wtc cfg no_user r s = false).
  { intros s Hk r. unfold d_wtc. destruct (is_tri_const cfg s) eqn:Hn; [done|].
    revert Hk. unfold value_known. destruct (Hno s) as (-> & _).
    assert (Ht : cached_tri_val (symst (init_state cfg) s) = None).
    { destruct (cached_tri_val _) as [v|] eqn:E; [|done]. apply Htri in E as [E _]. congruence. }
    rewrite Ht. by destruct (sym_orig_type _); [|intros []..]. }
  split.
  - intros s. apply (Hno s).
  - intros c. by rewrite Hc.
  - intros c. by rewrite Hc.
  - split; try (intros c v; by rewrite Hc);
      try (intros s v; destruct (Hno s) as (E1 & E2 & E3 & _); rewrite ?E1, ?E2, ?E3; done).
    + intros s v Hv r _. by apply Htri.
    + intros s Hk. exists false. intros r _. by apply Hwtc.
  - split; try (intros c; rewrite Hc; by intros []);
      try (intros s; intros; destruct (Hno s) as (E1 & E2 & E3 & _); rewrite ?E1, ?E3 in *;
           match goal with H : is_Some None |- _ => by destruct H end); [|done].
    intros s _ Hn [v [Hc' _]%Htri]. congruence.
  - intros s _. destruct (Hno s) as (-> & _). by intros [].
  - intros s Hk r _. destruct (Hno s) as (_ & _ & _ & _ & ->). by apply Hwtc.
Qed.
