(* ===== verification/Finalize.v ===== *)
(** * From the parsed menu tree to the finished configuration

    [Kconfig._finalize_node] and what it calls turn the menu nodes that parsing
    leaves into the final menu tree and copy the properties of nodes to their
    symbols and choices; [Kconfig._build_dep] and [Kconfig._add_choice_deps]
    then record which objects depend on which.  While this runs the tables of
    [Config] are the state: the operations are programs over [M Config]. *)
From S2P Require Import Prelude PyStr Model.

(** ** Assignments to attributes *)

Definition with_syms l (c : Config) := mkConfig l (c_choices c) (c_nodes c) (c_n c) (c_m c) (c_y c)
  (c_modules c) (c_defconfig_list c) (c_top_node c) (c_unique_defined_syms c) (c_unique_choices c)
  (c_menus c) (c_comments c) (c_sym_table c) (c_config_prefix c) (c_config_header c) (c_header_header c).
Definition with_choices l (c : Config) := mkConfig (c_syms c) l (c_nodes c) (c_n c) (c_m c) (c_y c)
  (c_modules c) (c_defconfig_list c) (c_top_node c) (c_unique_defined_syms c) (c_unique_choices c)
  (c_menus c) (c_comments c) (c_sym_table c) (c_config_prefix c) (c_config_header c) (c_header_header c).
Definition with_nodes l (c : Config) := mkConfig (c_syms c) (c_choices c) l (c_n c) (c_m c) (c_y c)
  (c_modules c) (c_defconfig_list c) (c_top_node c) (c_unique_defined_syms c) (c_unique_choices c)
  (c_menus c) (c_comments c) (c_sym_table c) (c_config_prefix c) (c_config_header c) (c_header_header c).

Definition upd_sym (f : Symbol -> Symbol) (s : symid) (c : Config) : Config :=
  with_syms (alter f s (c_syms c)) c.
Definition upd_choice (f : Choice -> Choice) (i : choiceid) (c : Config) : Config :=
  with_choices (alter f i (c_choices c)) c.
Definition upd_node (f : MenuNode -> MenuNode) (n : nodeid) (c : Config) : Config :=
  with_nodes (alter f n (c_nodes c)) c.

Definition set_sym_orig_type v (x : Symbol) := mkSymbol (sym_name x) (sym_is_constant x) v (sym_nodes x)
  (sym_defaults x) (sym_selects x) (sym_implies x) (sym_ranges x) (sym_rev_dep x) (sym_weak_rev_dep x)
  (sym_direct_dep x) (sym_choice x) (sym_env_var x) (sym_is_allnoconfig_y x) (sym_dependents x).
Definition set_sym_rev_dep v (x : Symbol) := mkSymbol (sym_name x) (sym_is_constant x) (sym_orig_type x) (sym_nodes x)
  (sym_defaults x) (sym_selects x) (sym_implies x) (sym_ranges x) v (sym_weak_rev_dep x)
  (sym_direct_dep x) (sym_choice x) (sym_env_var x) (sym_is_allnoconfig_y x) (sym_dependents x).
Definition set_sym_weak_rev_dep v (x : Symbol) := mkSymbol (sym_name x) (sym_is_constant x) (sym_orig_type x) (sym_nodes x)
  (sym_defaults x) (sym_selects x) (sym_implies x) (sym_ranges x) (sym_rev_dep x) v
  (sym_direct_dep x) (sym_choice x) (sym_env_var x) (sym_is_allnoconfig_y x) (sym_dependents x).
Definition set_sym_choice v (x : Symbol) := mkSymbol (sym_name x) (sym_is_constant x) (sym_orig_type x) (sym_nodes x)
  (sym_defaults x) (sym_selects x) (sym_implies x) (sym_ranges x) (sym_rev_dep x) (sym_weak_rev_dep x)
  (sym_direct_dep x) v (sym_env_var x) (sym_is_allnoconfig_y x) (sym_dependents x).
Definition set_sym_dependents v (x : Symbol) := mkSymbol (sym_name x) (sym_is_constant x) (sym_orig_type x) (sym_nodes x)
  (sym_defaults x) (sym_selects x) (sym_implies x) (sym_ranges x) (sym_rev_dep x) (sym_weak_rev_dep x)
  (sym_direct_dep x) (sym_choice x) (sym_env_var x) (sym_is_allnoconfig_y x) v.
(** [sym.defaults += ...] and the like *)
Definition add_sym_props dep defaults ranges selects implies (x : Symbol) := mkSymbol (sym_name x) (sym_is_constant x)
  (sym_orig_type x) (sym_nodes x) (sym_defaults x ++ defaults) (sym_selects x ++ selects)
  (sym_implies x ++ implies) (sym_ranges x ++ ranges) (sym_rev_dep x) (sym_weak_rev_dep x)
  dep (sym_choice x) (sym_env_var x) (sym_is_allnoconfig_y x) (sym_dependents x).

Definition set_ch_orig_type v (x : Choice) := mkChoice (ch_name x) v (ch_nodes x) (ch_syms x) (ch_defaults x)
  (ch_direct_dep x) (ch_is_optional x) (ch_dependents x).
Definition set_ch_syms v (x : Choice) := mkChoice (ch_name x) (ch_orig_type x) (ch_nodes x) v (ch_defaults x)
  (ch_direct_dep x) (ch_is_optional x) (ch_dependents x).
Definition set_ch_dependents v (x : Choice) := mkChoice (ch_name x) (ch_orig_type x) (ch_nodes x) (ch_syms x)
  (ch_defaults x) (ch_direct_dep x) (ch_is_optional x) v.
Definition add_ch_props dep defaults (x : Choice) := mkChoice (ch_name x) (ch_orig_type x) (ch_nodes x) (ch_syms x)
  (ch_defaults x ++ defaults) dep (ch_is_optional x) (ch_dependents x).

Definition set_nd_next v (x : MenuNode) := mkMenuNode (nd_item x) v (nd_list x) (nd_parent x) (nd_prompt x)
  (nd_dep x) (nd_visibility x) (nd_is_menuconfig x) (nd_help x) (nd_filename x) (nd_linenr x)
  (nd_include_path x) (nd_defaults x) (nd_selects x) (nd_implies x) (nd_ranges x).
Definition set_nd_list v (x : MenuNode) := mkMenuNode (nd_item x) (nd_next x) v (nd_parent x) (nd_prompt x)
  (nd_dep x) (nd_visibility x) (nd_is_menuconfig x) (nd_help x) (nd_filename x) (nd_linenr x)
  (nd_include_path x) (nd_defaults x) (nd_selects x) (nd_implies x) (nd_ranges x).
Definition set_nd_parent v (x : MenuNode) := mkMenuNode (nd_item x) (nd_next x) (nd_list x) v (nd_prompt x)
  (nd_dep x) (nd_visibility x) (nd_is_menuconfig x) (nd_help x) (nd_filename x) (nd_linenr x)
  (nd_include_path x) (nd_defaults x) (nd_selects x) (nd_implies x) (nd_ranges x).
Definition set_nd_prompt_dep p d (x : MenuNode) := mkMenuNode (nd_item x) (nd_next x) (nd_list x) (nd_parent x) p
  d (nd_visibility x) (nd_is_menuconfig x) (nd_help x) (nd_filename x) (nd_linenr x)
  (nd_include_path x) (nd_defaults x) (nd_selects x) (nd_implies x) (nd_ranges x).
Definition set_nd_props defaults ranges selects implies (x : MenuNode) := mkMenuNode (nd_item x) (nd_next x)
  (nd_list x) (nd_parent x) (nd_prompt x) (nd_dep x) (nd_visibility x) (nd_is_menuconfig x) (nd_help x)
  (nd_filename x) (nd_linenr x) (nd_include_path x) defaults selects implies ranges.

(** ** The monad of post-processing *)

Definition P : Type -> Type := M Config.
#[export] Instance P_ret : MRet P := M_ret Config.
#[export] Instance P_bind : MBind P := M_bind Config.

Definition nget {A} (f : MenuNode -> A) (n : nodeid) : P A := gets (fun c => f (node c n)).
Definition nput (f : MenuNode -> MenuNode) (n : nodeid) : P unit := modify (upd_node f n).

(** [while cur: body(cur); cur = cur.next] *)
Fixpoint while_next (fuel : nat) (body : nodeid -> P unit) (cur : option nodeid) : P unit :=
  match cur, fuel with
  | None, _ => mret tt
  | Some n, O => raise Diverges
  | Some n, S fuel => body n;; nx ← nget nd_next n; while_next fuel body nx
  end.

(** ** Propagating dependencies *)

(** What one child node of [_propagate_deps] becomes *)
Definition propagate_to (cfg : Config) (basedep visible_if : expr) (x : MenuNode) : MenuNode :=
  let dep := make_and cfg (nd_dep x) basedep in
  match nd_item x with
  | NSym _ | NChoice _ =>
      let x1 := set_nd_prompt_dep
        (match nd_prompt x with
         | Some (p, cond) => Some (p, make_and cfg cond (make_and cfg visible_if dep))
         | None => None
         end) dep x in
      set_nd_props (map (fun '(d, cond) => (d, make_and cfg cond dep)) (nd_defaults x))
        (map (fun '(low, high, cond) => (low, high, make_and cfg cond dep)) (nd_ranges x))
        (map (fun '(target, cond) => (target, make_and cfg cond dep)) (nd_selects x))
        (map (fun '(target, cond) => (target, make_and cfg cond dep)) (nd_implies x)) x1
  | _ =>
      set_nd_prompt_dep
        (match nd_prompt x with
         | Some (p, cond) => Some (p, make_and cfg cond dep)
         | None => None
         end) dep x
  end.

(** [Kconfig._propagate_deps] *)
Definition propagate_deps (fuel : nat) (nd : nodeid) (visible_if : expr) : P unit :=
  it ← nget nd_item nd;
  dep ← nget nd_dep nd;
  let basedep := match it with NChoice c => EChoice c | _ => dep end in
  first ← nget nd_list nd;
  while_next fuel (fun cur => c ← gets id; nput (propagate_to c basedep visible_if) cur) first.

(** [Kconfig._add_props_to_sym] *)
Definition add_props_to_sym (nd : nodeid) : P unit :=
  it ← nget nd_item nd;
  match it with
  | NSym s =>
      x ← gets (fun c => node c nd);
      c ← gets id;
      modify (upd_sym (add_sym_props (make_or c (sym_direct_dep (sym c s)) (nd_dep x))
                (nd_defaults x) (nd_ranges x) (nd_selects x) (nd_implies x)) s);;
      forM_ (nd_selects x) (fun '(target, cond) =>
        c ← gets id;
        modify (upd_sym (set_sym_rev_dep
          (make_or c (sym_rev_dep (sym c target)) (make_and c (ESym s) cond))) target));;
      forM_ (nd_implies x) (fun '(target, cond) =>
        c ← gets id;
        modify (upd_sym (set_sym_weak_rev_dep
          (make_or c (sym_weak_rev_dep (sym c target)) (make_and c (ESym s) cond))) target))
  | _ => mret tt
  end.

(** ** The shape of the menu tree *)

Definition is_none {A} (o : option A) : bool := match o with None => true | Some _ => false end.

(** [_auto_menu_dep] *)
Definition auto_menu_dep (cfg : Config) (n1 n2 : nodeid) : bool :=
  let e := match nd_prompt (node cfg n2) with Some (_, cond) => cond | None => nd_dep (node cfg n2) end in
  match nd_item (node cfg n1) with
  | NSym s => expr_depends_on cfg e (ISym s)
  | NChoice c => expr_depends_on cfg e (IChoice c)
  | _ => false
  end.

(** The end of the children of a node that is flattened away *)
Fixpoint adopt (fuel : nat) (parent : option nodeid) (last_node : nodeid) : P nodeid :=
  match fuel with
  | O => raise Diverges
  | S fuel =>
      nput (set_nd_parent parent) last_node;;
      nx ← nget nd_next last_node;
      match nx with
      | None => mret last_node
      | Some n => adopt fuel parent n
      end
  end.

(** [_flatten] *)
Definition flatten (fuel : nat) (first : option nodeid) : P unit :=
  while_next fuel (fun nd =>
    x ← gets (fun c => node c nd);
    match nd_list x, nd_prompt x, nd_item x with
    | Some l, None, (NSym _ | NMenu | NComment | NIf) =>
        last_node ← adopt fuel (nd_parent x) l;
        nput (set_nd_next (nd_next x)) last_node;;
        nput (set_nd_next (Some l)) nd;;
        nput (set_nd_list None) nd
    | _, _, _ => mret tt
    end) first.

(** [while cur and not cur.item: cur = cur.next] *)
Fixpoint skip_ifs (fuel : nat) (cfg : Config) (cur : option nodeid) : option (option nodeid) :=
  match cur, fuel with
  | None, _ => Some None
  | Some n, O => None
  | Some n, S fuel =>
      match nd_item (node cfg n) with
      | NIf => skip_ifs fuel cfg (nd_next (node cfg n))
      | _ => Some (Some n)
      end
  end.

Definition skip (fuel : nat) (cur : option nodeid) : P (option nodeid) :=
  o ← gets (fun c => skip_ifs fuel c cur);
  match o with Some r => mret r | None => raise Diverges end.

(** [_remove_ifs] *)
Definition remove_ifs (fuel : nat) (nd : nodeid) : P unit :=
  first ← nget nd_list nd;
  cur ← skip fuel first;
  nput (set_nd_list cur) nd;;
  while_next fuel (fun n =>
    nx ← nget nd_next n;
    nx ← skip fuel nx;
    nput (set_nd_next nx) n) cur.

(** The first type among the symbols, [for item in choice.syms: if item.orig_type: ...] *)
Definition first_type (cfg : Config) (l : list symid) : option stype :=
  first_some (fun s => let t := sym_orig_type (sym cfg s) in
                       if type_eqb t UNKNOWN then None else Some t) l.

(** [_finalize_choice] *)
Definition finalize_choice (fuel : nat) (nd : nodeid) : P unit :=
  it ← nget nd_item nd;
  match it with
  | NChoice c =>
      first ← nget nd_list nd;
      while_next fuel (fun cur =>
        i ← nget nd_item cur;
        match i with
        | NSym s =>
            modify (upd_sym (set_sym_choice (Some c)) s);;
            modify (fun k => upd_choice (set_ch_syms (ch_syms (chc k c) ++ [s])) c k)
        | _ => mret tt
        end) first;;
      k ← gets id;
      when (type_eqb (ch_orig_type (chc k c)) UNKNOWN)
        (match first_type k (ch_syms (chc k c)) with
         | Some t => modify (upd_choice (set_ch_orig_type t) c)
         | None => mret tt
         end);;
      k ← gets id;
      forM_ (ch_syms (chc k c)) (fun s =>
        modify (fun k' => if type_eqb (sym_orig_type (sym k' s)) UNKNOWN
                          then upd_sym (set_sym_orig_type (ch_orig_type (chc k' c))) s k' else k'))
  | _ => mret tt
  end.

(** [while cur.next and _auto_menu_dep(node, cur.next): ...]; the last node taken *)
Fixpoint implicit_menu (fuel : nat) (finalize : nodeid -> P unit) (nd cur : nodeid) : P nodeid :=
  match fuel with
  | O => raise Diverges
  | S fuel =>
      nx ← nget nd_next cur;
      match nx with
      | None => mret cur
      | Some n =>
          dep ← gets (fun c => auto_menu_dep c nd n);
          if dep : bool then
            finalize n;;
            nput (set_nd_parent (Some nd)) n;;
            implicit_menu fuel finalize nd n
          else mret cur
      end
  end.

(** [Kconfig._finalize_node], to recursion depth [depth]; loops run at most [fuel] times *)
Fixpoint finalize_node (fuel depth : nat) (nd : nodeid) (visible_if : expr) : P unit :=
  match depth with
  | O => raise RecursionError
  | S depth =>
      x ← gets (fun c => node c nd);
      match nd_item x with
      | NSym _ =>
          add_props_to_sym nd;;
          cur ← implicit_menu fuel (fun n => finalize_node fuel depth n visible_if) nd nd;
          when (negb (bool_decide (cur = nd)))
            (nx ← nget nd_next nd;
             nput (set_nd_list nx) nd;;
             cnx ← nget nd_next cur;
             nput (set_nd_next cnx) nd;;
             nput (set_nd_next None) cur)
      | _ =>
          when (negb (is_none (nd_list x)))
            (c ← gets id;
             let visible_if := match nd_item x with
                               | NMenu => make_and c visible_if (nd_visibility x)
                               | _ => visible_if
                               end in
             propagate_deps fuel nd visible_if;;
             first ← nget nd_list nd;
             while_next fuel (fun n => finalize_node fuel depth n visible_if) first)
      end;;
      l ← nget nd_list nd;
      when (negb (is_none l)) (flatten fuel l;; remove_ifs fuel nd);;
      match nd_item x with
      | NChoice ch =>
          x' ← gets (fun c => node c nd);
          modify (fun c => upd_choice (add_ch_props (make_or c (ch_direct_dep (chc c ch)) (nd_dep x'))
                                         (nd_defaults x')) ch c);;
          finalize_choice fuel nd
      | _ => mret tt
      end
  end.

(** ** Dependents *)

(** [s.add(x)] for a set kept as a list without duplicates *)
Definition set_add (x : item) (l : list item) : list item := if bool_decide (x ∈ l) then l else l ++ [x].

Definition add_dependent (sc i : item) (cfg : Config) : Config :=
  match i with
  | ISym s => upd_sym (fun x => set_sym_dependents (set_add sc (sym_dependents x)) x) s cfg
  | IChoice c => upd_choice (fun x => set_ch_dependents (set_add sc (ch_dependents x)) x) c cfg
  end.

(** [elif not expr.is_constant: expr._dependents.add(sc)] *)
Definition depend_on_item (sc i : item) (cfg : Config) : Config :=
  match i with
  | ISym s => if sym_is_constant (sym cfg s) then cfg else add_dependent sc i cfg
  | IChoice _ => add_dependent sc i cfg
  end.

(** [_depend_on] *)
Fixpoint depend_on (sc : item) (e : expr) (cfg : Config) : Config :=
  match e with
  | EItem i => depend_on_item sc i cfg
  | EAnd e1 e2 | EOr e1 e2 => depend_on sc e2 (depend_on sc e1 cfg)
  | ENot e1 => depend_on sc e1 cfg
  | ERel _ s1 s2 => depend_on_item sc (ISym s2) (depend_on_item sc (ISym s1) cfg)
  end.

Definition depend_on_list (sc : item) (l : list expr) (cfg : Config) : Config :=
  foldl (fun c e => depend_on sc e c) cfg l.

Definition prompt_conds (cfg : Config) (ns : list nodeid) : list expr :=
  flat_map (fun n => match nd_prompt (node cfg n) with Some (_, cond) => [cond] | None => [] end) ns.

(** What a symbol, or a choice, depends on *)
Definition sym_dep_exprs (cfg : Config) (s : symid) : list expr :=
  let x := sym cfg s in
  prompt_conds cfg (sym_nodes x)
  ++ flat_map (fun '(value, cond) => [value; cond]) (sym_defaults x)
  ++ [sym_rev_dep x; sym_weak_rev_dep x]
  ++ flat_map (fun '(low, high, cond) => [ESym low; ESym high; cond]) (sym_ranges x)
  ++ [sym_direct_dep x].

Definition choice_dep_exprs (cfg : Config) (c : choiceid) : list expr :=
  prompt_conds cfg (ch_nodes (chc cfg c)) ++ map snd (ch_defaults (chc cfg c)).

(** [Kconfig._build_dep] *)
Definition build_dep (cfg : Config) : Config :=
  let cfg1 := foldl (fun c s => depend_on_list (ISym s) (sym_dep_exprs c s) c) cfg (c_unique_defined_syms cfg) in
  foldl (fun c i => depend_on_list (IChoice i) (choice_dep_exprs c i) c) cfg1 (c_unique_choices cfg).

(** [Kconfig._add_choice_deps] *)
Definition add_choice_deps (cfg : Config) : Config :=
  foldl (fun c i => foldl (fun c s => add_dependent (IChoice i) (ISym s) c) c (ch_syms (chc c i)))
    cfg (c_unique_choices cfg).

(** The post-processing at the end of [Kconfig.__init__] (the sanity checks and
    the search for dependency loops only report) *)
Definition finish (fuel : nat) : P unit :=
  top ← gets c_top_node;
  y ← gets e_y;
  finalize_node fuel fuel top y;;
  modify build_dep;;
  modify add_choice_deps.
