(* ===== verification/Tables.v ===== *)
(** * Reading the tables after an update

    [Config] keeps symbols, choices and menu nodes in lists that are read with a
    default: what is read after an element is changed, or one is added. *)
From S2P Require Import Prelude Model Finalize.

Lemma nth_alter {A} (f : A -> A) i j l (d : A) :
  nth j (alter f i l) d = if decide (i = j /\ (i < length l)%nat) then f (nth j l d) else nth j l d.
Proof.
  rewrite !nth_lookup. destruct (decide (i = j)) as [->|Hn].
  - rewrite list_lookup_alter_eq. destruct (decide _) as [[_ Hl]|Hl].
    + by destruct (lookup_lt_is_Some_2 _ _ Hl) as [x ->].
    + rewrite lookup_ge_None_2; [done|]. destruct (decide (j < length l)%nat); [tauto|lia].
  - rewrite list_lookup_alter_ne by done. by destruct (decide _) as [[? _]|_].
Qed.
Lemma nth_snoc {A} (l : list A) x j d :
  nth j (l ++ [x]) d = if decide (j = length l) then x else nth j l d.
Proof.
  case_decide as E; [rewrite E, app_nth2 by lia; by rewrite Nat.sub_diag|].
  destruct (decide (j < length l)%nat) as [Hl|Hl]; [by apply app_nth1|].
  rewrite !nth_overflow; [done|lia|rewrite length_app; simpl; lia].
Qed.

Section Tables.
Context (c : Config).

Lemma sym_upd f s t : sym (upd_sym f s c) t =
  if decide (s = t /\ (s < length (c_syms c))%nat) then f (sym c t) else sym c t.
Proof. apply nth_alter. Qed.
Lemma chc_upd f x y : chc (upd_choice f x c) y =
  if decide (x = y /\ (x < length (c_choices c))%nat) then f (chc c y) else chc c y.
Proof. apply nth_alter. Qed.
Lemma node_upd f n m : node (upd_node f n c) m =
  if decide (n = m /\ (n < length (c_nodes c))%nat) then f (node c m) else node c m.
Proof. apply nth_alter. Qed.

Lemma sym_add x t : sym (with_syms (c_syms c ++ [x]) c) t = if decide (t = length (c_syms c)) then x else sym c t.
Proof. apply nth_snoc. Qed.
Lemma chc_add x y : chc (with_choices (c_choices c ++ [x]) c) y = if decide (y = length (c_choices c)) then x else chc c y.
Proof. apply nth_snoc. Qed.
Lemma node_add x m : node (with_nodes (c_nodes c ++ [x]) c) m = if decide (m = length (c_nodes c)) then x else node c m.
Proof. apply nth_snoc. Qed.
Lemma sym_new : sym c (length (c_syms c)) = no_symbol.
Proof. apply nth_overflow. lia. Qed.
End Tables.
