(* ===== verification/Fpspy.v ===== *)
(** * The configuration of this repository

    The symbols, choice and menu nodes of the file [Kconfig] at the top of the
    repository as parsing leaves them ([parsed]); the finished configuration
    [fpspy] is what the modelled post-processing makes of them.  The theorems
    about all configurations are applied to it. *)
From S2P Require Import Prelude PyStr Model Eval EvalSpec EvalRefine EvalDet Values SetValue Validity Session Checks Finalize.

Definition raw_sym (name : string) (const : bool) (t : stype) (nodes : list nodeid) : Symbol :=
  mkSymbol name const t nodes [] [] [] [] (ESym 0%nat) (ESym 0%nat) (ESym 0%nat) None None false [].

Definition raw_node (it : node_item) (next children parent : option nodeid) (prompt : option string)
    (dep : expr) (line : Z) (defaults : list (expr * expr)) : MenuNode :=
  mkMenuNode it next children parent (match prompt with Some p => Some (p, ESym 2%nat) | None => None end)
    dep (ESym 2%nat) (match it with NMenu | NChoice _ => true | _ => false end)
    None "Kconfig" line [] defaults [] [] [].

Definition n_ : expr := ESym 0%nat.
Definition y_ : expr := ESym 2%nat.

Definition parsed : Config := mkConfig
  [ raw_sym "n" true TRISTATE []; raw_sym "m" true TRISTATE []; raw_sym "y" true TRISTATE [];
    raw_sym "MODULES" false UNKNOWN [];
    raw_sym "ARCH_X64" false BOOL [2%nat]; raw_sym "ARCH_ARM64" false BOOL [3%nat];
    raw_sym "ARCH_RISCV64" false BOOL [4%nat];
    raw_sym "TOOLCHAIN_PREFIX" false STRING [5%nat]; raw_sym "" true UNKNOWN [];
    raw_sym "RISCV_HAVE_FP_TRAPS" false BOOL [6%nat];
    raw_sym "RISCV_TRAP_BYPASSED_EXCEPTIONS" false BOOL [7%nat];
    raw_sym "RISCV_USE_ESTEP" false BOOL [8%nat];
    raw_sym "TRAP_SHORT_CIRCUITING" false BOOL [9%nat];
    raw_sym "INTERCEPT_MEMORY_FAULTS" false BOOL [10%nat];
    raw_sym "NO_OUTPUT" false BOOL [11%nat]; raw_sym "NO_DEBUG_OUTPUT" false BOOL [12%nat];
    raw_sym "FORCE_DEBUG_OUTPUT" false BOOL [13%nat];
    raw_sym "MAX_CONTEXTS" false INT [15%nat]; raw_sym "1024" false UNKNOWN [];
    raw_sym "TRACE_BUFLEN" false INT [16%nat];
    raw_sym "MAX_US_ON" false INT [17%nat]; raw_sym "10000" false UNKNOWN [];
    raw_sym "MAX_US_OFF" false INT [18%nat]; raw_sym "1000000" false UNKNOWN [] ]
  [ mkChoice None UNKNOWN [1%nat] [] [] n_ false [] ]
  [ raw_node NMenu None (Some 1%nat) None (Some "FPSpy Configuration") y_ 1 [];
    raw_node (NChoice 0%nat) (Some 5%nat) (Some 2%nat) (Some 0%nat) (Some "Target Architecture") y_ 3 [(ESym 4%nat, y_)];
    raw_node (NSym 4%nat) (Some 3%nat) None (Some 1%nat) (Some "x86 (64 bit)") y_ 7 [];
    raw_node (NSym 5%nat) (Some 4%nat) None (Some 1%nat) (Some "ARM (64 bit)") y_ 12 [];
    raw_node (NSym 6%nat) None None (Some 1%nat) (Some "RISC-V (64 bit)") y_ 19 [];
    raw_node (NSym 7%nat) (Some 6%nat) None (Some 0%nat) (Some "Toolchain Prefix") y_ 27 [(ESym 8%nat, y_)];
    raw_node (NSym 9%nat) (Some 7%nat) None (Some 0%nat) (Some "RISC-V Supports Floating Point Traps (RAFT-V)")
      (ESym 6%nat) 36 [(n_, y_)];
    raw_node (NSym 10%nat) (Some 8%nat) None (Some 0%nat) (Some "Do Trap Delivery Via KBEs (RAFT-V)")
      (ESym 9%nat) 44 [(n_, y_)];
    raw_node (NSym 11%nat) (Some 9%nat) None (Some 0%nat) (Some "Do Breakpoint Delivery vie KBEs (RAFT-V)")
      (ESym 9%nat) 54 [(n_, y_)];
    raw_node (NSym 12%nat) (Some 10%nat) None (Some 0%nat) (Some "Trap Short Circuiting") (ESym 4%nat) 64 [(n_, y_)];
    raw_node (NSym 13%nat) (Some 11%nat) None (Some 0%nat) (Some "Intercept Memory Faults") y_ 74 [(y_, y_)];
    raw_node (NSym 14%nat) (Some 12%nat) None (Some 0%nat) (Some "Disable Output") y_ 80 [(n_, y_)];
    raw_node (NSym 15%nat) (Some 13%nat) None (Some 0%nat) (Some "Disable Debug Output") (ENot (ESym 14%nat)) 86 [(n_, y_)];
    raw_node (NSym 16%nat) (Some 14%nat) None (Some 0%nat) (Some "Force Debug Output")
      (EAnd (ENot (ESym 15%nat)) (ENot (ESym 14%nat))) 93 [(n_, y_)];
    raw_node NMenu None (Some 15%nat) (Some 0%nat) (Some "Parameters") y_ 101 [];
    raw_node (NSym 17%nat) (Some 16%nat) None (Some 14%nat) (Some "Maximum Simultaneous Contexts") y_ 102 [(ESym 18%nat, y_)];
    raw_node (NSym 19%nat) (Some 17%nat) None (Some 14%nat) (Some "Trace Buffer Length") y_ 108 [(ESym 18%nat, y_)];
    raw_node (NSym 20%nat) (Some 18%nat) None (Some 14%nat) (Some "Sampler Maximum Time On (us)") y_ 114 [(ESym 21%nat, y_)];
    raw_node (NSym 22%nat) None None (Some 14%nat) (Some "Sampler Maximum Time Off (us)") y_ 119 [(ESym 23%nat, y_)] ]
  0%nat 1%nat 2%nat 3%nat None 0%nat
  [4; 5; 6; 7; 9; 10; 11; 12; 13; 14; 15; 16; 17; 19; 20; 22]%nat [0%nat] [14%nat] []
  (list_to_map [("MODULES", 3%nat); ("ARCH_X64", 4%nat); ("ARCH_ARM64", 5%nat); ("ARCH_RISCV64", 6%nat);
    ("TOOLCHAIN_PREFIX", 7%nat); ("RISCV_HAVE_FP_TRAPS", 9%nat); ("RISCV_TRAP_BYPASSED_EXCEPTIONS", 10%nat);
    ("RISCV_USE_ESTEP", 11%nat); ("TRAP_SHORT_CIRCUITING", 12%nat); ("INTERCEPT_MEMORY_FAULTS", 13%nat);
    ("NO_OUTPUT", 14%nat); ("NO_DEBUG_OUTPUT", 15%nat); ("FORCE_DEBUG_OUTPUT", 16%nat); ("MAX_CONTEXTS", 17%nat);
    ("1024", 18%nat); ("TRACE_BUFLEN", 19%nat); ("MAX_US_ON", 20%nat); ("10000", 21%nat); ("MAX_US_OFF", 22%nat);
    ("1000000", 23%nat)])
  "CONFIG_" "" "".

(** The finished configuration: loops and recursion stay far below 40 steps *)
Definition fpspy : Config := (finish 40 parsed).2.

(** A ranking of its values: there is no dependency loop *)
Definition fpspy_rank : query -> nat :=
  rank_for fpspy [1; 1; 1; 0; 3; 3; 3; 2; 0; 4; 5; 5; 4; 2; 2; 3; 4; 2; 0; 2; 2; 0; 2; 0]%nat [2]%nat [3]%nat.

(** Enough recursion depth for it *)
Definition fpspy_depth : nat := 60%nat.

Lemma fpspy_finishes : (finish 40 parsed).1 = Ok tt.
Proof. vm_compute. reflexivity. Qed.

Lemma fpspy_ranked : ranked fpspy fpspy_rank.
Proof. apply ranked_check_sound. vm_compute. reflexivity. Qed.

Lemma fpspy_wf : well_formed fpspy.
Proof. apply wf_check_sound. vm_compute. reflexivity. Qed.

Lemma fpspy_deps : deps_ok fpspy.
Proof. apply deps_check_sound. vm_compute. reflexivity. Qed.
