(* ===== verification/DepComplete.v ===== *)
(** * The recorded dependents are complete

    [_build_dep] and [_add_choice_deps] add every symbol and choice to the
    dependents of everything its values read: they establish [deps_ok], on which
    invalidation relies. *)
From S2P Require Import Prelude PyStr Model Eval EvalSpec EvalRefine EvalDet SetValue Finalize Tables Checks Fpspy.

(** ** Configurations that differ in their dependents only *)

Record same_but_deps (cfg cfg' : Config) : Prop := {
  sb_sym : forall s, set_sym_dependents [] (sym cfg' s) = set_sym_dependents [] (sym cfg s);
  sb_choice : forall c, set_ch_dependents [] (chc cfg' c) = set_ch_dependents [] (chc cfg c);
  sb_node : forall n, node cfg' n = node cfg n;
  sb_consts : (c_n cfg', c_m cfg', c_y cfg', c_modules cfg') = (c_n cfg, c_m cfg, c_y cfg, c_modules cfg);
  sb_defined : c_unique_defined_syms cfg' = c_unique_defined_syms cfg;
  sb_choices : c_unique_choices cfg' = c_unique_choices cfg;
  sb_size : length (c_syms cfg') = length (c_syms cfg) /\ length (c_choices cfg') = length (c_choices cfg);
}.

#[export] Instance same_but_deps_preorder : PreOrder same_but_deps.
Proof.
  split; [by split|]. intros x y z [A1 A2 A3 A4 A5 A6 [A7 A8]] [B1 B2 B3 B4 B5 B6 [B7 B8]].
  split; intros; rewrite ?B1, ?B2, ?B3, ?B4, ?B5, ?B6, ?B7, ?B8; auto.
Qed.

(** The item exists *)
Definition in_tables (cfg : Config) (i : item) : Prop :=
  match i with ISym s => (s < length (c_syms cfg))%nat | IChoice c => (c < length (c_choices cfg))%nat end.

Lemma elem_of_set_add x y l : y ∈ set_add x l <-> y = x \/ y ∈ l.
Proof.
  unfold set_add. case_bool_decide as H; [split; [by right|intros [->|?]; done]|]. rewrite elem_of_app, list_elem_of_singleton. tauto.
Qed.

(** One more dependent, of an item that exists *)
Lemma dependents_add sc i cfg j z :
  z ∈ dependents (add_dependent sc i cfg) j <-> z ∈ dependents cfg j \/ (z = sc /\ j = i /\ in_tables cfg i).
Proof.
  destruct i as [s|c], j as [s'|c']; simpl; try (split; [by left|intros [?|(_ & ? & _)]; [done|congruence]]).
  - rewrite sym_upd. destruct (decide _) as [[-> Hl]|Hn].
    + cbn [sym_dependents set_sym_dependents]. rewrite elem_of_set_add. tauto.
    + split; [by left|]. intros [?|(_ & [= ->] & ?)]; [done|]. by destruct Hn.
  - rewrite chc_upd. destruct (decide _) as [[-> Hl]|Hn].
    + cbn [ch_dependents set_ch_dependents]. rewrite elem_of_set_add. tauto.
    + split; [by left|]. intros [?|(_ & [= ->] & ?)]; [done|]. by destruct Hn.
Qed.

Lemma same_add sc i cfg : same_but_deps cfg (add_dependent sc i cfg).
Proof.
  destruct i as [s|c]; simpl; split; intros; try done; rewrite ?sym_upd, ?chc_upd; try (by case_decide);
    simpl; rewrite ?length_alter; done.
Qed.

(** ** What [_depend_on] records *)

(** Constants have no dependents *)
Definition recorded (cfg : Config) (i : item) : Prop :=
  in_tables cfg i /\ match i with ISym s => sym_is_constant (sym cfg s) = false | IChoice _ => True end.

(** The symbols and choices of an expression *)
Definition expr_deps (e : expr) : list item := map item_of (expr_reads e).

Lemma same_tables cfg cfg' i : same_but_deps cfg cfg' -> in_tables cfg' i <-> in_tables cfg i.
Proof. intros [_ _ _ _ _ _ [H1 H2]]. destruct i; simpl; by rewrite ?H1, ?H2. Qed.
Lemma same_recorded cfg cfg' i : same_but_deps cfg cfg' -> recorded cfg' i <-> recorded cfg i.
Proof.
  intros H. unfold recorded. rewrite (same_tables _ _ _ H). destruct i as [s|c]; [|done].
  change (sym_is_constant (sym cfg' s)) with (sym_is_constant (set_sym_dependents [] (sym cfg' s))).
  by rewrite (sb_sym _ _ H).
Qed.

(** [cfg'] is [cfg] with the dependent [sc] at the items that satisfy [P] *)
Definition adds (cfg cfg' : Config) (P : item -> item -> Prop) : Prop :=
  same_but_deps cfg cfg' /\ forall j z, z ∈ dependents cfg' j <-> z ∈ dependents cfg j \/ P j z.

Lemma adds_none cfg P : (forall j z, ~ P j z) -> adds cfg cfg P.
Proof. intros H. split; [reflexivity|]. intros j z. specialize (H j z). tauto. Qed.
Lemma adds_trans c1 c2 c3 P Q R : adds c1 c2 P -> adds c2 c3 Q -> (forall j z, R j z <-> P j z \/ Q j z) -> adds c1 c3 R.
Proof.
  intros [S1 H1] [S2 H2] HR. split; [by transitivity c2|]. intros j z. rewrite H2, H1, HR. tauto.
Qed.

Lemma adds_item sc i cfg : adds cfg (depend_on_item sc i cfg) (fun j z => z = sc /\ j = i /\ recorded cfg i).
Proof.
  assert (Hadd : adds cfg (add_dependent sc i cfg) (fun j z => z = sc /\ j = i /\ in_tables cfg i))
    by (split; [apply same_add|intros; apply dependents_add]).
  unfold depend_on_item, recorded. destruct i as [s|c].
  - destruct (sym_is_constant _) eqn:Hc.
    + apply adds_none. by intros j z (_ & _ & _ & [=]).
    + destruct Hadd as [S H]. split; [done|]. intros j z. rewrite H. tauto.
  - destruct Hadd as [S H]. split; [done|]. intros j z. rewrite H. tauto.
Qed.

Lemma adds_expr sc e : forall cfg,
  adds cfg (depend_on sc e cfg) (fun j z => z = sc /\ In j (expr_deps e) /\ recorded cfg j).
Proof.
  unfold expr_deps.
  induction e as [i|e1 IH1 e2 IH2|e1 IH1 e2 IH2|e IH|r s1 s2]; intros cfg; cbn [depend_on expr_reads].
  - pose proof (adds_item sc i cfg) as [S H]. split; [done|]. intros j z. rewrite H.
    destruct i; simpl; intuition (subst; auto; congruence).
  - eapply adds_trans; [apply IH1|apply IH2|]. intros j z. rewrite map_app, in_app_iff.
    rewrite (same_recorded cfg (depend_on sc e1 cfg)) by apply IH1. tauto.
  - eapply adds_trans; [apply IH1|apply IH2|]. intros j z. rewrite map_app, in_app_iff.
    rewrite (same_recorded cfg (depend_on sc e1 cfg)) by apply IH1. tauto.
  - apply IH.
  - eapply adds_trans; [exact (adds_item sc (ISym s1) cfg)|exact (adds_item sc (ISym s2) _)|]. intros j z.
    cbv beta. rewrite (same_recorded cfg (depend_on_item sc (ISym s1) cfg)) by apply adds_item. simpl.
    intuition (subst; auto).
Qed.

Lemma adds_exprs sc l : forall cfg,
  adds cfg (depend_on_list sc l cfg) (fun j z => z = sc /\ In j (flat_map expr_deps l) /\ recorded cfg j).
Proof.
  induction l as [|e l IH]; intros cfg; [apply adds_none; by intros j z (_ & [] & _)|].
  eapply adds_trans; [apply adds_expr|apply IH|]. intros j z. simpl. rewrite in_app_iff.
  rewrite (same_recorded cfg (depend_on sc e cfg)) by apply adds_expr. tauto.
Qed.

(** A loop over symbols or choices *)
Lemma adds_fold {A} (f : Config -> A -> Config) (P : Config -> A -> item -> item -> Prop) l :
  (forall c a, adds c (f c a) (P c a)) ->
  (forall c c' a j z, same_but_deps c c' -> P c' a j z <-> P c a j z) ->
  forall cfg, adds cfg (foldl f cfg l) (fun j z => exists a, In a l /\ P cfg a j z).
Proof.
  intros Hf HP. induction l as [|a l IH]; intros cfg; [apply adds_none; by intros j z (a & [] & _)|].
  eapply adds_trans; [apply Hf|apply IH|]. intros j z. split.
  - intros (b & [<-|Hb] & H); [by left|]. right. exists b. split; [done|]. by apply (HP cfg (f cfg a)); [apply Hf|].
  - intros [H|(b & Hb & H)]; [exists a; split; [by left|done]|]. exists b. split; [by right|].
    by apply (HP cfg) in H; [|apply Hf].
Qed.

(** ** What values read does not depend on the dependents *)

Section Same.
Context (cfg cfg' : Config) (S : same_but_deps cfg cfg').

Lemma same_sym_field {A} (f : Symbol -> A) s : (forall x, f (set_sym_dependents [] x) = f x) -> f (sym cfg' s) = f (sym cfg s).
Proof. intros Hf. by rewrite <- (Hf (sym cfg' s)), (sb_sym _ _ S), Hf. Qed.
Lemma same_choice_field {A} (f : Choice -> A) c : (forall x, f (set_ch_dependents [] x) = f x) -> f (chc cfg' c) = f (chc cfg c).
Proof. intros Hf. by rewrite <- (Hf (chc cfg' c)), (sb_choice _ _ S), Hf. Qed.

Lemma same_static i : is_static cfg' i = is_static cfg i.
Proof. destruct i; simpl; by rewrite ?(sb_defined _ _ S), ?(sb_choices _ _ S). Qed.
Lemma same_prompt_conds ns : prompt_conds cfg' ns = prompt_conds cfg ns.
Proof. unfold prompt_conds. apply flat_map_ext. intros n. by rewrite (sb_node _ _ S). Qed.
Lemma same_prompt_reads ns : prompt_reads cfg' ns = prompt_reads cfg ns.
Proof. unfold prompt_reads. apply flat_map_ext. intros n. by rewrite (sb_node _ _ S). Qed.
Lemma same_has_prompt s : has_prompt cfg' s = has_prompt cfg s.
Proof.
  unfold has_prompt. rewrite (same_sym_field sym_nodes) by done.
  induction (sym_nodes (sym cfg s)) as [|n l IH]; simpl; [done|]. by rewrite (sb_node _ _ S), IH.
Qed.
Lemma same_tri_const s : is_tri_const cfg' s = is_tri_const cfg s.
Proof. unfold is_tri_const. pose proof (sb_consts _ _ S) as [= -> -> -> _]. done. Qed.
Lemma same_sym_exprs s : sym_dep_exprs cfg' s = sym_dep_exprs cfg s.
Proof.
  unfold sym_dep_exprs. rewrite same_prompt_conds, (same_sym_field sym_nodes), (same_sym_field sym_defaults),
    (same_sym_field sym_rev_dep), (same_sym_field sym_weak_rev_dep), (same_sym_field sym_ranges),
    (same_sym_field sym_direct_dep) by done. done.
Qed.
Lemma same_choice_exprs c : choice_dep_exprs cfg' c = choice_dep_exprs cfg c.
Proof.
  unfold choice_dep_exprs. by rewrite same_prompt_conds, (same_choice_field ch_nodes), (same_choice_field ch_defaults) by done.
Qed.

Lemma same_type_reads s : type_reads cfg' s = type_reads cfg s.
Proof.
  unfold type_reads. pose proof (sb_consts _ _ S) as [= _ _ _ Hm].
  by rewrite Hm, (same_sym_field sym_orig_type), (same_sym_field sym_choice).
Qed.
Lemma same_ctype_reads c : ctype_reads cfg' c = ctype_reads cfg c.
Proof.
  unfold ctype_reads. pose proof (sb_consts _ _ S) as [= _ _ _ Hm]. by rewrite Hm, (same_choice_field ch_orig_type).
Qed.
Lemma same_vreads q : vreads cfg' q = vreads cfg q.
Proof.
  destruct q as [s|s|s|c|c|c]; unfold vreads, fixed, reads; rewrite ?same_tri_const, ?same_has_prompt,
    ?same_type_reads, ?same_ctype_reads, ?same_prompt_reads, ?(same_sym_field sym_orig_type), ?(same_sym_field sym_choice),
    ?(same_sym_field sym_defaults), ?(same_sym_field sym_weak_rev_dep), ?(same_sym_field sym_direct_dep),
    ?(same_sym_field sym_rev_dep), ?(same_sym_field sym_ranges), ?(same_sym_field sym_nodes),
    ?(same_choice_field ch_nodes), ?(same_choice_field ch_syms), ?(same_choice_field ch_defaults) by done; done.
Qed.
Lemma same_item_reads i : item_reads cfg' i = item_reads cfg i.
Proof.
  destruct i as [s|c]; unfold item_reads; rewrite !same_vreads; f_equal.
  - unfold areads. by rewrite same_has_prompt, same_type_reads, (same_sym_field sym_rev_dep), (same_sym_field sym_weak_rev_dep).
  - unfold careads. by rewrite same_ctype_reads.
Qed.
End Same.

(** ** What the menu tree and the parser provide *)

(** The references of a configuration before [_build_dep]; [flat_map expr_deps] of
    the expressions of an object are the objects they mention *)
Record linked (cfg : Config) : Prop := {
  lk_empty : forall i, dependents cfg i = [];
  lk_sym : forall s, s ∈ c_unique_defined_syms cfg -> (s < length (c_syms cfg))%nat;
  lk_choice : forall c, c ∈ c_unique_choices cfg -> (c < length (c_choices cfg))%nat;
  lk_const : forall s, sym_is_constant (sym cfg s) = true \/ is_tri_const cfg s = true -> is_static cfg (ISym s) = true;
  lk_undefined : forall s, is_static cfg (ISym s) = true -> sym_nodes (sym cfg s) = [] /\ sym_choice (sym cfg s) = None
    /\ (sym_orig_type (sym cfg s) = UNKNOWN \/ is_tri_const cfg s = true /\ sym_orig_type (sym cfg s) = TRISTATE);
  lk_no_choice : forall c, is_static cfg (IChoice c) = true -> ch_nodes (chc cfg c) = [] /\ ch_syms (chc cfg c) = []
    /\ ch_defaults (chc cfg c) = [] /\ ch_orig_type (chc cfg c) <> TRISTATE;
  lk_in_choice : forall s c, sym_choice (sym cfg s) = Some c -> In s (ch_syms (chc cfg c))
    /\ is_static cfg (IChoice c) = false /\ In (IChoice c) (flat_map expr_deps (sym_dep_exprs cfg s));
  lk_default : forall c s cond, In (ESym s, cond) (ch_defaults (chc cfg c)) -> In s (ch_syms (chc cfg c));
}.

Section Complete.
Context (cfg : Config) (LK : linked cfg).

(** What a value reads is the object itself, the modules symbol, or mentioned *)
Definition noted (s : symid) (q : query) : Prop :=
  item_of q = ISym s \/ item_of q = ISym (c_modules cfg) \/ In (item_of q) (flat_map expr_deps (sym_dep_exprs cfg s)).

Lemma noted_expr s e q : In e (sym_dep_exprs cfg s) -> In q (expr_reads e) -> noted s q.
Proof. intros He Hq. right; right. apply in_flat_map. exists e. split; [done|]. by apply in_map. Qed.
Lemma noted_item s e q : In e (sym_dep_exprs cfg s) -> (exists q', In q' (expr_reads e) /\ item_of q' = item_of q) -> noted s q.
Proof. intros He (q' & Hq & E). unfold noted. rewrite <- E. by eapply noted_expr. Qed.

Lemma dep_exprs_prompts s q : In q (prompt_reads cfg (sym_nodes (sym cfg s))) -> noted s q.
Proof.
  unfold prompt_reads. rewrite in_flat_map. intros (n & Hn & Hq). destruct (nd_prompt (node cfg n)) as [[p cond]|] eqn:E; [|done].
  apply (noted_expr s cond); [|done]. unfold sym_dep_exprs. apply in_app_iff. left. apply in_flat_map. exists n.
  rewrite E. split; [done|by left].
Qed.
Lemma dep_exprs_defaults s d cond : In (d, cond) (sym_defaults (sym cfg s)) ->
  In d (sym_dep_exprs cfg s) /\ In cond (sym_dep_exprs cfg s).
Proof.
  intros H. unfold sym_dep_exprs. rewrite !in_app_iff, !in_flat_map. split; right; left; exists (d, cond); simpl; auto.
Qed.
Lemma dep_exprs_ranges s low high cond : In (low, high, cond) (sym_ranges (sym cfg s)) ->
  In (ESym low) (sym_dep_exprs cfg s) /\ In (ESym high) (sym_dep_exprs cfg s) /\ In cond (sym_dep_exprs cfg s).
Proof.
  intros H. unfold sym_dep_exprs. rewrite !in_app_iff, !in_flat_map.
  split_and!; right; right; right; left; exists (low, high, cond); simpl; auto.
Qed.
Lemma dep_exprs_deps s : In (sym_rev_dep (sym cfg s)) (sym_dep_exprs cfg s)
  /\ In (sym_weak_rev_dep (sym cfg s)) (sym_dep_exprs cfg s) /\ In (sym_direct_dep (sym cfg s)) (sym_dep_exprs cfg s).
Proof. unfold sym_dep_exprs. rewrite !in_app_iff. simpl. tauto. Qed.

Lemma noted_choice s c : sym_choice (sym cfg s) = Some c -> forall q, item_of q = IChoice c -> noted s q.
Proof. intros Hc q Hq. right; right. rewrite Hq. by apply (lk_in_choice _ LK). Qed.
Lemma noted_type s q : In q (type_reads cfg s) -> noted s q.
Proof.
  unfold type_reads. destruct (type_eqb _ _); [|done]. rewrite in_app_iff. intros [H|[<-|[]]]; [|by right; left].
  destruct (sym_choice _) as [c|] eqn:Hc; [|done]. destruct H as [<-|[]]. by eapply noted_choice.
Qed.

(** Finds the expression of the object that a query comes from *)
Ltac dep_expr := match goal with
  | H : In (_, _) (sym_defaults _) |- _ => first [exact (proj1 (dep_exprs_defaults _ _ _ H)) | exact (proj2 (dep_exprs_defaults _ _ _ H))]
  | H : In (_, _, _) (sym_ranges _) |- _ => exact (proj2 (proj2 (dep_exprs_ranges _ _ _ _ H)))
  | |- In (sym_rev_dep _) _ => apply dep_exprs_deps
  | |- In (sym_weak_rev_dep _) _ => apply dep_exprs_deps
  | |- In (sym_direct_dep _) _ => apply dep_exprs_deps
  end.
Ltac find_noted := match goal with
  | H : In ?q (expr_reads ?e) |- noted _ ?q => solve [apply (noted_expr _ e _); [dep_expr|exact H]]
  | |- _ => solve [by left | by apply noted_type | by apply dep_exprs_prompts | eapply noted_choice; [eassumption|done]]
  end.

Lemma noted_tri s q : In q (vreads cfg (QTri s)) -> noted s q.
Proof.
  unfold vreads. destruct (_ || _); [done|]. intros [<-|H]; [find_noted|].
  destruct (sym_choice (sym cfg s)) as [c|] eqn:Hc; [destruct H as [<-|[]]; find_noted|].
  rewrite !in_app_iff, in_flat_map in H.
  destruct H as [((d & cond) & Hd & [Hq|Hq]%in_app_iff)|[H|[H|[H|H]]]]; find_noted.
Qed.
Lemma noted_str s q : In q (vreads cfg (QStr s)) -> noted s q.
Proof.
  unfold vreads, reads. destruct (is_bool_tristate _); [intros [<-|[]]; find_noted|].
  destruct (type_eqb _ _); [done|]. intros [<-|H]; [find_noted|]. rewrite in_app_iff, !in_flat_map in H.
  destruct H as [(((low & high) & cond) & Hr & H)|((d & cond) & Hd & H)].
  - destruct (dep_exprs_ranges _ _ _ _ Hr) as (Hl & Hh & Hcond).
    destruct H as [<-|[<-|H]]; [| |find_noted].
    + apply (noted_item s _ _ Hl). exists (QTri low). split; [by left|done].
    + apply (noted_item s _ _ Hh). exists (QTri high). split; [by left|done].
  - apply in_app_iff in H as [H|H]; [|find_noted]. apply dep_exprs_defaults in Hd as [Hd _].
    destruct d as [[t|c]| | | |]; try done; destruct H as [<-|[]]; apply (noted_item s _ _ Hd).
    + exists (QTri t). split; [by left|done].
    + exists (QCTri c). split; [by left|done].
Qed.
Lemma noted_vis s q : In q (vreads cfg (QVis s)) -> noted s q.
Proof.
  unfold vreads, reads. destruct (has_prompt cfg s); [|done]. rewrite !in_app_iff. intros [H|[H|H]]; try find_noted.
  destruct (sym_choice (sym cfg s)) as [c|] eqn:Hc; [|done]. destruct H as [<-|[]]. find_noted.
Qed.
Lemma noted_assignable s q : In q (areads cfg s) -> noted s q.
Proof.
  unfold areads. intros [<-|H]; [find_noted|]. destruct (has_prompt cfg s); [|done].
  rewrite !in_app_iff in H. destruct H as [H|[H|H]]; find_noted.
Qed.
Lemma noted_reads s q : In q (item_reads cfg (ISym s)) -> noted s q.
Proof.
  unfold item_reads. rewrite !in_app_iff.
  intros [H|[H|[H|H]]]; [by apply noted_tri|by apply noted_str|by apply noted_vis|by apply noted_assignable].
Qed.

(** What a choice reads is itself, the modules symbol, one of its symbols, or mentioned *)
Definition choice_noted (c : choiceid) (q : query) : Prop :=
  item_of q = IChoice c \/ item_of q = ISym (c_modules cfg) \/ (exists s, item_of q = ISym s /\ In s (ch_syms (chc cfg c)))
  \/ In (item_of q) (flat_map expr_deps (choice_dep_exprs cfg c)).

Lemma choice_noted_expr c e q : In e (choice_dep_exprs cfg c) -> In q (expr_reads e) -> choice_noted c q.
Proof. intros He Hq. do 3 right. apply in_flat_map. exists e. split; [done|]. by apply in_map. Qed.
Lemma choice_noted_type c q : In q (ctype_reads cfg c) -> choice_noted c q.
Proof. unfold ctype_reads. destruct (type_eqb _ _); [|done]. intros [<-|[]]. by right; left. Qed.
Lemma choice_noted_prompts c q : In q (prompt_reads cfg (ch_nodes (chc cfg c))) -> choice_noted c q.
Proof.
  unfold prompt_reads. rewrite in_flat_map. intros (n & Hn & Hq). destruct (nd_prompt (node cfg n)) as [[p cond]|] eqn:E; [|done].
  apply (choice_noted_expr c cond); [|done]. unfold choice_dep_exprs. apply in_app_iff. left. apply in_flat_map. exists n.
  rewrite E. split; [done|by left].
Qed.
Lemma choice_noted_sel c q : In q (vreads cfg (QCSel c)) -> choice_noted c q.
Proof.
  cbn [vreads reads]. intros [<-|H]; [by left|]. rewrite in_app_iff, in_map_iff, in_flat_map in H.
  destruct H as [(s & <- & Hs)|((d & cond) & Hd & H)]; [right; right; left; eauto|].
  apply in_app_iff in H as [H|H].
  - apply (choice_noted_expr c cond); [|done]. apply in_app_iff. right. by apply (in_map snd _ (d, cond)).
  - destruct d as [[s|c']| | | |]; try done. destruct H as [<-|[]]. right; right; left. exists s.
    split; [done|]. by eapply (lk_default _ LK).
Qed.
Lemma choice_noted_reads c q : In q (item_reads cfg (IChoice c)) -> choice_noted c q.
Proof.
  unfold item_reads, careads. cbn [vreads reads]. rewrite !in_app_iff. simpl.
  intros [[<-|H]|[[H|H]|[H|[<-|H]]]]; try (by left); try (by apply choice_noted_type); try (by apply choice_noted_prompts).
  by apply choice_noted_sel.
Qed.
(** Who depends on the object [j] in the end *)
Definition mentions (j z : item) : Prop :=
  match z with
  | ISym s => In s (c_unique_defined_syms cfg) /\ In j (flat_map expr_deps (sym_dep_exprs cfg s))
  | IChoice c => In c (c_unique_choices cfg) /\ In j (flat_map expr_deps (choice_dep_exprs cfg c))
  end.
Definition member_of (j z : item) : Prop :=
  match z, j with
  | IChoice c, ISym s => In c (c_unique_choices cfg) /\ In s (ch_syms (chc cfg c))
  | _, _ => False
  end.

Lemma adds_build_dep : adds cfg (build_dep cfg) (fun j z => recorded cfg j /\ mentions j z).
Proof.
  unfold build_dep. pose proof (adds_fold (fun c s => depend_on_list (ISym s) (sym_dep_exprs c s) c) _
    (c_unique_defined_syms cfg) (fun c s => adds_exprs (ISym s) (sym_dep_exprs c s) c)) as H1.
  pose proof (adds_fold (fun c i => depend_on_list (IChoice i) (choice_dep_exprs c i) c) _
    (c_unique_choices cfg) (fun c i => adds_exprs (IChoice i) (choice_dep_exprs c i) c)) as H2.
  lapply H1; clear H1; [intros H1|by intros c c' s j z S; rewrite (same_sym_exprs _ _ S), (same_recorded _ _ _ S)].
  lapply H2; clear H2; [intros H2|by intros c c' s j z S; rewrite (same_choice_exprs _ _ S), (same_recorded _ _ _ S)].
  eapply adds_trans; [apply H1|apply H2|]. intros j z. cbv beta.
  setoid_rewrite (same_recorded cfg _ _ (proj1 (H1 cfg))). setoid_rewrite (same_choice_exprs cfg _ (proj1 (H1 cfg))).
  unfold mentions. destruct z as [s|c]; split.
  - intros (Hr & Hs & Hj). left. eauto.
  - intros [(s' & Hs & [= ->] & Hj & Hr)|(c & _ & [=] & _)]. done.
  - intros (Hr & Hs & Hj). right. eauto.
  - intros [(s & _ & [=] & _)|(c' & Hs & [= ->] & Hj & Hr)]. done.
Qed.

Lemma adds_dependent c i s : adds c (add_dependent (IChoice i) (ISym s) c) (fun j z => z = IChoice i /\ j = ISym s /\ in_tables c (ISym s)).
Proof. split; [apply same_add|intros; apply dependents_add]. Qed.

Lemma adds_choice_deps c : same_but_deps cfg c -> adds c (add_choice_deps c) (fun j z => in_tables cfg j /\ member_of j z).
Proof.
  intros S. unfold add_choice_deps.
  assert (H2 : forall c i, adds c (foldl (fun c s => add_dependent (IChoice i) (ISym s) c) c (ch_syms (chc c i)))
    (fun j z => exists s, In s (ch_syms (chc c i)) /\ (z = IChoice i /\ j = ISym s /\ in_tables c (ISym s)))).
  { intros c0 i. apply (adds_fold _ _ _ (fun c s => adds_dependent c i s)). intros c1 c2 s j z S'. by rewrite (same_tables _ _ _ S'). }
  pose proof (adds_fold _ _ (c_unique_choices c) H2) as H3. lapply H3; clear H3; [intros H3|].
  - destruct (H3 c) as [S3 H]. split; [done|]. intros j z. rewrite H. clear H. f_equiv. rewrite (sb_choices _ _ S).
    setoid_rewrite (same_choice_field _ _ S ch_syms); [|done]. setoid_rewrite (same_tables _ _ _ S).
    unfold member_of. split.
    + by intros (i & Hi & s & Hs & -> & -> & Ht).
    + destruct z as [?|i], j as [s0|?]; try tauto. intros (Ht & Hi & Hs). exists i. split; [done|]. by exists s0.
  - intros c1 c2 i j z S'. setoid_rewrite (same_choice_field _ _ S' ch_syms); [|done]. by setoid_rewrite (same_tables _ _ _ S').
Qed.

(** The dependents in the end *)
Lemma final_dependents : let cfg' := add_choice_deps (build_dep cfg) in
  same_but_deps cfg cfg'
  /\ forall j z, In z (dependents cfg' j) <-> (recorded cfg j /\ mentions j z) \/ (in_tables cfg j /\ member_of j z).
Proof.
  cbv zeta. destruct adds_build_dep as [S1 H1]. destruct (adds_choice_deps _ S1) as [S2 H2].
  split; [by transitivity (build_dep cfg)|]. intros j z. rewrite <- list_elem_of_In, H2, H1, (lk_empty _ LK).
  rewrite elem_of_nil. tauto.
Qed.

(** What can change is recorded *)
Lemma changing_recorded j : is_static cfg j = false -> recorded cfg j.
Proof.
  destruct j as [s|c]; intros Hj; split; try done.
  - apply (lk_sym _ LK). simpl in Hj. by apply negb_false_iff, bool_decide_eq_true in Hj.
  - apply not_true_is_false. intros Hc. rewrite (lk_const _ LK) in Hj by auto. done.
  - apply (lk_choice _ LK). simpl in Hj. by apply negb_false_iff, bool_decide_eq_true in Hj.
Qed.
Lemma changing_listed z : is_static cfg z = false ->
  match z with ISym s => In s (c_unique_defined_syms cfg) | IChoice c => In c (c_unique_choices cfg) end.
Proof. destruct z; simpl; intros Hz; by apply negb_false_iff, bool_decide_eq_true, list_elem_of_In in Hz. Qed.
Lemma listed_changing z :
  match z with ISym s => In s (c_unique_defined_syms cfg) | IChoice c => In c (c_unique_choices cfg) end -> is_static cfg z = false.
Proof. destruct z; simpl; intros Hz; by apply negb_false_iff, bool_decide_eq_true, list_elem_of_In. Qed.

(** What cannot change reads nothing else *)
Lemma static_reads i q : is_static cfg i = true -> In q (item_reads cfg i) -> item_of q = i.
Proof.
  destruct i as [s|c]; intros Hi.
  - destruct (lk_undefined _ LK s Hi) as (Hn & Hc & Ht). unfold item_reads, vreads, areads, has_prompt, reads.
    rewrite Hn. destruct Ht as [Ht|[Hk Ht]]; rewrite Ht; simpl; rewrite ?orb_true_r, ?Hk; simpl.
    + by intros [<-|[]].
    + by intros [<-|[<-|[]]].
  - destruct (lk_no_choice _ LK c Hi) as (Hn & Hs & Hd & Ht). unfold item_reads, vreads, careads, reads, ctype_reads.
    rewrite Hn, Hs, Hd. destruct (type_eqb _ _) eqn:E; [by apply type_eqb_eq in E|]. simpl.
    by intros [<-|[<-|[<-|[]]]].
Qed.

Lemma nonstatic_covered cfg' i q : 
  is_static cfg i = false -> (is_static cfg (item_of q) = false -> item_of q = i \/ item_of q = ISym (c_modules cfg) \/ In i (dependents cfg' (item_of q))) ->
  same_but_deps cfg cfg' -> covered cfg' i q.
Proof.
  intros Hi H S. unfold covered. rewrite !(same_static _ _ S). pose proof (sb_consts _ _ S) as [= _ _ _ Hm]. rewrite Hm, Hi.
  destruct (is_static cfg (item_of q)); [by right; left|]. destruct H as [H|[H|H]]; auto.
Qed.
End Complete.

(** ** The conditions on a concrete configuration *)

Definition linked_sym (cfg : Config) (s : symid) : bool :=
  let x := sym cfg s in
  bool_decide (sym_dependents x = [])
  && (negb (sym_is_constant x || is_tri_const cfg s) || is_static cfg (ISym s))
  && (negb (is_static cfg (ISym s))
      || bool_decide (sym_nodes x = []) && bool_decide (sym_choice x = None)
         && (type_eqb (sym_orig_type x) UNKNOWN || is_tri_const cfg s && type_eqb (sym_orig_type x) TRISTATE))
  && match sym_choice x with
     | Some c => bool_decide (s ∈ ch_syms (chc cfg c)) && negb (is_static cfg (IChoice c))
                 && bool_decide (IChoice c ∈ flat_map expr_deps (sym_dep_exprs cfg s))
     | None => true
     end.
Definition linked_choice (cfg : Config) (c : choiceid) : bool :=
  let x := chc cfg c in
  bool_decide (ch_dependents x = [])
  && (negb (is_static cfg (IChoice c))
      || bool_decide (ch_nodes x = []) && bool_decide (ch_syms x = []) && bool_decide (ch_defaults x = [])
         && negb (type_eqb (ch_orig_type x) TRISTATE))
  && forallb (fun '(d, _) => match d with EItem (ISym s) => bool_decide (s ∈ ch_syms x) | _ => true end) (ch_defaults x).
Definition linked_check (cfg : Config) : bool :=
  forallb (linked_sym cfg) (seq 0 (length (c_syms cfg)))
  && forallb (linked_choice cfg) (seq 0 (length (c_choices cfg)))
  && forallb (fun s => s <? length (c_syms cfg))%nat (c_unique_defined_syms cfg)
  && forallb (fun c => c <? length (c_choices cfg))%nat (c_unique_choices cfg)
  && forallb (fun s => s <? length (c_syms cfg))%nat [c_n cfg; c_m cfg; c_y cfg].

Lemma linked_check_sound cfg : linked_check cfg = true -> linked cfg.
Proof.
  unfold linked_check. rewrite !andb_true_iff, !forallb_forall. intros ((((Hs & Hc) & Hds) & Hdc) & Hk).
  assert (S : forall s, sym cfg s = no_symbol /\ is_tri_const cfg s = false /\ (s >= length (c_syms cfg))%nat \/ linked_sym cfg s = true).
  { intros s. destruct (decide (s < length (c_syms cfg))%nat) as [Hl|Hl]; [right; apply Hs, in_seq; lia|left].
    split; [apply nth_overflow; lia|]. split; [|lia]. apply not_true_is_false. intros Ht. apply Hl, Nat.ltb_lt, Hk. unfold is_tri_const in Ht.
    rewrite !orb_true_iff, !bool_decide_eq_true in Ht. destruct Ht as [[->| ->]| ->]; simpl; auto. }
  assert (C : forall c, chc cfg c = no_choice \/ linked_choice cfg c = true).
  { intros c. destruct (decide (c < length (c_choices cfg))%nat) as [Hl|Hl]; [right; apply Hc, in_seq; lia|left; apply nth_overflow; lia]. }
  unfold linked_sym, linked_choice in S, C. setoid_rewrite andb_true_iff in S. setoid_rewrite andb_true_iff in S. setoid_rewrite andb_true_iff in S.
  setoid_rewrite andb_true_iff in C. setoid_rewrite andb_true_iff in C.
  split.
  - intros [s|c]; simpl; [destruct (S s) as [(-> & _)|(((H & _) & _) & _)]|destruct (C c) as [->|[[H _] _]]]; try done; by apply bool_decide_eq_true in H.
  - intros s H%list_elem_of_In%Hds. by apply Nat.ltb_lt.
  - intros c H%list_elem_of_In%Hdc. by apply Nat.ltb_lt.
  - intros s Hsc. destruct (S s) as [(_ & _ & H)|(((_ & H) & _) & _)].
    { simpl. apply negb_true_iff, bool_decide_eq_false. intros Hd%list_elem_of_In%Hds%Nat.ltb_lt. lia. }
    destruct Hsc as [E|E]; rewrite E, ?orb_true_r in H; done.
  - intros s Hsc. destruct (S s) as [(-> & _)|((_ & H) & _)]; [by repeat split; left|]. rewrite Hsc in H. simpl in H.
    rewrite !andb_true_iff, orb_true_iff, andb_true_iff, !bool_decide_eq_true, !type_eqb_eq in H. tauto.
  - intros c Hsc. destruct (C c) as [->|((_ & H) & _)]; [done|]. rewrite Hsc in H. simpl in H.
    rewrite !andb_true_iff, !bool_decide_eq_true, negb_true_iff in H. destruct H as (((-> & ->) & ->) & Ht).
    split_and!; [done..|]. intros E. by rewrite E in Ht.
  - intros s c Hsc. destruct (S s) as [(E & _)|(_ & H)]; [by rewrite E in Hsc|]. rewrite Hsc in H.
    rewrite !andb_true_iff, !bool_decide_eq_true, negb_true_iff, !list_elem_of_In in H. tauto.
  - intros c s cond Hin. destruct (C c) as [E|(_ & H)]; [by rewrite E in Hin|]. rewrite forallb_forall in H. specialize (H _ Hin).
    simpl in H. by apply bool_decide_eq_true, list_elem_of_In in H.
Qed.

(** The configuration of this repository before its dependents are recorded *)
Definition fpspy_finalized : Config := (finalize_node 40 40 (c_top_node parsed) (ESym (c_y parsed)) parsed).2.

Lemma fpspy_linked : linked fpspy_finalized.
Proof. apply linked_check_sound. vm_compute. reflexivity. Qed.

(** C18. [_build_dep] and [_add_choice_deps] record every dependency: in the
    configuration they make, every symbol or choice is a dependent of everything
    that any of its values reads, the dependents are defined objects, and a symbol
    of a choice that has a prompt is told when the choice changes. *)
Theorem build_dep_complete (cfg : Config) : linked cfg -> deps_ok (add_choice_deps (build_dep cfg)).
Proof.
  intros LK. destruct (final_dependents cfg LK) as [S D]. set (cfg' := add_choice_deps (build_dep cfg)) in *.
  split.
  - intros i q. rewrite (same_item_reads _ _ S). intros Hq. destruct (is_static cfg i) eqn:Hi; [left; by eapply static_reads|].
    apply (nonstatic_covered cfg cfg'); [done| |done]. intros Hs.
    pose proof (changing_recorded _ LK _ Hs) as Hr. pose proof (changing_listed _ _ Hi) as Hl. rewrite D. destruct i as [s|c].
    + apply noted_reads in Hq as [Hq|[Hq|Hq]]; [by left|by right; left|do 2 right; left; done|done].
    + apply choice_noted_reads in Hq as [Hq|[Hq|[(s & Hq & Hm)|Hq]]]; [by left|by right; left| |do 2 right; left; done|done].
      do 3 right. rewrite Hq in *. split; [by destruct Hr|done].
  - intros i z Hz. rewrite (same_static _ _ S). apply listed_changing. apply D in Hz as [[_ Hz]|[_ Hz]]; destruct z, i; simpl in Hz; tauto.
  - intros i z Hz. apply in_all_items. destruct (sb_size _ _ S) as [-> ->].
    apply D in Hz as [[_ Hz]|[_ Hz]]; destruct z, i; simpl in Hz; try tauto; first [apply (lk_sym _ LK)|apply (lk_choice _ LK)]; apply list_elem_of_In; tauto.
  - intros s. rewrite (same_static _ _ S), (same_has_prompt _ _ S). intros Hs. unfold has_prompt.
    by destruct (lk_undefined _ LK s Hs) as (-> & _).
  - intros s c. rewrite (same_sym_field _ _ S sym_choice), (same_choice_field _ _ S ch_syms), (same_static _ _ S) by done. intros Hc.
    destruct (lk_in_choice _ LK _ _ Hc) as (H1 & H2 & H3). split_and!; [done..|]. intros _. apply D. left.
    split; [by apply changing_recorded|]. split; [|done].
    apply (changing_listed cfg (ISym s)). destruct (is_static cfg (ISym s)) eqn:E; [|done].
    destruct (lk_undefined _ LK s E) as (_ & Hn & _). congruence.
  - intros s. rewrite (same_tri_const _ _ S), (same_static _ _ S). intros Hs. apply (lk_const _ LK). by right.
  - intros c. rewrite (same_static _ _ S), (same_choice_field _ _ S ch_orig_type) by done. intros Hs. by apply (lk_no_choice _ LK).
Qed.

Lemma build_dep_complete_witness :
  linked fpspy_finalized
  /\ deps_ok (add_choice_deps (build_dep fpspy_finalized))
  /\ dependents fpspy_finalized (ISym 4%nat) = []
  /\ length (dependents (add_choice_deps (build_dep fpspy_finalized)) (ISym 4%nat)) = 2%nat.
Proof.
  split; [exact fpspy_linked|]. split; [exact (build_dep_complete fpspy_finalized fpspy_linked)|].
  split; vm_compute; reflexivity.
Defined.
