(* ===== verification/Demo.v ===== *)
(** * A small configuration with the features the repository's own file does not use

    Tristate symbols, [select], [imply] and [range], as parsing would leave them. *)
From S2P Require Import Prelude PyStr Model Eval EvalSpec EvalRefine EvalDet Values SetValue Validity Session Checks Finalize Fpspy.

Definition demo_node (it : node_item) (next children parent : option nodeid) (prompt : option (string * expr))
    (defaults : list (expr * expr)) (selects implies : list (symid * expr))
    (ranges : list (symid * symid * expr)) : MenuNode :=
  mkMenuNode it next children parent prompt y_ y_
    (match it with NMenu | NChoice _ => true | _ => false end) None "Kconfig.demo" 1 [] defaults selects implies ranges.

Definition prompt_ (p : string) : option (string * expr) := Some (p, y_).

(** [m] in a condition stands for [m && MODULES] *)
Definition m_cond : expr := EAnd (ESym 1%nat) (ESym 3%nat).

Definition demo_parsed : Config := mkConfig
  [ raw_sym "n" true TRISTATE []; raw_sym "m" true TRISTATE []; raw_sym "y" true TRISTATE [];
    raw_sym "MODULES" false BOOL [1%nat];
    raw_sym "A" false TRISTATE [2%nat]; raw_sym "B" false TRISTATE [3%nat]; raw_sym "C" false TRISTATE [4%nat];
    raw_sym "R" false INT [5%nat];
    raw_sym "1" false UNKNOWN []; raw_sym "9" false UNKNOWN []; raw_sym "5" false UNKNOWN [];
    raw_sym "E" false TRISTATE [6%nat]; raw_sym "X" false TRISTATE [7%nat]; raw_sym "Y" false TRISTATE [8%nat] ]
  []
  [ demo_node NMenu None (Some 1%nat) None (prompt_ "Demo") [] [] [] [];
    demo_node (NSym 3%nat) (Some 2%nat) None (Some 0%nat) (prompt_ "Modules") [(y_, y_)] [] [] [];
    demo_node (NSym 4%nat) (Some 3%nat) None (Some 0%nat) (prompt_ "A") [] [(5%nat, y_)] [(6%nat, y_)] [];
    demo_node (NSym 5%nat) (Some 4%nat) None (Some 0%nat) (prompt_ "B") [] [] [] [];
    demo_node (NSym 6%nat) (Some 5%nat) None (Some 0%nat) (prompt_ "C") [] [] [] [];
    demo_node (NSym 7%nat) (Some 6%nat) None (Some 0%nat) (prompt_ "R") [(ESym 10%nat, y_)] [] []
      [(8%nat, 9%nat, y_)];
    demo_node (NSym 11%nat) (Some 7%nat) None (Some 0%nat) (Some ("E", m_cond)) [] [] [] [];
    demo_node (NSym 12%nat) (Some 8%nat) None (Some 0%nat) None [(m_cond, y_)] [(11%nat, y_)] [] [];
    demo_node (NSym 13%nat) None None (Some 0%nat) None [(y_, y_)] [] [(11%nat, y_)] [] ]
  0%nat 1%nat 2%nat 3%nat None 0%nat
  [3; 4; 5; 6; 7; 11; 12; 13]%nat [] [] []
  (list_to_map [("MODULES", 3%nat); ("A", 4%nat); ("B", 5%nat); ("C", 6%nat); ("R", 7%nat);
    ("1", 8%nat); ("9", 9%nat); ("5", 10%nat); ("E", 11%nat); ("X", 12%nat); ("Y", 13%nat)])
  "CONFIG_" "" "".

Definition demo : Config := (finish 40 demo_parsed).2.

Definition demo_rank : query -> nat :=
  rank_for demo [2; 2; 2; 1; 3; 4; 5; 3; 0; 0; 0; 5; 4; 4]%nat [] [].

Lemma demo_finishes : (finish 40 demo_parsed).1 = Ok tt.
Proof. vm_compute. reflexivity. Qed.

Lemma rank_for_bound cfg lv clv slv b q :
  forallb (fun n => n <=? b)%nat (lv ++ clv ++ slv) = true -> (rank_for cfg lv clv slv q < 6 * b + 5)%nat.
Proof.
  rewrite !forallb_app, !andb_true_iff, !forallb_forall. intros (H1 & H2 & H3).
  assert (Hn : forall l x, (forall y, In y l -> (y <=? b)%nat = true) -> (nth x l 0 <= b)%nat).
  { intros l x Hl. destruct (decide (x < length l)%nat).
    - apply Nat.leb_le, Hl. by apply nth_In.
    - rewrite nth_overflow by lia. lia. }
  unfold rank_for. destruct (fixed cfg q); [lia|].
  assert (Hq : (rank_of lv clv slv q < 6 * b + 5)%nat); [|destruct q; try done; destruct (is_tri_const _ _); lia].
  destruct q as [s|s|s|c|c|c]; simpl;
    [pose proof (Hn lv s H1)|pose proof (Hn lv s H1)|pose proof (Hn lv s H1)
    |pose proof (Hn clv c H2)|pose proof (Hn clv c H2)|pose proof (Hn slv c H3)]; lia.
Qed.

#[export] Instance fpspy_loaded : Loaded fpspy.
Proof.
  refine {| rank := fpspy_rank; depth := fpspy_depth; loaded_ranked := fpspy_ranked;
            loaded_wf := fpspy_wf; loaded_deps := fpspy_deps |}.
  - intros q. apply (Nat.lt_le_trans _ (6 * 5 + 5)); [by apply rank_for_bound|]. unfold fpspy_depth. lia.
  - apply Nat.ltb_lt. vm_compute. reflexivity.
Defined.

#[export] Instance demo_loaded : Loaded demo.
Proof.
  refine {| rank := demo_rank; depth := 60%nat |}.
  - apply ranked_check_sound. vm_compute. reflexivity.
  - apply wf_check_sound. vm_compute. reflexivity.
  - apply deps_check_sound. vm_compute. reflexivity.
  - intros q. apply (Nat.lt_le_trans _ (6 * 5 + 5)); [by apply rank_for_bound|]. lia.
  - apply Nat.ltb_lt. vm_compute. reflexivity.
Defined.

(** The state right after loading is in use, with no user values *)
Lemma init_in_use cfg : well_formed cfg -> InUse cfg no_user (init_state cfg).
Proof. intros WF. split; [by apply init_valid|apply user_ok_none]. Qed.
