(* ===== verification/DepText.v ===== *)
(** * The loop that is reported

    What [_found_dep_loop] prints, as a text of its own, and the proof that the
    search for dependency loops reports exactly such texts, of loops without
    repetitions through items of which each depends on the next. *)
From Stdlib Require Import Sorted.
From stdpp Require Import sorting.
From S2P Require Import Prelude PyStr Model Eval EvalSpec EvalRefine Printing Values DepLoop.

(** ** The loop that is reported *)

Section Reported.
Context (cfg : Config).

(** [x] depends on [y]: it was recorded by [_build_dep], it is the choice of [y], or a symbol of the choice [y] *)
Inductive depends_on : item -> item -> Prop :=
| on_recorded x s : In x (sym_dependents (sym cfg s)) -> depends_on x (ISym s)
| on_symbol s c : sym_choice (sym cfg s) = Some c -> depends_on (IChoice c) (ISym s)
| on_choice s c : In s (ch_syms (chc cfg c)) -> depends_on (ISym s) (IChoice c).

Lemma calls_depend k k' : In k' (calls cfg k) -> depends_on (call_item k') (call_item k).
Proof.
  destruct k as [s ig|c skip]; simpl.
  - intros [(i & <- & Hi)%in_map_iff|Hk]%in_app_iff; [destruct i; by constructor|].
    destruct (sym_choice (sym cfg s)) as [c|] eqn:E; [|done]. destruct ig; [done|]. destruct Hk as [<-|[]].
    by constructor.
  - intros (s & <- & [Hs _]%List.filter_In)%in_map_iff. by constructor.
Qed.

(** A computation that neither fails nor looks at the state *)
Definition fixed {A} (m : K A) : Prop := exists a, forall st, m st = (Ok a, st).

Lemma fixed_bind {A B} (m : K A) (g : A -> K B) : fixed m -> (forall a, fixed (g a)) -> fixed (m ≫= g).
Proof.
  intros [a Ha] Hg. destruct (Hg a) as [b Hb]. exists b. intros st. cbv [mbind K_bind M_bind]. by rewrite Ha.
Qed.
Lemma fixed_ret {A} (a : A) : fixed (mret a).
Proof. by exists a. Qed.
Lemma fixed_mapM {A B} (f : A -> K B) l : (forall x, In x l -> fixed (f x)) -> fixed (mapM f l).
Proof.
  induction l as [|x l IH]; intros Hf; [by exists []|]. apply fixed_bind; [apply Hf; by left|]. intros b.
  apply fixed_bind; [apply IH; intros y Hy; apply Hf; by right|]. intros bs. apply fixed_ret.
Qed.
Lemma fixed_expr e : fixed (expr_strM (standard_str cfg) e).
Proof. eexists. intros st. unfold standard_str. by rewrite expr_strM_pure. Qed.
Lemma fixed_standard i : fixed (standard_str cfg i).
Proof. apply fixed_ret. Qed.
Lemma fixed_cond s e : fixed (indent_add_cond cfg (standard_str cfg) s e).
Proof.
  unfold indent_add_cond. case_bool_decide; [apply fixed_ret|]. apply fixed_bind; [apply fixed_expr|].
  intros ?; apply fixed_ret.
Qed.
End Reported.

#[export] Hint Resolve fixed_ret fixed_standard fixed_expr fixed_cond : kconf.

Ltac fixed :=
  repeat first
    [ apply fixed_bind; [|intros ?]
    | apply fixed_mapM; intros ? ?
    | progress (eauto with kconf nocore)
    | match goal with |- fixed (match ?x with _ => _ end) => destruct x end ].

Section Message.
Context (cfg : Config).

(** The nodes of an item are nodes of this item *)
Definition own_nodes (i : item) : Prop :=
  forall n, In n (item_nodes cfg i) ->
    nd_item (node cfg n) = match i with ISym s => NSym s | IChoice c => NChoice c end.

Lemma fixed_item i : own_nodes i -> fixed (item_str cfg i).
Proof.
  intros Hi. unfold item_str, item_custom_str. apply fixed_bind; [|intros; apply fixed_ret].
  apply fixed_mapM. intros n Hn. unfold node_custom_str, sym_choice_node_str. rewrite (Hi n Hn).
  unfold type_lines, range_lines, default_lines, select_lines, dep_lines. destruct i; fixed.
Qed.

(** The definition of an item, as printed *)
Definition definition_text (i : item) : string :=
  match (item_str cfg i (init_state cfg)).1 with Ok d => d | Err _ => "" end.

Definition item_paragraph (i : item) : string :=
  let two := String NL (String NL "") in
  name_and_loc cfg i +:+ ", with definition..." +:+ two +:+ definition_text i +:+ two +:+ reverse_deps_str cfg i.

Definition is_choice_symbol (i : item) : bool :=
  match i with ISym s => bool_decide (is_Some (sym_choice (sym cfg s))) | IChoice _ => false end.

Definition later_paragraph (i : item) : string :=
  "...depends on " +:+ (if is_choice_symbol i then "the choice symbol " else "") +:+ item_paragraph i.

(** The message on a loop: its items in order, each introduced as what the one before depends on *)
Definition loop_message (first : item) (rest : list item) : string :=
  String NL ("Dependency loop" +:+ String NL ("===============" +:+ String NL (String NL "")))
  +:+ String.concat "" (item_paragraph first :: map later_paragraph rest)
  +:+ "...depends again on " +:+ name_and_loc cfg first.

Lemma definition_text_eq i : own_nodes i -> forall st, item_str cfg i st = (Ok (definition_text i), st).
Proof. intros Hi st. destruct (fixed_item i Hi) as [d Hd]. unfold definition_text. by rewrite !Hd. Qed.

Lemma mapM_fixed {A B} (f : A -> K B) (g : A -> B) l : (forall x, In x l -> forall st, f x st = (Ok (g x), st)) ->
  forall st, mapM f l st = (Ok (map g l), st).
Proof.
  induction l as [|x l IH]; intros Hf st; [done|]. simpl. cbv [mbind K_bind M_bind].
  by rewrite (Hf x (or_introl eq_refl)), (IH (fun y Hy => Hf y (or_intror Hy))).
Qed.

Lemma loop_item_eq first i st : own_nodes i ->
  loop_item_str cfg first i st = (Ok (if bool_decide (i = first) then item_paragraph i else later_paragraph i), st).
Proof.
  intros Hi. unfold loop_item_str. cbv [mbind K_bind M_bind]. rewrite (definition_text_eq i Hi).
  unfold later_paragraph, is_choice_symbol. case_bool_decide; [done|]. destruct i; by rewrite append_assoc.
Qed.

Lemma loop_closed first rest st : ~ In first rest -> (forall i, In i (first :: rest) -> own_nodes i) ->
  found_dep_loop cfg (first :: rest) first st = (Err (KconfigError (loop_message first rest)), st).
Proof.
  intros Hn Ho. unfold found_dep_loop. rewrite bool_decide_eq_true_2 by done. cbv [mbind K_bind M_bind].
  rewrite (mapM_fixed _ (fun i => if bool_decide (i = first) then item_paragraph i else later_paragraph i))
    by (intros; apply loop_item_eq; auto).
  unfold loop_message. cbn [map]. rewrite bool_decide_eq_true_2 by done.
  rewrite (map_ext_in _ later_paragraph rest); [done|]. intros i Hi. rewrite bool_decide_eq_false_2; [done|]. by intros ->.
Qed.

(** A loop without repetitions, each of whose items depends on the next and the last on the first *)
Definition simple_loop (first : item) (rest : list item) : Prop :=
  NoDup (first :: rest) /\ Sorted (depends_on cfg) (first :: rest ++ [first]).

(** What a call hands to its caller: a part of a loop that ends with the item it
    was called for, through items that were unvisited *)
Record loop_part (st : State) (k : call) (first : item) (rest : list item) : Prop := {
  lp_nodup : NoDup (first :: rest);
  lp_fresh : forall i, i ∈ rest -> visited_at st i = 0;
  lp_chain : Sorted (depends_on cfg) (first :: rest);
  lp_last : last (first :: rest) = Some (call_item k);
}.

Definition search_spec (st : State) (k : call) (all : list item) (r : res (option (list item))) : Prop :=
  match r with
  | Ok None => True
  | Ok (Some l) => exists first rest, l = first :: rest /\ incl l all /\ loop_part st k first rest
  | Err e => e = RecursionError \/ exists first rest, e = KconfigError (loop_message first rest) /\ simple_loop first rest
  end.

(** The call that ends a search through a list of calls starts in a state that
    marks the search path as before *)
Lemma first_some_call (f : call -> K (option (list item))) l :
  (forall k st st', In k l -> f k st = (Ok None, st') -> kept st st') ->
  forall st r st', first_someM f l st = (r, st') -> r <> Ok None ->
  exists k st1, In k l /\ kept st st1 /\ f k st1 = (r, st').
Proof.
  intros Hf. induction l as [|k l IH]; intros st r st'; simpl; [by intros [= <- <-]|]. cbv [mbind M_bind].
  destruct (f k st) as [[[b|]|e] st1] eqn:E; [| |].
  - intros [= <- <-] _. exists k, st. split; [by left|]. by split.
  - intros H Hr. destruct (IH (fun k' st st' Hk => Hf k' st st' (or_intror Hk)) st1 r st' H Hr) as (k' & st2 & ? & ? & ?).
    exists k', st2. split; [by right|]. split; [|done]. eapply kept_trans; [|done]. eapply Hf; [by left|exact E].
  - intros [= <- <-] _. exists k, st. split; [by left|]. by split.
Qed.

(** What is unvisited later on was unvisited before, and is not on the path *)
Lemma kept_fresh st st' i : kept st st' -> visited_at st' i = 0 -> visited_at st i = 0.
Proof. intros [G D] H. specialize (G i). specialize (D i). unfold gray in G. lia. Qed.

Lemma chain_snoc k k' first rest : In k' (calls cfg k) -> Sorted (depends_on cfg) (first :: rest) ->
  last (first :: rest) = Some (call_item k') -> Sorted (depends_on cfg) (first :: rest ++ [call_item k]).
Proof.
  intros Hk Hs Hl. change (Sorted (depends_on cfg) ((first :: rest) ++ [call_item k])). apply Sorted_snoc; [done|].
  apply last_Some in Hl as [l' ->]. constructor. by apply calls_depend.
Qed.

Lemma check_reports all depth : closed_items cfg all -> (forall i, In i all -> own_nodes i) ->
  forall k st r st', In (call_item k) all -> check_dep_loop cfg depth k st = (r, st') -> search_spec st k all r.
Proof.
  intros Hcl Ho. induction depth as [|depth IH]; intros k st r st' Hk; [intros [= <- <-]; by left|].
  rewrite check_eq. destruct (Z.eqb_spec (visited_at st (call_item k)) 0) as [H0|H0].
  2: { destruct (_ =? 2); intros [= <- <-]; [done|]. exists (call_item k), []. split; [done|].
       split; [by intros i [<-|[]]|]. split; [apply NoDup_singleton|by intros i Hi%not_elem_of_nil|by repeat constructor|done]. }
  destruct (first_someM _ _ _) as [r1 st1] eqn:E.
  destruct r1 as [[l|]|e]; [|by intros [= <- <-]|].
  2: { apply first_some_call in E as (k1 & st2 & Hk1 & _ & E); [|intros; by eapply check_post|done].
       intros [= <- <-]. exact (IH k1 st2 (Err e) st1 (Hcl _ _ Hk Hk1) E). }
  apply first_some_call in E as (k1 & st2 & Hk1 & Hkept & E); [|intros; by eapply check_post|done].
  destruct (IH k1 st2 _ st1 (Hcl _ _ Hk Hk1) E) as (first & rest & -> & Hincl & [Hnd Hfr Hch Hla]).
  pose proof (chain_snoc k k1 first rest Hk1 Hch Hla) as Hsnoc.
  assert (Hcur : visited_at st2 (call_item k) <> 0).
  { assert (Hg : gray st2 (call_item k)); [|by destruct Hg]. apply (kp_gray _ _ Hkept). unfold gray.
    rewrite visited_mark. by rewrite decide_True. }
  destruct (decide (call_item k = first)) as [Hc|Hc].
  - rewrite Hc, loop_closed; [|by apply NoDup_cons in Hnd as [? _]; rewrite <- list_elem_of_In|auto].
    intros [= <- <-]. right. exists first, rest. split; [done|]. split; [done|]. by rewrite <- Hc at 2.
  - unfold found_dep_loop. rewrite bool_decide_eq_false_2 by done. intros [= <- <-].
    exists first, (rest ++ [call_item k]). split; [done|]. split; [|split].
    + rewrite app_comm_cons. intros i [Hi|[<-|[]]]%in_app_iff; [by apply Hincl|done].
    + change (NoDup ((first :: rest) ++ [call_item k])). apply NoDup_app. split; [done|]. split; [|apply NoDup_singleton].
      intros i [->|Hi]%elem_of_cons ->%list_elem_of_singleton; [done|]. by specialize (Hfr _ Hi).
    + intros i [Hi| ->%list_elem_of_singleton]%elem_of_app; [|done]. specialize (Hfr _ Hi).
      apply (kept_fresh _ _ _ Hkept) in Hfr. rewrite visited_mark in Hfr. by case_decide.
    + done.
    + by rewrite app_comm_cons, last_snoc.
Qed.
End Message.
