(* ===== verification/DepProps.v ===== *)
(** * What the search for dependency loops guarantees

    Reported loops are loops; without choices every loop is reported; with
    choices a loop can be missed, and reading a value of such a configuration
    never ends. *)
From Stdlib Require Import Sorted.
From S2P Require Import Prelude PyStr Model Eval EvalSpec EvalRefine EvalDet Values Finalize Fpspy Demo Printing DepLoop DepText.

(** The configuration before [_add_choice_deps], which is what is searched *)
Definition searched (fuel : nat) (parsed : Config) : Config :=
  build_dep (finalize_node fuel fuel (c_top_node parsed) (e_y parsed) parsed).2.

Definition reaches_depends (cfg : Config) (all : list item) : Prop :=
  forall s, In s (c_unique_defined_syms cfg) -> In (ISym s) all.

(** C16. The search for dependency loops always comes to an end, and what it
    reports are loops: if the symbols and choices it can meet are those of [all],
    a recursion depth of one more than their number is enough for it to finish,
    and if it does not succeed it raises a [KconfigError] whose message lists, in
    this order and with their definitions, the items of a loop: no item occurs
    twice, each depends on the one listed after it, and the last on the first. *)
Theorem dep_loop_search_sound (cfg : Config) (all : list item) (depth : nat) (st : State) :
  closed_items cfg all -> reaches_depends cfg all -> (forall i, In i all -> own_nodes cfg i) -> (length all < depth)%nat ->
  (exists st', check_dep_loops cfg depth st = (Ok tt, st'))
  \/ (exists first rest st', check_dep_loops cfg depth st = (Err (KconfigError (loop_message cfg first rest)), st')
        /\ NoDup (first :: rest) /\ Sorted (depends_on cfg) (first :: rest ++ [first])).
Proof.
  intros Hcl Hin Ho Hd. unfold check_dep_loops, forM_. revert st. unfold reaches_depends in Hin.
  induction (c_unique_defined_syms cfg) as [|s l IH]; intros st; [left; by exists st|].
  assert (Hu : (unvisited all st < depth)%nat).
  { apply Nat.le_lt_trans with (length all); [apply List.filter_length_le|done]. }
  pose proof (Hin s (or_introl eq_refl)) as Hs.
  pose proof (check_depth cfg all depth Hcl (VisitSym s false) st Hs Hu) as Hr.
  cbn [foldM]. cbv [mbind K_bind M_bind mret K_ret M_ret].
  destruct (check_dep_loop cfg depth (VisitSym s false) st) as [[r|e] st1] eqn:E.
  - apply IH. intros x Hx. apply Hin. by right.
  - right. apply (check_reports cfg all) in E as [->|(first & rest & -> & Hl)]; [done| |done..].
    by exists first, rest, st1.
Qed.

(** C17. Without choices the search finds every loop: when it succeeds on a
    configuration without choices, no infinite chain of dependents starts at a
    defined symbol. *)
Theorem dep_loop_search_complete (cfg : Config) (depth : nat) (st st' : State) :
  choice_free cfg -> (forall i, visited_at st i = 0) -> check_dep_loops cfg depth st = (Ok tt, st') ->
  forall s, In s (c_unique_defined_syms cfg) -> Acc (depends cfg) s.
Proof.
  intros Hf H0 E s Hs. eapply (check_all_acc cfg depth (c_unique_defined_syms cfg) Hf st st' E); [..|exact Hs].
  - intros i [Hi _]. by apply Hi.
  - intros x Hx. rewrite H0 in Hx. lia.
Qed.

(** ** A loop through two symbols of a choice

    [Z] depends on [X], and [X] depends on [W], where [Z] and [W] are in the same
    choice with [Z] as its default.  The search enters the choice through its
    first symbol [V] and is done with [Z] before it comes back to it from [W]. *)

Definition loop_node (it : node_item) (next children parent : option nodeid) (prompt : string) (dep : expr)
    (defaults : list (expr * expr)) : MenuNode :=
  mkMenuNode it next children parent (Some (prompt, y_)) dep y_
    (match it with NMenu | NChoice _ => true | _ => false end) None "Kconfig.loop" 1 [] defaults [] [] [].

Definition loop_parsed : Config := mkConfig
  [ raw_sym "n" true TRISTATE []; raw_sym "m" true TRISTATE []; raw_sym "y" true TRISTATE [];
    raw_sym "MODULES" false UNKNOWN [];
    raw_sym "Z" false BOOL [3%nat]; raw_sym "V" false BOOL [2%nat]; raw_sym "X" false BOOL [5%nat];
    raw_sym "W" false BOOL [4%nat] ]
  [ mkChoice None UNKNOWN [1%nat] [] [] n_ false [] ]
  [ loop_node NMenu None (Some 1%nat) None "Loop" y_ [];
    loop_node (NChoice 0%nat) (Some 5%nat) (Some 2%nat) (Some 0%nat) "Choice" y_ [(ESym 4%nat, y_)];
    loop_node (NSym 5%nat) (Some 3%nat) None (Some 1%nat) "V" y_ [];
    loop_node (NSym 4%nat) (Some 4%nat) None (Some 1%nat) "Z" (ESym 6%nat) [];
    loop_node (NSym 7%nat) None None (Some 1%nat) "W" y_ [];
    loop_node (NSym 6%nat) None None (Some 0%nat) "X" (ESym 7%nat) [] ]
  0%nat 1%nat 2%nat 3%nat None 0%nat
  [5; 4; 7; 6]%nat [0%nat] [] []
  (list_to_map [("MODULES", 3%nat); ("Z", 4%nat); ("V", 5%nat); ("X", 6%nat); ("W", 7%nat)])
  "CONFIG_" "" "".

(** The search for dependency loops misses loops through two symbols of one
    choice: it accepts this configuration, and yet the value of [W] depends on
    itself, so that reading it exceeds Python's recursion limit of 1000. *)
Example dep_loop_missed :
  (finish 40 loop_parsed).1 = Ok tt
  /\ (check_dep_loops (searched 40 loop_parsed) 40 (init_state loop_parsed)).1 = Ok tt
  /\ (ev_tri (ev (finish 40 loop_parsed).2 1000) 7%nat (init_state loop_parsed)).1 = Err RecursionError.
Proof. vm_compute. split_and!; reflexivity. Qed.

(** ** Examples *)

Definition closed_check (cfg : Config) (all : list item) : bool :=
  forallb (fun i => forallb (fun k => bool_decide (call_item k ∈ all))
                      (calls cfg (match i with ISym s => VisitSym s false | IChoice c => VisitChoice c None end))) all.

Lemma closed_check_sound cfg all : closed_check cfg all = true -> closed_items cfg all.
Proof.
  unfold closed_check. rewrite forallb_forall. intros H k k' Hk Hk'. specialize (H _ Hk).
  rewrite forallb_forall in H. apply list_elem_of_In, (bool_decide_eq_true (call_item k' ∈ all)).
  destruct k as [s ig|c skip]; cbn [call_item] in H; apply H.
  - simpl in *. apply in_app_iff in Hk'. apply in_app_iff. destruct Hk' as [?|Hk']; [by left|right].
    destruct (sym_choice (sym cfg s)); [|done]. by destruct ig.
  - simpl in *. apply in_map_iff in Hk' as (s & <- & Hs%filter_In). apply in_map_iff. exists s. split; [done|].
    apply List.filter_In. split; [apply Hs|done].
Qed.

(** Two symbols that depend on each other *)
Definition pair_searched : Config := searched 40 (mkConfig
  [ raw_sym "n" true TRISTATE []; raw_sym "m" true TRISTATE []; raw_sym "y" true TRISTATE [];
    raw_sym "MODULES" false UNKNOWN []; raw_sym "A" false BOOL [1%nat]; raw_sym "B" false BOOL [2%nat] ]
  []
  [ loop_node NMenu None (Some 1%nat) None "Pair" y_ [];
    loop_node (NSym 4%nat) (Some 2%nat) None (Some 0%nat) "A" (ESym 5%nat) [];
    loop_node (NSym 5%nat) None None (Some 0%nat) "B" y_ [(ESym 4%nat, y_)] ]
  0%nat 1%nat 2%nat 3%nat None 0%nat
  [4; 5]%nat [] [] []
  (list_to_map [("MODULES", 3%nat); ("A", 4%nat); ("B", 5%nat)])
  "CONFIG_" "" "").

Definition pair_items : list item := map ISym (seq 0 6).

Definition own_check (cfg : Config) (i : item) : bool :=
  forallb (fun n => bool_decide (nd_item (node cfg n) = match i with ISym s => NSym s | IChoice c => NChoice c end))
    (item_nodes cfg i).

Lemma own_check_sound cfg all : forallb (own_check cfg) all = true -> forall i, In i all -> own_nodes cfg i.
Proof.
  rewrite forallb_forall. intros H i Hi n Hn. specialize (H i Hi). unfold own_check in H. rewrite forallb_forall in H.
  by apply (bool_decide_eq_true _), H.
Qed.

Lemma reaches_check cfg all : forallb (fun s => bool_decide (ISym s ∈ all)) (c_unique_defined_syms cfg) = true ->
  reaches_depends cfg all.
Proof.
  rewrite forallb_forall. intros H s Hs. by apply list_elem_of_In, (bool_decide_eq_true (ISym s ∈ all)), H.
Qed.

(** The loop through [A] and [B] is reported *)
Lemma dep_loop_search_sound_witness :
  exists first rest st', check_dep_loops pair_searched 7 (init_state pair_searched)
      = (Err (KconfigError (loop_message pair_searched first rest)), st')
    /\ NoDup (first :: rest) /\ Sorted (depends_on pair_searched) (first :: rest ++ [first]).
Proof.
  destruct (dep_loop_search_sound pair_searched pair_items 7 (init_state pair_searched)) as [[st' E]|H].
  - apply closed_check_sound. vm_compute. reflexivity.
  - apply reaches_check. vm_compute. reflexivity.
  - apply own_check_sound. vm_compute. reflexivity.
  - apply Nat.ltb_lt. vm_compute. reflexivity.
  - exfalso. apply (f_equal fst) in E. vm_compute in E. discriminate E.
  - exact H.
Defined.

(** The message starts at [A], which needs [B], whose default needs [A] again *)
Example pair_message : (check_dep_loops pair_searched 7 (init_state pair_searched)).1
  = Err (KconfigError (loop_message pair_searched (ISym 4%nat) [ISym 5%nat])).
Proof. vm_compute. reflexivity. Qed.

(** The search through the repository's configuration finds nothing *)
Definition fpspy_items : list item := map ISym (seq 0 24) ++ [IChoice 0%nat].

Example fpspy_searched : closed_check (searched 40 parsed) fpspy_items = true
  /\ forallb (own_check (searched 40 parsed)) fpspy_items = true
  /\ (check_dep_loops (searched 40 parsed) 30 (init_state fpspy)).1 = Ok tt.
Proof. vm_compute. split_and!; reflexivity. Qed.

Definition demo_searched : Config := searched 40 demo_parsed.

Definition no_choice_check (cfg : Config) : bool :=
  forallb (fun x => bool_decide (sym_choice x = None)
                    && forallb (fun i => match i with IChoice _ => false | ISym _ => true end) (sym_dependents x)) (c_syms cfg).

Lemma no_choice_check_sound cfg : no_choice_check cfg = true -> choice_free cfg.
Proof.
  unfold no_choice_check. rewrite forallb_forall. intros H.
  assert (HS : forall s, sym_choice (sym cfg s) = None
     /\ forallb (fun i => match i with IChoice _ => false | ISym _ => true end) (sym_dependents (sym cfg s)) = true).
  { intros s. unfold sym. destruct (decide (s < length (c_syms cfg))%nat).
    - specialize (H (nth s (c_syms cfg) no_symbol) ltac:(by apply nth_In)).
      by apply andb_true_iff in H as [?%bool_decide_eq_true ?].
    - by rewrite nth_overflow by lia. }
  split; [apply HS|]. intros s c Hc. destruct (HS s) as [_ Hf]. rewrite forallb_forall in Hf. by specialize (Hf _ Hc).
Qed.

Lemma init_unvisited cfg i : visited_at (init_state cfg) i = 0.
Proof.
  destruct i as [s|c]; unfold visited_at, symst, chst, init_state; simpl; [|by rewrite lookup_total_empty].
  repeat (rewrite lookup_total_alt, lookup_insert; case_decide; [done|]; rewrite <- lookup_total_alt).
  by rewrite lookup_total_empty.
Qed.

(** In the demo configuration [R] (symbol 7) can be reached from [MODULES] only finitely often *)
Lemma dep_loop_search_complete_witness : Acc (depends demo_searched) 3%nat.
Proof.
  refine (dep_loop_search_complete demo_searched 40 (init_state demo_searched)
    (check_dep_loops demo_searched 40 (init_state demo_searched)).2 _ (init_unvisited _) _ 3%nat _).
  - apply no_choice_check_sound. vm_compute. reflexivity.
  - assert (H : (check_dep_loops demo_searched 40 (init_state demo_searched)).1 = Ok tt) by (vm_compute; reflexivity).
    rewrite <- H. by destruct (check_dep_loops _ _ _).
  - vm_compute. by left.
Defined.
