(* ===== verification/ValueProps.v ===== *)
(** * What users of a configuration rely on

    The properties of symbol and choice values, stated of the code as it runs:
    from any state of a loaded configuration in use, the accesses return these
    values. *)
From Stdlib Require Import Sorted.
From S2P Require Import Prelude PyStr Model Eval EvalSpec EvalRefine EvalDet Values SetValue Validity Session Checks.
From S2P Require Import Finalize Fpspy Demo.

(** ** Lemmas *)

Section Assign.
Context (cfg : Config) `{L : Loaded cfg}.

Lemma reads_below q q' : fixed cfg q = false -> In q' (reads cfg q) -> (rank q' < rank q)%nat.
Proof. intros Hf Hq. pose proof (loaded_ranked q Hf) as H. rewrite Forall_forall in H. by apply H, list_elem_of_In. Qed.

(** Setting a symbol outside choices does not change what its value is calculated from *)
Lemma assign_agrees U s z q :
  user_ok cfg U -> sym_choice (sym cfg s) = None -> is_tri_const cfg s = false ->
  is_bool_tristate (sym_orig_type (sym cfg s)) = true -> (rank q < rank (QTri s))%nat ->
  agree (solution cfg U) (solution cfg (after_set_value cfg U s (UTri z))) q.
Proof.
  intros HU Hc Hn Ht Hq.
  eapply (models_agree cfg rank loaded_ranked U (after_set_value cfg U s (UTri z)));
    [by apply solution_model|apply solution_model, user_ok_set_value; [apply loaded_deps|done]
    |by apply user_ok_typed|].
  assert (Hs : (rank (QTri s) < rank (QStr s))%nat).
  { apply reads_below; [done|]. cbn [reads]. rewrite Ht. by left. }
  assert (HU' : forall s', s' <> s -> u_sym (after_set_value cfg U s (UTri z)) s' = u_sym U s').
  { intros s' Hne. unfold after_set_value. rewrite Hc. destruct (accepts _ _ _); [|done].
    simpl. by rewrite decide_False. }
  assert (Hm : forall c, u_mode (after_set_value cfg U s (UTri z)) c = u_mode U c
              /\ u_sel (after_set_value cfg U s (UTri z)) c = u_sel U c).
  { intros c. unfold after_set_value. rewrite Hc. by destruct (accepts _ _ _). }
  intros q' Hle. destruct q' as [s'|s'|s'|c|c|c]; simpl; try done; try (symmetry; apply Hm).
  - symmetry. apply HU'. intros ->. lia.
  - symmetry. apply HU'. intros ->. lia.
Qed.

Lemma assign_expr U s z e :
  user_ok cfg U -> sym_choice (sym cfg s) = None -> is_tri_const cfg s = false ->
  is_bool_tristate (sym_orig_type (sym cfg s)) = true -> incl (expr_reads e) (reads cfg (QTri s)) ->
  d_expr cfg (solution cfg (after_set_value cfg U s (UTri z))) e = d_expr cfg (solution cfg U) e.
Proof.
  intros HU Hc Hn Ht Hi. symmetry. apply d_expr_ext, Forall_forall. intros q Hq%list_elem_of_In%Hi.
  apply assign_agrees; try done. by apply reads_below.
Qed.

Lemma tri_reads_parts s :
  sym_choice (sym cfg s) = None -> is_bool_tristate (sym_orig_type (sym cfg s)) = true ->
  incl (expr_reads (sym_rev_dep (sym cfg s))) (reads cfg (QTri s))
  /\ incl (expr_reads (sym_weak_rev_dep (sym cfg s))) (reads cfg (QTri s))
  /\ incl (type_reads cfg s) (reads cfg (QTri s)) /\ In (QVis s) (reads cfg (QTri s)).
Proof.
  intros Hc Ht. cbn [reads]. rewrite Ht, Hc. cbn [negb].
  split_and!; try (intros q Hq; right; rewrite !in_app_iff; tauto). by left.
Qed.

(** The value after the user has set a visible symbol outside choices to [z] *)
Lemma assign_value U s z :
  user_ok cfg U -> sym_choice (sym cfg s) = None -> is_tri_const cfg s = false ->
  valid_for_type (sym_orig_type (sym cfg s)) (UTri z) = true -> v_vis (solution cfg U) s <> 0 ->
  let rho := solution cfg U in
  v_tri (solution cfg (after_set_value cfg U s (UTri z))) s
  = let rd := d_expr cfg rho (sym_rev_dep (sym cfg s)) in
    let val := if rd =? 0 then Z.min z (v_vis rho s) else Z.max rd (Z.min z (v_vis rho s)) in
    if (val =? 1) && d_promoted cfg rho s then 2 else val.
Proof.
  intros HU Hc Hn Hz Hv rho.
  assert (Ht : is_bool_tristate (sym_orig_type (sym cfg s)) = true) by (by destruct (sym_orig_type _)).
  destruct (tri_reads_parts s Hc Ht) as (Hr & Hw & Hty & Hvis).
  assert (HU' : user_ok cfg (after_set_value cfg U s (UTri z))) by (apply user_ok_set_value; [apply loaded_deps|done]).
  rewrite (not_const_tri _ _ _ (solution_model cfg _ HU') _ Hn Ht), Hc.
  assert (Ev : v_vis (solution cfg (after_set_value cfg U s (UTri z))) s = v_vis rho s).
  { symmetry. apply (assign_agrees U s z (QVis s)); try done. by apply reads_below. }
  assert (Ety : d_type cfg (solution cfg (after_set_value cfg U s (UTri z))) s = d_type cfg rho s).
  { symmetry. apply d_type_ext, Forall_forall. intros q Hq%list_elem_of_In%Hty.
    apply assign_agrees; try done. by apply reads_below. }
  unfold d_tri_free, d_selected, d_unselected, d_user, d_promoted. rewrite Ev, Ety, !assign_expr by done.
  assert (Eu : u_sym (after_set_value cfg U s (UTri z)) s = Some (UTri z)).
  { unfold after_set_value, accepts, typed_value. rewrite Ht. simpl. rewrite Hz, Hc. simpl. by rewrite decide_True. }
  rewrite Eu. apply Z.eqb_neq in Hv. fold rho in Hv. by rewrite Hv.
Qed.

Lemma promoted_bool rho s : d_type cfg rho s = BOOL -> d_promoted cfg rho s = true.
Proof. unfold d_promoted. by intros ->. Qed.

Lemma vis1_not_bool U s :
  user_ok cfg U -> v_vis (solution cfg U) s = 1 -> type_eqb (d_type cfg (solution cfg U) s) BOOL = false.
Proof.
  intros HU Hv. rewrite (model_vis _ _ _ (solution_model cfg U HU)) in Hv. unfold d_vis in Hv.
  destruct (d_hidden _ _ _ _); [done|]. destruct (Z.eqb_spec (d_prompts cfg (solution cfg U) (sym_nodes (sym cfg s))) 1); simpl in Hv; [|congruence].
  by destruct (d_type cfg (solution cfg U) s).
Qed.
End Assign.

(** The two tables of [Symbol._assignable], against the calculation of the value *)
Ltac cases_tri H := match type of H with 0 <= ?x <= 2 =>
  let E := fresh in assert (E : x = 0 \/ x = 1 \/ x = 2) by lia; destruct E as [->|[->| ->]] end.

Lemma assignable_table_y rd (p : bool) z : 0 <= rd <= 2 -> 0 <= z <= 2 ->
  In z (if rd =? 0 then (if p then [0; 2] else [0; 1; 2]) else if rd =? 2 then [2] else if p then [2] else [1; 2])
  <-> (let val := if rd =? 0 then Z.min z 2 else Z.max rd (Z.min z 2) in if (val =? 1) && p then 2 else val) = z.
Proof. intros Hr Hz. cases_tri Hr; cases_tri Hz; destruct p; simpl; intuition lia. Qed.

Lemma assignable_table_m rd w z : 0 <= rd <= 2 -> 0 <= z <= 2 -> ~ (rd = 1 /\ w = 2) ->
  In z (if rd =? 0 then (if negb (w =? 2) then [0; 1] else [0; 2]) else if rd =? 2 then [2] else [1])
  <-> (let val := if rd =? 0 then Z.min z 1 else Z.max rd (Z.min z 1) in if (val =? 1) && (w =? 2) then 2 else val) = z.
Proof.
  intros Hr Hz Hn. destruct (Z.eqb_spec w 2); cases_tri Hr; cases_tri Hz; simpl; intuition lia.
Qed.

(** ** Properties *)

(** C1. Whatever sequence of changes and readings follows the loading of a
    configuration, every operation returns, and every reading returns what the
    equations give for the user values then in force: the caches, their partial
    invalidation and the order of readings cannot be observed. *)
Theorem session_answers (cfg : Config) (L : Loaded cfg) (ops : list op) :
  forallb (op_ok cfg) ops = true ->
  exists st', mapM (run_op cfg depth) ops (init_state cfg) = (Ok (spec_answers cfg rank no_user ops), st').
Proof.
  intros Hops. apply run_ops_ok; try apply L; [|apply user_ok_none|done]. apply init_valid, loaded_wf.
Qed.

Definition session_ops : list op :=
  [OTri 4%nat; OVisibility 9%nat; OSet 6%nat (UStr "y"); OTri 4%nat; OTri 6%nat; OSet 9%nat (UTri 2);
   OConfigString 9%nat; OChoiceSelection 0%nat; OSet 17%nat (UStr "0x10"); OSet 17%nat (UStr "12"); OStr 17%nat;
   OChoiceUnset 0%nat; OConfigString 9%nat].

Lemma session_answers_witness :
  forallb (op_ok fpspy) session_ops = true
  /\ exists st', mapM (run_op fpspy fpspy_depth) session_ops (init_state fpspy)
     = (Ok [ATri 2; ATri 0; ABool true; ATri 0; ATri 2; ABool true;
            AStr ("CONFIG_RISCV_HAVE_FP_TRAPS=y" +:+ String NL ""); ASym (Some 6%nat);
            ABool false; ABool true; AStr "12"; ANone; AStr ""], st').
Proof.
  assert (H : forallb (op_ok fpspy) session_ops = true) by (vm_compute; reflexivity).
  split; [exact H|]. pose proof (session_answers fpspy fpspy_loaded session_ops H) as [st' E].
  exists st'. vm_compute in E. vm_compute. exact E.
Defined.

(** What [set_value] stores for a value that is given to it: numbers or names for
    bool and tristate symbols, other values as they are *)
Inductive fits : stype -> uval -> uval -> Prop :=
| fits_bool_n v : v = UTri 0 \/ v = UStr "n" -> fits BOOL v (UTri 0)
| fits_bool_y v : v = UTri 2 \/ v = UStr "y" -> fits BOOL v (UTri 2)
| fits_tristate_n v : v = UTri 0 \/ v = UStr "n" -> fits TRISTATE v (UTri 0)
| fits_tristate_m v : v = UTri 1 \/ v = UStr "m" -> fits TRISTATE v (UTri 1)
| fits_tristate_y v : v = UTri 2 \/ v = UStr "y" -> fits TRISTATE v (UTri 2)
| fits_string x : fits STRING (UStr x) (UStr x)
| fits_int x n : py_int x 10 = Some n -> fits INT (UStr x) (UStr x)
| fits_hex x n : py_int x 16 = Some n -> 0 <= n -> fits HEX (UStr x) (UStr x).

(** The user values after [w] is stored for [s] *)
Record stores (cfg : Config) (s : symid) (w : uval) (U U' : uvals) : Prop := {
  st_sym : u_sym U' s = Some w;
  st_others : forall s', s' <> s -> u_sym U' s' = u_sym U s';
  st_mode : forall c, u_mode U' c = u_mode U c;
  st_sel : forall c, u_sel U' c = if decide (sym_choice (sym cfg s) = Some c /\ w = UTri 2) then Some s else u_sel U c;
}.

Lemma fits_valid t v w : fits t v w <-> valid_for_type t w = true /\ w = (if is_bool_tristate t then tri_of_str v else v).
Proof.
  split.
  - intros H. unfold valid_for_type, is_base_n. destruct H as [v [->| ->]|v [->| ->]|v [->| ->]|v [->| ->]|v [->| ->]|x|x n E|x n E Hn];
      rewrite ?E; try done. split; [|done]. simpl. by apply Z.leb_le.
  - intros [Hv ->]. destruct t; simpl in *; try done.
    + destruct v as [z|x]; simpl in *.
      * apply orb_true_iff in Hv as [->%Z.eqb_eq| ->%Z.eqb_eq]; constructor; by left.
      * unfold STR_TO_TRI in *. destruct (String.eqb_spec x "n") as [E|_]; [subst x; constructor; by right|].
        destruct (String.eqb_spec x "m") as [_|_]; [done|].
        destruct (String.eqb_spec x "y") as [E|_]; [subst x; constructor; by right|done].
    + destruct v as [z|x]; simpl in *.
      * assert (E : z = 0 \/ z = 1 \/ z = 2) by (apply (valid_for_type_range TRISTATE) in Hv; lia).
        destruct E as [->|[->| ->]]; constructor; by left.
      * unfold STR_TO_TRI in *. destruct (String.eqb_spec x "n") as [E|_]; [subst x; constructor; by right|].
        destruct (String.eqb_spec x "m") as [E|_]; [subst x; constructor; by right|].
        destruct (String.eqb_spec x "y") as [E|_]; [subst x; constructor; by right|done].
    + destruct v as [z|x]; [done|constructor].
    + destruct v as [z|x]; [done|]. apply is_base_n_py_int in Hv as [n E]. by econstructor.
    + destruct v as [z|x]; [done|]. apply andb_true_iff in Hv as [[n E]%is_base_n_py_int Hn]. rewrite E in Hn.
      econstructor; [done|]. by apply Z.leb_le in Hn.
Qed.

Lemma stores_after cfg U s v : accepts cfg s v = true -> stores cfg s (typed_value cfg s v) U (after_set_value cfg U s v).
Proof.
  intros Ha. unfold after_set_value. rewrite Ha. generalize (typed_value cfg s v). intros w.
  set (U1 := set_user U s (Some w)).
  assert (E : match sym_choice (sym cfg s), w with Some c, UTri 2 => set_sel U1 c (Some s) | _, _ => U1 end
    = match sym_choice (sym cfg s) with Some c => if decide (w = UTri 2) then set_sel U1 c (Some s) else U1 | None => U1 end).
  { destruct (sym_choice _); [|done]. case_decide as D; [by subst|].
    by destruct w as [[|[|[]|]|]|]. }
  rewrite E. clear E. subst U1. destruct (sym_choice (sym cfg s)) as [c|] eqn:Ec; [case_decide as D|].
  all: split; simpl; intros; rewrite ?decide_True by done; rewrite ?decide_False by congruence; try done.
  all: repeat case_decide; try done; exfalso;
    match goal with H : ~ (_ /\ _) |- _ => apply H; split; congruence | H : _ /\ _ |- _ => destruct H; congruence end.
Qed.

(** C2. [Symbol.set_value] never raises.  If the value fits the type of the symbol
    it returns [True] and stores the value it stands for, and [y] for the symbol
    of a choice makes it the user's selection; otherwise it returns [False] and
    changes no user value.  Every later reading agrees with the new user values. *)
Theorem set_value_correct (cfg : Config) (L : Loaded cfg) (U : uvals) (st : State) (s : symid) (v : uval) :
  InUse cfg U st ->
  exists b st' U', set_value cfg depth s v st = (Ok b, st') /\ InUse cfg U' st'
    /\ ((exists w, fits (sym_orig_type (sym cfg s)) v w /\ b = true /\ stores cfg s w U U')
        \/ ((forall w, ~ fits (sym_orig_type (sym cfg s)) v w) /\ b = false /\ U' = U)).
Proof.
  intros H. destruct (change_sym cfg U st s v H) as (st' & E & H').
  exists (accepts cfg s v), st', (after_set_value cfg U s v). split; [done|]. split; [done|].
  destruct (accepts cfg s v) eqn:Ha; [left|right].
  - exists (typed_value cfg s v). split; [by apply fits_valid|]. split; [done|]. by apply stores_after.
  - split; [|split; [done|]]; [|unfold after_set_value; by rewrite Ha].
    intros w [Hw ->]%fits_valid. unfold accepts, typed_value in Ha. by rewrite Hw in Ha.
Qed.

(** Symbol 6 of the repository's configuration is a bool: y is stored, m is not *)
Lemma fpspy_bool : sym_orig_type (sym fpspy 6%nat) = BOOL.
Proof. vm_compute. reflexivity. Qed.
Lemma fits_y_inv w : fits BOOL (UStr "y") w -> w = UTri 2.
Proof. by intros [_ ->]%fits_valid. Qed.
Lemma fits_m_inv w : ~ fits BOOL (UTri 1) w.
Proof. by intros [Hv ->]%fits_valid. Qed.

Lemma set_value_correct_witness :
  (exists st' U', set_value fpspy (@depth fpspy fpspy_loaded) 6%nat (UStr "y") (init_state fpspy) = (Ok true, st') /\ InUse fpspy U' st'
     /\ stores fpspy 6%nat (UTri 2) no_user U')
  /\ (exists st', set_value fpspy (@depth fpspy fpspy_loaded) 6%nat (UTri 1) (init_state fpspy) = (Ok false, st') /\ InUse fpspy no_user st').
Proof.
  pose proof (set_value_correct fpspy fpspy_loaded _ _ 6%nat (UStr "y") (init_in_use _ fpspy_wf)) as (b & st' & U' & E & H & C).
  pose proof (set_value_correct fpspy fpspy_loaded _ _ 6%nat (UTri 1) (init_in_use _ fpspy_wf)) as (b1 & st1 & U1 & E1 & H1 & C1).
  rewrite fpspy_bool in C, C1. split.
  - destruct C as [(w & Hf & -> & S)|(Hn & _)]; [|destruct (Hn (UTri 2)); constructor; by right].
    apply fits_y_inv in Hf as ->. exact (ex_intro _ st' (ex_intro _ U' (conj E (conj H S)))).
  - destruct C1 as [(w & Hf & _)|(_ & -> & ->)]; [destruct (fits_m_inv w Hf)|]. exact (ex_intro _ st1 (conj E1 H1)).
Defined.

(** ** [assignable] *)

Section Assignable.
Context (cfg : Config) `{L : Loaded cfg}.

(** [assignable] is read, a value is set, and the value of the symbol is read *)
Definition assigned (st : State) (s : symid) (z : Z) (l : list Z) (v : Z) : Prop :=
  exists st1 st2 st3,
    sym_assignable cfg (ev cfg depth) s st = (Ok l, st1)
    /\ set_value cfg depth s (UTri z) st1 = (Ok true, st2)
    /\ ev_tri (ev cfg depth) s st2 = (Ok v, st3).

Lemma assigned_ok U st s z : InUse cfg U st -> valid_for_type (sym_orig_type (sym cfg s)) (UTri z) = true ->
  assigned st s z (d_assignable cfg (solution cfg U) s) (v_tri (solution cfg (after_set_value cfg U s (UTri z))) s).
Proof.
  intros H Hz. assert (Ht : is_bool_tristate (sym_orig_type (sym cfg s)) = true) by (by destruct (sym_orig_type _)).
  destruct (read_assignable cfg U st s H) as (st1 & E1 & H1).
  destruct (change_sym cfg U st1 s (UTri z) H1) as (st2 & E2 & H2).
  destruct (read_tri cfg _ st2 s H2) as (st3 & E3 & _).
  assert (Ha : accepts cfg s (UTri z) = true) by (unfold accepts, typed_value; rewrite Ht; done).
  rewrite Ha in E2. by exists st1, st2, st3.
Qed.

Lemma promoted_visible_m U s : user_ok cfg U -> v_vis (solution cfg U) s = 1 ->
  d_promoted cfg (solution cfg U) s = (d_expr cfg (solution cfg U) (sym_weak_rev_dep (sym cfg s)) =? 2).
Proof. intros HU Hv. unfold d_promoted. by rewrite (vis1_not_bool cfg U s HU Hv). Qed.

Lemma assignable_bool U s : user_ok cfg U -> sym_orig_type (sym cfg s) = BOOL -> ~ In 1 (d_assignable cfg (solution cfg U) s).
Proof.
  intros HU Hb. assert (Hty : d_type cfg (solution cfg U) s = BOOL) by (unfold d_type; by rewrite Hb).
  pose proof (promoted_bool cfg (solution cfg U) s Hty) as Hp.
  assert (Hv : v_vis (solution cfg U) s <> 1) by (intros Hv%(vis1_not_bool cfg U s HU); by rewrite Hty in Hv).
  unfold d_assignable. rewrite Hb, Hp. cbn [is_bool_tristate negb].
  pose proof (vis_bounds _ _ _ _ (solution_model cfg U HU) loaded_ranked (user_ok_typed _ _ HU) s) as Bv.
  assert (E : v_vis (solution cfg U) s = 0 \/ v_vis (solution cfg U) s = 2) by lia.
  destruct E as [E|E]; rewrite E; cbn [Z.eqb Pos.eqb]; repeat case_match; simpl; intuition lia.
Qed.

Lemma assignable_sorted rho s : Sorted Z.lt (d_assignable cfg rho s) /\ forall x, In x (d_assignable cfg rho s) -> 0 <= x <= 2.
Proof.
  unfold d_assignable. repeat case_match; (split; [repeat constructor; lia|simpl; intuition lia]).
Qed.
End Assignable.

(** C3. [assignable] of a bool or tristate symbol outside choices.  It is empty when
    the symbol is not visible.  Otherwise it is the increasing list of exactly the
    values that the symbol takes when it is set to them - unless the symbol is
    visible with m, selected with m and implied with y (see [assignable_wrong]). *)
Theorem assignable_exact (cfg : Config) (L : Loaded cfg) (U : uvals) (st : State) (s : symid) (z : Z) :
  InUse cfg U st -> sym_choice (sym cfg s) = None -> is_tri_const cfg s = false ->
  fits (sym_orig_type (sym cfg s)) (UTri z) (UTri z) ->
  ~ (v_vis (solution cfg U) s = 1 /\ d_expr cfg (solution cfg U) (sym_rev_dep (sym cfg s)) = 1
     /\ d_expr cfg (solution cfg U) (sym_weak_rev_dep (sym cfg s)) = 2) ->
  exists l v, assigned cfg st s z l v
    /\ (v_vis (solution cfg U) s = 0 -> l = [])
    /\ (v_vis (solution cfg U) s <> 0 -> In z l <-> v = z)
    /\ Sorted Z.lt l /\ (forall x, In x l -> fits (sym_orig_type (sym cfg s)) (UTri x) (UTri x)).
Proof.
  intros H Hc Hn [Hz _]%fits_valid Hcorner. pose proof (use_user _ _ _ H) as HU.
  assert (Ht : is_bool_tristate (sym_orig_type (sym cfg s)) = true) by (by destruct (sym_orig_type _)).
  eexists _, _. split; [by apply (assigned_ok cfg U)|]. set (rho := solution cfg U) in *.
  destruct (assignable_sorted cfg rho s) as [Hsort Hrange].
  split; [intros Hv; unfold d_assignable; by rewrite Ht, Hv|]. split; [|split; [done|]].
  - intros Hv. rewrite (assign_value cfg U s z HU Hc Hn Hz Hv). fold rho. cbv zeta.
    pose proof (vis_bounds _ _ _ _ (in_use_model _ _ _ H) loaded_ranked (in_use_typed _ _ _ H) s) as Bv.
    pose proof (expr_bounds _ _ _ _ (in_use_model _ _ _ H) loaded_ranked (in_use_typed _ _ _ H) (sym_rev_dep (sym cfg s))) as Br.
    fold rho in Bv, Br. pose proof (valid_for_type_range _ _ Hz) as Bz.
    unfold d_assignable. rewrite Ht, Hc. cbn [negb]. apply Z.eqb_neq in Hv as Hv'. rewrite Hv'. cbv zeta.
    destruct (Z.eqb_spec (v_vis rho s) 2) as [E|E].
    + rewrite E. apply (assignable_table_y (d_expr cfg rho (sym_rev_dep (sym cfg s))) (d_promoted cfg rho s) z Br Bz).
    + assert (Hvis : v_vis rho s = 1) by lia. pose proof (promoted_visible_m cfg U s HU Hvis) as Ep. fold rho in Ep. rewrite Ep, Hvis.
      apply (assignable_table_m (d_expr cfg rho (sym_rev_dep (sym cfg s))) (d_expr cfg rho (sym_weak_rev_dep (sym cfg s))) z Br Bz).
      intros [? ?]. by apply Hcorner.
  - intros x Hx. apply fits_valid. rewrite Ht. split; [|done]. pose proof (Hrange x Hx) as Bx.
    destruct (sym_orig_type (sym cfg s)) eqn:Eb; try done.
    + assert (Hx1 : x <> 1) by (intros ->; by apply (assignable_bool cfg U s HU Eb)). cases_tri Bx; done.
    + cases_tri Bx; done.
Qed.

Lemma assignable_exact_witness :
  exists l v, assigned demo (init_state demo) 5%nat 1 l v
    /\ (v_vis (solution demo no_user) 5%nat = 0 -> l = [])
    /\ (v_vis (solution demo no_user) 5%nat <> 0 -> In 1 l <-> v = 1)
    /\ Sorted Z.lt l /\ (forall x, In x l -> fits (sym_orig_type (sym demo 5%nat)) (UTri x) (UTri x)).
Proof.
  apply (assignable_exact demo demo_loaded no_user (init_state demo) 5%nat 1 (init_in_use _ loaded_wf));
    [vm_compute; reflexivity..|vm_compute; constructor; by left|]. vm_compute. intros (H & _). discriminate H.
Defined.

(** C19. [assignable] is wrong for every tristate symbol outside choices that is
    visible with m, selected with m and implied with y: it is [m], but when the
    symbol is set to m its value becomes y. *)
Theorem assignable_wrong (cfg : Config) (L : Loaded cfg) (U : uvals) (st : State) (s : symid) :
  InUse cfg U st -> sym_choice (sym cfg s) = None -> is_tri_const cfg s = false -> sym_orig_type (sym cfg s) = TRISTATE ->
  v_vis (solution cfg U) s = 1 -> d_expr cfg (solution cfg U) (sym_rev_dep (sym cfg s)) = 1 ->
  d_expr cfg (solution cfg U) (sym_weak_rev_dep (sym cfg s)) = 2 ->
  assigned cfg st s 1 [1] 2.
Proof.
  intros H Hc Hn Ht Hv Hr Hw. pose proof (use_user _ _ _ H) as HU.
  assert (Hz : valid_for_type (sym_orig_type (sym cfg s)) (UTri 1) = true) by by rewrite Ht.
  pose proof (assigned_ok cfg U st s 1 H Hz) as A.
  rewrite (assign_value cfg U s 1 HU Hc Hn Hz) in A by by rewrite Hv. cbv zeta in A.
  rewrite (promoted_visible_m cfg U s HU Hv), Hr, Hv, Hw in A. unfold d_assignable in A.
  rewrite Ht, Hv, Hr in A. exact A.
Qed.

(** Symbol [E] of the demo configuration *)
Lemma assignable_wrong_witness : assigned demo (init_state demo) 11%nat 1 [1] 2.
Proof.
  apply (assignable_wrong demo demo_loaded no_user (init_state demo) 11%nat (init_in_use _ loaded_wf)); vm_compute; reflexivity.
Defined.

(** C20. Selects are a lower limit: the value of a bool or tristate symbol outside
    choices is at least the value of its reverse dependencies, whatever the user
    has set and whatever its own dependencies say. *)
Theorem select_is_lower_limit (cfg : Config) (L : Loaded cfg) (U : uvals) (st : State) (s : symid) :
  InUse cfg U st -> sym_choice (sym cfg s) = None -> is_tri_const cfg s = false ->
  is_bool_tristate (sym_orig_type (sym cfg s)) = true ->
  exists v st1 rd st2, ev_tri (ev cfg depth) s st = (Ok v, st1)
    /\ expr_value cfg (ev cfg depth) (sym_rev_dep (sym cfg s)) st1 = (Ok rd, st2)
    /\ rd <= v /\ 0 <= v <= 2.
Proof.
  intros H Hc Hn Ht. destruct (read_tri cfg U st s H) as (st1 & E1 & H1).
  destruct (read_expr cfg U st1 (sym_rev_dep (sym cfg s)) H1) as (st2 & E2 & H2).
  eexists _, st1, _, st2. split_and!; [exact E1|exact E2|..].
  - by eapply select_lower_bound; eauto using in_use_model, in_use_typed, loaded_ranked.
  - by eapply tri_bounds; eauto using in_use_model, in_use_typed, loaded_ranked.
  - by eapply tri_bounds; eauto using in_use_model, in_use_typed, loaded_ranked.
Qed.

Lemma select_is_lower_limit_witness :
  exists st0, set_value demo 60 4%nat (UTri 2) (init_state demo) = (Ok true, st0)
    /\ exists v st1 rd st2, ev_tri (ev demo 60) 5%nat st0 = (Ok v, st1)
       /\ expr_value demo (ev demo 60) (sym_rev_dep (sym demo 5)) st1 = (Ok rd, st2) /\ rd <= v /\ 0 <= v <= 2.
Proof.
  destruct (change_sym demo no_user (init_state demo) 4%nat (UTri 2) (init_in_use _ loaded_wf)) as (st0 & E0 & H0).
  exists st0. split; [exact E0|].
  apply (select_is_lower_limit demo demo_loaded _ st0 5%nat H0); vm_compute; reflexivity.
Defined.

(** C21. Visibility is an upper limit: a value set by the user is never exceeded
    because of the user - the value of a visible symbol outside choices that has a
    user value, is not selected and is not implied with y is at most its
    visibility. *)
Theorem visibility_is_upper_limit (cfg : Config) (L : Loaded cfg) (U : uvals) (st : State) (s : symid) (z : Z) :
  InUse cfg U st -> sym_choice (sym cfg s) = None -> is_tri_const cfg s = false ->
  is_bool_tristate (sym_orig_type (sym cfg s)) = true ->
  u_sym U s = Some (UTri z) -> v_vis (solution cfg U) s <> 0 ->
  d_expr cfg (solution cfg U) (sym_rev_dep (sym cfg s)) = 0 ->
  d_expr cfg (solution cfg U) (sym_weak_rev_dep (sym cfg s)) <> 2 ->
  exists v st1 vis st2, ev_tri (ev cfg depth) s st = (Ok v, st1)
    /\ ev_vis (ev cfg depth) s st1 = (Ok vis, st2) /\ v <= vis.
Proof.
  intros H Hc Hn Ht Hu Hv Hr Hw. destruct (read_tri cfg U st s H) as (st1 & E1 & H1).
  destruct (read_vis cfg U st1 s H1) as (st2 & E2 & H2).
  eexists _, st1, _, st2. split_and!; [exact E1|exact E2|].
  by eapply user_value_upper_bound; eauto using in_use_model, in_use_typed, loaded_ranked.
Qed.

Lemma visibility_is_upper_limit_witness :
  exists st0, set_value fpspy 60 14%nat (UTri 2) (init_state fpspy) = (Ok true, st0)
    /\ exists v st1 vis st2, ev_tri (ev fpspy fpspy_depth) 14%nat st0 = (Ok v, st1)
       /\ ev_vis (ev fpspy fpspy_depth) 14%nat st1 = (Ok vis, st2) /\ v <= vis.
Proof.
  destruct (change_sym fpspy no_user (init_state fpspy) 14%nat (UTri 2) (init_in_use _ loaded_wf)) as (st0 & E0 & H0).
  exists st0. split; [exact E0|].
  apply (visibility_is_upper_limit fpspy fpspy_loaded _ st0 14%nat 2 H0); try (vm_compute; reflexivity);
    vm_compute; intros H; discriminate H.
Defined.

(** C22. Choices are exclusive: in a choice in y mode exactly the selected symbol is
    y and the others are n, and a selected symbol is visible. *)
Theorem choice_exclusive (cfg : Config) (L : Loaded cfg) (U : uvals) (st : State) (c : choiceid) (s : symid) :
  InUse cfg U st -> sym_choice (sym cfg s) = Some c -> is_tri_const cfg s = false ->
  is_bool_tristate (sym_orig_type (sym cfg s)) = true -> v_ctri (solution cfg U) c = 2 ->
  exists sel st1 v st2 vis st3, ev_csel (ev cfg depth) c st = (Ok sel, st1)
    /\ ev_tri (ev cfg depth) s st1 = (Ok v, st2) /\ ev_vis (ev cfg depth) s st2 = (Ok vis, st3)
    /\ v = (if bool_decide (sel = Some s) then 2 else 0) /\ (v = 2 -> vis <> 0).
Proof.
  intros H Hc Hn Ht Hy. destruct (read_csel cfg U st c H) as (st1 & E1 & H1).
  destruct (read_tri cfg U st1 s H1) as (st2 & E2 & H2). destruct (read_vis cfg U st2 s H2) as (st3 & E3 & H3).
  eexists _, st1, _, st2, _, st3. split_and!; [exact E1|exact E2|exact E3|..].
  - by eapply choice_selects; eauto using in_use_model, in_use_typed, loaded_ranked.
  - erewrite choice_selects by eauto using in_use_model, in_use_typed, loaded_ranked.
    case_bool_decide as Hs; [|done]. intros _. by eapply csel_visible; eauto using in_use_model.
Qed.

Lemma choice_exclusive_witness :
  v_ctri (solution fpspy no_user) 0 = 2 /\
  exists sel st1 v st2 vis st3, ev_csel (ev fpspy fpspy_depth) 0%nat (init_state fpspy) = (Ok sel, st1)
    /\ ev_tri (ev fpspy fpspy_depth) 5%nat st1 = (Ok v, st2) /\ ev_vis (ev fpspy fpspy_depth) 5%nat st2 = (Ok vis, st3)
    /\ v = (if bool_decide (sel = Some 5%nat) then 2 else 0) /\ (v = 2 -> vis <> 0).
Proof.
  split; [vm_compute; reflexivity|].
  apply (choice_exclusive fpspy fpspy_loaded no_user (init_state fpspy) 0%nat 5%nat (init_in_use _ loaded_wf));
    vm_compute; reflexivity.
Defined.

(** Setting a symbol of a choice to y changes neither its visibility nor the mode *)
Lemma pick_agrees cfg `{L : Loaded cfg} U s c q :
  user_ok cfg U -> sym_choice (sym cfg s) = Some c -> is_tri_const cfg s = false ->
  valid_for_type (sym_orig_type (sym cfg s)) (UTri 2) = true -> q = QVis s \/ q = QCTri c ->
  agree (solution cfg U) (solution cfg (after_set_value cfg U s (UTri 2))) q.
Proof.
  intros HU Hc Hn Hz Hq. assert (Ht : is_bool_tristate (sym_orig_type (sym cfg s)) = true) by (by destruct (sym_orig_type _)).
  assert (HU' : user_ok cfg (after_set_value cfg U s (UTri 2))) by (apply user_ok_set_value; [apply loaded_deps|done]).
  destruct (dep_choice _ loaded_deps s c Hc) as [Hin _].
  assert (H1 : (rank q < rank (QCSel c))%nat).
  { apply reads_below; [done|]. cbn [reads]. destruct Hq as [->| ->]; [right|by left]. apply in_app_iff. left. by apply in_map. }
  assert (H2 : (rank (QCSel c) < rank (QTri s))%nat).
  { apply reads_below; [done|]. cbn [reads]. rewrite Ht, Hc. right. by left. }
  assert (H3 : (rank (QTri s) < rank (QStr s))%nat) by (apply reads_below; [done|]; cbn [reads]; rewrite Ht; by left).
  apply (models_agree cfg rank loaded_ranked U (after_set_value cfg U s (UTri 2)));
    [by apply solution_model|by apply solution_model|by apply user_ok_typed|].
  assert (Ea : after_set_value cfg U s (UTri 2) = set_sel (set_user U s (Some (UTri 2))) c (Some s)).
  { unfold after_set_value, accepts, typed_value. rewrite Ht. simpl. by rewrite Hz, Hc. }
  rewrite Ea. intros q' Hle. destruct q' as [s'|s'|s'|c'|c'|c']; simpl; try done; rewrite decide_False; try done; intros ->; lia.
Qed.

(** C23. Picking a symbol of a choice: setting a visible symbol of a choice in y mode
    to y is accepted, and from then on it is y and the other symbols of the choice
    are n, whatever was selected before. *)
Theorem choice_pick (cfg : Config) (L : Loaded cfg) (U : uvals) (st : State) (c : choiceid) (s t : symid) :
  InUse cfg U st -> sym_choice (sym cfg s) = Some c -> is_tri_const cfg s = false ->
  is_bool_tristate (sym_orig_type (sym cfg s)) = true ->
  v_ctri (solution cfg U) c = 2 -> v_vis (solution cfg U) s <> 0 ->
  sym_choice (sym cfg t) = Some c -> is_tri_const cfg t = false -> is_bool_tristate (sym_orig_type (sym cfg t)) = true ->
  exists st1 st2 mode st3, set_value cfg depth s (UTri 2) st = (Ok true, st1)
    /\ ev_tri (ev cfg depth) t st1 = (Ok (if decide (t = s) then 2 else 0), st2)
    /\ ev_ctri (ev cfg depth) c st2 = (Ok mode, st3) /\ mode = 2.
Proof.
  intros H Hc Hn Ht Hy Hv Hct Hnt Htt. pose proof (use_user _ _ _ H) as HU.
  assert (Hz : valid_for_type (sym_orig_type (sym cfg s)) (UTri 2) = true) by (by destruct (sym_orig_type _)).
  destruct (change_sym cfg U st s (UTri 2) H) as (st1 & E1 & H1).
  assert (Ha : accepts cfg s (UTri 2) = true) by (unfold accepts, typed_value; by rewrite Ht).
  rewrite Ha in E1. destruct (read_tri cfg _ st1 t H1) as (st2 & E2 & H2). destruct (read_ctri cfg _ st2 c H2) as (st3 & E3 & _).
  pose proof (pick_agrees cfg U s c (QVis s) HU Hc Hn Hz (or_introl eq_refl)) as Av.
  pose proof (pick_agrees cfg U s c (QCTri c) HU Hc Hn Hz (or_intror eq_refl)) as Ac. unfold agree in Av, Ac.
  exists st1, st2, (v_ctri (solution cfg (after_set_value cfg U s (UTri 2))) c), st3.
  split; [done|]. split; [|split; [done|by rewrite <- Ac]]. etransitivity; [exact E2|]. f_equal. f_equal.
  erewrite choice_selects by (eauto using in_use_model, in_use_typed, loaded_ranked; congruence).
  rewrite (model_csel _ _ _ (in_use_model _ _ _ H1)). unfold d_csel. rewrite <- Ac, Hy. cbn [Z.eqb Pos.eqb negb].
  assert (Es : u_sel (after_set_value cfg U s (UTri 2)) c = Some s).
  { unfold after_set_value. rewrite Ha. unfold typed_value. rewrite Ht, Hc. simpl. by rewrite decide_True. }
  rewrite Es. unfold if_visible. rewrite <- Av. apply Z.eqb_neq in Hv as ->.
  destruct (decide (t = s)) as [->|Hne]; [by rewrite bool_decide_eq_true_2|]. rewrite bool_decide_eq_false_2; congruence.
Qed.

(** Picking [ARCH_RISCV64] makes [ARCH_X64], the default, n *)
Lemma choice_pick_witness :
  v_tri (solution fpspy no_user) 4%nat = 2 /\
  exists st1 st2 mode st3, set_value fpspy fpspy_depth 6%nat (UTri 2) (init_state fpspy) = (Ok true, st1)
    /\ ev_tri (ev fpspy fpspy_depth) 4%nat st1 = (Ok 0, st2)
    /\ ev_ctri (ev fpspy fpspy_depth) 0%nat st2 = (Ok mode, st3) /\ mode = 2.
Proof.
  split; [vm_compute; reflexivity|].
  apply (choice_pick fpspy fpspy_loaded no_user (init_state fpspy) 0%nat 6%nat 4%nat (init_in_use _ loaded_wf));
    try (vm_compute; reflexivity). vm_compute. intros E. discriminate E.
Defined.

(** C25. A symbol whose type is (or has become) bool never has the value m. *)
Theorem bool_never_m (cfg : Config) (L : Loaded cfg) (U : uvals) (st : State) (s : symid) :
  InUse cfg U st -> is_tri_const cfg s = false -> d_type cfg (solution cfg U) s = BOOL ->
  exists v st1, ev_tri (ev cfg depth) s st = (Ok v, st1) /\ (v = 0 \/ v = 2).
Proof.
  intros H Hn Ht. destruct (read_tri cfg U st s H) as (st1 & E1 & H1).
  eexists _, st1. split; [exact E1|].
  assert (v_tri (solution cfg U) s <> 1) by (eapply bool_not_m; eauto using in_use_model, in_use_typed, loaded_ranked).
  pose proof (tri_bounds _ _ _ _ (in_use_model _ _ _ H) loaded_ranked (in_use_typed _ _ _ H) s). lia.
Qed.

Lemma bool_never_m_witness :
  exists st0, set_value demo 60 3%nat (UTri 0) (init_state demo) = (Ok true, st0)
    /\ exists v st1, ev_tri (ev demo 60) 4%nat st0 = (Ok v, st1) /\ (v = 0 \/ v = 2).
Proof.
  destruct (change_sym demo no_user (init_state demo) 3%nat (UTri 0) (init_in_use _ loaded_wf)) as (st0 & E0 & H0).
  exists st0. split; [exact E0|].
  apply (bool_never_m demo demo_loaded _ st0 4%nat H0); vm_compute; reflexivity.
Defined.

(** C24. The value of an int or hex symbol lies in its active range, the first whose
    condition is not n, whether it comes from the user or from a default. *)
Theorem value_in_range (cfg : Config) (L : Loaded cfg) (U : uvals) (st : State) (s : symid) (lo hi : Z) :
  InUse cfg U st -> is_int_hex (sym_orig_type (sym cfg s)) = true ->
  d_range cfg (solution cfg U) s = Some (lo, hi) -> lo <= hi ->
  exists v st1, ev_str (ev cfg depth) s st = (Ok v, st1)
    /\ lo <= default 0 (py_int v (TYPE_TO_BASE (sym_orig_type (sym cfg s)))) <= hi.
Proof.
  intros H Ht Hr Hle. destruct (read_str cfg U st s H) as (st1 & E1 & H1).
  eexists _, st1. split; [exact E1|]. by eapply int_hex_in_range; eauto using in_use_model.
Qed.

Lemma value_in_range_witness :
  exists st0, set_value demo 60 7%nat (UStr "12") (init_state demo) = (Ok true, st0)
    /\ exists v st1, ev_str (ev demo 60) 7%nat st0 = (Ok v, st1)
       /\ 1 <= default 0 (py_int v (TYPE_TO_BASE (sym_orig_type (sym demo 7)))) <= 9.
Proof.
  destruct (change_sym demo no_user (init_state demo) 7%nat (UStr "12") (init_in_use _ loaded_wf)) as (st0 & E0 & H0).
  exists st0. split; [exact E0|].
  apply (value_in_range demo demo_loaded _ st0 7%nat 1 9 H0); [vm_compute; reflexivity..|lia].
Defined.

(** C26. Invalidation always returns: recursion one level deeper than the number of
    objects with cached values suffices, dependency loops or not.  It takes away
    only caches, all those of the object it starts from, and where an object
    loses its caches no object that depends on it keeps a cached visibility. *)
Theorem rec_invalidate_terminates (cfg : Config) (n : nat) (i : item) (st : State) :
  deps_ok cfg -> is_static cfg i = false -> (cached_others cfg st i < n)%nat ->
  exists st', rec_invalidate cfg n i st = (Ok tt, st') /\ same_users st st' /\ clear_at st' i
    /\ forall j, same_at st st' j \/ (clear_at st' j /\ forall z, In z (dependents cfg j) -> flagged st' z = false).
Proof.
  intros DO Hs Hn. destruct (rec_invalidate_ok cfg DO n i st Hs Hn) as (st' & E & H & C & _).
  exists st'. split_and!; [done|apply H|done|apply H].
Qed.

Lemma rec_invalidate_terminates_witness :
  exists st0 v, ev_tri (ev fpspy fpspy_depth) 10%nat (init_state fpspy) = (Ok v, st0)
    /\ (cached_others fpspy st0 (ISym 6%nat) < 20)%nat
    /\ exists st', rec_invalidate fpspy 20 (ISym 6%nat) st0 = (Ok tt, st') /\ same_users st0 st'
       /\ clear_at st' (ISym 6%nat)
       /\ forall j, same_at st0 st' j
          \/ (clear_at st' j /\ forall z, In z (dependents fpspy j) -> flagged st' z = false).
Proof.
  eexists (snd (ev_tri (ev fpspy fpspy_depth) 10%nat (init_state fpspy))), 0.
  split; [vm_compute; reflexivity|]. split; [apply Nat.ltb_lt; vm_compute; reflexivity|].
  apply (rec_invalidate_terminates fpspy 20 (ISym 6%nat) _ fpspy_deps); [vm_compute; reflexivity|].
  apply Nat.ltb_lt. vm_compute. reflexivity.
Defined.
