(* ===== verification/ConfigFile.v ===== *)
(** * Configuration files

    Reading and writing of [.config] files, the C header, [config.mk], the
    minimal configuration and [auto.conf]: the methods [_load_config],
    [_config_contents], [_autoconf_contents], [_config_mk_write],
    [_min_config_contents], [_old_vals_contents], [_load_old_vals], [sync_deps]
    of [Kconfig] and their wrappers, over a file system that is a map from
    names to contents.  The tree of menu nodes is walked as the source walks it,
    with one loop; directories, [print] and decoding errors are not modelled. *)
From S2P Require Import Prelude PyStr Model Eval SetValue.

(** ** Lines *)

(** The part of [s] before the first [c], and the part after it if there is one *)
Fixpoint split_at (c : ascii) (s : string) : string * option string :=
  match s with
  | EmptyString => (EmptyString, None)
  | String d s' =>
      if Ascii.eqb c d then (EmptyString, Some s')
      else let '(a, b) := split_at c s' in (String d a, b)
  end.

(** [s] without the prefix [p] *)
Fixpoint drop_prefix (p s : string) : option string :=
  match p, s with
  | EmptyString, _ => Some s
  | String c p', String d s' => if Ascii.eqb c d then drop_prefix p' s' else None
  | _, EmptyString => None
  end.

(** [_set_match]: the prefix (without special characters), a name up to the
    first equals sign, and the rest of the line *)
Definition set_match (cfg : Config) (line : string) : option (string * string) :=
  match drop_prefix (c_config_prefix cfg) line with
  | Some rest =>
      match split_at "=" rest with
      | (String c name, Some val) => Some (String c name, (split_at NL val).1)
      | _ => None
      end
  | None => None
  end.

(** [_unset_match]: a hash sign, the prefix, a name up to the first space, and [is not set] *)
Definition unset_match (cfg : Config) (line : string) : option string :=
  match drop_prefix ("# " +:+ c_config_prefix cfg) line with
  | Some rest =>
      match split_at " " rest with
      | (String c name, Some after) => if startswith after "is not set" then Some (String c name) else None
      | _ => None
      end
  | None => None
  end.

(** Universal newlines *)
Fixpoint translate_newlines (s : string) : string :=
  match s with
  | EmptyString => EmptyString
  | String c s' =>
      if Ascii.eqb c (chr 13) then
        match s' with
        | String d s'' => if Ascii.eqb d NL then String NL (translate_newlines s'')
                          else String NL (translate_newlines s')
        | EmptyString => String NL EmptyString
        end
      else String c (translate_newlines s')
  end.

(** [for line in f]: the lines with their newlines *)
Fixpoint file_lines (s : string) : list string :=
  match s with
  | EmptyString => []
  | String c s' =>
      if Ascii.eqb c NL then String NL EmptyString :: file_lines s'
      else match file_lines s' with
           | [] => [String c EmptyString]
           | l :: ls => String c l :: ls
           end
  end.

(** ** Loading *)

Section Load.
Context (cfg : Config) (depth : nat).

(** [Kconfig._undef_assign] *)
Definition undef_assign (name val filename : string) (linenr : Z) : K unit :=
  modify (fun st => set_st_missing_syms (st_missing_syms st ++ [(name, val)]) st);;
  w ← gets st_warn_assign_undef;
  when w (warn_at ("attempt to assign the value '" +:+ val +:+ "' to the undefined symbol " +:+ name)
            (Some (filename, linenr))).

(** The user value that [Kconfig._assigned_twice] compares and prints; [None] is Python's *)
Definition user_val_text (s : symid) (u : option uval) : K (option string) :=
  if is_bool_tristate (sym_orig_type (sym cfg s)) then
    match u with Some (UTri v) => t ← tri_to_str v; mret (Some t) | _ => raise KeyError end
  else mret (match u with Some (UStr x) => Some x | Some (UTri v) => Some (py_str v) | None => None end).

(** [Kconfig._assigned_twice] *)
Definition assigned_twice (s : symid) (new_val filename : string) (linenr : Z) : K unit :=
  u ← sget user_value s;
  user_val ← user_val_text s u;
  let msg := sym_name_and_loc cfg s +:+ " set more than once. Old value " +:+ String QUOTE (default "None" user_val
    +:+ String QUOTE (", new value " +:+ String QUOTE (new_val +:+ String QUOTE ("."))))  in
  w ← gets (if decide (user_val = Some new_val) then st_warn_assign_redun else st_warn_assign_override);
  when w (warn_at msg (Some (filename, linenr))).

(** The symbol a line names, unless it is undefined *)
Definition get_sym (name : string) : option symid :=
  match c_sym_table cfg !! name with
  | Some s => match sym_nodes (sym cfg s) with [] => None | _ => Some s end
  | None => None
  end.

(** The value of an assignment line, once checked; [None] means the line is ignored *)
Definition assigned_value (s : symid) (val filename : string) (linenr : Z) : K (option string) :=
  let t := sym_orig_type (sym cfg s) in
  if is_bool_tristate t then
    if negb ((type_eqb t BOOL && (startswith val "y" || startswith val "n"))
             || (type_eqb t TRISTATE && (startswith val "y" || startswith val "m" || startswith val "n")))
    then
      warn_at ("'" +:+ val +:+ "' is not a valid value for the " +:+ TYPE_TO_STR t +:+ " symbol "
               +:+ sym_name_and_loc cfg s +:+ ". Assignment ignored.") (Some (filename, linenr));;
      mret None
    else
      let val := String.substring 0 1 val in
      match sym_choice (sym cfg s) with
      | Some c =>
          if negb (String.eqb val "n") then
            prev_mode ← cget ch_user_value c;
            match prev_mode with
            | Some m =>
                t ← tri_to_str m;
                when (negb (String.eqb t val))
                  (warn_at "both m and y assigned to symbols within the same choice" (Some (filename, linenr)))
            | None => mret tt
            end;;
            ch_set_value cfg depth c (UStr val);;
            mret (Some val)
          else mret (Some val)
      | None => mret (Some val)
      end
  else if type_eqb t STRING then
    match conf_string_match val with
    | Some x => mret (Some (unescape x))
    | None =>
        warn_at ("malformed string literal in assignment to " +:+ sym_name_and_loc cfg s
                 +:+ ". Assignment ignored.") (Some (filename, linenr));;
        mret None
    end
  else mret (Some val).

(** [if sym._was_set: ...] and [sym.set_value(val)] *)
Definition assign (s : symid) (val filename : string) (linenr : Z) : K unit :=
  b ← sget was_set s;
  when b (assigned_twice s val filename linenr);;
  set_value cfg depth s (UStr val);;
  mret tt.

(** The body of the loop over the lines in [Kconfig._load_config] *)
Definition load_line (filename : string) (linenr : Z) (line : string) : K unit :=
  let line := rstrip line in
  match set_match cfg line with
  | Some (name, val) =>
      match get_sym name with
      | None => undef_assign name val filename linenr
      | Some s =>
          v ← assigned_value s val filename linenr;
          match v with
          | Some val => assign s val filename linenr
          | None => mret tt
          end
      end
  | None =>
      match unset_match cfg line with
      | None =>
          when (negb (String.eqb line "") && negb (startswith (lstrip line) "#"))
            (warn_at ("ignoring malformed line '" +:+ line +:+ "'") (Some (filename, linenr)))
      | Some name =>
          match get_sym name with
          | None => undef_assign name "n" filename linenr
          | Some s =>
              if is_bool_tristate (sym_orig_type (sym cfg s)) then assign s "n" filename linenr
              else mret tt
          end
      end
  end.

(** [for linenr, line in enumerate(f, 1)] *)
Fixpoint load_lines (filename : string) (linenr : Z) (lines : list string) : K unit :=
  match lines with
  | [] => mret tt
  | line :: lines => load_line filename linenr line;; load_lines filename (linenr + 1) lines
  end.

(** [Kconfig._load_config] on a file with the given contents *)
Definition load_contents (filename contents : string) (replace : bool) : K unit :=
  when replace
    (modify (set_st_missing_syms []);;
     forM_ (c_unique_defined_syms cfg) (fun s => sput (set_was_set false) s);;
     forM_ (c_unique_choices cfg) (fun c => cput (set_ch_was_set false) c));;
  load_lines filename 1 (file_lines (translate_newlines contents));;
  when replace
    (forM_ (c_unique_defined_syms cfg) (fun s =>
       b ← sget was_set s; when (negb b) (unset_value cfg depth s));;
     forM_ (c_unique_choices cfg) (fun c =>
       b ← cget ch_was_set c; when (negb b) (ch_unset_value cfg depth c))).
End Load.

(** ** Walking the tree of menu nodes *)

Section Walk.
Context (cfg : Config).

(** The iterative walk of [node_iter] and [_config_contents]: [visit] is called
    on every node below the top one, [leave] whenever the walk climbs back to a
    node.  [up] says that the children of [nd] are done. *)
Fixpoint walk {A} (leave visit : nodeid -> A -> K A) (fuel : nat) (nd : nodeid) (up : bool) (a : A) : K A :=
  match fuel with
  | O => raise Diverges
  | S fuel =>
      match (if up then None else nd_list (node cfg nd)) with
      | Some n => a ← visit n a; walk leave visit fuel n false a
      | None =>
          match nd_next (node cfg nd) with
          | Some n => a ← visit n a; walk leave visit fuel n false a
          | None =>
              match nd_parent (node cfg nd) with
              | Some p => a ← leave p a; walk leave visit fuel p true a
              | None => mret a
              end
          end
      end
  end.

(** Each node is visited once and left at most once *)
Definition walk_fuel : nat := S (2 * length (c_nodes cfg)).

(** [Kconfig.node_iter], as the list of the nodes it yields *)
Definition node_iter (unique_syms : bool) : K (list nodeid) :=
  when unique_syms (forM_ (c_unique_defined_syms cfg) (fun s => sput (set_visited 0) s));;
  walk (fun _ l => mret l)
    (fun n l =>
       match nd_item (node cfg n) with
       | NSym s =>
           if unique_syms then
             v ← sget visited s;
             if negb (v =? 0) then mret l else sput (set_visited 1) s;; mret (l ++ [n])
           else mret (l ++ [n])
       | _ => mret (l ++ [n])
       end)
    walk_fuel (c_top_node cfg) false [].
End Walk.

(** ** The contents of the files *)

Section Contents.
Context (cfg : Config) (E : evaluator).

(** [node.prompt[0]] *)
Definition prompt_text (n : nodeid) : K string :=
  match nd_prompt (node cfg n) with Some (p, _) => mret p | None => raise TypeError end.

(** [expr_value(node.dep) and expr_value(node.visibility)] *)
Definition dep_and_visibility (n : nodeid) : K bool :=
  d ← expr_value cfg E (nd_dep (node cfg n));
  if d =? 0 then mret false
  else v ← expr_value cfg E (nd_visibility (node cfg n)); mret (negb (v =? 0)).

(** Leaving a visible menu in [_config_contents] *)
Definition leave_node (n : nodeid) (a : string * bool) : K (string * bool) :=
  match nd_item (node cfg n) with
  | NMenu =>
      vis ← dep_and_visibility n;
      if vis && negb (bool_decide (n = c_top_node cfg)) then
        p ← prompt_text n; mret (a.1 +:+ "# end of " +:+ p +:+ String NL "", true)
      else mret a
  | _ => mret a
  end.

Definition comment_text (p : string) : string :=
  String NL ("#" +:+ String NL ("# " +:+ p +:+ String NL ("#" +:+ String NL ""))).

(** The output for one node in [_config_contents], with the flag [after_end_comment] *)
Definition visit_node (n : nodeid) (a : string * bool) : K (string * bool) :=
  let '(out, after_end_comment) := a in
  match nd_item (node cfg n) with
  | NSym s =>
      v ← sget visited s;
      if negb (v =? 0) then mret a
      else
        sput (set_visited 1) s;;
        conf_string ← config_string cfg E s;
        if String.eqb conf_string "" then mret a
        else mret (out +:+ (if after_end_comment then String NL "" else "") +:+ conf_string, false)
  | it =>
      d ← expr_value cfg E (nd_dep (node cfg n));
      b ← (if d =? 0 then mret false
           else match it with
                | NMenu => v ← expr_value cfg E (nd_visibility (node cfg n)); mret (negb (v =? 0))
                | NComment => mret true
                | _ => mret false
                end);
      if b : bool then p ← prompt_text n; mret (out +:+ comment_text p, false)
      else mret a
  end.

(** [Kconfig._config_contents] *)
Definition config_contents (header : option string) : K string :=
  forM_ (c_unique_defined_syms cfg) (fun s => sput (set_visited 0) s);;
  r ← walk cfg leave_node visit_node (walk_fuel cfg) (c_top_node cfg) false
        (default (c_config_header cfg) header, false);
  mret r.1.

(** The value of a hex symbol gets a prefix in C *)
Definition c_value (s : symid) (val : string) : string :=
  if type_eqb (sym_orig_type (sym cfg s)) HEX && negb (startswith val "0x" || startswith val "0X")
  then "0x" +:+ val else val.

Definition define_line (s : symid) (val : string) : string :=
  let x := sym cfg s in
  let name := c_config_prefix cfg +:+ sym_name x in
  if is_bool_tristate (sym_orig_type x) then
    if String.eqb val "y" then "#define " +:+ name +:+ " 1" +:+ String NL ""
    else if String.eqb val "m" then "#define " +:+ name +:+ "_MODULE 1" +:+ String NL ""
    else if String.eqb val "n" then "#define " +:+ name +:+ " 0" +:+ String NL ""
    else ""
  else if type_eqb (sym_orig_type x) STRING then
    "#define " +:+ name +:+ " " +:+ String QUOTE (escape val +:+ String QUOTE (String NL ""))
  else "#define " +:+ name +:+ " " +:+ c_value s val +:+ String NL "".

Definition enabled_line (s : symid) (val : string) : string :=
  let x := sym cfg s in
  let entry v := "    " +:+ String QUOTE (sym_name x +:+ "=" +:+ v +:+ String QUOTE ("," +:+ String NL "")) in
  if is_bool_tristate (sym_orig_type x) then if String.eqb val "y" then entry "y" else ""
  else if type_eqb (sym_orig_type x) STRING then entry (escape val)
  else entry (c_value s val).

(** [val = sym.str_value; if not sym._write_to_conf: continue] *)
Definition each_written (line : symid -> string -> string) (out : string) : K string :=
  foldM (fun out s =>
    val ← ev_str E s;
    w ← sget write_to_conf s;
    mret (if w : bool then out +:+ line s val else out)) out (c_unique_defined_syms cfg).

Definition lines_text (l : list string) : string := String.concat "" (map (fun x => x +:+ String NL "") l).

(** [Kconfig._autoconf_contents] *)
Definition autoconf_contents (header : option string) : K string :=
  out ← each_written define_line (default (c_header_header cfg) header);
  let out := out +:+ lines_text
    ["#ifndef __ASSEMBLER__"; "#ifndef ENABLED_CONFIGURATIONS"; "#define ENABLED_CONFIGURATIONS";
     "__attribute__((unused)) static const char *enabled_configurations[] = {"] in
  out ← each_written enabled_line out;
  mret (out +:+ lines_text ["    0,"; "};"; "#endif"; "#endif"]).

Definition mk_line (s : symid) (val : string) : string :=
  let x := sym cfg s in
  let name := c_config_prefix cfg +:+ sym_name x in
  if is_bool_tristate (sym_orig_type x) then
    if String.eqb val "y" then name +:+ "=1" +:+ String NL ""
    else if String.eqb val "n" then name +:+ "=0" +:+ String NL ""
    else ""
  else if type_eqb (sym_orig_type x) STRING then
    name +:+ "=" +:+ String QUOTE (escape val +:+ String QUOTE (String NL ""))
  else "".

(** [Kconfig._config_mk_write] *)
Definition config_mk_write (header : option string) : K string :=
  each_written mk_line (default (c_header_header cfg) header).

(** Is a symbol left out of a minimal configuration? *)
Definition min_skips (s : symid) : K bool :=
  let x := sym cfg s in
  fixed ← match sym_choice x with
          | Some _ => mret false
          | None => vis ← ev_vis E s; rd ← expr_value cfg E (sym_rev_dep x); mret (vis <=? rd)
          end;
  if fixed : bool then mret true
  else
    val ← ev_str E s;
    def ← str_default cfg E s;
    if String.eqb val def then mret true
    else
      match sym_choice x with
      | Some c =>
          if ch_is_optional (chc cfg c) then mret false
          else
            sel ← selection_from_defaults cfg E c;
            if negb (bool_decide (sel = Some s)) then mret false
            else if negb (type_eqb (sym_orig_type x) BOOL) then mret false
            else v ← ev_tri E s; mret (v =? 2)
      | None => mret false
      end.

(** [Kconfig._min_config_contents] *)
Definition min_config_contents (header : option string) : K string :=
  foldM (fun out s =>
    b ← min_skips s;
    if b : bool then mret out else line ← config_string cfg E s; mret (out +:+ line))
    (default (c_config_header cfg) header) (c_unique_defined_syms cfg).

(** [Kconfig._old_vals_contents] *)
Definition old_vals_contents : K string :=
  foldM (fun out s =>
    no ← (if is_bool_tristate (sym_orig_type (sym cfg s)) then v ← ev_tri E s; mret (v =? 0) else mret false);
    if no : bool then mret out else line ← config_string cfg E s; mret (out +:+ line))
    "" (c_unique_defined_syms cfg).
End Contents.

(** ** Files *)

(** The state of the configuration, the contents of the files, and the files that
    have been opened for writing so far, in order: a file that is written again
    with the same contents is newer *)
Record World := mkWorld {
  w_state : State;
  w_files : gmap string string;
  w_written : list string;
}.

Definition W : Type -> Type := M World.
#[export] Instance W_ret : MRet W := M_ret World.
#[export] Instance W_bind : MBind W := M_bind World.

(** Configuration code leaves the files alone *)
Definition in_state {A} (m : K A) : W A := fun w =>
  match m (w_state w) with (r, st) => (r, mkWorld st (w_files w) (w_written w)) end.

Definition exists_file (f : string) : W bool := gets (fun w => bool_decide (is_Some (w_files w !! f))).

Definition read_file (f : string) : W string := fun w =>
  match w_files w !! f with
  | Some x => (Ok x, w)
  | None => (Err (OSError "ENOENT"), w)
  end.

Definition write_file (f contents : string) : W unit :=
  modify (fun w => mkWorld (w_state w) (<[f := contents]> (w_files w)) (w_written w ++ [f])).

(** [os.path.join] on POSIX systems *)
Definition path_join (dir f : string) : string :=
  if startswith f "/" || String.eqb dir "" then f
  else match rev (list_ascii_of_string dir) with
       | c :: _ => if Ascii.eqb c "/" then dir +:+ f else dir +:+ "/" +:+ f
       | [] => f
       end.

Definition lower_char (c : ascii) : ascii :=
  let n := nat_of_ascii c in if (65 <=? n)%nat && (n <=? 90)%nat then chr (n + 32) else c.
Fixpoint str_lower (s : string) : string :=
  match s with EmptyString => EmptyString | String c s' => String (lower_char c) (str_lower s') end.

Section Files.
Context (cfg : Config) (depth : nat).
(** [os.getenv] *)
Context (getenv : string -> option string).

Definition srctree : string := default "" (getenv "srctree").

(** [standard_config_filename] *)
Definition standard_config_filename : string := default ".config" (getenv "KCONFIG_CONFIG").

(** [try: m except EnvironmentError: handler] *)
Definition try_os {A} (m : W A) (handler : string -> W A) : W A := fun w =>
  match m w with
  | (Err (OSError e), w') => handler e w'
  | r => r
  end.

(** [Kconfig._open_config]: the file's name and contents *)
Definition open_config (f : string) : W (string * string) :=
  let try_ f := x ← read_file f; mret (f, x) in
  try_os (try_ f) (fun _ => try_ (path_join srctree f)).

(** [Kconfig.defconfig_filename] *)
Definition defconfig_filename : W (option string) :=
  let search defaults : W (option string) :=
      first_someM (fun '(filename, cond) =>
        c ← in_state (expr_value cfg (ev cfg depth) cond);
        if c =? 0 then mret None
        else
          f ← in_state (default_str_value (ev cfg depth) filename);
          try_os ('(name, _) ← open_config f; mret (Some name)) (fun _ => mret None)) defaults in
  match c_defconfig_list cfg with
  | None => mret None
  | Some (NSym s) => search (sym_defaults (sym cfg s))
  | Some (NChoice c) => search (ch_defaults (chc cfg c))
  | Some _ => raise AttributeError
  end.

(** [Kconfig._load_config] *)
Definition load_config_ (filename : string) (replace : bool) : W unit :=
  '(_, contents) ← open_config filename;
  in_state (load_contents cfg depth filename contents replace).

(** The end of [Kconfig.load_config] *)
Definition load_named (filename msg : string) (replace : bool) : W string :=
  in_state (modify (set_st_warn_assign_no_prompt false));;
  try_finally (load_config_ filename replace) (in_state (modify (set_st_warn_assign_no_prompt true)));;
  mret ((if replace then "Loaded" else "Merged") +:+ msg).

Definition configuration_msg (filename : string) : string := " configuration '" +:+ filename +:+ "'".

(** [Kconfig.load_config] *)
Definition load_config (filename : option string) (replace : bool) : W string :=
  match filename with
  | Some f => load_named f (configuration_msg f) replace
  | None =>
      let f := standard_config_filename in
      e1 ← exists_file f;
      e2 ← (if e1 : bool then mret true else exists_file (path_join srctree f));
      if e2 : bool then load_named f (configuration_msg f) replace
      else
        d ← defconfig_filename;
        match d with
        | None => mret ("Using default symbol values (no '" +:+ f +:+ "')")
        | Some d => load_named d (" default configuration '" +:+ d +:+ "' (no '" +:+ f +:+ "')") replace
        end
  end.

Definition set_assign_warnings (over redun : bool) (st : State) : State :=
  mkState (st_syms st) (st_choices st) (st_warn st) (st_warnings st) (st_warn_assign_undef st) over redun
    (st_warn_assign_no_prompt st) (st_missing_syms st).

(** [load_allconfig] *)
Definition load_allconfig (filename : string) : W unit :=
  match getenv "KCONFIG_ALLCONFIG" with
  | None => mret tt
  | Some allconfig =>
      old ← in_state (gets (fun st => (st_warn_assign_override st, st_warn_assign_redun st)));
      in_state (modify (set_assign_warnings false false));;
      (if String.eqb allconfig "" || String.eqb allconfig "1" then
         try_os (load_config (Some filename) false) (fun _ =>
           try_os (load_config (Some "all.config") false) (fun _ =>
             raise (SystemExit ("error: KCONFIG_ALLCONFIG is set, but neither " +:+ filename
                                +:+ " nor all.config could be opened"))))
       else
         try_os (load_config (Some allconfig) false) (fun _ =>
           raise (SystemExit ("error: KCONFIG_ALLCONFIG is set to '" +:+ allconfig
                              +:+ "', which could not be opened"))));;
      in_state (modify (set_assign_warnings old.1 old.2))
  end.

(** [Kconfig._write_if_changed]: it writes always *)
Definition write_if_changed (filename contents : string) : W bool :=
  write_file filename contents;; mret true.

(** [Kconfig._contents_eq], which nothing calls any more *)
Definition contents_eq (filename contents : string) : W bool :=
  try_os (x ← read_file filename;
          mret (String.eqb (String.substring 0 (S (String.length contents)) (translate_newlines x)) contents))
    (fun _ => mret false).

(** [Kconfig.write_autoconf] *)
Definition write_autoconf (filename header : option string) : W string :=
  let f := default (default "include/generated/autoconf.h" (getenv "KCONFIG_AUTOHEADER")) filename in
  contents ← in_state (autoconf_contents cfg (ev cfg depth) header);
  b ← write_if_changed f contents;
  mret (if b : bool then "Kconfig header saved to '" +:+ f +:+ "'"
        else "No change to Kconfig header in '" +:+ f +:+ "'").

(** [_save_old]: the copy is commented out *)
Definition save_old (path : string) : W unit := mret tt.

(** [Kconfig.write_config] *)
Definition write_config (filename header : option string) (save_old_ : bool) : W string :=
  let f := default standard_config_filename filename in
  contents ← in_state (config_contents cfg (ev cfg depth) header);
  when save_old_ (save_old f);;
  write_file f contents;;
  write_autoconf (Some "include/config.h") None;;
  mk ← in_state (config_mk_write cfg (ev cfg depth) header);
  b ← write_if_changed "config.mk" mk;
  mret (if b : bool then "config.mk saved" else "Configuration saved to '" +:+ f +:+ "'").

(** [Kconfig.write_min_config] *)
Definition write_min_config (filename : string) (header : option string) : W string :=
  contents ← in_state (min_config_contents cfg (ev cfg depth) header);
  b ← write_if_changed filename contents;
  mret (if b : bool then "Minimal configuration saved to '" +:+ filename +:+ "'"
        else "No change to minimal configuration in '" +:+ filename +:+ "'").

(** ** Synchronisation with [auto.conf] *)

(** [_touch_dep_file]: the file is created, or emptied *)
Definition dep_file (path sym_name : string) : string :=
  path +:+ "/" +:+ replace_char "_" "/" (str_lower sym_name) +:+ ".h".
Definition touch_dep_file (path sym_name : string) : W unit := write_file (dep_file path sym_name) "".

(** A line of [auto.conf] in [Kconfig._load_old_vals] *)
Definition load_old_line (path line : string) : W unit :=
  match set_match cfg line with
  | None => mret tt
  | Some (name, val) =>
      match c_sym_table cfg !! name with
      | None => touch_dep_file path name
      | Some s =>
          if type_eqb (sym_orig_type (sym cfg s)) STRING then
            match conf_string_match val with
            | None => mret tt
            | Some x => in_state (sput (set_old_val (Some (unescape x))) s)
            end
          else in_state (sput (set_old_val (Some val)) s)
      end
  end.

(** [Kconfig._load_old_vals] *)
Definition load_old_vals (path : string) : W unit :=
  in_state (forM_ (c_unique_defined_syms cfg) (fun s => sput (set_old_val None) s));;
  f ← try_os (x ← read_file (path_join path "auto.conf"); mret (Some x))
        (fun e => if String.eqb e "ENOENT" then mret None else raise (OSError e));
  match f with
  | None => mret tt
  | Some contents => forM_ (file_lines (translate_newlines contents)) (load_old_line path)
  end.

(** Has a symbol's value in [autoconf.h] changed? *)
Definition sync_changed (s : symid) : K bool :=
  val ← ev_str (ev cfg depth) s;
  w ← sget write_to_conf s;
  old ← sget old_val s;
  mret (if w : bool then
          negb (bool_decide (old = None) && is_bool_tristate (sym_orig_type (sym cfg s)) && String.eqb val "n")
          && negb (bool_decide (old = Some val))
        else bool_decide (is_Some old)).

(** [Kconfig._write_old_vals] *)
Definition write_old_vals (path : string) : W unit :=
  contents ← in_state (old_vals_contents cfg (ev cfg depth));
  write_if_changed (path_join path "auto.conf") contents;; mret tt.

(** [Kconfig.sync_deps] *)
Definition sync_deps (path : string) : W unit :=
  load_old_vals path;;
  forM_ (c_unique_defined_syms cfg) (fun s =>
    b ← in_state (sync_changed s);
    when b (touch_dep_file path (sym_name (sym cfg s))));;
  write_old_vals path.
End Files.
