(* ===== verification/Frames.v ===== *)
(** * Evaluation writes caches only

    A part of the state that does not depend on the cached values, on
    [_write_to_conf] and on the warnings is the same after any property access. *)
From S2P Require Import Prelude PyStr Model Eval.

(** Take a computation apart into its accesses *)
Ltac frames_step :=
  match goal with
  | |- frames _ (mret _) => apply frames_ret
  | |- frames _ (raise _) => apply frames_raise
  | |- frames _ (gets _) => apply frames_gets
  | |- frames _ (mbind _ _) => apply frames_bind; [|intros]
  | |- frames _ (when _ _) => apply frames_when
  | |- frames _ (foldM _ _ _) => apply frames_foldM; intros
  | |- frames _ (forM_ _ _) => apply frames_forM; intros
  | |- frames _ (first_someM _ _) => apply frames_first_some; intros
  | |- frames _ (sget _ _) => apply frames_gets
  | |- frames _ (cget _ _) => apply frames_gets
  | |- frames _ (match ?x with _ => _ end) => destruct x
  | |- frames _ (let '(_, _) := ?x in _) => destruct x
  | |- frames _ (if ?x then _ else _) => destruct x
  | |- frames _ (?f _ _ _) => progress (cbv beta iota zeta)
  | H : forall _, frames _ _ |- _ => apply H
  end.
Ltac frames_auto := repeat (cbv zeta; frames_step); auto with frame.

Section Frames.
Context {X : Type} (f : State -> X) (cfg : Config).

(** [f] does not look at what evaluation writes *)
Record ignores_caches : Prop := {
  ic_tri : forall v s st, f (alter_sym (set_cached_tri_val v) s st) = f st;
  ic_str : forall v s st, f (alter_sym (set_cached_str_val v) s st) = f st;
  ic_vis : forall v s st, f (alter_sym (set_cached_vis v) s st) = f st;
  ic_assignable : forall v s st, f (alter_sym (set_cached_assignable v) s st) = f st;
  ic_wtc : forall v s st, f (alter_sym (set_write_to_conf v) s st) = f st;
  ic_cvis : forall v c st, f (alter_choice (set_ch_cached_vis v) c st) = f st;
  ic_cassignable : forall v c st, f (alter_choice (set_ch_cached_assignable v) c st) = f st;
  ic_csel : forall v c st, f (alter_choice (set_ch_cached_selection v) c st) = f st;
  ic_warnings : forall v st, f (set_st_warnings v st) = f st;
}.
Context (IC : ignores_caches).

Lemma frames_put_tri v s : frames f (sput (set_cached_tri_val v) s).
Proof. apply frames_modify, IC. Qed.
Lemma frames_put_str v s : frames f (sput (set_cached_str_val v) s).
Proof. apply frames_modify, IC. Qed.
Lemma frames_put_vis v s : frames f (sput (set_cached_vis v) s).
Proof. apply frames_modify, IC. Qed.
Lemma frames_put_assignable v s : frames f (sput (set_cached_assignable v) s).
Proof. apply frames_modify, IC. Qed.
Lemma frames_put_wtc v s : frames f (sput (set_write_to_conf v) s).
Proof. apply frames_modify, IC. Qed.
Lemma frames_put_cvis v c : frames f (cput (set_ch_cached_vis v) c).
Proof. apply frames_modify, IC. Qed.
Lemma frames_put_cassignable v c : frames f (cput (set_ch_cached_assignable v) c).
Proof. apply frames_modify, IC. Qed.
Lemma frames_put_csel v c : frames f (cput (set_ch_cached_selection v) c).
Proof. apply frames_modify, IC. Qed.
Lemma frames_warn msg : frames f (warn msg).
Proof. apply frames_modify. intros st. destruct (st_warn st); [apply IC|done]. Qed.
Hint Resolve frames_put_tri frames_put_str frames_put_vis frames_put_assignable frames_put_wtc frames_put_cvis
  frames_put_cassignable frames_put_csel frames_warn : frame.

Lemma frames_try {A} (m : K A) : frames f m -> frames f (try_value_error m).
Proof.
  intros H st. specialize (H st). unfold try_value_error. destruct (m st) as [[a|e] st']; [done|]. by destruct e.
Qed.
Hint Resolve frames_try : frame.

Lemma frames_tri_to_str v : frames f (tri_to_str v).
Proof. unfold tri_to_str. frames_auto. Qed.
Hint Resolve frames_tri_to_str : frame.

Section Bodies.
Context (E : evaluator).
Record frames_accesses : Prop := {
  fa_tri : forall s, frames f (ev_tri E s); fa_str : forall s, frames f (ev_str E s);
  fa_vis : forall s, frames f (ev_vis E s); fa_ctri : forall c, frames f (ev_ctri E c);
  fa_cvis : forall c, frames f (ev_cvis E c); fa_csel : forall c, frames f (ev_csel E c);
}.
Context (FA : frames_accesses).
Hint Resolve fa_tri fa_str fa_vis fa_ctri fa_cvis fa_csel : frame.

Lemma frames_sym_to_num s : frames f (sym_to_num cfg E s).
Proof. unfold sym_to_num. frames_auto. Qed.
Hint Resolve frames_sym_to_num : frame.

Lemma frames_rel_comp s1 s2 : frames f (rel_comp cfg E s1 s2).
Proof. unfold rel_comp. frames_auto. Qed.
Hint Resolve frames_rel_comp : frame.

Lemma frames_expr e : frames f (expr_value cfg E e).
Proof. induction e; simpl; frames_auto. Qed.
Hint Resolve frames_expr : frame.

Lemma frames_default_str e : frames f (default_str_value E e).
Proof. unfold default_str_value. frames_auto. Qed.
Lemma frames_sym_type s : frames f (sym_type cfg E s).
Proof. unfold sym_type. frames_auto. Qed.
Lemma frames_ch_type c : frames f (ch_type cfg E c).
Proof. unfold ch_type. frames_auto. Qed.
Lemma frames_prompts ns : frames f (prompts_value cfg E ns).
Proof. unfold prompts_value. frames_auto. Qed.
Hint Resolve frames_default_str frames_sym_type frames_ch_type frames_prompts : frame.

Lemma frames_sym_visibility s : frames f (sym_visibility cfg E s).
Proof. unfold sym_visibility, sym_visibility_. frames_auto. Qed.
Lemma frames_ch_visibility c : frames f (ch_visibility cfg E c).
Proof. unfold ch_visibility, ch_visibility_. frames_auto. Qed.
Lemma frames_ch_tri_value c : frames f (ch_tri_value cfg E c).
Proof. unfold ch_tri_value. frames_auto. Qed.
Lemma frames_selection_from_defaults c : frames f (selection_from_defaults cfg E c).
Proof. unfold selection_from_defaults. frames_auto. Qed.
Hint Resolve frames_selection_from_defaults : frame.
Lemma frames_ch_selection c : frames f (ch_selection cfg E c).
Proof. unfold ch_selection, ch_selection_. frames_auto. Qed.
Lemma frames_warn_select s : frames f (warn_select_unsatisfied_deps cfg E s).
Proof. unfold warn_select_unsatisfied_deps. frames_auto. Qed.
Hint Resolve frames_warn_select : frame.
Lemma frames_tri_value_ s vis : frames f (tri_value_ cfg E s vis).
Proof. unfold tri_value_, tri_user_or_default, tri_apply_select, tri_promote. frames_auto. Qed.
Hint Resolve frames_tri_value_ : frame.
Lemma frames_tri_value s : frames f (tri_value cfg E s).
Proof. unfold tri_value. frames_auto. Qed.
Lemma frames_num_or_zero s base : frames f (num_or_zero E s base).
Proof. unfold num_or_zero. frames_auto. Qed.
Hint Resolve frames_num_or_zero : frame.
Lemma frames_int_hex s vis : frames f (int_hex_value cfg E s vis).
Proof. unfold int_hex_value, active_range, int_hex_user, int_hex_default. frames_auto. Qed.
Lemma frames_string s vis : frames f (string_value cfg E s vis).
Proof. unfold string_value. frames_auto. Qed.
Hint Resolve frames_int_hex frames_string : frame.
Lemma frames_str_value s : frames f (str_value cfg E s).
Proof. unfold str_value. frames_auto. Qed.
Lemma frames_sym_assignable s : frames f (sym_assignable cfg E s).
Proof. unfold sym_assignable, sym_assignable_. frames_auto. Qed.
Lemma frames_ch_assignable c : frames f (ch_assignable cfg E c).
Proof. unfold ch_assignable, ch_assignable_. frames_auto. Qed.
Lemma frames_str_default s : frames f (str_default cfg E s).
Proof. unfold str_default. frames_auto. Qed.
Lemma frames_config_string s : frames f (config_string cfg E s).
Proof. unfold config_string. frames_auto. Qed.
End Bodies.

Lemma frames_ev n : frames_accesses (ev cfg n).
Proof.
  induction n as [|n IH]; [split; intros; apply frames_raise|]. split; intros x; simpl.
  - by apply frames_tri_value.
  - by apply frames_str_value.
  - by apply frames_sym_visibility.
  - by apply frames_ch_tri_value.
  - by apply frames_ch_visibility.
  - by apply frames_ch_selection.
Qed.
End Frames.
