(* ===== verification/Tree.v ===== *)
(** * The tree of menu nodes and the iterative walk over it

    The nodes are linked by [list], [next] and [parent].  [shape] says that they
    form a tree; [events] is the order in which a recursive traversal enters and
    leaves its nodes.  The iterative walk of [node_iter] and [_config_contents]
    makes the same visits, and the fuel it is given is enough. *)
From S2P Require Import Prelude PyStr Model Eval EvalSpec EvalRefine SetValue ConfigFile.

(** A chain of siblings: its first node, that node's children, and the rest *)
Inductive ftree := FNil | FCons (n : nodeid) (children next : ftree).

Inductive event := Enter (n : nodeid) | Leave (n : nodeid).

Fixpoint preorder (t : ftree) : list nodeid :=
  match t with FNil => [] | FCons n ch nx => n :: preorder ch ++ preorder nx end.

(** A node is left when the walk climbs back to it from its children *)
Fixpoint events (t : ftree) : list event :=
  match t with
  | FNil => []
  | FCons n ch nx => Enter n :: events ch ++ match ch with FNil => [] | _ => [Leave n] end ++ events nx
  end.

(** The chain that starts at [cur], below [parent], is [t] *)
Fixpoint shape (cfg : Config) (parent : nodeid) (cur : option nodeid) (t : ftree) : Prop :=
  match t with
  | FNil => cur = None
  | FCons n ch nx =>
      cur = Some n /\ nd_parent (node cfg n) = Some parent
      /\ shape cfg n (nd_list (node cfg n)) ch /\ shape cfg parent (nd_next (node cfg n)) nx
  end.

(** The tree as it can be read off the nodes *)
Fixpoint tree_of (cfg : Config) (fuel : nat) (cur : option nodeid) : ftree :=
  match cur, fuel with
  | Some n, S fuel => FCons n (tree_of cfg fuel (nd_list (node cfg n))) (tree_of cfg fuel (nd_next (node cfg n)))
  | _, _ => FNil
  end.

Fixpoint shape_check (cfg : Config) (parent : nodeid) (cur : option nodeid) (t : ftree) : bool :=
  match t with
  | FNil => bool_decide (cur = None)
  | FCons n ch nx =>
      bool_decide (cur = Some n) && bool_decide (nd_parent (node cfg n) = Some parent)
      && shape_check cfg n (nd_list (node cfg n)) ch && shape_check cfg parent (nd_next (node cfg n)) nx
  end.

(** The menu nodes of a configuration form a tree below its top node, and its
    symbol nodes are those of the defined symbols *)
Class Treed (cfg : Config) := {
  tree : ftree;
  tree_shape : shape cfg (c_top_node cfg) (nd_list (node cfg (c_top_node cfg))) tree;
  tree_top : nd_next (node cfg (c_top_node cfg)) = None /\ nd_parent (node cfg (c_top_node cfg)) = None;
  tree_size : (length (preorder tree) <= length (c_nodes cfg))%nat;
  tree_syms : forall s, In s (c_unique_defined_syms cfg) <-> exists n, In n (preorder tree) /\ nd_item (node cfg n) = NSym s;
}.

Definition tree_check (cfg : Config) : bool :=
  let t := tree_of cfg (S (length (c_nodes cfg))) (nd_list (node cfg (c_top_node cfg))) in
  shape_check cfg (c_top_node cfg) (nd_list (node cfg (c_top_node cfg))) t
  && bool_decide (nd_next (node cfg (c_top_node cfg)) = None)
  && bool_decide (nd_parent (node cfg (c_top_node cfg)) = None)
  && (length (preorder t) <=? length (c_nodes cfg))%nat
  && forallb (fun s => existsb (fun n => bool_decide (nd_item (node cfg n) = NSym s)) (preorder t))
       (c_unique_defined_syms cfg)
  && forallb (fun n => match nd_item (node cfg n) with
                       | NSym s => bool_decide (s ∈ c_unique_defined_syms cfg) | _ => true end) (preorder t).

(** One event of a traversal *)
Definition on_event {A} (leave visit : nodeid -> A -> K A) (a : A) (e : event) : K A :=
  match e with Enter n => visit n a | Leave n => leave n a end.

(** The traversal of a whole configuration ends by leaving the top node *)
Definition tree_events (cfg : Config) (t : ftree) : list event :=
  events t ++ match t with FNil => [] | _ => [Leave (c_top_node cfg)] end.

(** ** Lemmas *)

Lemma shape_check_sound cfg p cur t : shape_check cfg p cur t = true -> shape cfg p cur t.
Proof.
  revert p cur. induction t as [|n ch IHc nx IHn]; intros p cur; simpl.
  - apply bool_decide_eq_true.
  - rewrite !andb_true_iff, !bool_decide_eq_true. intros [[[? ?] ?] ?]. split_and!; auto.
Qed.

Lemma tree_check_sound cfg : tree_check cfg = true -> Treed cfg.
Proof.
  unfold tree_check. set (t := tree_of _ _ _). intros H. rewrite !andb_true_iff, !bool_decide_eq_true in H.
  destruct H as [[[[[H1 H2] H3] H4] H5] H6]. rewrite forallb_forall in H5, H6.
  refine {| tree := t; tree_shape := shape_check_sound _ _ _ _ H1; tree_top := conj H2 H3;
            tree_size := proj1 (Nat.leb_le _ _) H4; tree_syms := _ |}.
  intros s. split.
  - intros Hs. apply H5, existsb_exists in Hs as (n & Hn & Hi). apply bool_decide_eq_true in Hi. eauto.
  - intros (n & Hn & Hi). specialize (H6 n Hn). rewrite Hi in H6. by apply bool_decide_eq_true, list_elem_of_In in H6.
Qed.

Lemma events_length t : (length (events t) <= 2 * length (preorder t) - 1)%nat.
Proof.
  induction t as [|n ch IHc nx IHn]; cbn [events preorder length]; [done|]. rewrite !length_app.
  destruct ch; cbn [length preorder] in *; lia.
Qed.

Lemma foldM_app {S A B} (f : B -> A -> M S B) l1 l2 b st :
  foldM f b (l1 ++ l2) st = match foldM f b l1 st with
                            | (Ok b', st') => foldM f b' l2 st'
                            | (Err e, st') => (Err e, st')
                            end.
Proof.
  revert b st. induction l1 as [|x l1 IH]; intros b st; [done|]. simpl. cbv [mbind M_bind].
  destruct (f b x st) as [[b'|e] st']; [apply IH|done].
Qed.

Section Walking.
Context (cfg : Config) {A : Type} (leave visit : nodeid -> A -> K A).
Local Abbreviation go := (walk cfg leave visit).
Local Abbreviation run := (foldM (on_event leave visit)).

(** From a node just visited to the moment its siblings and their descendants
    are done: the events of the chain, then the parent is left *)
Lemma walk_chain t : forall p n k a st, shape cfg p (Some n) t ->
  match visit n a st with
  | (Ok a', st') => go (length (events t) + k) n false a' st'
  | (Err e, st') => (Err e, st')
  end
  = match run a (events t) st with
    | (Ok a', st') => match leave p a' st' with
                      | (Ok a2, st2) => go k p true a2 st2
                      | (Err e, st2) => (Err e, st2)
                      end
    | (Err e, st') => (Err e, st')
    end.
Proof.
  induction t as [|n' ch IHc nx IHn]; intros p n k a st; [done|].
  intros (Hn & Hp & Hc & Hx). injection Hn as <-.
  assert (Hafter : forall up a st, (up = false -> nd_list (node cfg n) = None) ->
    go (S (length (events nx)) + k) n up a st
    = match run a (events nx) st with
      | (Ok a', st') => match leave p a' st' with
                        | (Ok a2, st2) => go k p true a2 st2
                        | (Err e, st2) => (Err e, st2)
                        end
      | (Err e, st') => (Err e, st')
      end).
  { intros up a1 st1 Hup. cbn [walk Nat.add].
    assert (Hdone : (if up then None else nd_list (node cfg n)) = None) by (destruct up; auto).
    rewrite Hdone. clear Hdone Hup.
    destruct nx as [|m chm nxm].
    - simpl in Hx. rewrite Hx, Hp. simpl. cbv [mbind K_bind M_bind mret K_ret M_ret]. reflexivity.
    - pose proof Hx as Hx'. destruct Hx' as (Hm & _). rewrite Hm. cbv [mbind K_bind M_bind].
      rewrite Hm in Hx. exact (IHn p m k a1 st1 Hx). }
  cbn [events foldM on_event]. cbv [mbind K_bind M_bind].
  destruct (visit n a st) as [[a1|e] st1]; [|done].
  destruct ch as [|c chc nxc].
  - simpl in Hc. simpl. exact (Hafter false a1 st1 (fun _ => Hc)).
  - pose proof Hc as Hc'. destruct Hc' as (Hcl & _). rewrite Hcl in Hc.
    rewrite !foldM_app.
    replace (length (Enter n :: events (FCons c chc nxc) ++ [Leave n] ++ events nx) + k)%nat
      with (S (length (events (FCons c chc nxc)) + (S (length (events nx)) + k)))%nat
      by (cbn [length]; rewrite !length_app; cbn [length]; lia).
    cbn [walk]. rewrite Hcl. cbv [mbind K_bind M_bind]. rewrite (IHc n c _ a1 st1 Hc).
    destruct (run a1 (events (FCons c chc nxc)) st1) as [[a2|e] st2]; [|done].
    cbn [app foldM on_event]. cbv [mbind K_bind M_bind].
    destruct (leave n a2 st2) as [[a3|e] st3]; [|done]. by apply Hafter.
Qed.

(** The walk from the top node makes the visits of the recursive traversal *)
Lemma walk_tree (T : Treed cfg) a st :
  go (walk_fuel cfg) (c_top_node cfg) false a st = run a (tree_events cfg tree) st.
Proof.
  pose proof tree_shape as Hs. pose proof tree_size as Hz. pose proof (events_length tree) as He.
  destruct tree_top as [Hnx Hpa]. unfold walk_fuel, tree_events.
  destruct tree as [|n ch nx] eqn:Ht.
  - cbn [walk]. simpl in Hs. rewrite Hs, Hnx, Hpa. reflexivity.
  - pose proof Hs as (Hl & _). rewrite Hl in Hs. cbn [walk]. rewrite Hl. cbv [mbind K_bind M_bind].
    set (t := FCons n ch nx) in *.
    replace (2 * length (c_nodes cfg))%nat
      with (length (events t) + (2 * length (c_nodes cfg) - length (events t)))%nat by lia.
    rewrite (walk_chain t (c_top_node cfg) n _ a st Hs), foldM_app.
    destruct (run a (events t) st) as [[a1|e] st1]; [|done].
    cbn [foldM on_event]. cbv [mbind K_bind M_bind].
    destruct (leave (c_top_node cfg) a1 st1) as [[a2|e] st2]; [|done].
    assert (Hk : exists k, (2 * length (c_nodes cfg) - length (events t))%nat = S k).
    { exists (2 * length (c_nodes cfg) - length (events t) - 1)%nat.
      assert (length (events t) < 2 * length (preorder t))%nat; [|lia].
      unfold t in *. cbn [preorder length] in *. lia. }
    destruct Hk as [k ->]. cbn [walk]. by rewrite Hnx, Hpa.
Qed.
End Walking.

(** ** The nodes that [node_iter] yields *)

Section NodeIter.
Context (cfg : Config) `{T : Treed cfg}.

(** The first node of each symbol, and every node of something else *)
Fixpoint first_nodes (l : list nodeid) (seen : list symid) : list nodeid :=
  match l with
  | [] => []
  | n :: l =>
      match nd_item (node cfg n) with
      | NSym s => if bool_decide (s ∈ seen) then first_nodes l seen else n :: first_nodes l (s :: seen)
      | _ => n :: first_nodes l seen
      end
  end.

Lemma events_preorder {A} (f : nodeid -> A -> K A) t a st :
  foldM (on_event (fun _ a => mret a) f) a (events t) st = foldM (fun a n => f n a) a (preorder t) st.
Proof.
  revert a st. induction t as [|n ch IHc nx IHn]; intros a st; [done|].
  cbn [events preorder foldM on_event]. cbv [mbind K_bind M_bind].
  destruct (f n a st) as [[a1|e] st1]; [|done]. rewrite !foldM_app, IHc.
  destruct (foldM _ a1 (preorder ch) st1) as [[a2|e] st2]; [|done].
  destruct ch; cbn [foldM on_event]; apply IHn.
Qed.

Lemma tree_preorder {A} (f : nodeid -> A -> K A) a st :
  foldM (on_event (fun _ a => mret a) f) a (tree_events cfg tree) st = foldM (fun a n => f n a) a (preorder tree) st.
Proof.
  unfold tree_events. rewrite foldM_app, events_preorder.
  destruct (foldM _ a (preorder tree) st) as [[a1|e] st1]; [|done]. by destruct tree.
Qed.

Lemma reset_visited l st : exists st',
  forM_ l (fun s => sput (set_visited 0) s) st = (Ok tt, st')
  /\ (forall s, In s l -> visited (symst st' s) = 0) /\ (forall s, visited (symst st s) = 0 -> visited (symst st' s) = 0).
Proof.
  unfold forM_. revert st. induction l as [|s l IH]; intros st; [by exists st|].
  destruct (IH (alter_sym (set_visited 0) s st)) as (st' & E & H1 & H2). exists st'.
  split; [exact (foldM_cons _ _ _ _ _ _ _ _ eq_refl E)|]. split.
  - intros x [<-|Hx]; [|auto]. apply H2. autorewrite with kst. by rewrite decide_True.
  - intros x Hx. apply H2. autorewrite with kst. by case_decide; subst.
Qed.

Lemma iter_unique l : forall seen out st,
  (forall n s, In n l -> nd_item (node cfg n) = NSym s -> negb (visited (symst st s) =? 0) = bool_decide (s ∈ seen)) ->
  exists st', foldM (fun l n =>
      match nd_item (node cfg n) with
      | NSym s => v ← sget visited s;
                  if negb (v =? 0) then mret l else sput (set_visited 1) s;; mret (l ++ [n])
      | _ => mret (l ++ [n])
      end) out l st = (Ok (out ++ first_nodes l seen), st').
Proof.
  induction l as [|n l IH]; intros seen out st Hv; [exists st; by rewrite app_nil_r|].
  assert (Hl : forall x seen' st1, first_nodes (n :: l) seen = x ++ first_nodes l seen' ->
    (forall m s, In m l -> nd_item (node cfg m) = NSym s -> negb (visited (symst st1 s) =? 0) = bool_decide (s ∈ seen')) ->
    exists st', foldM (fun l n =>
      match nd_item (node cfg n) with
      | NSym s => v ← sget visited s;
                  if negb (v =? 0) then mret l else sput (set_visited 1) s;; mret (l ++ [n])
      | _ => mret (l ++ [n])
      end) (out ++ x) l st1 = (Ok (out ++ first_nodes (n :: l) seen), st')).
  { intros x seen' st1 -> H1. destruct (IH seen' (out ++ x) st1 H1) as (st' & E). exists st'. by rewrite E, app_assoc. }
  cbn [first_nodes] in Hl. cbn [foldM first_nodes]. cbv [sget sput]. cbv [mbind K_bind M_bind gets modify mret K_ret M_ret].
  destruct (nd_item (node cfg n)) as [s| | | |] eqn:Hn; try (apply (Hl [n] seen st); [done|exact (fun m s' Hm => Hv m s' (or_intror Hm))]).
  rewrite (Hv n s (or_introl eq_refl) Hn). case_bool_decide as Hs.
  - destruct (Hl [] seen st) as (st' & E); [done|exact (fun m s' Hm => Hv m s' (or_intror Hm))|].
    rewrite app_nil_r in E. by exists st'.
  - apply (Hl [n] (s :: seen) (alter_sym (set_visited 1) s st)); [done|].
    intros m s' Hm Hi. autorewrite with kst. case_decide as Hd.
    + subst. simpl. by rewrite bool_decide_eq_true_2 by by left.
    + rewrite (Hv m s' (or_intror Hm) Hi). apply bool_decide_ext. rewrite elem_of_cons. intuition congruence.
Qed.

Lemma iter_all l : forall out (st : State), foldM (fun (l : list nodeid) n =>
      match nd_item (node cfg n) with NSym s => mret (l ++ [n]) | _ => mret (l ++ [n]) end) out l st = (Ok (out ++ l), st).
Proof.
  induction l as [|n l IH]; intros out st; [by rewrite app_nil_r|]. cbn [foldM]. cbv [mbind M_bind].
  destruct (nd_item (node cfg n)); simpl; rewrite IH, <- app_assoc; done.
Qed.

(** C27. [Kconfig.node_iter] yields the nodes of the menu tree in the order of a
    recursive traversal that takes a node before its children and these before
    the following siblings; with [unique_syms] each symbol is yielded at its first
    node only.  The loop ends within the fuel of two steps per node. *)
Theorem node_iter_preorder (unique_syms : bool) (st : State) :
  exists st', node_iter cfg unique_syms st
    = (Ok (if unique_syms then first_nodes (preorder tree) [] else preorder tree), st').
Proof.
  unfold node_iter. destruct unique_syms; cbn [when].
  - destruct (reset_visited (c_unique_defined_syms cfg) st) as (st1 & E1 & H1 & _).
    destruct (iter_unique (preorder tree) [] [] st1) as (st2 & E2).
    { intros n s Hn Hi. rewrite H1 by (apply tree_syms; eauto). done. }
    exists st2. refine (bind_ok _ _ _ _ _ _ E1 _). rewrite (walk_tree cfg _ _ T), tree_preorder. exact E2.
  - exists st. refine (bind_ok _ _ _ _ _ _ eq_refl _). rewrite (walk_tree cfg _ _ T), tree_preorder. exact (iter_all (preorder tree) [] st).
Qed.
End NodeIter.
