(* ===== verification/Lines.v ===== *)
(** * The lines of a configuration file

    The line that [Symbol.config_string] writes is recognised by the regular
    expressions of [_load_config] as the symbol and value it was written for,
    and a file made of such lines is split into them again. *)
From S2P Require Import Prelude PyStr Model Eval EvalSpec EvalRefine EvalDet Values SetValue ConfigFile.

(** ** Characters that must not occur *)

Definition no_char (c : ascii) (s : string) : bool := all_chars (fun d => negb (Ascii.eqb c d)) s.

(** No line break: the text stays on one line *)
Definition CR : ascii := chr 13.
Definition one_line (s : string) : bool := no_char NL s && no_char CR s.

(** Names of symbols: nonempty, no equals sign, space or line break *)
Definition good_name (s : string) : bool :=
  negb (String.eqb s "") && no_char "=" s && no_char " " s && one_line s.

Lemma no_char_app c s t : no_char c (s +:+ t) = no_char c s && no_char c t.
Proof.
  unfold no_char. induction s as [|d s IH]; [done|]. rewrite append_cons. cbn [all_chars].
  by rewrite IH, andb_assoc.
Qed.

Lemma no_char_cons c d s : no_char c (String d s) = negb (Ascii.eqb c d) && no_char c s.
Proof. reflexivity. Qed.

Lemma one_line_app s t : one_line (s +:+ t) = one_line s && one_line t.
Proof. unfold one_line. rewrite !no_char_app. by destruct (no_char NL s), (no_char NL t), (no_char CR s). Qed.

Lemma one_line_cons d s :
  one_line (String d s) = negb (Ascii.eqb NL d) && negb (Ascii.eqb CR d) && one_line s.
Proof. unfold one_line. rewrite !no_char_cons. by destruct (Ascii.eqb NL d), (Ascii.eqb CR d), (no_char NL s). Qed.

Lemma no_char_escape c s : Ascii.eqb c BSL = false -> Ascii.eqb c QUOTE = false -> no_char c (escape s) = no_char c s.
Proof.
  intros Hb Hq. induction s as [|d s IH]; [done|]. rewrite escape_cons.
  destruct (Ascii.eqb_spec BSL d) as [<-|]; [|destruct (Ascii.eqb_spec QUOTE d) as [<-|]];
    rewrite !no_char_cons, ?Hb, ?Hq, IH; done.
Qed.

Lemma one_line_escape s : one_line (escape s) = one_line s.
Proof. unfold one_line. by rewrite !no_char_escape. Qed.

(** ** Splitting *)

Lemma append_nil_inv s t : s +:+ t = "" -> t = "".
Proof. destruct s; [by rewrite append_nil_l|]. by rewrite append_cons. Qed.

Lemma split_at_none c s : no_char c s = true -> split_at c s = (s, None).
Proof.
  unfold no_char. induction s as [|d s IH]; [done|]. cbn [all_chars split_at].
  intros [Hd Hs]%andb_true_iff. apply negb_true_iff in Hd. by rewrite Hd, IH.
Qed.

Lemma split_at_app c s t : no_char c s = true -> split_at c (s +:+ String c t) = (s, Some t).
Proof.
  unfold no_char. induction s as [|d s IH]; intros H.
  - rewrite append_nil_l. cbn [split_at]. by rewrite Ascii.eqb_refl.
  - cbn [all_chars] in H. apply andb_true_iff in H as [Hd Hs]. apply negb_true_iff in Hd.
    rewrite append_cons. cbn [split_at]. by rewrite Hd, IH.
Qed.

Lemma drop_prefix_app p s : drop_prefix p (p +:+ s) = Some s.
Proof.
  induction p as [|c p IH]; [done|]. rewrite append_cons. cbn [drop_prefix]. by rewrite Ascii.eqb_refl.
Qed.

Lemma drop_prefix_no_char c p s r : drop_prefix p s = Some r -> no_char c s = true -> no_char c r = true.
Proof.
  revert s. induction p as [|d p IH]; intros s; [by intros [= ->]|].
  destruct s as [|e s]; [done|]. cbn [drop_prefix]. destruct (Ascii.eqb d e); [|done].
  intros H Hs. rewrite no_char_cons in Hs. apply andb_true_iff in Hs as [_ Hs]. eauto.
Qed.

Lemma startswith_app p s : startswith (p +:+ s) p = true.
Proof.
  unfold startswith. induction p as [|c p IH]; [by destruct s|]. rewrite append_cons. simpl.
  by rewrite ascii_dec_refl || (destruct (ascii_dec c c); [apply IH|done]).
Qed.

(** ** Trailing space *)

Lemma rstrip_app s t : rstrip (s +:+ t) = if String.eqb (rstrip t) "" then rstrip s else s +:+ rstrip t.
Proof.
  induction s as [|c s IH].
  - rewrite !append_nil_l. by destruct (String.eqb_spec (rstrip t) "").
  - rewrite append_cons. cbn [rstrip]. rewrite IH. destruct (String.eqb_spec (rstrip t) ""); [done|].
    rewrite append_cons. by destruct s; [destruct (rstrip t)|].
Qed.

Lemma rstrip_newline s : rstrip (s +:+ String NL "") = rstrip s.
Proof. by rewrite rstrip_app. Qed.

(** A text that ends in a character that is not white space *)
Lemma rstrip_end s c : is_space c = false -> rstrip (s +:+ String c "") = s +:+ String c "".
Proof. intros Hc. rewrite rstrip_app. cbn [rstrip]. by rewrite Hc. Qed.

(** ** Files *)

Definition ends_line (s : string) : Prop := s = "" \/ exists s', s = s' +:+ String NL "".

Lemma file_lines_newline s t :
  file_lines ((s +:+ String NL "") +:+ t) = file_lines (s +:+ String NL "") ++ file_lines t.
Proof.
  induction s as [|c s IH].
  - rewrite append_nil_l, append_cons, append_nil_l. done.
  - rewrite !append_cons. cbn [file_lines]. rewrite IH.
    destruct (Ascii.eqb c NL); [done|].
    destruct (file_lines (s +:+ String NL "")) as [|l ls] eqn:H; [|done].
    destruct s as [|d s]; [done|]. rewrite append_cons in H. cbn [file_lines] in H.
    destruct (Ascii.eqb d NL); [done|]. by destruct (file_lines (s +:+ _)).
Qed.

Lemma file_lines_app s t : ends_line s -> file_lines (s +:+ t) = file_lines s ++ file_lines t.
Proof. intros [->|[s' ->]]; [done|apply file_lines_newline]. Qed.

Lemma file_lines_one l : no_char NL l = true -> file_lines (l +:+ String NL "") = [l +:+ String NL ""].
Proof.
  induction l as [|c l IH]; [done|]. rewrite no_char_cons. intros [Hc Hl]%andb_true_iff.
  rewrite append_cons. cbn [file_lines]. rewrite IH by done.
  rewrite negb_true_iff, Ascii.eqb_sym in Hc. by rewrite Hc.
Qed.

Lemma lines_text_cons l ls : lines_text (l :: ls) = (l +:+ String NL "") +:+ lines_text ls.
Proof.
  unfold lines_text. destruct ls as [|l' ls]; simpl; [|done].
  symmetry. apply append_nil_r.
Qed.

Lemma file_lines_text ls : Forall (fun l => one_line l = true) ls ->
  file_lines (lines_text ls) = map (fun l => l +:+ String NL "") ls.
Proof.
  induction 1 as [|l ls Hl _ IH]; [done|]. apply andb_true_iff in Hl as [Hl _].
  rewrite lines_text_cons, file_lines_app by (right; eauto). rewrite file_lines_one by done. simpl. by rewrite IH.
Qed.

Lemma translate_id s : no_char CR s = true -> translate_newlines s = s.
Proof.
  induction s as [|c s IH]; [done|]. rewrite no_char_cons. intros [Hc Hs]%andb_true_iff.
  rewrite negb_true_iff, Ascii.eqb_sym in Hc. cbn [translate_newlines]. unfold CR in Hc. by rewrite Hc, IH.
Qed.

Lemma lines_text_no_cr ls : Forall (fun l => one_line l = true) ls -> no_char CR (lines_text ls) = true.
Proof.
  induction 1 as [|l ls Hl _ IH]; [done|]. apply andb_true_iff in Hl as [_ Hl].
  by rewrite lines_text_cons, !no_char_app, Hl, IH.
Qed.

(** ** The line of a symbol *)

(** The line [config_string] gives, without its newline *)
Definition symbol_line (cfg : Config) (s : symid) (val : string) : string :=
  let x := sym cfg s in
  let p := c_config_prefix cfg in
  if is_bool_tristate (sym_orig_type x) then
    if negb (String.eqb val "n") then p +:+ sym_name x +:+ "=" +:+ val
    else "# " +:+ p +:+ sym_name x +:+ " is not set"
  else if is_int_hex (sym_orig_type x) then p +:+ sym_name x +:+ "=" +:+ val
  else p +:+ sym_name x +:+ "=" +:+ String QUOTE (escape val +:+ String QUOTE "").

Lemma config_string_line cfg U rho s :
  d_config_string cfg U rho s
  = if d_wtc cfg U rho s then symbol_line cfg s (v_str rho s) +:+ String NL "" else "".
Proof.
  unfold d_config_string, symbol_line. destruct (d_wtc cfg U rho s); [|done]. cbn [negb].
  destruct (is_bool_tristate _); [destruct (negb _); by rewrite !append_assoc|].
  destruct (is_int_hex _); rewrite !append_assoc; [done|]. by rewrite !append_cons, append_assoc.
Qed.

Section Line.
Context (cfg : Config).
Local Abbreviation p := (c_config_prefix cfg).

Lemma set_match_line name val :
  good_name name = true -> set_match cfg (p +:+ name +:+ "=" +:+ val) = Some (name, (split_at NL val).1).
Proof.
  unfold good_name. rewrite !andb_true_iff. intros [[[Hn He] _] _].
  unfold set_match. rewrite drop_prefix_app.
  change (name +:+ "=" +:+ val) with (name +:+ String "=" val). rewrite split_at_app by done.
  by destruct name.
Qed.

Lemma set_match_no_equals line : no_char "=" line = true -> set_match cfg line = None.
Proof.
  intros H. unfold set_match. destruct (drop_prefix p line) as [r|] eqn:E; [|done].
  apply (drop_prefix_no_char "=") in E; [|done]. by rewrite split_at_none by done; destruct r.
Qed.

Lemma unset_match_line name :
  good_name name = true -> unset_match cfg ("# " +:+ p +:+ name +:+ " is not set") = Some name.
Proof.
  unfold good_name. rewrite !andb_true_iff. intros [[[Hn _] Hs] _].
  unfold unset_match. rewrite <- (append_assoc "# " p), drop_prefix_app.
  change (name +:+ " is not set") with (name +:+ String " " "is not set"). rewrite split_at_app by done.
  by destruct name.
Qed.

Lemma set_match_not_set name :
  no_char "=" p = true -> good_name name = true -> set_match cfg ("# " +:+ p +:+ name +:+ " is not set") = None.
Proof.
  intros Hp. unfold good_name. rewrite !andb_true_iff. intros [[[_ He] _] _].
  apply set_match_no_equals. by rewrite !no_char_app, Hp, He.
Qed.

(** A line is one line *)
Lemma symbol_line_one s val :
  one_line p = true -> good_name (sym_name (sym cfg s)) = true -> one_line val = true ->
  one_line (symbol_line cfg s val) = true.
Proof.
  intros Hp Hn Hv. unfold good_name in Hn. rewrite !andb_true_iff in Hn. destruct Hn as [_ Hn].
  unfold symbol_line. destruct (is_bool_tristate _); [destruct (negb _)|destruct (is_int_hex _)];
    rewrite !one_line_app, ?one_line_cons, ?one_line_app, ?one_line_escape, Hp, Hn, ?Hv; done.
Qed.

Lemma symbol_line_nonempty s val : symbol_line cfg s val <> "".
Proof.
  unfold symbol_line. intros H.
  destruct (is_bool_tristate _); [destruct (negb _)|destruct (is_int_hex _)];
    first [by cbn in H | do 2 apply append_nil_inv in H; by cbn in H].
Qed.
End Line.
