(* ===== verification/Reload.v ===== *)
(** * Saved values are the values again

    Which user values loading a saved configuration gives ([saved_users]), and
    why the values calculated from them are the values that were saved: the old
    values solve the equations for the new user values as well, and solutions
    are unique. *)
From S2P Require Import Prelude PyStr Model Eval EvalSpec EvalRefine EvalDet Values SetValue Validity Session ConfigFile Lines.

(** ** What the configuration must look like *)

(** The shape of choices that [_finalize_choice] and the propagation of
    dependencies give, and names that can be written on a line *)
Record fileable (cfg : Config) : Prop := {
  fl_prefix : one_line (c_config_prefix cfg) = true /\ no_char "=" (c_config_prefix cfg) = true;
  fl_names : forall s, In s (c_unique_defined_syms cfg) ->
    good_name (sym_name (sym cfg s)) = true /\ get_sym cfg (sym_name (sym cfg s)) = Some s;
  fl_nodup : NoDup (c_unique_defined_syms cfg);
  fl_choice_syms : forall c s, In s (ch_syms (chc cfg c)) -> sym_choice (sym cfg s) = Some c;
  fl_choice_defaults : forall c d cond, In (d, cond) (ch_defaults (chc cfg c)) ->
    exists s, d = ESym s /\ In s (ch_syms (chc cfg c));
  fl_choice_type : forall s c, sym_choice (sym cfg s) = Some c ->
    is_bool_tristate (sym_orig_type (sym cfg s)) = true /\ is_bool_tristate (ch_orig_type (chc cfg c)) = true
    /\ is_tri_const cfg s = false;
  fl_guard : forall s c n p cond, sym_choice (sym cfg s) = Some c -> In n (sym_nodes (sym cfg s)) ->
    nd_prompt (node cfg n) = Some (p, cond) -> In (EChoice c) (split_expr cond AND);
  fl_static_choice : forall c, is_static cfg (IChoice c) = true -> forall n, In n (ch_nodes (chc cfg c)) ->
    nd_prompt (node cfg n) = None;
}.

(** ** What the values must look like *)

(** The values are such that a file can express them: a choice in y mode has a
    selected symbol; an optional choice in m mode has a symbol set to m; no value
    exceeds its visibility because of a default; values from the environment are
    not overridden by the user; and values fit on a line *)
Record savable (cfg : Config) (U : uvals) (rho : valuation) : Prop := {
  sv_selected : forall c, v_ctri rho c = 2 -> is_Some (v_csel rho c);
  sv_m_mode : forall c, v_ctri rho c = 1 -> ch_is_optional (chc cfg c) = false
    \/ exists s, sym_choice (sym cfg s) = Some c /\ v_tri rho s = 1;
  sv_default : forall s, sym_choice (sym cfg s) = None -> is_bool_tristate (sym_orig_type (sym cfg s)) = true ->
    v_vis rho s <> 0 ->
    v_tri rho s <= v_vis rho s \/ d_expr cfg rho (sym_rev_dep (sym cfg s)) = 2 \/ d_promoted cfg rho s = true;
  sv_auto : forall s, is_auto cfg s = true -> is_bool_tristate (sym_orig_type (sym cfg s)) = false ->
    u_sym U s = None \/ v_vis rho s = 0;
  sv_lines : forall s, In s (c_unique_defined_syms cfg) -> one_line (v_str rho s) = true
    /\ (is_int_hex (sym_orig_type (sym cfg s)) = true -> rstrip (v_str rho s) = v_str rho s);
}.

(** ** The user values after loading what was saved *)

Section Saved.
Context (cfg : Config) (U : uvals) (rho : valuation).

Definition written (s : symid) : Prop := In s (c_unique_defined_syms cfg) /\ d_wtc cfg U rho s = true.

(** What the line of a symbol sets *)
Definition entered (s : symid) : option uval :=
  if accepts cfg s (UStr (v_str rho s)) then Some (typed_value cfg s (UStr (v_str rho s))) else None.

(** Does the file say anything about the mode of a choice? *)
Definition mode_entered (c : choiceid) : bool :=
  existsb (fun s => d_wtc cfg U rho s && bool_decide (sym_choice (sym cfg s) = Some c) && negb (v_tri rho s =? 0))
    (c_unique_defined_syms cfg).

Record saved_users (U' : uvals) : Prop := {
  su_written : forall s, written s -> u_sym U' s = entered s;
  su_unwritten : forall s, In s (c_unique_defined_syms cfg) -> d_wtc cfg U rho s = false -> u_sym U' s = None;
  su_mode : forall c, mode_entered c = true ->
    u_mode U' c = Some (v_ctri rho c) /\ (v_ctri rho c = 2 -> u_sel U' c = v_csel rho c);
  su_no_mode : forall c, In c (c_unique_choices cfg) -> mode_entered c = false -> u_mode U' c = None;
}.
End Saved.

(** ** The saved values solve the equations for the new user values *)

Section Saves.
Context (cfg : Config) `{L : Loaded cfg} (FL : fileable cfg).
Context (U : uvals) (HU : user_ok cfg U).
Local Abbreviation rho := (solution cfg U).
Context (SV : savable cfg U rho).

Lemma sol : is_model cfg U rho.
Proof. by apply solution_model. Qed.
Lemma sol_vis s : 0 <= v_vis rho s <= 2.
Proof. eapply vis_bounds; [apply sol|apply loaded_ranked|by apply user_ok_typed]. Qed.
Lemma sol_tri s : 0 <= v_tri rho s <= 2.
Proof. eapply tri_bounds; [apply sol|apply loaded_ranked|by apply user_ok_typed]. Qed.
Lemma sol_ctri c : 0 <= v_ctri rho c <= 2.
Proof. eapply ctri_bounds; [apply sol|apply loaded_ranked|by apply user_ok_typed]. Qed.

Lemma static_sym s : In s (c_unique_defined_syms cfg) <-> is_static cfg (ISym s) = false.
Proof.
  simpl. rewrite negb_false_iff, bool_decide_eq_true. symmetry. apply list_elem_of_In.
Qed.

Lemma static_ch c : In c (c_unique_choices cfg) <-> is_static cfg (IChoice c) = false.
Proof.
  simpl. rewrite negb_false_iff, bool_decide_eq_true. symmetry. apply list_elem_of_In.
Qed.

(** Visible symbols are defined and not constant *)
Lemma visible_defined s : v_vis rho s <> 0 -> In s (c_unique_defined_syms cfg) /\ is_tri_const cfg s = false.
Proof.
  intros Hv. assert (Hs : is_static cfg (ISym s) = false).
  { destruct (is_static cfg (ISym s)) eqn:Hs; [|done]. exfalso. apply Hv.
    apply (dep_prompt _ loaded_deps) in Hs. rewrite (model_vis _ _ _ sol). unfold d_vis.
    rewrite d_prompts_none by (intros n; by apply has_prompt_false). by destruct (d_hidden _ _ _ _). }
  split; [by apply static_sym|]. destruct (is_tri_const cfg s) eqn:Hc; [|done].
  apply (dep_const _ loaded_deps) in Hc. congruence.
Qed.

Lemma and_zero e x : In x (split_expr e AND) -> d_expr cfg rho x = 0 -> d_expr cfg rho e = 0.
Proof.
  intros Hx H0. pose proof (fun e => expr_bounds cfg U rho rank sol loaded_ranked (user_ok_typed _ _ HU) e) as Hb.
  induction e as [i|e1 IH1 e2 IH2|e1 IH1 e2 IH2|e1 IH1|r s1 s2]; simpl in Hx;
    try (by destruct Hx as [<-|[]]).
  apply in_app_iff in Hx as [Hx|Hx]; [specialize (IH1 Hx)|specialize (IH2 Hx)];
    pose proof (Hb e1); pose proof (Hb e2); simpl; lia.
Qed.

(** A choice symbol is invisible when its choice is in n mode *)
Lemma choice_n_vis s c : sym_choice (sym cfg s) = Some c -> v_ctri rho c = 0 -> v_vis rho s = 0.
Proof.
  intros Hc H0. rewrite (model_vis _ _ _ sol). unfold d_vis.
  assert (Hp : d_prompts cfg rho (sym_nodes (sym cfg s)) = 0).
  { unfold d_prompts. pose proof (fl_guard _ FL s c) as Hg. revert Hg.
    generalize (sym_nodes (sym cfg s)). intros ns. induction ns as [|n ns IH]; intros Hg; [done|].
    simpl. destruct (nd_prompt (node cfg n)) as [[p cond]|] eqn:Hn.
    - rewrite (and_zero cond (EChoice c)); [|eapply Hg; eauto; by left|done].
      rewrite Z.max_id. apply IH. intros n' p' cond' H1 H2 H3. eapply Hg; eauto. by right.
    - apply IH. intros n' p' cond' H1 H2 H3. eapply Hg; eauto. by right. }
  rewrite Hp. by destruct (d_hidden _ _ _ _).
Qed.

(** A choice symbol that is not n has the mode of its choice *)
Lemma choice_sym_value s c : sym_choice (sym cfg s) = Some c -> is_tri_const cfg s = false -> v_tri rho s <> 0 ->
  v_tri rho s = v_ctri rho c /\ v_vis rho s <> 0 /\ (v_ctri rho c = 2 -> v_csel rho c = Some s).
Proof.
  intros Hc Hn H0. destruct (fl_choice_type _ FL s c Hc) as (Ht & _ & _).
  pose proof (sol_vis s) as Bv. pose proof (sol_ctri c) as Bc. pose proof (sol_tri s) as Bt.
  pose proof (not_const_tri cfg U rho sol s Hn Ht) as Hv. rewrite Hc in Hv.
  destruct (Z.eqb_spec (v_vis rho s) 2) as [H2|H2].
  - case_bool_decide as Hs; [|done].
    pose proof (csel_visible cfg U rho sol c s Hs) as [Hy _]. split_and!; [congruence|lia|done].
  - destruct (Z.eqb_spec (v_vis rho s) 0) as [Hz|Hz]; [done|].
    cbn [negb andb] in Hv. destruct (uval_truthy (u_sym U s)); [|done].
    assert (v_ctri rho c <> 0) by (intros E; by apply Hz, (choice_n_vis s c)).
    assert (v_ctri rho c <> 2).
    { intros E. destruct (choice_y_vis cfg U rho rank sol loaded_ranked (user_ok_typed _ _ HU) s c Hc E Ht); lia. }
    split_and!; [lia|done|lia].
Qed.

Lemma vis_written s : v_vis rho s <> 0 -> sym_orig_type (sym cfg s) <> UNKNOWN ->
  is_bool_tristate (sym_orig_type (sym cfg s)) = true \/ is_auto cfg s = false -> written cfg U rho s.
Proof.
  intros Hv Hu Ha. destruct (visible_defined s Hv) as [Hd Hc]. split; [done|].
  unfold d_wtc. rewrite Hc. simpl. apply Z.eqb_neq in Hv.
  destruct (type_eqb (sym_orig_type (sym cfg s)) UNKNOWN) eqn:Et; [by apply type_eqb_eq in Et|].
  destruct (is_bool_tristate _); [unfold d_wtc_tri; by rewrite Hv|].
  destruct Ha as [Ha|Ha]; [done|]. unfold d_wtc_str. by rewrite Hv, Ha.
Qed.

(** The line of a bool or tristate symbol sets its value *)
Lemma entered_tri s : is_tri_const cfg s = false -> is_bool_tristate (sym_orig_type (sym cfg s)) = true ->
  entered cfg rho s = Some (UTri (v_tri rho s)).
Proof.
  intros Hn Ht. pose proof (sol_tri s) as Bt.
  unfold entered, accepts, typed_value. rewrite Ht, (model_str _ _ _ sol). unfold d_str. rewrite Ht.
  assert (Hs : tri_of_str (UStr (default "" (TRI_TO_STR (v_tri rho s)))) = UTri (v_tri rho s)).
  { assert (E : v_tri rho s = 0 \/ v_tri rho s = 1 \/ v_tri rho s = 2) by lia.
    by destruct E as [->|[->| ->]]. }
  rewrite Hs. destruct (sym_orig_type (sym cfg s)) eqn:Eo; try done.
  - assert (v_tri rho s <> 1).
    { eapply bool_not_m; [apply sol|apply loaded_ranked|by apply user_ok_typed|done|].
      unfold d_type. by rewrite Eo. }
    assert (E : v_tri rho s = 0 \/ v_tri rho s = 2) by lia. by destruct E as [->| ->].
  - assert (E : v_tri rho s = 0 \/ v_tri rho s = 1 \/ v_tri rho s = 2) by lia. by destruct E as [->|[->| ->]].
Qed.
Lemma mode_entered_iff c : mode_entered cfg U rho c = true
  <-> exists s, written cfg U rho s /\ sym_choice (sym cfg s) = Some c /\ v_tri rho s <> 0.
Proof.
  unfold mode_entered, written. rewrite existsb_exists. split.
  - intros (s & Hd & H). rewrite !andb_true_iff, bool_decide_eq_true, negb_true_iff, Z.eqb_neq in H.
    destruct H as [[? ?] ?]. by exists s.
  - intros (s & [Hd Hw] & Hc & H0). exists s. rewrite !andb_true_iff, bool_decide_eq_true, negb_true_iff, Z.eqb_neq.
    by split_and!.
Qed.

Lemma mode_entered_value c : mode_entered cfg U rho c = true -> v_ctri rho c <> 0.
Proof.
  intros (s & [Hd _] & Hc & H0)%mode_entered_iff. assert (Hn : is_tri_const cfg s = false).
  { destruct (is_tri_const cfg s) eqn:E; [|done]. apply (dep_const _ loaded_deps) in E.
    apply static_sym in Hd. congruence. }
  destruct (choice_sym_value s c Hc Hn H0) as (E & _ & _). lia.
Qed.

(** A symbol that is not n says what the mode of its choice is *)
Lemma entered_mode s c : sym_choice (sym cfg s) = Some c -> v_vis rho s <> 0 -> v_tri rho s <> 0 ->
  mode_entered cfg U rho c = true.
Proof.
  intros Hc Hv H0. apply mode_entered_iff. exists s. destruct (fl_choice_type _ FL s c Hc) as (Ht & _ & _).
  split_and!; [|done..]. apply vis_written; [done| |by left]. intros E. by rewrite E in Ht.
Qed.

Lemma pick_visible s x : if_visible rho x = Some s -> x = s.
Proof. unfold if_visible. destruct (_ =? 0); [done|]. by intros [= ->]. Qed.

(** The selection of a choice is one of its symbols *)
Lemma selected_in_choice c s : v_csel rho c = Some s -> sym_choice (sym cfg s) = Some c.
Proof.
  intros Hs. apply (fl_choice_syms _ FL). rewrite (model_csel _ _ _ sol) in Hs. revert Hs. unfold d_csel.
  destruct (negb _); [done|].
  assert (Hdef : d_sel_default cfg rho c = Some s -> In s (ch_syms (chc cfg c))).
  { unfold d_sel_default. destruct (first_some (d_sel_pick cfg rho) _) eqn:Ed.
    - intros [= ->]. apply first_some_in in Ed as ([d cond] & Hin & Ed).
      apply (fl_choice_defaults _ FL) in Hin as (s' & -> & Hin). unfold d_sel_pick in Ed.
      destruct (_ =? 0); [done|]. apply pick_visible in Ed. by subst.
    - intros Hf. apply first_some_in in Hf as (x & Hin & Hf). apply pick_visible in Hf. by subst. }
  destruct (u_sel U c) as [s'|] eqn:Eu; [|done].
  destruct (if_visible rho s') eqn:Ev; [|done]. intros [= ->]. apply pick_visible in Ev. subst.
  by apply (uo_sel _ _ HU).
Qed.

Lemma selected_value c : v_ctri rho c = 2 -> exists s, v_csel rho c = Some s /\ sym_choice (sym cfg s) = Some c
  /\ v_vis rho s <> 0 /\ v_tri rho s = 2.
Proof.
  intros E. destruct (sv_selected _ _ _ SV c E) as [s Hs]. exists s.
  pose proof (selected_in_choice c s Hs) as Hc.
  destruct (csel_visible cfg U rho sol c s Hs) as [_ Hv]. destruct (visible_defined s Hv) as [_ Hn].
  destruct (fl_choice_type _ FL s c Hc) as (Ht & _ & _). split_and!; [done..|].
  rewrite (choice_selects cfg U rho rank sol loaded_ranked (user_ok_typed _ _ HU) s c Hn Ht Hc E).
  by rewrite bool_decide_eq_true_2.
Qed.

Lemma static_choice_vis c : is_static cfg (IChoice c) = true -> v_cvis rho c = 0.
Proof.
  intros Hst. rewrite (model_cvis _ _ _ sol). unfold d_cvis.
  by rewrite d_prompts_none by (apply (fl_static_choice _ FL c Hst)).
Qed.

(** A choice whose mode the file does not say *)
Lemma no_mode_entered c : mode_entered cfg U rho c = false ->
  v_ctri rho c <> 2 /\ (v_ctri rho c = 1 -> ch_is_optional (chc cfg c) = false).
Proof.
  intros Hm. split; intros E.
  - destruct (selected_value c E) as (s & _ & Hc & Hv & Hs).
    rewrite (entered_mode s c) in Hm; [done|done|done|lia].
  - destruct (sv_m_mode _ _ _ SV c E) as [|(s & Hc & Hs)]; [done|].
    destruct (fl_choice_type _ FL s c Hc) as (Ht & _ & Hn).
    destruct (choice_sym_value s c Hc Hn) as (_ & Hv & _); [lia|].
    rewrite (entered_mode s c) in Hm; [done|done|done|lia].
Qed.

(** *** The equations, one by one *)

Context (U' : uvals) (SU : saved_users cfg U rho U').

Lemma saved_ctri c : v_ctri rho c = d_ctri cfg U' rho c.
Proof.
  pose proof (model_ctri _ _ _ sol c) as Hc. pose proof (sol_ctri c) as Bc.
  assert (Bv : 0 <= v_cvis rho c <= 2)
    by exact (all_bounded cfg U rho rank sol loaded_ranked (user_ok_typed _ _ HU) (QCVis c)).
  assert (Hcases : (u_mode U' c = Some (v_ctri rho c) /\ v_ctri rho c <> 0) \/ v_cvis rho c = 0
    \/ (u_mode U' c = None /\ v_ctri rho c <> 2 /\ (v_ctri rho c = 1 -> ch_is_optional (chc cfg c) = false))).
  { destruct (mode_entered cfg U rho c) eqn:Hm.
    - left. split; [by apply (su_mode _ _ _ _ SU)|by apply mode_entered_value].
    - right. destruct (is_static cfg (IChoice c)) eqn:Hst; [left; by apply static_choice_vis|].
      right. split; [apply (su_no_mode _ _ _ _ SU); [by apply static_ch|done]|by apply no_mode_entered]. }
  unfold d_ctri in *. set (val0 := if ch_is_optional (chc cfg c) then 0 else 1) in *.
  assert (B0 : 0 <= val0 <= 1) by (unfold val0; destruct (ch_is_optional _); lia).
  assert (Ho : ch_is_optional (chc cfg c) = false -> val0 = 1) by (unfold val0; by intros ->).
  clearbody val0. set (old := match u_mode U c with Some v => Z.max val0 v | None => val0 end) in *.
  assert (Bo : val0 <= old) by (unfold old; destruct (u_mode U c); lia). clearbody old.
  destruct Hcases as [(-> & H0)|[Hz|(-> & H2 & H1)]].
  - destruct (type_eqb (d_ctype cfg rho c) BOOL); rewrite ?andb_true_r, ?andb_false_r in *;
      [|lia]. destruct (Z.eqb_spec (Z.min old (v_cvis rho c)) 1);
      destruct (Z.eqb_spec (Z.min (Z.max val0 (v_ctri rho c)) (v_cvis rho c)) 1); lia.
  - rewrite Hz in *. destruct (type_eqb (d_ctype cfg rho c) BOOL); rewrite ?andb_true_r, ?andb_false_r in *.
    + destruct (Z.eqb_spec (Z.min old 0) 1); [lia|].
      match goal with |- context [Z.min ?x 0 =? 1] => destruct (Z.eqb_spec (Z.min x 0) 1) end; [lia|].
      destruct (u_mode U' c); lia.
    + destruct (u_mode U' c); lia.
  - destruct (type_eqb (d_ctype cfg rho c) BOOL); rewrite ?andb_true_r, ?andb_false_r in *.
    + destruct (Z.eqb_spec (Z.min old (v_cvis rho c)) 1); [lia|].
      destruct (Z.eqb_spec (Z.min val0 (v_cvis rho c)) 1); lia.
    + assert (E : v_ctri rho c = 0 \/ v_ctri rho c = 1) by lia. destruct E as [E|E]; [lia|].
      specialize (Ho (H1 E)). lia.
Qed.

Lemma saved_csel c : v_csel rho c = d_csel cfg U' rho c.
Proof.
  unfold d_csel. destruct (Z.eqb_spec (v_ctri rho c) 2) as [E|E]; cbn [negb].
  - destruct (selected_value c E) as (s & Hs & Hc & Hv & Ht).
    destruct (su_mode _ _ _ _ SU c) as [_ Hsel]; [apply (entered_mode s c); [done|done|lia]|].
    rewrite Hs, (Hsel E), Hs. unfold if_visible. by rewrite (proj2 (Z.eqb_neq _ 0) Hv).
  - rewrite (model_csel _ _ _ sol). unfold d_csel. by rewrite (proj2 (Z.eqb_neq _ 2) E).
Qed.

(** The value of a visible symbol outside choices is the one calculated from itself *)
Lemma free_fixpoint s : is_tri_const cfg s = false -> is_bool_tristate (sym_orig_type (sym cfg s)) = true ->
  sym_choice (sym cfg s) = None -> v_vis rho s <> 0 -> u_sym U' s = Some (UTri (v_tri rho s)) ->
  v_tri rho s = d_tri_free cfg U' rho s.
Proof.
  intros Hn Ht Hc Hv Hu. pose proof (not_const_tri cfg U rho sol s Hn Ht) as Ho. rewrite Hc in Ho.
  pose proof (sv_default _ _ _ SV s Hc Ht Hv) as Hd. pose proof (sol_tri s) as Bt. pose proof (sol_vis s) as Bv.
  assert (Br : 0 <= d_expr cfg rho (sym_rev_dep (sym cfg s)) <= 2)
    by exact (expr_bounds cfg U rho rank sol loaded_ranked (user_ok_typed _ _ HU) _).
  assert (Hx : d_unselected cfg U' rho s = Z.min (v_tri rho s) (v_vis rho s)).
  { unfold d_unselected, d_user. by rewrite Hu, (proj2 (Z.eqb_neq _ 0) Hv). }
  revert Ho Hd. unfold d_tri_free, d_selected. rewrite Hx. generalize (d_unselected cfg U rho s). intros x.
  generalize (d_promoted cfg rho s). intros b Ho Hd.
  destruct (Z.eqb_spec (d_expr cfg rho (sym_rev_dep (sym cfg s))) 0) as [E|E].
  - destruct b; rewrite ?andb_true_r, ?andb_false_r in *; [|lia].
    destruct (Z.eqb_spec x 1); destruct (Z.eqb_spec (Z.min (v_tri rho s) (v_vis rho s)) 1); lia.
  - destruct b; rewrite ?andb_true_r, ?andb_false_r in *; [|lia].
    destruct (Z.eqb_spec (Z.max (d_expr cfg rho (sym_rev_dep (sym cfg s))) x) 1);
      destruct (Z.eqb_spec (Z.max (d_expr cfg rho (sym_rev_dep (sym cfg s))) (Z.min (v_tri rho s) (v_vis rho s))) 1); lia.
Qed.

Lemma saved_tri s : v_tri rho s = d_tri cfg U' rho s.
Proof.
  destruct (decide (v_vis rho s = 0)) as [H0|H0].
  { rewrite (irr_tri cfg U U' rho s (or_intror H0)). apply sol. }
  destruct (visible_defined s H0) as [Hd Hn].
  destruct (is_bool_tristate (sym_orig_type (sym cfg s))) eqn:Ht.
  2: { pose proof (model_tri _ _ _ sol s) as E. unfold d_tri in *. rewrite Ht in *. done. }
  assert (Hw : written cfg U rho s).
  { apply vis_written; [done|intros E; by rewrite E in Ht|by left]. }
  pose proof (su_written _ _ _ _ SU s Hw) as Hu. rewrite (entered_tri s Hn Ht) in Hu.
  unfold d_tri. unfold is_tri_const in Hn. repeat case_bool_decide; try done. rewrite Ht. cbn [negb].
  assert (Hn' : is_tri_const cfg s = false) by (unfold is_tri_const; by rewrite !bool_decide_eq_false_2).
  destruct (sym_choice (sym cfg s)) as [c|] eqn:Hc; [|by apply free_fixpoint].
  pose proof (not_const_tri cfg U rho sol s Hn' Ht) as Ho. rewrite Hc in Ho.
  destruct (Z.eqb_spec (v_vis rho s) 2) as [E2|E2]; [done|]. rewrite Hu.
  rewrite (proj2 (Z.eqb_neq _ 0) H0) in Ho |- *. cbn [negb andb uval_truthy] in *.
  destruct (uval_truthy (u_sym U s)); by rewrite Ho.
Qed.

(** The value of a visible symbol of another type is the one calculated from itself *)
Lemma str_fixpoint s : v_vis rho s <> 0 ->
  u_sym U' s = entered cfg rho s \/ (u_sym U' s = None /\ u_sym U s = None) -> v_str rho s = d_str cfg U' rho s.
Proof.
  intros H0 Hw. pose proof (model_str _ _ _ sol s) as Ho. unfold d_str in *.
  destruct (is_bool_tristate (sym_orig_type (sym cfg s))) eqn:Ht; [done|].
  destruct (type_eqb (sym_orig_type (sym cfg s)) UNKNOWN) eqn:Hk; [done|].
  assert (Hty : sym_orig_type (sym cfg s) <> UNKNOWN) by (intros E; by rewrite E in Hk).
  destruct Hw as [Hw|[Hw Hu]].
  2: { rewrite Ho. unfold d_int_hex, d_string, d_num_user, d_str_user. by rewrite Hw, Hu. }
  assert (Hv : (v_vis rho s =? 0) = false) by by apply Z.eqb_neq.
  unfold entered, accepts, typed_value in Hw. rewrite Ht in Hw.
  destruct (is_int_hex (sym_orig_type (sym cfg s))) eqn:Hi.
  - unfold d_int_hex in *. unfold d_num_user in Ho |- *. rewrite Hv in *. cbn [negb andb] in *. rewrite Hw.
    destruct (valid_for_type _ _) eqn:Hok.
    + (* the value can be entered: it is used, or the default gives it *)
      cbn [uval_truthy]. destruct (negb _) eqn:Hne.
      2: { destruct (uval_truthy (u_sym U s)) eqn:Htr; [|done]. destruct (u_sym U s) as [[z|x]|] eqn:Eu; try done.
           destruct (py_int x _) as [n|]; [|done]. destruct (in_range _ n); [|done].
           rewrite Ho in Hne. simpl in Htr. congruence. }
      destruct (py_int (v_str rho s) _) as [n|] eqn:En.
      * destruct (in_range _ n) eqn:Er; [done|].
        destruct (uval_truthy (u_sym U s)); [|done]. destruct (u_sym U s) as [[z|x]|]; try done.
        destruct (py_int x _) as [n'|] eqn:En'; [|done]. destruct (in_range _ n') eqn:Er'; [|done].
        rewrite Ho, En' in En. congruence.
      * exfalso. destruct (sym_orig_type (sym cfg s)); try done; simpl in Hok; unfold is_base_n in Hok;
          simpl in En; by rewrite En in Hok.
    + cbn [uval_truthy]. destruct (uval_truthy (u_sym U s)) eqn:Htr; [|done].
      destruct (u_sym U s) as [[z|x]|] eqn:Eu; try done. destruct (py_int x _); [|done].
      destruct (in_range _ _); [|done]. pose proof (uo_sym _ _ HU s _ Eu) as Hx. rewrite Ho in Hok. congruence.
  - unfold d_string in *. unfold d_str_user in Ho |- *. rewrite Hv in *. rewrite Hw.
    assert (Hstr : sym_orig_type (sym cfg s) = STRING) by (by destruct (sym_orig_type (sym cfg s))).
    by rewrite Hstr.
Qed.

Lemma saved_str s : v_str rho s = d_str cfg U' rho s.
Proof.
  destruct (decide (v_vis rho s = 0)) as [H0|H0].
  { rewrite (irr_str cfg U U' rho s (or_intror H0)). apply sol. }
  destruct (is_bool_tristate (sym_orig_type (sym cfg s)) || type_eqb (sym_orig_type (sym cfg s)) UNKNOWN) eqn:Htk.
  { rewrite (model_str _ _ _ sol s). unfold d_str. by destruct (is_bool_tristate _); [|simpl in Htk; rewrite Htk]. }
  apply orb_false_iff in Htk as [Ht Hk]. apply str_fixpoint; [done|].
  destruct (is_auto cfg s) eqn:Ha.
  - destruct (sv_auto _ _ _ SV s Ha Ht) as [Hu|]; [|done]. right. split; [|done].
    destruct (visible_defined s H0) as [Hd Hn].
    apply (su_unwritten _ _ _ _ SU); [done|]. unfold d_wtc. rewrite Hn, Hk, Ht. simpl.
    unfold d_wtc_str. by rewrite Ha, andb_false_r.
  - left. apply (su_written _ _ _ _ SU), vis_written; auto. intros E. by rewrite E in Hk.
Qed.

Lemma saved_model : is_model cfg U' rho.
Proof.
  split; [apply saved_tri|apply saved_str|apply (model_vis _ _ _ sol)|apply saved_ctri
         |apply (model_cvis _ _ _ sol)|apply saved_csel].
Qed.

(** The values calculated from the new user values are the old ones *)
Lemma saved_same q : user_ok cfg U' -> agree (solution cfg U') rho q.
Proof.
  intros HU'. apply (models_agree cfg rank loaded_ranked U' U');
    [by apply solution_model|apply saved_model|by apply user_ok_typed|]. intros q' _. by destruct q'.
Qed.
End Saves.
