(* ===== verification/Loading.v ===== *)
(** * Loading a configuration file, line by line

    What [_load_config] does to the user values and to the [_was_set] flags for
    each kind of line, and the state after the symbols that the file does not
    mention have been unset. *)
From S2P Require Import Prelude PyStr Model Eval EvalSpec EvalRefine EvalDet Values SetValue Validity Session ConfigFile.
From S2P Require Import Lines Reload.

(** ** Invalidation and warnings only touch caches *)

Section Quiet.
Context {X : Type} (f : State -> X) (cfg : Config).
Hypothesis quiet_sym : forall s st, f (alter_sym clear_sym s st) = f st.
Hypothesis quiet_choice : forall c st, f (alter_choice clear_choice c st) = f st.
Hypothesis quiet_warn : forall w st, f (set_st_warnings w st) = f st.

Lemma frames_invalidate i : frames f (invalidate i).
Proof. destruct i; apply frames_modify; auto. Qed.

Lemma frames_rec_invalidate n i : frames f (rec_invalidate cfg n i).
Proof.
  revert i. induction n as [|n IH]; intros i; [apply frames_raise|]. cbn [rec_invalidate].
  assert (Hi := frames_invalidate).
  destruct (bool_decide _).
  - apply frames_bind; intros; apply frames_forM; intros; apply Hi.
  - apply frames_bind; [apply Hi|]. intros _. apply frames_forM. intros z.
    apply frames_bind; [apply frames_gets|]. intros b. by apply frames_when.
Qed.

Lemma frames_warn_at msg loc : frames f (warn_at msg loc).
Proof. apply frames_modify. intros st. by destruct (st_warn st). Qed.

Lemma frames_rec_if_prompt n s : frames f (rec_invalidate_if_has_prompt cfg n s).
Proof.
  unfold rec_invalidate_if_has_prompt. destruct (has_prompt cfg s); [apply frames_rec_invalidate|].
  apply frames_bind; [apply frames_gets|]. intros b. apply frames_when, frames_warn_at.
Qed.
End Quiet.

(** ** The [_was_set] flags *)

Definition put {A} `{EqDecision A} (B : A -> bool) (x : A) (b : bool) : A -> bool :=
  fun y => if decide (x = y) then b else B y.

Section Track.
Context (cfg : Config) `{L : Loaded cfg}.

(** A state in use, with its [_was_set] flags *)
Record tracked (U : uvals) (B : symid -> bool) (C : choiceid -> bool) (st : State) : Prop := {
  tk_use : InUse cfg U st;
  tk_was : forall s, was_set (symst st s) = B s;
  tk_ch_was : forall c, ch_was_set (chst st c) = C c;
}.

Lemma in_use_same U st st' :
  InUse cfg U st -> (forall i, same_at st st' i) -> same_users st st' -> InUse cfg U st'.
Proof.
  intros [V HU] Hs [H1 H2]. split; [|done].
  eapply (valid_same cfg rank loaded_ranked loaded_wf loaded_deps U U st); eauto.
  - intros s. rewrite H1. apply V.
  - intros c. rewrite (proj1 (H2 c)). apply V.
  - intros c. rewrite (proj2 (H2 c)). apply V.
Qed.

Lemma was_quiet s : (forall s' st, was_set (symst (alter_sym clear_sym s' st) s) = was_set (symst st s))
  /\ (forall c st, was_set (symst (alter_choice clear_choice c st) s) = was_set (symst st s)).
Proof. split; intros; autorewrite with kst; [by case_decide; subst|done]. Qed.

Lemma ch_was_quiet c : (forall s st, ch_was_set (chst (alter_sym clear_sym s st) c) = ch_was_set (chst st c))
  /\ (forall c' st, ch_was_set (chst (alter_choice clear_choice c' st) c) = ch_was_set (chst st c)).
Proof. split; intros; autorewrite with kst; [done|by case_decide; subst]. Qed.

Lemma rec_was n i st s : was_set (symst (rec_invalidate cfg n i st).2 s) = was_set (symst st s).
Proof. apply (frames_rec_invalidate (fun st => was_set (symst st s)) cfg); apply was_quiet. Qed.
Lemma rec_ch_was n i st c : ch_was_set (chst (rec_invalidate cfg n i st).2 c) = ch_was_set (chst st c).
Proof. apply (frames_rec_invalidate (fun st => ch_was_set (chst st c)) cfg); apply ch_was_quiet. Qed.
Lemma prompt_was n s' st s : was_set (symst (rec_invalidate_if_has_prompt cfg n s' st).2 s) = was_set (symst st s).
Proof. apply (frames_rec_if_prompt (fun st => was_set (symst st s)) cfg); try apply was_quiet. done. Qed.
Lemma prompt_ch_was n s' st c : ch_was_set (chst (rec_invalidate_if_has_prompt cfg n s' st).2 c) = ch_was_set (chst st c).
Proof. apply (frames_rec_if_prompt (fun st => ch_was_set (chst st c)) cfg); try apply ch_was_quiet. done. Qed.

Lemma snd_bind {A B} (m : K A) (k : A -> K B) st :
  (mbind (M := K) k m st).2 = match (m st).1 with Ok a => (k a (m st).2).2 | Err _ => (m st).2 end.
Proof. unfold mbind, K_bind, M_bind. by destruct (m st) as [[a|e] st']. Qed.

(** The flags after [set_value] *)
Definition ch_flag_after (C : choiceid -> bool) (s : symid) (v : uval) : choiceid -> bool :=
  match sym_choice (sym cfg s), typed_value cfg s v with Some c, UTri 2 => put C c true | _, _ => C end.

Lemma rec_flags n i st k :
  (forall s, was_set (symst (mbind (M := K) (fun _ : unit => mret k : K bool) (rec_invalidate cfg n i) st).2 s) = was_set (symst st s))
  /\ (forall c, ch_was_set (chst (mbind (M := K) (fun _ : unit => mret k : K bool) (rec_invalidate cfg n i) st).2 c) = ch_was_set (chst st c)).
Proof. split; intros x; rewrite snd_bind; destruct (rec_invalidate cfg n i st).1; apply rec_was || apply rec_ch_was. Qed.

Lemma prompt_flags n s' st k :
  (forall s, was_set (symst (mbind (M := K) (fun _ : unit => mret k : K bool) (rec_invalidate_if_has_prompt cfg n s') st).2 s) = was_set (symst st s))
  /\ (forall c, ch_was_set (chst (mbind (M := K) (fun _ : unit => mret k : K bool) (rec_invalidate_if_has_prompt cfg n s') st).2 c) = ch_was_set (chst st c)).
Proof.
  split; intros x; rewrite snd_bind; destruct (rec_invalidate_if_has_prompt cfg n s' st).1; apply prompt_was || apply prompt_ch_was.
Qed.

Lemma set_value_flags U B C st s v : tracked U B C st ->
  (forall s', was_set (symst (set_value cfg depth s v st).2 s') = (if accepts cfg s v then put B s true else B) s')
  /\ (forall c, ch_was_set (chst (set_value cfg depth s v st).2 c) = (if accepts cfg s v then ch_flag_after C s v else C) c).
Proof.
  intros [[V HU] HB HC]. unfold set_value, accepts, ch_flag_after. fold (typed_value cfg s v).
  set (tv := typed_value cfg s v). cbv [sget]. cbv [mbind K_bind M_bind gets]. rewrite (vd_user _ _ _ V).
  destruct (bool_decide (u_sym U s = Some tv) && bool_decide (sym_choice (sym cfg s) = None)) eqn:Hsame.
  { apply andb_true_iff in Hsame as [Hv%bool_decide_eq_true Hn%bool_decide_eq_true].
    rewrite (uo_sym _ _ HU s tv Hv), Hn. unfold put.
    split; intros x; simpl; autorewrite with kst; [case_decide; subst; auto|auto]. }
  destruct (valid_for_type (sym_orig_type (sym cfg s)) tv) eqn:Hok; cbn [negb].
  2: { split; intros x; simpl; destruct (st_warn st); first [apply HB|apply HC]. }
  cbv [sput modify].
  set (st1 := alter_sym (set_was_set true) s (alter_sym (set_user_value (Some tv)) s st)).
  assert (H1 : (forall s', was_set (symst st1 s') = put B s true s') /\ (forall c, ch_was_set (chst st1 c) = C c)).
  { unfold st1, put. split; intros x; autorewrite with kst; repeat case_decide; subst; auto. }
  destruct H1 as [HB1 HC1].
  assert (Hno : (forall s', was_set (symst (mbind (M := K) (fun _ : unit => mret true : K bool)
                    (rec_invalidate_if_has_prompt cfg depth s) st1).2 s') = put B s true s')
    /\ (forall c, ch_was_set (chst (mbind (M := K) (fun _ : unit => mret true : K bool)
                    (rec_invalidate_if_has_prompt cfg depth s) st1).2 c) = C c)).
  { destruct (prompt_flags depth s st1 true) as [P1 P2]. split; intros x; [rewrite P1|rewrite P2]; auto. }
  destruct (sym_choice (sym cfg s)) as [c|] eqn:Hc; [|exact Hno].
  destruct tv as [z|x] eqn:Htv; [|exact Hno].
  destruct (decide (z = 2)) as [->|Hz]; [|by destruct z as [|[| [] |]|]].
  clear Hno. cbv [cput modify].
  set (st2 := alter_choice (set_ch_was_set true) c (alter_choice (set_ch_user_selection (Some s)) c st1)).
  destruct (rec_flags depth (IChoice c) st2 true) as [P1 P2].
  split; intros x; [etransitivity; [apply P1|]|etransitivity; [apply P2|]]; unfold st2, put; autorewrite with kst;
    [apply HB1|]. repeat case_decide; subst; simpl; try done; apply HC1.
Qed.

Lemma tracked_set_value U B C st s v : tracked U B C st ->
  exists st', set_value cfg depth s v st = (Ok (accepts cfg s v), st')
    /\ tracked (after_set_value cfg U s v) (if accepts cfg s v then put B s true else B)
         (if accepts cfg s v then ch_flag_after C s v else C) st'.
Proof.
  intros HT. destruct (change_sym cfg U st s v (tk_use _ _ _ _ HT)) as (st' & E & H').
  destruct (set_value_flags U B C st s v HT) as [HB HC]. rewrite E in HB, HC.
  exists st'. by split.
Qed.

Lemma ch_set_value_flags U B C st c v : tracked U B C st ->
  (forall s, was_set (symst (ch_set_value cfg depth c v st).2 s) = B s)
  /\ (forall c', ch_was_set (chst (ch_set_value cfg depth c v st).2 c') = (if ch_accepts cfg c v then put C c true else C) c').
Proof.
  intros [[V HU] HB HC]. unfold ch_set_value, ch_accepts. cbv [cget]. cbv [mbind K_bind M_bind gets].
  rewrite (vd_mode _ _ _ V).
  assert (Hw : forall w, (forall s, was_set (symst ((warn_invalid w (ch_name_and_loc cfg c) (ch_orig_type (chc cfg c));;
       mret false : K bool) st).2 s) = B s)
     /\ (forall c', ch_was_set (chst ((warn_invalid w (ch_name_and_loc cfg c) (ch_orig_type (chc cfg c));;
       mret false : K bool) st).2 c') = C c')).
  { intros w. split; intros x; simpl; destruct (st_warn st); first [apply HB|apply HC]. }
  destruct (tri_of_str v) as [z|x].
  2: { rewrite bool_decide_eq_false_2 by (by destruct (u_mode U c)). apply Hw. }
  destruct (bool_decide (UTri <$> u_mode U c = Some (UTri z))) eqn:Hsame.
  { apply bool_decide_eq_true in Hsame. destruct (u_mode U c) as [z'|] eqn:Hm; [|done]. injection Hsame as ->.
    rewrite (uo_mode _ _ HU c z Hm). unfold put.
    split; intros x; simpl; autorewrite with kst; [auto|case_decide; subst; auto]. }
  destruct (valid_for_type (ch_orig_type (chc cfg c)) (UTri z)); [|apply Hw].
  cbv [cput modify].
  set (st1 := alter_choice (set_ch_was_set true) c (alter_choice (set_ch_user_value (Some z)) c st)).
  destruct (rec_flags depth (IChoice c) st1 true) as [P1 P2].
  split; intros x; [etransitivity; [apply P1|]|etransitivity; [apply P2|]]; unfold st1, put; autorewrite with kst;
    [apply HB|]. repeat case_decide; subst; simpl; try done; apply HC.
Qed.

Lemma tracked_ch_set_value U B C st c v : tracked U B C st -> is_static cfg (IChoice c) = false ->
  exists st', ch_set_value cfg depth c v st = (Ok (ch_accepts cfg c v), st')
    /\ tracked (after_ch_set_value cfg U c v) B (if ch_accepts cfg c v then put C c true else C) st'.
Proof.
  intros HT Hst.
  assert (Ho : op_ok cfg (OChoiceSet c v) = true) by (unfold op_ok; by rewrite Hst).
  destruct (unwrap cfg ABool (ch_set_value cfg depth c v) (ch_accepts cfg c v) (after_ch_set_value cfg U c v) st)
    as (st' & E & H'); [congruence|exact (step_in_use cfg U st (OChoiceSet c v) (tk_use _ _ _ _ HT) Ho)|].
  destruct (ch_set_value_flags U B C st c v HT) as [HB HC]. rewrite E in HB, HC. exists st'. by split.
Qed.

(** A state that differs in warnings or in the list of missing symbols only *)
Definition same_tables (st st' : State) : Prop := st_syms st' = st_syms st /\ st_choices st' = st_choices st.

Lemma tracked_same U B C st st' : tracked U B C st -> same_tables st st' -> tracked U B C st'.
Proof.
  intros [H HB HC] [H1 H2].
  assert (Es : forall s, symst st' s = symst st s) by (intros s; unfold symst; by rewrite H1).
  assert (Ec : forall c, chst st' c = chst st c) by (intros c; unfold chst; by rewrite H2).
  split; [|intros s; rewrite Es; auto|intros c; rewrite Ec; auto].
  eapply in_use_same; [exact H| |].
  - intros [s|c]; simpl; rewrite ?Es, ?Ec; by split_and!.
  - split; intros; rewrite ?Es, ?Ec; done.
Qed.

Lemma warn_at_same msg loc st : same_tables st (warn_at msg loc st).2.
Proof. unfold warn_at, modify. simpl. by destruct (st_warn st). Qed.

(** Lines that the regular expressions do not match change nothing *)
Definition ignored (line : string) : bool :=
  bool_decide (set_match cfg (rstrip line) = None) && bool_decide (unset_match cfg (rstrip line) = None).

Lemma load_ignored f n line st : ignored line = true ->
  exists st', load_line cfg depth f n line st = (Ok tt, st') /\ same_tables st st'.
Proof.
  unfold ignored. rewrite andb_true_iff, !bool_decide_eq_true. intros [H1 H2].
  unfold load_line. rewrite H1, H2. destruct (_ && _); simpl; [|by exists st].
  eexists. split; [reflexivity|]. by destruct (st_warn st).
Qed.

(** ** The line of a symbol *)

(** What loading the line of [s] with the value [val] does to the user values and flags *)
Definition mode_line (s : symid) (val : string) : option choiceid :=
  if is_bool_tristate (sym_orig_type (sym cfg s)) && negb (String.eqb val "n") then sym_choice (sym cfg s) else None.

Definition users_after_line (U : uvals) (s : symid) (val : string) : uvals :=
  after_set_value cfg (match mode_line s val with
                       | Some c => after_ch_set_value cfg U c (UStr val) | None => U end) s (UStr val).
Definition was_after_line (B : symid -> bool) (s : symid) (val : string) : symid -> bool :=
  if accepts cfg s (UStr val) then put B s true else B.
Definition ch_was_after_line (C : choiceid -> bool) (s : symid) (val : string) : choiceid -> bool :=
  let C := match mode_line s val with
           | Some c => if ch_accepts cfg c (UStr val) then put C c true else C | None => C end in
  if accepts cfg s (UStr val) then ch_flag_after C s (UStr val) else C.

(** A value that can stand on the line of [s] *)
Definition line_value (s : symid) (val : string) : bool :=
  one_line val
  && match sym_orig_type (sym cfg s) with
     | BOOL => String.eqb val "y" || String.eqb val "n"
     | TRISTATE => String.eqb val "y" || String.eqb val "m" || String.eqb val "n"
     | INT | HEX => String.eqb (rstrip val) val
     | STRING => true
     | UNKNOWN => false
     end.

Lemma rstrip_value a val : rstrip val = val -> rstrip (a +:+ "=" +:+ val) = a +:+ "=" +:+ val.
Proof.
  intros Hv. destruct (String.eqb_spec val "") as [->|Hne].
  - apply (rstrip_end a "="). reflexivity.
  - rewrite <- append_assoc, rstrip_app, Hv. by destruct (String.eqb_spec val "").
Qed.

Lemma rstrip_symbol_line s val : line_value s val = true -> rstrip (symbol_line cfg s val) = symbol_line cfg s val.
Proof.
  unfold line_value, symbol_line. rewrite andb_true_iff. intros [_ Hv].
  assert (Hq : forall a x, rstrip (a +:+ String QUOTE (x +:+ String QUOTE "")) = a +:+ String QUOTE (x +:+ String QUOTE "")).
  { intros a x. change (String QUOTE (x +:+ String QUOTE "")) with (String QUOTE x +:+ String QUOTE "").
    rewrite <- append_assoc. by apply rstrip_end. }
  destruct (sym_orig_type (sym cfg s)) eqn:Et; try done; cbn [is_bool_tristate is_int_hex].
  - destruct (String.eqb_spec val "y") as [->|]; [|destruct (String.eqb_spec val "n") as [->|]; [|done]];
      simpl negb; cbv iota; [rewrite <- append_assoc; by apply rstrip_value|].
    change " is not set" with (" is not se" +:+ "t"). rewrite <- !append_assoc. by apply rstrip_end.
  - destruct (String.eqb_spec val "y") as [->|]; [|destruct (String.eqb_spec val "m") as [->|];
      [|destruct (String.eqb_spec val "n") as [->|]; [|done]]];
      simpl negb; cbv iota; try (rewrite <- append_assoc; by apply rstrip_value).
    change " is not set" with (" is not se" +:+ "t"). rewrite <- !append_assoc. by apply rstrip_end.
  - rewrite <- !(append_assoc _ _ (String QUOTE _)). apply Hq.
  - apply String.eqb_eq in Hv. rewrite <- append_assoc. by apply rstrip_value.
  - apply String.eqb_eq in Hv. rewrite <- append_assoc. by apply rstrip_value.
Qed.

Lemma first_line val : one_line val = true -> (split_at NL val).1 = val.
Proof. unfold one_line. intros [H _]%andb_true_iff. by rewrite split_at_none. Qed.

Lemma in_use_mode U st c m : InUse cfg U st -> ch_user_value (chst st c) = Some m -> exists t, tri_to_str m st = (Ok t, st).
Proof.
  intros [V HU] Hm. rewrite (vd_mode _ _ _ V) in Hm. apply (uo_mode _ _ HU) in Hm.
  apply valid_for_type_range in Hm. assert (E : m = 0 \/ m = 1 \/ m = 2) by lia.
  destruct E as [->|[->| ->]]; eexists; reflexivity.
Qed.

(** [assign], for a symbol that has not been set before *)
Lemma load_assign U B C st s val f n : tracked U B C st -> B s = false ->
  exists st', assign cfg depth s val f n st = (Ok tt, st')
    /\ tracked (after_set_value cfg U s (UStr val)) (was_after_line B s val)
         (if accepts cfg s (UStr val) then ch_flag_after C s (UStr val) else C) st'.
Proof.
  intros HT HB. unfold assign, sget. cbv [mbind K_bind M_bind gets]. rewrite (tk_was _ _ _ _ HT), HB. cbn.
  destruct (tracked_set_value U B C st s (UStr val) HT) as (st' & E & H'). rewrite E. by exists st'.
Qed.

(** Choices of symbols are bool or tristate and defined *)
Lemma mode_line_static s val c : mode_line s val = Some c -> is_static cfg (IChoice c) = false.
Proof.
  unfold mode_line. destruct (_ && _); [|done]. intros Hc. by apply (dep_choice _ loaded_deps) in Hc as (_ & ? & _).
Qed.

(** The value of an assignment line once checked, if there is one *)
Definition checked_value (s : symid) (val : string) : option string :=
  match sym_orig_type (sym cfg s) with
  | BOOL => if startswith val "y" || startswith val "n" then Some (String.substring 0 1 val) else None
  | TRISTATE => if startswith val "y" || startswith val "m" || startswith val "n"
                then Some (String.substring 0 1 val) else None
  | STRING => unescape <$> conf_string_match val
  | _ => Some val
  end.

(** The warning about choice modes only warns *)
Lemma warn_mode U st c val f n : InUse cfg U st ->
  exists st1, (prev_mode ← cget ch_user_value c;
     match prev_mode with
     | Some m => t ← tri_to_str m;
         when (negb (String.eqb t val))
           (warn_at "both m and y assigned to symbols within the same choice" (Some (f, n)))
     | None => mret tt
     end) st = (Ok tt, st1) /\ same_tables st st1.
Proof.
  intros H. unfold cget. cbv [mbind K_bind M_bind gets]. destruct (ch_user_value (chst st c)) as [m|] eqn:Em; [|by exists st].
  destruct (in_use_mode U st c m H Em) as [t Et]. rewrite Et.
  destruct (negb _); simpl; [|by exists st]. eexists. split; [reflexivity|]. by destruct (st_warn st).
Qed.

Lemma K_bind_assoc {A B C} (m : K A) (g : A -> K B) (h : B -> K C) st :
  (x ← m; y ← g x; h y) st = (y ← (x ← m; g x); h y) st.
Proof. cbv [mbind K_bind M_bind]. by destruct (m st) as [[a|e] st']. Qed.

(** The check of the value: the mode of the choice is set when it succeeds *)
Lemma load_checked_value U B C st s val f n : tracked U B C st ->
  exists st', assigned_value cfg depth s val f n st = (Ok (checked_value s val), st')
    /\ match checked_value s val with
       | Some v => tracked (match mode_line s v with Some c => after_ch_set_value cfg U c (UStr v) | None => U end) B
           (match mode_line s v with
            | Some c => if ch_accepts cfg c (UStr v) then put C c true else C | None => C end) st'
       | None => tracked U B C st'
       end.
Proof.
  intros HT.
  assert (Hwarn : forall msg loc, exists st', (warn_at msg loc;; mret None : K (option string)) st = (Ok None, st')
     /\ tracked U B C st').
  { intros msg loc. eexists. split; [reflexivity|]. eapply tracked_same; [exact HT|apply warn_at_same]. }
  assert (Hmode : forall v, is_bool_tristate (sym_orig_type (sym cfg s)) = true -> exists st',
     match sym_choice (sym cfg s) with
     | Some c =>
         if negb (String.eqb v "n") then
           prev_mode ← cget ch_user_value c;
           match prev_mode with
           | Some m => t ← tri_to_str m;
               when (negb (String.eqb t v))
                 (warn_at "both m and y assigned to symbols within the same choice" (Some (f, n)))
           | None => mret tt
           end;;
           ch_set_value cfg depth c (UStr v);;
           mret (Some v)
         else mret (Some v)
     | None => mret (Some v)
     end st = (Ok (Some v), st')
     /\ tracked (match mode_line s v with Some c => after_ch_set_value cfg U c (UStr v) | None => U end) B
          (match mode_line s v with
           | Some c => if ch_accepts cfg c (UStr v) then put C c true else C | None => C end) st').
  { intros v Hb. pose proof (mode_line_static s v) as Hst. unfold mode_line in *. rewrite Hb in *. cbn [andb] in *.
    destruct (sym_choice (sym cfg s)) as [c|]; [|destruct (negb (String.eqb v "n")); by exists st].
    destruct (negb (String.eqb v "n")); [|by exists st].
    destruct (warn_mode U st c v f n (tk_use _ _ _ _ HT)) as (st1 & E1 & S1).
    destruct (tracked_ch_set_value U B C st1 c (UStr v) (tracked_same U B C st st1 HT S1) (Hst c eq_refl)) as (st2 & E2 & HT2).
    exists st2. split; [|done].
    etransitivity; [exact (K_bind_assoc _ _ (fun _ => ch_set_value cfg depth c (UStr v);; mret (Some v)) st)|].
    etransitivity; [exact (bind_ok _ _ _ _ _ _ E1 eq_refl)|]. exact (bind_ok _ _ _ _ _ _ E2 eq_refl). }
  unfold assigned_value, checked_value.
  destruct (sym_orig_type (sym cfg s)) eqn:Et; cbn [is_bool_tristate type_eqb andb orb].
  - exists st. split; [done|]. unfold mode_line. by rewrite Et.
  - rewrite orb_false_r. destruct (_ || _); cbn [negb]; [by apply Hmode|apply Hwarn].
  - destruct (_ || _); cbn [negb]; [by apply Hmode|apply Hwarn].
  - destruct (conf_string_match val) as [x|]; [|apply Hwarn]. exists st. split; [done|].
    unfold mode_line. by rewrite Et.
  - exists st. split; [done|]. unfold mode_line. by rewrite Et.
  - exists st. split; [done|]. unfold mode_line. by rewrite Et.
Qed.

(** The value that a file has for a symbol passes the check *)
Lemma checked_line_value s val : line_value s val = true ->
  checked_value s (if is_bool_tristate (sym_orig_type (sym cfg s)) then val
     else if is_int_hex (sym_orig_type (sym cfg s)) then val else String QUOTE (escape val +:+ String QUOTE "")) = Some val.
Proof.
  unfold line_value, checked_value. rewrite andb_true_iff. intros [_ Hv].
  destruct (sym_orig_type (sym cfg s)); try done; cbn [is_bool_tristate is_int_hex] in *;
    rewrite ?orb_true_iff, ?String.eqb_eq in Hv.
  - by destruct Hv as [->| ->].
  - by destruct Hv as [[->| ->]| ->].
  - cbn. rewrite conf_string_body_escape. simpl. by rewrite unescape_escape.
Qed.

Lemma load_assigned_value U B C st s val f n : tracked U B C st -> line_value s val = true ->
  exists st', assigned_value cfg depth s (if is_bool_tristate (sym_orig_type (sym cfg s)) then val
                else if is_int_hex (sym_orig_type (sym cfg s)) then val
                else String QUOTE (escape val +:+ String QUOTE "")) f n st = (Ok (Some val), st')
    /\ tracked (match mode_line s val with Some c => after_ch_set_value cfg U c (UStr val) | None => U end) B
         (match mode_line s val with
          | Some c => if ch_accepts cfg c (UStr val) then put C c true else C | None => C end) st'.
Proof.
  intros HT Hv. pose proof (checked_line_value s val Hv) as Hc.
  set (v := if is_bool_tristate _ then _ else _) in *.
  destruct (load_checked_value U B C st s v f n HT) as (st' & E & H'). rewrite Hc in *. by exists st'.
Qed.

Lemma load_symbol_line U B C st s val f n : fileable cfg -> tracked U B C st ->
  In s (c_unique_defined_syms cfg) -> line_value s val = true -> B s = false ->
  exists st', load_line cfg depth f n (symbol_line cfg s val +:+ String NL "") st = (Ok tt, st')
    /\ tracked (users_after_line U s val) (was_after_line B s val) (ch_was_after_line C s val) st'.
Proof.
  intros FL HT Hd Hv HB. destruct (fl_names _ FL s Hd) as [Hn Hg]. destruct (fl_prefix _ FL) as [Hp1 Hp2].
  unfold load_line. rewrite rstrip_newline, rstrip_symbol_line by done.
  destruct (load_assigned_value U B C st s val f n HT Hv) as (st1 & E1 & HT1).
  destruct (load_assign _ B _ st1 s val f n HT1 HB) as (st2 & E2 & HT2).
  assert (Hone : one_line val = true) by (unfold line_value in Hv; by apply andb_true_iff in Hv as [? _]).
  unfold symbol_line. destruct (is_bool_tristate (sym_orig_type (sym cfg s))) eqn:Hb.
  - destruct (negb (String.eqb val "n")) eqn:Hnn.
    + rewrite set_match_line, first_line by done. cbv iota. rewrite Hg. cbv [mbind K_bind M_bind].
      rewrite E1. by exists st2.
    + rewrite set_match_not_set, unset_match_line by done. rewrite Hg, Hb.
      apply negb_false_iff, String.eqb_eq in Hnn. subst val.
      unfold users_after_line, ch_was_after_line, mode_line. rewrite Hb. cbn [andb negb String.eqb].
      apply (load_assign U B C st s "n" f n HT HB).
  - destruct (is_int_hex (sym_orig_type (sym cfg s))) eqn:Hi.
    + rewrite set_match_line, first_line by done. cbv iota. rewrite Hg. cbv [mbind K_bind M_bind].
      rewrite E1. by exists st2.
    + assert (Hq : one_line (String QUOTE (escape val +:+ String QUOTE "")) = true)
        by (by rewrite one_line_cons, one_line_app, one_line_escape, Hone).
      rewrite set_match_line, first_line by done. cbv iota. rewrite Hg. cbv [mbind K_bind M_bind].
      rewrite E1. by exists st2.
Qed.
End Track.
