(* ===== verification/Saving.v ===== *)
(** * What is written, and what reading it back gives

    [config_contents] writes the header and then one entry after the other: the
    lines of symbols, and comments that loading ignores.  Loading the text sets
    exactly the user values of [Reload.saved_users]. *)
From S2P Require Import Prelude PyStr Model Eval EvalSpec EvalRefine EvalDet Values SetValue Validity Session ConfigFile.
From S2P Require Import Frames Tree Lines Reload Loading.

(** ** The entries of a file *)

Inductive entry := EText (line : string) | ESymbol (s : symid).

Section Entries.
Context (cfg : Config) (U : uvals) (rho : valuation).

Definition entry_line (e : entry) : string :=
  match e with EText l => l | ESymbol s => symbol_line cfg s (v_str rho s) end.

Definition entry_syms (es : list entry) : list symid :=
  omap (fun e => match e with ESymbol s => Some s | EText _ => None end) es.

Definition d_menu_visible (n : nodeid) : bool :=
  negb (d_expr cfg rho (nd_dep (node cfg n)) =? 0) && negb (d_expr cfg rho (nd_visibility (node cfg n)) =? 0).

Definition d_node_text (n : nodeid) : string := match nd_prompt (node cfg n) with Some (p, _) => p | None => "" end.

(** Does the node get a comment of its own? *)
Definition d_commented (n : nodeid) : bool :=
  match nd_item (node cfg n) with
  | NMenu => d_menu_visible n
  | NComment => negb (d_expr cfg rho (nd_dep (node cfg n)) =? 0)
  | _ => false
  end.

Definition comment_entries (p : string) : list entry := [EText ""; EText "#"; EText ("# " +:+ p); EText "#"].

(** The entries of a traversal: the symbols already written, and whether a menu has just ended *)
Fixpoint d_entries (evs : list event) (seen : list symid) (after : bool) : list entry :=
  match evs with
  | [] => []
  | Enter n :: evs =>
      match nd_item (node cfg n) with
      | NSym s =>
          if bool_decide (s ∈ seen) then d_entries evs seen after
          else if d_wtc cfg U rho s then
            (if after then [EText ""] else []) ++ ESymbol s :: d_entries evs (s :: seen) false
          else d_entries evs (s :: seen) after
      | _ => if d_commented n then comment_entries (d_node_text n) ++ d_entries evs seen false
             else d_entries evs seen after
      end
  | Leave n :: evs =>
      match nd_item (node cfg n) with
      | NMenu => if d_menu_visible n && negb (bool_decide (n = c_top_node cfg))
                 then EText ("# end of " +:+ d_node_text n) :: d_entries evs seen true
                 else d_entries evs seen after
      | _ => d_entries evs seen after
      end
  end.
End Entries.

(** The comments of a configuration are text that loading ignores *)
Record plain_texts (cfg : Config) : Prop := {
  pt_blank : ignored cfg "" = true /\ ignored cfg "#" = true;
  pt_prompts : forall n, (nd_item (node cfg n) = NMenu \/ nd_item (node cfg n) = NComment) ->
    n = c_top_node cfg \/ exists p cond, nd_prompt (node cfg n) = Some (p, cond) /\ one_line p = true
      /\ ignored cfg ("# " +:+ p) = true /\ ignored cfg ("# end of " +:+ p) = true;
}.

(** ** Writing *)

Section Write.
Context (cfg : Config) `{L : Loaded cfg} (PT : plain_texts cfg).
Context (U : uvals).
Local Abbreviation rho := (solution cfg U).
Local Abbreviation E := (ev cfg depth).

(** The flags of the symbols already written *)
Definition visited_is (seen : list symid) (st : State) : Prop :=
  forall s, In s (c_unique_defined_syms cfg) -> negb (visited (symst st s) =? 0) = bool_decide (s ∈ seen).

Lemma visited_ignores s : ignores_caches (fun st => visited (symst st s)).
Proof. split; intros; autorewrite with kst; try case_decide; by subst. Qed.

(** Reading keeps the flags *)
Lemma visited_read {A} seen (m : K A) st : (forall s, frames (fun st => visited (symst st s)) m) ->
  visited_is seen st -> visited_is seen (m st).2.
Proof. intros Hm Hv s Hs. rewrite (Hm s st). by apply Hv. Qed.

Lemma read_expr_visited seen st e : InUse cfg U st -> visited_is seen st ->
  exists st', expr_value cfg E e st = (Ok (d_expr cfg rho e), st') /\ InUse cfg U st' /\ visited_is seen st'.
Proof.
  intros H Hv. destruct (read_expr cfg U st e H) as (st' & Er & H'). exists st'. split_and!; [done..|].
  assert (Hst : st' = (expr_value cfg E e st).2) by exact (eq_sym (f_equal snd Er)). rewrite Hst.
  apply visited_read; [|done]. intros s. apply frames_expr, frames_ev, visited_ignores.
Qed.

Lemma read_config_string_visited seen st s : InUse cfg U st -> visited_is seen st ->
  exists st', config_string cfg E s st = (Ok (d_config_string cfg U rho s), st')
    /\ InUse cfg U st' /\ visited_is seen st'.
Proof.
  intros H Hv. destruct (read_config_string cfg U st s H) as (st' & Er & H'). exists st'. split_and!; [done..|].
  assert (Hst : st' = (config_string cfg E s st).2) by exact (eq_sym (f_equal snd Er)). rewrite Hst.
  apply visited_read; [|done]. intros s'. apply frames_config_string, frames_ev, visited_ignores.
Qed.

(** Marking a symbol *)
Lemma mark_visited seen st s : InUse cfg U st -> visited_is seen st ->
  exists st', sput (set_visited 1) s st = (Ok tt, st') /\ InUse cfg U st' /\ visited_is (s :: seen) st'.
Proof.
  intros H Hv. eexists. split; [reflexivity|]. split.
  - apply (in_use_same cfg U st); [exact H| |].
    + intros i. by apply same_at_put_sym.
    + split; intros; autorewrite with kst; [case_decide; by subst|done].
  - intros s' Hs'. autorewrite with kst. case_decide as Hd.
    + subst. simpl. symmetry. apply bool_decide_eq_true_2. by left.
    + rewrite (Hv s' Hs'). apply bool_decide_ext. rewrite elem_of_cons. intuition congruence.
Qed.

Lemma dep_and_visibility_ok seen st n : InUse cfg U st -> visited_is seen st ->
  exists st', dep_and_visibility cfg E n st = (Ok (d_menu_visible cfg rho n), st') /\ InUse cfg U st' /\ visited_is seen st'.
Proof.
  intros H Hv. unfold dep_and_visibility, d_menu_visible. cbv [mbind K_bind M_bind].
  destruct (read_expr_visited seen st (nd_dep (node cfg n)) H Hv) as (st1 & E1 & H1 & V1). rewrite E1.
  destruct (d_expr cfg rho (nd_dep (node cfg n)) =? 0); [by exists st1|].
  destruct (read_expr_visited seen st1 (nd_visibility (node cfg n)) H1 V1) as (st2 & E2 & H2 & V2). rewrite E2.
  by exists st2.
Qed.

Definition text (es : list entry) : string := lines_text (map (entry_line cfg rho) es).

Lemma text_cons e es : text (e :: es) = (entry_line cfg rho e +:+ String NL "") +:+ text es.
Proof. apply lines_text_cons. Qed.

Lemma text_app es1 es2 : text (es1 ++ es2) = text es1 +:+ text es2.
Proof.
  induction es1 as [|e es1 IH]; [done|]. cbn [app]. by rewrite !text_cons, IH, !append_assoc.
Qed.

Lemma comment_text_entries p : text (comment_entries p) = comment_text p.
Proof.
  unfold comment_entries. rewrite !text_cons. cbn [entry_line]. change (text []) with "".
  rewrite !append_assoc, append_nil_r. reflexivity.
Qed.

(** One event adds the text of its entries *)
Lemma event_ok seen st e out after evs : InUse cfg U st -> visited_is seen st ->
  (forall n s, e = Enter n -> nd_item (node cfg n) = NSym s -> In s (c_unique_defined_syms cfg)) ->
  (forall n, e = Enter n -> n <> c_top_node cfg) ->
  exists st' out' seen' after' es,
    on_event (leave_node cfg E) (visit_node cfg E) (out, after) e st = (Ok (out', after'), st')
    /\ InUse cfg U st' /\ visited_is seen' st'
    /\ d_entries cfg U rho (e :: evs) seen after = es ++ d_entries cfg U rho evs seen' after'
    /\ out' = out +:+ text es.
Proof.
  intros H Hv Hd Htop. destruct e as [n|n]; cbn [on_event d_entries].
  - unfold visit_node, d_commented. destruct (nd_item (node cfg n)) as [s|c| | |] eqn:Hi.
    + unfold sget. cbv [mbind K_bind M_bind gets]. rewrite (Hv s (Hd n s eq_refl Hi)).
      case_bool_decide as Hseen.
      { exists st, out, seen, after, []. split_and!; try done. by rewrite append_nil_r. }
      destruct (mark_visited seen st s H Hv) as (st1 & E1 & H1 & V1). rewrite E1.
      destruct (read_config_string_visited _ st1 s H1 V1) as (st2 & E2 & H2 & V2). rewrite E2, config_string_line.
      destruct (d_wtc cfg U rho s).
      * destruct (String.eqb_spec (symbol_line cfg s (v_str rho s) +:+ String NL "") "") as [Hemp|_].
        { by apply append_nil_inv in Hemp. }
        eexists st2, _, (s :: seen), false, ((if after then [EText ""] else []) ++ [ESymbol s]).
        split_and!; [reflexivity|done|done|by destruct after|].
        f_equal. destruct after; rewrite text_app, ?text_cons; cbn [entry_line]; by rewrite ?append_nil_r, ?append_nil_l.
      * exists st2, out, (s :: seen), after, []. split_and!; try done. by rewrite append_nil_r.
    + cbv [mbind K_bind M_bind].
      destruct (read_expr_visited seen st (nd_dep (node cfg n)) H Hv) as (st1 & E1 & H1 & V1). rewrite E1.
      destruct (_ =? 0); exists st1, out, seen, after, []; split_and!; try done; by rewrite append_nil_r.
    + cbv [mbind K_bind M_bind]. unfold d_menu_visible.
      destruct (read_expr_visited seen st (nd_dep (node cfg n)) H Hv) as (st1 & E1 & H1 & V1). rewrite E1.
      destruct (_ =? 0).
      { exists st1, out, seen, after, []. split_and!; try done. by rewrite append_nil_r. }
      destruct (read_expr_visited seen st1 (nd_visibility (node cfg n)) H1 V1) as (st2 & E2 & H2 & V2). rewrite E2.
      destruct (d_expr cfg rho (nd_visibility (node cfg n)) =? 0); cbv [mret K_ret M_ret]; cbn [negb andb].
      { exists st2, out, seen, after, []. split_and!; try done. by rewrite append_nil_r. }
      destruct (pt_prompts _ PT n (or_introl Hi)) as [Ht|(p & cond & Hp & _)]; [by apply Htop in Ht|].
      unfold prompt_text, d_node_text. rewrite Hp.
      eexists st2, _, seen, false, (comment_entries p). split_and!; try done. by rewrite comment_text_entries.
    + cbv [mbind K_bind M_bind].
      destruct (read_expr_visited seen st (nd_dep (node cfg n)) H Hv) as (st1 & E1 & H1 & V1). rewrite E1.
      destruct (_ =? 0); cbv [mret K_ret M_ret]; cbn [negb].
      { exists st1, out, seen, after, []. split_and!; try done. by rewrite append_nil_r. }
      destruct (pt_prompts _ PT n (or_intror Hi)) as [Ht|(p & cond & Hp & _)]; [by apply Htop in Ht|].
      unfold prompt_text, d_node_text. rewrite Hp.
      eexists st1, _, seen, false, (comment_entries p). split_and!; try done. by rewrite comment_text_entries.
    + cbv [mbind K_bind M_bind].
      destruct (read_expr_visited seen st (nd_dep (node cfg n)) H Hv) as (st1 & E1 & H1 & V1). rewrite E1.
      destruct (_ =? 0); exists st1, out, seen, after, []; split_and!; try done; by rewrite append_nil_r.
  - unfold leave_node. destruct (nd_item (node cfg n)) as [s|c| | |] eqn:Hi;
      try (exists st, out, seen, after, []; split_and!; try done; by rewrite append_nil_r).
    cbv [mbind K_bind M_bind].
    destruct (dep_and_visibility_ok seen st n H Hv) as (st1 & E1 & H1 & V1). rewrite E1.
    destruct (d_menu_visible cfg rho n); cbn [andb];
      [|exists st1, out, seen, after, []; split_and!; try done; by rewrite append_nil_r].
    case_bool_decide as Ht; cbn [negb];
      [exists st1, out, seen, after, []; split_and!; try done; by rewrite append_nil_r|].
    destruct (pt_prompts _ PT n (or_introl Hi)) as [|(p & cond & Hp & _)]; [done|].
    unfold prompt_text, d_node_text. rewrite Hp.
    eexists st1, _, seen, true, [EText ("# end of " +:+ p)]. split_and!; try done.
Qed.

Lemma events_ok evs : forall seen st out after, InUse cfg U st -> visited_is seen st ->
  (forall n s, In (Enter n) evs -> nd_item (node cfg n) = NSym s -> In s (c_unique_defined_syms cfg)) ->
  (forall n, In (Enter n) evs -> n <> c_top_node cfg) ->
  exists st' after', foldM (on_event (leave_node cfg E) (visit_node cfg E)) (out, after) evs st
      = (Ok (out +:+ text (d_entries cfg U rho evs seen after), after'), st')
    /\ InUse cfg U st'.
Proof.
  induction evs as [|e evs IH]; intros seen st out after H Hv Hd Ht.
  - exists st, after. split; [|done]. simpl. by rewrite append_nil_r.
  - destruct (event_ok seen st e out after evs H Hv) as (st1 & out1 & seen1 & after1 & es & E1 & H1 & V1 & Hes & Hout).
    { intros n s -> Hi. eapply Hd; eauto. by left. }
    { intros n ->. apply Ht. by left. }
    destruct (IH seen1 st1 out1 after1 H1 V1) as (st2 & after2 & E2 & H2).
    { intros n s Hin. apply Hd. by right. }
    { intros n Hin. apply Ht. by right. }
    exists st2, after2. split; [|done]. cbn [foldM]. cbv [mbind K_bind M_bind]. rewrite E1, E2, Hes, Hout.
    by rewrite text_app, append_assoc.
Qed.
End Write.

(** ** Resetting flags *)

Section Reset.
Context (cfg : Config) `{L : Loaded cfg} (U : uvals).

(** Setters that leave caches and user values alone *)
Definition flag_setter (g : SymState -> SymState) : Prop :=
  (forall x, g (g x) = g x) /\ forall x, user_value (g x) = user_value x /\ cached_tri_val (g x) = cached_tri_val x
    /\ cached_str_val (g x) = cached_str_val x /\ cached_vis (g x) = cached_vis x
    /\ cached_assignable (g x) = cached_assignable x /\ write_to_conf (g x) = write_to_conf x.

Lemma reset_syms g l st : flag_setter g -> InUse cfg U st ->
  exists st', forM_ l (fun s => sput g s) st = (Ok tt, st') /\ InUse cfg U st'
    /\ (forall s, symst st' s = if bool_decide (s ∈ l) then g (symst st s) else symst st s)
    /\ st_choices st' = st_choices st.
Proof.
  intros [Hi Hg]. unfold forM_. revert st. induction l as [|s l IH]; intros st H.
  - by exists st.
  - assert (H1 : InUse cfg U (alter_sym g s st)).
    { apply (in_use_same cfg U st); [exact H| |].
      - intros i. apply same_at_put_sym. intros x. specialize (Hg x). tauto.
      - split; intros; autorewrite with kst; [case_decide; subst; [apply Hg|done]|done]. }
    destruct (IH _ H1) as (st' & E & H' & Hs & Hc). exists st'. split; [|split; [done|split; [|exact Hc]]].
    + cbn [foldM]. cbv [mbind M_bind sput modify]. exact E.
    + intros x. rewrite Hs. autorewrite with kst. rewrite !bool_decide_decide.
      destruct (decide (s = x)) as [->|Hne].
      * rewrite (decide_True (P := x ∈ x :: l)) by by left. by destruct (decide (x ∈ l)); [apply Hi|].
      * destruct (decide (x ∈ l)).
        -- by rewrite decide_True by by right.
        -- by rewrite decide_False by (intros [->|?]%elem_of_cons; done).
Qed.

Definition ch_flag_setter (g : ChoiceState -> ChoiceState) : Prop :=
  (forall x, g (g x) = g x) /\ forall x, ch_user_value (g x) = ch_user_value x
    /\ ch_user_selection (g x) = ch_user_selection x /\ ch_cached_vis (g x) = ch_cached_vis x
    /\ ch_cached_selection (g x) = ch_cached_selection x /\ ch_cached_assignable (g x) = ch_cached_assignable x.

Lemma reset_choices g l st : ch_flag_setter g -> InUse cfg U st ->
  exists st', forM_ l (fun c => cput g c) st = (Ok tt, st') /\ InUse cfg U st'
    /\ (forall c, chst st' c = if bool_decide (c ∈ l) then g (chst st c) else chst st c)
    /\ st_syms st' = st_syms st.
Proof.
  intros [Hi Hg]. unfold forM_. revert st. induction l as [|c l IH]; intros st H.
  - by exists st.
  - assert (H1 : InUse cfg U (alter_choice g c st)).
    { apply (in_use_same cfg U st); [exact H| |].
      - intros [s|c']; simpl; [by split_and!|]. autorewrite with kst.
        case_decide; [subst|by split_and!]. specialize (Hg (chst st c')). tauto.
      - split; intros; autorewrite with kst; [done|]. case_decide; [subst|done]. specialize (Hg (chst st c0)). tauto. }
    destruct (IH _ H1) as (st' & E & H' & Hs & Hc). exists st'. split; [|split; [done|split; [|exact Hc]]].
    + cbn [foldM]. cbv [mbind M_bind cput modify]. exact E.
    + intros x. rewrite Hs. autorewrite with kst. rewrite !bool_decide_decide.
      destruct (decide (c = x)) as [->|Hne].
      * rewrite (decide_True (P := x ∈ x :: l)) by by left. by destruct (decide (x ∈ l)); [apply Hi|].
      * destruct (decide (x ∈ l)).
        -- by rewrite decide_True by by right.
        -- by rewrite decide_False by (intros [->|?]%elem_of_cons; done).
Qed.
End Reset.

(** ** The contents of the file *)

Section Contents_.
Context (cfg : Config) `{L : Loaded cfg} `{T : Treed cfg} (PT : plain_texts cfg) (U : uvals).
Local Abbreviation rho := (solution cfg U).

Lemma enter_events t n : In (Enter n) (events t) <-> In n (preorder t).
Proof.
  induction t as [|m ch IHc nx IHn]; [done|]. cbn [events preorder In]. rewrite !in_app_iff.
  rewrite <- IHc, <- IHn. split.
  - intros [[= ->]|[H|[H|H]]]; auto. destruct ch; [done|]. by destruct H.
  - intros [->|[H|H]]; auto.
Qed.

Lemma enter_tree n : In (Enter n) (tree_events cfg tree) <-> In n (preorder tree).
Proof.
  unfold tree_events. rewrite in_app_iff, enter_events. split; [intros [H|H]|auto]; [done|].
  destruct tree; [done|]. by destruct H.
Qed.

Lemma tree_not_top n : In n (preorder tree) -> n <> c_top_node cfg.
Proof.
  intros Hn ->. pose proof tree_shape as Hs. destruct tree_top as [_ Hp].
  assert (Hpar : forall t p cur m, shape cfg p cur t -> In m (preorder t) -> is_Some (nd_parent (node cfg m))).
  { clear Hn Hs. induction t as [|m' ch IHc nx IHn]; intros p cur m; [done|].
    intros (_ & Hpm & Hc & Hx). cbn [preorder In]. rewrite in_app_iff.
    intros [<-|[H|H]]; [by rewrite Hpm|eauto..]. }
  destruct (Hpar _ _ _ _ Hs Hn) as [q Hq]. congruence.
Qed.

(** The entries of the whole file *)
Definition file_entries : list entry := d_entries cfg U rho (tree_events cfg tree) [] false.

Lemma config_contents_ok header st : InUse cfg U st ->
  exists st', config_contents cfg (ev cfg depth) header st
      = (Ok (default (c_config_header cfg) header +:+ text cfg U file_entries), st')
    /\ InUse cfg U st'.
Proof.
  intros H. unfold config_contents.
  assert (Hf : flag_setter (set_visited 0)) by (split; [done|by intros; split_and!]).
  destruct (reset_syms cfg U (set_visited 0) (c_unique_defined_syms cfg) st Hf H) as (st1 & E1 & H1 & Hs & _).
  assert (V1 : visited_is cfg [] st1).
  { intros s Hd. rewrite Hs, bool_decide_eq_true_2 by by apply list_elem_of_In. done. }
  destruct (events_ok cfg PT U (tree_events cfg tree) [] st1 (default (c_config_header cfg) header) false H1 V1)
    as (st2 & after & E2 & H2).
  { intros n s Hn%enter_tree Hi. apply tree_syms. eauto. }
  { intros n Hn%enter_tree. by apply tree_not_top. }
  exists st2. split; [|done]. cbv [mbind K_bind M_bind]. rewrite E1.
  rewrite (walk_tree cfg _ _ T). rewrite E2. reflexivity.
Qed.

(** Each written symbol has one entry, and the comments are ignored text *)
Lemma entry_syms_in evs : forall seen after s,
  In s (entry_syms (d_entries cfg U rho evs seen after))
  <-> (s ∉ seen) /\ d_wtc cfg U rho s = true /\ exists n, In (Enter n) evs /\ nd_item (node cfg n) = NSym s.
Proof.
  induction evs as [|e evs IH]; intros seen after s.
  { simpl. split; [done|]. intros (_ & _ & n & [] & _). }
  assert (Hskip : forall seen after, (forall n, e = Enter n -> nd_item (node cfg n) <> NSym s) ->
     In s (entry_syms (d_entries cfg U rho evs seen after))
     <-> (s ∉ seen) /\ d_wtc cfg U rho s = true /\ exists n, In (Enter n) (e :: evs) /\ nd_item (node cfg n) = NSym s).
  { intros seen' after' Hn. rewrite IH. split; intros (H1 & H2 & n & H3 & H4); split_and!; try done.
    - exists n. split; [by right|done].
    - destruct H3 as [->|H3]; [by apply (Hn n) in H4|]. by exists n. }
  destruct e as [n|n]; cbn [d_entries].
  - destruct (nd_item (node cfg n)) as [x|c| | |] eqn:Hi;
      try (assert (Hn : forall m, Enter n = Enter m -> nd_item (node cfg m) <> NSym s) by (intros m [= <-]; congruence);
           destruct (d_commented _ _ _); [apply (Hskip seen false Hn)|apply (Hskip seen after Hn)]).
    case_bool_decide as Hx.
    { destruct (decide (x = s)) as [->|Hne].
      - rewrite IH. split; [by intros (? & _)|by intros (? & _)].
      - apply Hskip. intros m [= <-]. congruence. }
    assert (Hrest : forall after', In s (entry_syms (d_entries cfg U rho evs (x :: seen) after'))
      <-> s <> x /\ (s ∉ seen) /\ d_wtc cfg U rho s = true /\ exists n, In (Enter n) evs /\ nd_item (node cfg n) = NSym s).
    { intros after'. rewrite IH, not_elem_of_cons. tauto. }
    destruct (d_wtc cfg U rho x) eqn:Hw.
    + assert (Hl : In s (entry_syms ((if after then [EText ""] else []) ++ ESymbol x :: d_entries cfg U rho evs (x :: seen) false))
        <-> s = x \/ In s (entry_syms (d_entries cfg U rho evs (x :: seen) false))).
      { destruct after; simpl; split; intros [?|?]; auto. }
      rewrite Hl, Hrest. split.
      * intros [->|(H1 & H2 & H3 & m & H4 & H5)]; split_and!; try done; [exists n|exists m]; split; try done;
          [by left|by right].
      * intros (H1 & H2 & m & [[= <-]|H3] & H4); [left; congruence|].
        destruct (decide (s = x)); [by left|]. right. split_and!; try done. by exists m.
    + rewrite Hrest. split.
      * intros (H1 & H2 & H3 & m & H4 & H5). split_and!; try done. exists m. split; [by right|done].
      * intros (H1 & H2 & m & [[= <-]|H3] & H4); [congruence|]. split_and!; try done; [congruence|by exists m].
  - assert (Hn : forall m, Leave n = Enter m -> nd_item (node cfg m) <> NSym s) by done.
    destruct (nd_item (node cfg n)) as [x|c| | |] eqn:Hi; try apply (Hskip seen after Hn).
    destruct (_ && _); [apply (Hskip seen true Hn)|apply (Hskip seen after Hn)].
Qed.

Lemma entry_syms_app es1 es2 : entry_syms (es1 ++ es2) = entry_syms es1 ++ entry_syms es2.
Proof. apply omap_app. Qed.

Lemma entry_syms_nodup evs : forall seen after, NoDup (entry_syms (d_entries cfg U rho evs seen after)).
Proof.
  induction evs as [|e evs IH]; intros seen after; [by constructor|].
  destruct e as [n|n]; cbn [d_entries].
  - destruct (nd_item (node cfg n)) as [x|c| | |];
      try (destruct (d_commented _ _ _); [rewrite entry_syms_app; apply IH|apply IH]).
    case_bool_decide; [apply IH|]. destruct (d_wtc cfg U rho x); [|apply IH].
    rewrite entry_syms_app.
    assert (Hl : NoDup (x :: entry_syms (d_entries cfg U rho evs (x :: seen) false))).
    { constructor; [|apply IH]. rewrite list_elem_of_In, entry_syms_in. intros (H1 & _). apply H1. by left. }
    by destruct after.
  - destruct (nd_item (node cfg n)); try apply IH. destruct (_ && _); apply IH.
Qed.

(** The texts among the entries are lines that loading ignores *)
Definition good_text (e : entry) : Prop :=
  match e with EText l => one_line l = true /\ ignored cfg l = true | ESymbol _ => True end.

Lemma texts_good evs : (forall n, In (Enter n) evs -> n <> c_top_node cfg) ->
  forall seen after, Forall good_text (d_entries cfg U rho evs seen after).
Proof.
  destruct (pt_blank _ PT) as [Hb Hh]. intros Ht.
  induction evs as [|e evs IH]; intros seen after; [by constructor|].
  assert (IH' := IH (fun n H => Ht n (or_intror H))). clear IH.
  assert (Hc : forall n, e = Enter n -> nd_item (node cfg n) = NMenu \/ nd_item (node cfg n) = NComment ->
     Forall good_text (comment_entries (d_node_text cfg n))).
  { intros n -> Hi. destruct (pt_prompts _ PT n Hi) as [E|(p & cond & Hp & H1 & H2 & _)].
    { by apply Ht in E; [|left]. }
    unfold comment_entries, d_node_text. rewrite Hp. repeat constructor; done. }
  destruct e as [n|n]; cbn [d_entries].
  - unfold d_commented. destruct (nd_item (node cfg n)) as [x|c| | |] eqn:Hi; try apply IH'.
    + case_bool_decide; [apply IH'|]. destruct (d_wtc cfg U rho x); [|apply IH'].
      destruct after; repeat constructor; try done; apply IH'.
    + destruct (d_menu_visible _ _ _); [|apply IH']. apply Forall_app. split; [apply Hc; auto|apply IH'].
    + destruct (negb _); [|apply IH']. apply Forall_app. split; [apply Hc; auto|apply IH'].
  - destruct (nd_item (node cfg n)) eqn:Hi; try apply IH'.
    destruct (d_menu_visible cfg rho n && _) eqn:Hv; [|apply IH'].
    apply andb_true_iff in Hv as [_ Hn%negb_true_iff%bool_decide_eq_false].
    destruct (pt_prompts _ PT n (or_introl Hi)) as [|(p & cond & Hp & H1 & _ & H2)]; [done|].
    unfold d_node_text. rewrite Hp. constructor; [|apply IH']. split; [by rewrite one_line_app, H1|done].
Qed.

Lemma file_texts : Forall good_text file_entries.
Proof. apply texts_good. intros n Hn%enter_tree. by apply tree_not_top. Qed.

Lemma file_syms s : In s (entry_syms file_entries) <-> written cfg U rho s.
Proof.
  unfold file_entries, written. rewrite entry_syms_in, tree_syms. split.
  - intros (_ & H1 & n & H2%enter_tree & H3). eauto.
  - intros ((n & H2 & H3) & H1). split_and!; [by apply not_elem_of_nil|done|]. exists n. by rewrite enter_tree.
Qed.
End Contents_.
