(* ===== verification/Restore.v ===== *)
(** * Loading what was saved

    The entries of a saved file are loaded one after the other, then the symbols
    and choices that were not mentioned are unset.  The user values that result
    are those of [Reload.saved_users], so that every value is the saved one. *)
From S2P Require Import Prelude PyStr Model Eval EvalSpec EvalRefine EvalDet Values SetValue Validity Session ConfigFile.
From S2P Require Import Frames Tree Lines Reload Loading Saving.

Section Restore.
Context (cfg : Config) `{L : Loaded cfg} (FL : fileable cfg).
Context (U : uvals) (HU : user_ok cfg U).
Local Abbreviation rho := (solution cfg U).
Local Abbreviation val s := (v_str rho s).
Context (SV : savable cfg U rho).

(** Has one of these symbols said what the mode of [c] is? *)
Definition says_mode (seen : list symid) (c : choiceid) : Prop :=
  exists s, In s seen /\ sym_choice (sym cfg s) = Some c /\ v_tri rho s <> 0.

(** The user values and flags after the lines of the symbols [seen] *)
Record progress (seen : list symid) (V : uvals) (B : symid -> bool) (C : choiceid -> bool) : Prop := {
  pg_sym : forall s, In s (c_unique_defined_syms cfg) ->
    (B s = true /\ In s seen /\ u_sym V s = entered cfg rho s)
    \/ (B s = false /\ (In s seen -> entered cfg rho s = None));
  pg_choice : forall c, In c (c_unique_choices cfg) ->
    (C c = true /\ says_mode seen c /\ u_mode V c = Some (v_ctri rho c)
     /\ (v_ctri rho c = 2 -> u_sel V c = v_csel rho c))
    \/ (C c = false /\ ~ says_mode seen c);
}.

Lemma written_not_const s : written cfg U rho s -> is_tri_const cfg s = false.
Proof.
  intros [_ Hw]. unfold d_wtc in Hw. by destruct (is_tri_const cfg s).
Qed.

Lemma written_known s : written cfg U rho s -> sym_orig_type (sym cfg s) <> UNKNOWN.
Proof.
  intros [_ Hw] E. unfold d_wtc in Hw. rewrite E in Hw. by rewrite orb_true_r in Hw.
Qed.

Lemma val_tri s : is_bool_tristate (sym_orig_type (sym cfg s)) = true ->
  val s = default "" (TRI_TO_STR (v_tri rho s)) /\ (v_tri rho s = 0 \/ v_tri rho s = 1 \/ v_tri rho s = 2).
Proof.
  intros Ht. split.
  - rewrite (model_str _ _ _ (sol cfg U HU)). unfold d_str. by rewrite Ht.
  - pose proof (sol_tri cfg U HU s). lia.
Qed.

(** What the line of a bool or tristate symbol says *)
Lemma tri_line s : written cfg U rho s -> is_bool_tristate (sym_orig_type (sym cfg s)) = true ->
  accepts cfg s (UStr (val s)) = true /\ typed_value cfg s (UStr (val s)) = UTri (v_tri rho s)
  /\ tri_of_str (UStr (val s)) = UTri (v_tri rho s)
  /\ mode_line cfg s (val s) = if v_tri rho s =? 0 then None else sym_choice (sym cfg s).
Proof.
  intros Hw Ht. pose proof (entered_tri cfg U HU s (written_not_const s Hw) Ht) as He.
  unfold entered in He. destruct (accepts cfg s (UStr (val s))); [|done]. injection He as He.
  destruct (val_tri s Ht) as [Hv Hc]. unfold mode_line. rewrite Ht, Hv.
  split_and!; try done; [by rewrite <- Hv|by destruct Hc as [->|[->| ->]]|by destruct Hc as [->|[->| ->]]].
Qed.

(** The mode of a choice is valid for its type *)
Lemma mode_valid s c : sym_choice (sym cfg s) = Some c ->
  valid_for_type (ch_orig_type (chc cfg c)) (UTri (v_ctri rho c)) = true.
Proof.
  intros Hc. destruct (fl_choice_type _ FL s c Hc) as (_ & Ht & _). pose proof (sol_ctri cfg U HU c) as Bc.
  assert (E : v_ctri rho c = 0 \/ v_ctri rho c = 1 \/ v_ctri rho c = 2) by lia.
  destruct (ch_orig_type (chc cfg c)) eqn:Eo; try done.
  - assert (v_ctri rho c <> 1).
    { rewrite (model_ctri _ _ _ (sol cfg U HU)). unfold d_ctri. cbv zeta.
      
      assert (Hb : type_eqb (d_ctype cfg rho c) BOOL = true) by (unfold d_ctype; by rewrite Eo).
      rewrite Hb, andb_true_r. destruct (Z.eqb_spec (Z.min (match u_mode U c with
        | Some v => Z.max (if ch_is_optional (chc cfg c) then 0 else 1) v
        | None => if ch_is_optional (chc cfg c) then 0 else 1 end) (v_cvis rho c)) 1); [lia|done]. }
    by destruct E as [->|[E| ->]].
  - by destruct E as [->|[->| ->]].
Qed.

Lemma sym_after_line V s s' :
  u_sym (users_after_line cfg V s (val s)) s'
  = if accepts cfg s (UStr (val s)) && bool_decide (s = s') then Some (typed_value cfg s (UStr (val s))) else u_sym V s'.
Proof.
  unfold users_after_line, after_set_value.
  assert (Hm : forall x, u_sym (match mode_line cfg s (val s) with
     | Some c => after_ch_set_value cfg V c (UStr (val s)) | None => V end) x = u_sym V x).
  { intros x. destruct (mode_line _ _ _); [|done]. unfold after_ch_set_value. destruct (tri_of_str _); [|done].
    by destruct (valid_for_type _ _). }
  destruct (accepts cfg s _); [|apply Hm]. cbn [andb].
  transitivity (if decide (s = s') then Some (typed_value cfg s (UStr (val s))) else u_sym V s');
    [|by case_bool_decide; case_decide].
  assert (Hs : u_sym (set_user (match mode_line cfg s (val s) with
     | Some c => after_ch_set_value cfg V c (UStr (val s)) | None => V end) s (Some (typed_value cfg s (UStr (val s))))) s'
     = if decide (s = s') then Some (typed_value cfg s (UStr (val s))) else u_sym V s').
  { simpl. case_decide; [done|apply Hm]. }
  destruct (sym_choice (sym cfg s)) as [c|]; [|exact Hs].
  destruct (typed_value cfg s (UStr (val s))) as [z|x]; [|exact Hs].
  destruct (decide (z = 2)) as [->|Hz]; [exact Hs|]. by destruct z as [|[| [] |]|].
Qed.

(** The choices after the line of [s] *)
Lemma choice_after_line V C s c : written cfg U rho s ->
  if bool_decide (sym_choice (sym cfg s) = Some c) && negb (v_tri rho s =? 0) then
    u_mode (users_after_line cfg V s (val s)) c = Some (v_ctri rho c)
    /\ (v_ctri rho c = 2 -> u_sel (users_after_line cfg V s (val s)) c = v_csel rho c)
    /\ ch_was_after_line cfg C s (val s) c = true
  else
    u_mode (users_after_line cfg V s (val s)) c = u_mode V c
    /\ u_sel (users_after_line cfg V s (val s)) c = u_sel V c
    /\ ch_was_after_line cfg C s (val s) c = C c.
Proof.
  intros Hw. unfold users_after_line, ch_was_after_line, after_set_value, ch_flag_after.
  destruct (sym_choice (sym cfg s)) as [c'|] eqn:Hc.
  - destruct (fl_choice_type _ FL s c' Hc) as (Ht & _ & Hn). destruct (tri_line s Hw Ht) as (-> & -> & Htr & ->).
    rewrite Hc. destruct (Z.eqb_spec (v_tri rho s) 0) as [Hz|Hz]; cbn [negb].
    + rewrite andb_false_r. rewrite Hz. by split_and!.
    + rewrite andb_true_r. destruct (choice_sym_value cfg FL U HU s c' Hc Hn Hz) as (Hval & _ & Hsel).
      unfold after_ch_set_value, ch_accepts. rewrite Htr, Hval, (mode_valid s c' Hc).
      pose proof (sol_ctri cfg U HU c') as Bc.
      case_bool_decide as Hcc.
      * injection Hcc as ->. unfold put. destruct (decide (v_ctri rho c = 2)) as [E|E].
        -- rewrite E. simpl. rewrite !decide_True by done. split_and!; [done|intros _; symmetry; exact (Hsel E)|done].
        -- assert (E1 : v_ctri rho c = 1) by lia. rewrite E1. simpl. rewrite !decide_True by done.
           split_and!; [done|lia|done].
      * assert (Hne : c' <> c) by congruence. unfold put.
        destruct (decide (v_ctri rho c' = 2)) as [E|E].
        -- rewrite E. simpl. by rewrite !decide_False.
        -- assert (E1 : v_ctri rho c' = 1) by lia. rewrite E1. simpl. by rewrite !decide_False.
  - rewrite bool_decide_eq_false_2 by done. cbn [andb].
    assert (Hm : mode_line cfg s (val s) = None) by (unfold mode_line; rewrite Hc; by destruct (_ && _)).
    rewrite Hm. destruct (accepts cfg s _); by split_and!.
Qed.

Lemma progress_step seen V B C s : progress seen V B C -> written cfg U rho s -> ~ In s seen ->
  progress (s :: seen) (users_after_line cfg V s (val s)) (was_after_line cfg B s (val s))
    (ch_was_after_line cfg C s (val s)).
Proof.
  intros [PS PC] Hw Hs. split.
  - intros x Hx. rewrite sym_after_line. unfold was_after_line, put. specialize (PS x Hx).
    destruct (decide (s = x)) as [<-|Hne].
    + unfold entered. destruct (accepts cfg s (UStr (val s))) eqn:Ha; cbn [andb].
      * left. rewrite bool_decide_eq_true_2, decide_True by done. split_and!; [done|by left|done].
      * right. destruct PS as [(_ & ? & _)|[? _]]; [done|]. done.
    + rewrite bool_decide_eq_false_2, andb_false_r by done.
      assert (HB : (if accepts cfg s (UStr (val s)) then (fun y => if decide (s = y) then true else B y) else B) x = B x).
      { destruct (accepts _ _ _); [|done]. by rewrite decide_False. }
      rewrite HB. destruct PS as [(? & ? & ?)|[? Hn]]; [left; split_and!; [done|by right|done]|].
      right. split; [done|]. intros [?|?]; [done|auto].
  - intros c Hc. pose proof (choice_after_line V C s c Hw) as H. specialize (PC c Hc).
    destruct (bool_decide (sym_choice (sym cfg s) = Some c)) eqn:Hsc; cbn [andb] in H.
    + apply bool_decide_eq_true in Hsc. destruct (Z.eqb_spec (v_tri rho s) 0) as [Hz|Hz]; cbn [negb] in H.
      * destruct H as (-> & -> & ->). destruct PC as [(? & (x & ? & ?) & ?)|[? Hn]].
        -- left. split_and!; [done| |tauto..]. exists x. split; [by right|done].
        -- right. split; [done|]. intros (x & [<-|Hx] & H1 & H2); [done|]. apply Hn. by exists x.
      * left. destruct H as (? & ? & ?). split_and!; [done| |done..]. exists s. split_and!; [by left|done..].
    + apply bool_decide_eq_false in Hsc. destruct H as (-> & -> & ->).
      destruct PC as [(? & (x & ? & ?) & ?)|[? Hn]].
      * left. split_and!; [done| |tauto..]. exists x. split; [by right|done].
      * right. split; [done|]. intros (x & [<-|Hx] & H1 & H2); [done|]. apply Hn. by exists x.
Qed.

Lemma written_line s : written cfg U rho s -> line_value cfg s (val s) = true.
Proof.
  intros Hw. destruct (sv_lines _ _ _ SV s (proj1 Hw)) as [Hone Hr]. unfold line_value. rewrite Hone. cbn [andb].
  pose proof (written_known s Hw) as Hk.
  destruct (sym_orig_type (sym cfg s)) eqn:Et; try done.
  - destruct (val_tri s) as [Hv Hc]; [by rewrite Et|]. rewrite Hv.
    assert (v_tri rho s <> 1).
    { eapply bool_not_m; [apply (sol cfg U HU)|apply loaded_ranked|by apply user_ok_typed|by apply written_not_const|].
      unfold d_type. by rewrite Et. }
    by destruct Hc as [->|[?| ->]].
  - destruct (val_tri s) as [Hv Hc]; [by rewrite Et|]. rewrite Hv. by destruct Hc as [->|[->| ->]].
  - rewrite (Hr eq_refl). apply String.eqb_refl.
  - rewrite (Hr eq_refl). apply String.eqb_refl.
Qed.

(** Loading entries *)
Lemma load_entries f es : forall n seen V B C st,
  tracked cfg V B C st -> progress seen V B C -> Forall (good_text cfg) es -> NoDup (entry_syms es) ->
  (forall s, In s (entry_syms es) -> written cfg U rho s /\ ~ In s seen) ->
  exists st' V' B' C' seen', load_lines cfg depth f n (map (fun e => entry_line cfg rho e +:+ String NL "") es) st = (Ok tt, st')
    /\ tracked cfg V' B' C' st' /\ progress seen' V' B' C'
    /\ (forall s, In s seen' <-> In s seen \/ In s (entry_syms es)).
Proof.
  induction es as [|e es IH]; intros n seen V B C st HT HP Hg Hnd Hw.
  { exists st, V, B, C, seen. split_and!; try done. intros s. simpl. tauto. }
  inversion Hg as [|? ? Hge Hges]; subst. cbn [map load_lines]. cbv [mbind K_bind M_bind].
  destruct e as [l|s]; cbn [entry_line].
  - destruct Hge as [Hone Hig].
    assert (Hig' : ignored cfg (l +:+ String NL "") = true) by (unfold ignored in *; by rewrite rstrip_newline).
    destruct (load_ignored cfg f n (l +:+ String NL "") st Hig') as (st1 & E1 & S1). rewrite E1.
    apply (IH (n + 1) seen V B C st1); try done. by eapply tracked_same.
  - change (entry_syms (ESymbol s :: es)) with (s :: entry_syms es) in *.
    destruct (Hw s (or_introl eq_refl)) as [Hws Hns]. inversion Hnd as [|? ? Hn1 Hn2]; subst.
    assert (HB : B s = false).
    { destruct (pg_sym _ _ _ _ HP s (proj1 Hws)) as [(_ & ? & _)|[? _]]; done. }
    destruct (load_symbol_line cfg V B C st s (val s) f n FL HT (proj1 Hws) (written_line s Hws) HB)
      as (st1 & E1 & HT1). rewrite E1.
    pose proof (progress_step seen V B C s HP Hws Hns) as HP1.
    destruct (IH (n + 1) (s :: seen) _ _ _ st1 HT1 HP1 Hges Hn2) as (st2 & V2 & B2 & C2 & seen2 & E2 & HT2 & HP2 & Hs2).
    { intros x Hx. destruct (Hw x (or_intror Hx)) as [Hwx Hnx]. split; [done|]. intros [<-|?]; [|done].
      by apply list_elem_of_In in Hx. }
    exists st2, V2, B2, C2, seen2. split_and!; try done. intros x. rewrite Hs2. simpl. tauto.
Qed.
End Restore.
