(* ===== verification/RoundTrip.v ===== *)
(** * A saved configuration can be loaded again

    The symbols and choices that the file does not mention are unset, the lines
    of the header are ignored, and the values of the configuration are those that
    were saved. *)
From S2P Require Import Prelude PyStr Model Eval EvalSpec EvalRefine EvalDet Values SetValue Validity Session ConfigFile.
From S2P Require Import Frames Tree Lines Reload Loading Saving Restore.

(** ** Unsetting *)

Section Unset.
Context (cfg : Config) `{L : Loaded cfg}.

Lemma tracked_unset U B C st s : tracked cfg U B C st ->
  exists st', unset_value cfg depth s st = (Ok tt, st') /\ tracked cfg (set_user U s None) B C st'.
Proof.
  intros HT. destruct (unwrap cfg (fun _ : unit => ANone) (unset_value cfg depth s) tt (set_user U s None) st)
    as (st' & E & H'); [by intros [] []|exact (step_in_use cfg U st (OUnset s) (tk_use _ _ _ _ _ HT) eq_refl)|].
  exists st'. split; [done|]. assert (Hst : st' = (unset_value cfg depth s st).2) by exact (eq_sym (f_equal snd E)).
  subst st'. destruct HT as [_ HB HC]. split; [done| |]; intros x; [rewrite <- (HB x)|rewrite <- (HC x)];
    unfold unset_value, sget; rewrite snd_bind; cbn [fst snd gets];
    (destruct (bool_decide _); [|done]); cbn [when]; rewrite snd_bind; cbn [fst snd sput modify].
  - rewrite prompt_was. autorewrite with kst. by case_decide; subst.
  - rewrite prompt_ch_was. by autorewrite with kst.
Qed.

Lemma tracked_ch_unset U B C st c : tracked cfg U B C st -> is_static cfg (IChoice c) = false ->
  exists st', ch_unset_value cfg depth c st = (Ok tt, st')
    /\ tracked cfg (set_sel (set_mode U c None) c None) B C st'.
Proof.
  intros HT Hs. assert (Ho : op_ok cfg (OChoiceUnset c) = true) by (unfold op_ok; by rewrite Hs).
  destruct (unwrap cfg (fun _ : unit => ANone) (ch_unset_value cfg depth c) tt (set_sel (set_mode U c None) c None) st)
    as (st' & E & H'); [by intros [] []|exact (step_in_use cfg U st (OChoiceUnset c) (tk_use _ _ _ _ _ HT) Ho)|].
  exists st'. split; [done|]. assert (Hst : st' = (ch_unset_value cfg depth c st).2) by exact (eq_sym (f_equal snd E)).
  subst st'. destruct HT as [_ HB HC]. split; [done| |]; intros x; [rewrite <- (HB x)|rewrite <- (HC x)];
    unfold ch_unset_value, cget; rewrite snd_bind; cbn [fst snd gets]; rewrite snd_bind; cbn [fst snd gets];
    (match goal with |- context [when ?b _] => destruct b end; [|done]); cbn [when]; rewrite snd_bind; cbn [fst snd cput modify];
    rewrite snd_bind; cbn [fst snd cput modify].
  - rewrite rec_was. by autorewrite with kst.
  - rewrite rec_ch_was. autorewrite with kst. repeat case_decide; by subst.
Qed.

(** The two loops at the end of [_load_config] *)
Lemma unset_syms B C l : forall U st, tracked cfg U B C st ->
  exists st' U', forM_ l (fun s => b ← sget was_set s; when (negb b) (unset_value cfg depth s)) st = (Ok tt, st')
    /\ tracked cfg U' B C st'
    /\ (forall s, u_sym U' s = if bool_decide (s ∈ l) && negb (B s) then None else u_sym U s)
    /\ (forall c, u_mode U' c = u_mode U c /\ u_sel U' c = u_sel U c).
Proof.
  unfold forM_. induction l as [|s l IH]; intros U st HT.
  { exists st, U. split_and!; try done. }
  assert (H1 : exists st1, (b ← sget was_set s; when (negb b) (unset_value cfg depth s) : K unit) st = (Ok tt, st1)
     /\ tracked cfg (if B s then U else set_user U s None) B C st1).
  { cbv [sget]. cbv [mbind K_bind M_bind gets]. rewrite (tk_was _ _ _ _ _ HT). destruct (B s); cbn [negb when].
    - by exists st.
    - by apply tracked_unset. }
  destruct H1 as (st1 & E1 & HT1). destruct (IH _ st1 HT1) as (st2 & U' & E2 & HT2 & Hs & Hc).
  exists st2, U'. split; [exact (foldM_cons _ _ _ _ _ _ _ _ E1 E2)|]. split; [done|]. split.
  - intros x. rewrite Hs. destruct (decide (x = s)) as [->|Hne].
    + rewrite (bool_decide_eq_true_2 (s ∈ s :: l)) by by left. destruct (B s); cbn [negb].
      * by rewrite !andb_false_r.
      * simpl. rewrite decide_True by done. by destruct (bool_decide _).
    + assert (Hb : bool_decide (x ∈ s :: l) = bool_decide (x ∈ l)).
      { apply bool_decide_ext. rewrite elem_of_cons. tauto. }
      rewrite Hb. destruct (B s); [done|]. simpl. by rewrite decide_False.
  - intros c. rewrite (proj1 (Hc c)), (proj2 (Hc c)). by destruct (B s).
Qed.

Lemma unset_choices B C l : forall U st, tracked cfg U B C st -> (forall c, In c l -> is_static cfg (IChoice c) = false) ->
  exists st' U', forM_ l (fun c => b ← cget ch_was_set c; when (negb b) (ch_unset_value cfg depth c)) st = (Ok tt, st')
    /\ tracked cfg U' B C st' /\ (forall s, u_sym U' s = u_sym U s)
    /\ (forall c, u_mode U' c = (if bool_decide (c ∈ l) && negb (C c) then None else u_mode U c)
         /\ u_sel U' c = if bool_decide (c ∈ l) && negb (C c) then None else u_sel U c).
Proof.
  unfold forM_. induction l as [|c l IH]; intros U st HT Hst.
  { by exists st, U. }
  assert (H1 : exists st1, (b ← cget ch_was_set c; when (negb b) (ch_unset_value cfg depth c) : K unit) st = (Ok tt, st1)
     /\ tracked cfg (if C c then U else set_sel (set_mode U c None) c None) B C st1).
  { cbv [cget]. cbv [mbind K_bind M_bind gets]. rewrite (tk_ch_was _ _ _ _ _ HT). destruct (C c); cbn [negb when].
    - by exists st.
    - apply tracked_ch_unset; [done|]. apply Hst. by left. }
  destruct H1 as (st1 & E1 & HT1).
  destruct (IH _ st1 HT1 (fun x Hx => Hst x (or_intror Hx))) as (st2 & U' & E2 & HT2 & Hs & Hm).
  exists st2, U'. split; [exact (foldM_cons _ _ _ _ _ _ _ _ E1 E2)|]. split; [done|]. split.
  - intros x. rewrite Hs. by destruct (C c).
  - intros x. rewrite (proj1 (Hm x)), (proj2 (Hm x)). destruct (decide (x = c)) as [->|Hne].
    + rewrite (bool_decide_eq_true_2 (c ∈ c :: l)) by by left. destruct (C c); cbn [negb].
      * by rewrite !andb_false_r.
      * simpl. rewrite !decide_True by done. by destruct (bool_decide _).
    + assert (Hb : bool_decide (x ∈ c :: l) = bool_decide (x ∈ l)).
      { apply bool_decide_ext. rewrite elem_of_cons. tauto. }
      rewrite Hb. destruct (C c); [done|]. simpl. by rewrite !decide_False.
Qed.

(** The flags are cleared before the lines are read *)
Definition reset_flags : K unit :=
  modify (set_st_missing_syms []);;
  forM_ (c_unique_defined_syms cfg) (fun s => sput (set_was_set false) s);;
  forM_ (c_unique_choices cfg) (fun c => cput (set_ch_was_set false) c).

Lemma reset_flags_ok V st : InUse cfg V st ->
  exists st' B C, reset_flags st = (Ok tt, st') /\ tracked cfg V B C st'
    /\ (forall s, In s (c_unique_defined_syms cfg) -> B s = false) /\ (forall c, In c (c_unique_choices cfg) -> C c = false).
Proof.
  intros H. assert (H0 : InUse cfg V (set_st_missing_syms [] st)).
  { apply (in_use_same cfg V st); [exact H|by intros []|by split]. }
  assert (F1 : flag_setter (set_was_set false)) by (split; [done|by intros; split_and!]).
  assert (F2 : ch_flag_setter (set_ch_was_set false)) by (split; [done|by intros; split_and!]).
  destruct (reset_syms cfg V _ (c_unique_defined_syms cfg) _ F1 H0) as (st1 & E1 & H1 & Hs1 & Hc1).
  destruct (reset_choices cfg V _ (c_unique_choices cfg) _ F2 H1) as (st2 & E2 & H2 & Hc2 & Hs2).
  exists st2, (fun s => was_set (symst st2 s)), (fun c => ch_was_set (chst st2 c)).
  split; [|split; [by split|split]].
  - unfold reset_flags. cbv [mbind K_bind M_bind modify]. by rewrite E1, E2.
  - intros s Hs. unfold symst. rewrite Hs2.
    change (was_set (symst st1 s) = false). by rewrite Hs1, bool_decide_eq_true_2 by by apply list_elem_of_In.
  - intros c Hc. by rewrite Hc2, bool_decide_eq_true_2 by by apply list_elem_of_In.
Qed.
End Unset.

(** ** Loading the saved text *)

(** A header that loading skips: whole lines that are ignored *)
Record plain_header (cfg : Config) (header : string) : Prop := {
  ph_ends : ends_line header;
  ph_no_cr : no_char CR header = true;
  ph_lines : Forall (fun l => ignored cfg l = true) (file_lines header);
}.

Section Load.
Context (cfg : Config) `{L : Loaded cfg} `{T : Treed cfg} (FL : fileable cfg) (PT : plain_texts cfg).

Lemma load_lines_ignored f ls : forall n st, Forall (fun l => ignored cfg l = true) ls ->
  exists st', load_lines cfg depth f n ls st = (Ok tt, st') /\ same_tables st st'.
Proof.
  induction ls as [|l ls IH]; intros n st Hi; [by exists st|]. inversion Hi as [|? ? H1 H2]; subst.
  destruct (load_ignored cfg f n l st H1) as (st1 & E1 & S1).
  destruct (IH (n + 1) st1 H2) as (st2 & E2 & S2). exists st2. cbn [load_lines].
  cbv [mbind K_bind M_bind]. rewrite E1, E2. split; [done|]. destruct S1, S2. split; congruence.
Qed.

Lemma load_lines_app f l1 l2 : forall n st st1, load_lines cfg depth f n l1 st = (Ok tt, st1) ->
  load_lines cfg depth f n (l1 ++ l2) st = load_lines cfg depth f (n + Z.of_nat (length l1)) l2 st1.
Proof.
  induction l1 as [|l l1 IH]; intros n st st1.
  - simpl. intros [= ->]. by rewrite Z.add_0_r.
  - cbn [app load_lines length]. cbv [mbind K_bind M_bind].
    destruct (load_line cfg depth f n l st) as [[[]|e] st2]; [|done]. intros H. rewrite (IH _ _ _ H).
    f_equal. lia.
Qed.

Context (U : uvals) (HU : user_ok cfg U).
Local Abbreviation rho := (solution cfg U).
Context (SV : savable cfg U rho).

(** A choice that is not in n mode is defined *)
Lemma mode_defined c : v_ctri rho c <> 0 -> In c (c_unique_choices cfg).
Proof.
  intros Hc. apply static_ch. destruct (is_static cfg (IChoice c)) eqn:Hs; [|done]. exfalso. apply Hc.
  pose proof (sol_ctri cfg U HU c) as Bc. pose proof (static_choice_vis cfg FL U HU c Hs) as Hv.
  rewrite (model_ctri _ _ _ (sol cfg U HU)) in Bc |- *. unfold d_ctri in *. cbv zeta in *. rewrite Hv in *.
  destruct (Z.eqb_spec (Z.min (match u_mode U c with
    | Some v => Z.max (if ch_is_optional (chc cfg c) then 0 else 1) v
    | None => if ch_is_optional (chc cfg c) then 0 else 1 end) 0) 1) as [E|E]; simpl in *; lia.
Qed.

(** What is left once the symbols and choices that were not set are unset *)
Lemma progress_saved seen V B C U' :
  progress cfg U seen V B C -> (forall s, In s seen <-> written cfg U rho s) ->
  (forall s, u_sym U' s = if bool_decide (s ∈ c_unique_defined_syms cfg) && negb (B s) then None else u_sym V s) ->
  (forall c, u_mode U' c = if bool_decide (c ∈ c_unique_choices cfg) && negb (C c) then None else u_mode V c) ->
  (forall c, C c = true -> u_sel U' c = u_sel V c) ->
  saved_users cfg U rho U'.
Proof.
  intros [PS PC] Hseen Hs Hm Hl.
  assert (Hin : forall {A} (l : list A) `{EqDecision A} x, In x l -> bool_decide (x ∈ l) = true)
    by (intros; by apply bool_decide_eq_true_2, list_elem_of_In).
  assert (Hsay : forall c, mode_entered cfg U rho c = true <-> says_mode cfg U seen c).
  { intros c. rewrite mode_entered_iff. unfold says_mode. by setoid_rewrite Hseen. }
  split.
  - intros s Hw. rewrite Hs, Hin by apply Hw. destruct (PS s (proj1 Hw)) as [(-> & _ & ->)|[-> He]]; [done|].
    simpl. symmetry. apply He, Hseen, Hw.
  - intros s Hd Hw. rewrite Hs, Hin by done. destruct (PS s Hd) as [(_ & Hi & _)|[-> _]]; [|done].
    apply Hseen in Hi as [_ Hi]. congruence.
  - intros c Hc. assert (Hd : In c (c_unique_choices cfg)) by by apply mode_defined, (mode_entered_value cfg FL U HU c).
    apply Hsay in Hc. destruct (PC c Hd) as [(HC & _ & H1 & H2)|[_ []]]; [|done].
    rewrite Hm, Hl, HC, andb_false_r by done. by split.
  - intros c Hd Hc. rewrite Hm, Hin by done. destruct (PC c Hd) as [(_ & H & _)|[-> _]]; [|done].
    apply Hsay in H. congruence.
Qed.

Lemma file_entries_one : Forall (fun l => one_line l = true) (map (entry_line cfg rho) (file_entries cfg U)).
Proof.
  apply Forall_forall. intros l Hl%list_elem_of_fmap. destruct Hl as (e & -> & He).
  pose proof (file_texts cfg PT U) as Ht. rewrite Forall_forall in Ht. specialize (Ht e He).
  destruct e as [l|s]; [by destruct Ht|].
  assert (Hw : written cfg U rho s).
  { apply (file_syms cfg U). apply list_elem_of_In, list_elem_of_omap. by exists (ESymbol s). }
  apply symbol_line_one; [apply (fl_prefix _ FL)|apply (fl_names _ FL s), Hw|apply (sv_lines _ _ _ SV s), Hw].
Qed.

(** The lines of the whole file *)
Lemma saved_lines header : plain_header cfg header ->
  file_lines (translate_newlines (header +:+ text cfg U (file_entries cfg U)))
  = file_lines header ++ map (fun e => entry_line cfg rho e +:+ String NL "") (file_entries cfg U).
Proof.
  intros [He Hc Hi]. pose proof file_entries_one as H1. unfold text.
  rewrite translate_id by by rewrite no_char_app, Hc, lines_text_no_cr.
  by rewrite file_lines_app, file_lines_text, map_map by done.
Qed.

(** The beginning of [_load_config] *)
Lemma reset_tracked V st : InUse cfg V st ->
  exists st' B C, reset_flags cfg st = (Ok tt, st') /\ tracked cfg V B C st' /\ progress cfg U [] V B C.
Proof.
  intros H. destruct (reset_flags_ok cfg V st H) as (st' & B & C & E & HT & HB & HC).
  exists st', B, C. split; [done|]. split; [done|]. split.
  - intros s Hs. right. split; [auto|by intros []].
  - intros c Hc. right. split; [auto|]. by intros (s & [] & _).
Qed.

(** Loading the saved text gives user values for which all values are the saved ones *)
Lemma load_saved header f V st : plain_header cfg header -> InUse cfg V st ->
  exists st' U', load_contents cfg depth f (header +:+ text cfg U (file_entries cfg U)) true st = (Ok tt, st')
    /\ InUse cfg U' st' /\ saved_users cfg U rho U'.
Proof.
  intros Hh H. destruct (reset_tracked V st H) as (st1 & B & C & E1 & T1 & P1).
  destruct (load_lines_ignored f (file_lines header) 1 st1 (ph_lines _ _ Hh)) as (st2 & E2 & S2).
  pose proof (tracked_same cfg V B C st1 st2 T1 S2) as T2.
  destruct (load_entries cfg FL U HU SV f (file_entries cfg U) (1 + Z.of_nat (length (file_lines header)))
              [] V B C st2 T2 P1 (file_texts cfg PT U)) as (st3 & V3 & B3 & C3 & seen & E3 & T3 & P3 & Hseen).
  { apply entry_syms_nodup. }
  { intros s Hs. split; [by apply (file_syms cfg U)|by intros []]. }
  destruct (unset_syms cfg B3 C3 (c_unique_defined_syms cfg) V3 st3 T3) as (st4 & V4 & E4 & T4 & Hs4 & Hc4).
  destruct (unset_choices cfg B3 C3 (c_unique_choices cfg) V4 st4 T4) as (st5 & V5 & E5 & T5 & Hs5 & Hm5).
  { intros c. apply static_ch. }
  exists st5, V5. split; [|split; [apply T5|]].
  - unfold load_contents. fold (reset_flags cfg). cbn [when]. rewrite (saved_lines header Hh).
    assert (E : load_lines cfg depth f 1 (file_lines header ++ map (fun e => entry_line cfg rho e +:+ String NL "")
      (file_entries cfg U)) st1 = (Ok tt, st3)) by (by rewrite (load_lines_app _ _ _ _ _ _ E2)).
    refine (bind_ok _ _ _ _ _ _ E1 _). refine (bind_ok _ _ _ _ _ _ E _). exact (bind_ok _ _ _ _ _ _ E4 E5).
  - apply (progress_saved seen V3 B3 C3 V5 P3).
    + intros s. rewrite Hseen, (file_syms cfg U). split; [intros [[]|?]; done|auto].
    + intros s. by rewrite Hs5, Hs4.
    + intros c. by rewrite (proj1 (Hm5 c)), (proj1 (Hc4 c)).
    + intros c Hc. by rewrite (proj2 (Hm5 c)), Hc, andb_false_r, (proj2 (Hc4 c)).
Qed.
End Load.
