(* ===== verification/FileChecks.v ===== *)
(** * Finite checks for the round trip of configuration files

    Boolean versions of [fileable], [plain_texts] and [savable], their
    soundness, and the repository's configuration as an instance. *)
From S2P Require Import Prelude PyStr Model Eval EvalSpec EvalRefine EvalDet Values SetValue Validity Session Checks.
From S2P Require Import Finalize Fpspy Demo ConfigFile Tree Lines Reload Loading Saving Restore RoundTrip.

(** ** The configuration *)

Definition names_check (cfg : Config) : bool :=
  forallb (fun s => good_name (sym_name (sym cfg s)) && bool_decide (get_sym cfg (sym_name (sym cfg s)) = Some s))
    (c_unique_defined_syms cfg).

Definition choice_check (cfg : Config) (c : choiceid) : bool :=
  forallb (fun s => bool_decide (sym_choice (sym cfg s) = Some c)) (ch_syms (chc cfg c))
  && forallb (fun dc : expr * expr => match dc.1 with
                      | EItem (ISym s) => bool_decide (s ∈ ch_syms (chc cfg c)) | _ => false end)
       (ch_defaults (chc cfg c))
  && (negb (is_static cfg (IChoice c))
      || forallb (fun n => bool_decide (nd_prompt (node cfg n) = None)) (ch_nodes (chc cfg c))).

Definition choice_sym_check (cfg : Config) (s : symid) : bool :=
  match sym_choice (sym cfg s) with
  | None => true
  | Some c =>
      is_bool_tristate (sym_orig_type (sym cfg s)) && is_bool_tristate (ch_orig_type (chc cfg c))
      && negb (is_tri_const cfg s)
      && forallb (fun n => match nd_prompt (node cfg n) with
                           | Some (_, cond) => bool_decide (EChoice c ∈ split_expr cond AND) | None => true end)
           (sym_nodes (sym cfg s))
  end.

Definition fileable_check (cfg : Config) : bool :=
  one_line (c_config_prefix cfg) && no_char "=" (c_config_prefix cfg)
  && names_check cfg && bool_decide (NoDup (c_unique_defined_syms cfg))
  && forallb (choice_check cfg) (seq 0 (length (c_choices cfg)))
  && forallb (choice_sym_check cfg) (seq 0 (length (c_syms cfg))).

Lemma below_or_none {A} (l : list A) (d : A) n : In n (seq 0 (length l)) \/ nth n l d = d.
Proof.
  destruct (decide (n < length l)%nat); [left; apply in_seq; lia|right; apply nth_overflow; lia].
Qed.

Lemma fileable_check_sound cfg : fileable_check cfg = true -> fileable cfg.
Proof.
  unfold fileable_check, names_check. rewrite !andb_true_iff, bool_decide_eq_true, !forallb_forall.
  intros (((((H1 & H2) & H3) & H4) & Hc) & Hs).
  assert (HC : forall c, choice_check cfg c = true).
  { intros c. destruct (below_or_none (c_choices cfg) no_choice c) as [|E]; [auto|].
    unfold choice_check, chc. rewrite E. simpl. by destruct (bool_decide _). }
  assert (HS : forall s, choice_sym_check cfg s = true).
  { intros s. destruct (below_or_none (c_syms cfg) no_symbol s) as [|E]; [auto|].
    unfold choice_sym_check, sym. by rewrite E. }
  unfold choice_check in HC. unfold choice_sym_check in HS.
  split; [done| |done|..].
  - intros s Hd. specialize (H3 s Hd). apply andb_true_iff in H3 as [? ?%bool_decide_eq_true]. done.
  - intros c s Hi. specialize (HC c). rewrite !andb_true_iff, forallb_forall in HC.
    destruct HC as [[HC _] _]. by apply HC, bool_decide_eq_true in Hi.
  - intros c d cond Hi. specialize (HC c). rewrite !andb_true_iff, (forallb_forall _ (ch_defaults _)) in HC.
    destruct HC as [[_ HC] _]. specialize (HC _ Hi). simpl in HC. destruct d as [[s|]| | | |]; try done.
    exists s. split; [done|]. by apply bool_decide_eq_true, list_elem_of_In in HC.
  - intros s c E. specialize (HS s). rewrite E, !andb_true_iff, negb_true_iff in HS. tauto.
  - intros s c n p cond E Hn Hp. specialize (HS s). rewrite E, !andb_true_iff, forallb_forall in HS.
    destruct HS as [_ HS]. specialize (HS n Hn). rewrite Hp in HS.
    by apply bool_decide_eq_true, list_elem_of_In in HS.
  - intros c Hst n Hn. specialize (HC c). rewrite !andb_true_iff, Hst in HC. destruct HC as [_ HC].
    simpl in HC. rewrite forallb_forall in HC. by apply HC, bool_decide_eq_true in Hn.
Qed.

Definition plain_texts_check (cfg : Config) : bool :=
  ignored cfg "" && ignored cfg "#"
  && forallb (fun n => match nd_item (node cfg n) with
                       | NMenu | NComment =>
                           bool_decide (n = c_top_node cfg)
                           || match nd_prompt (node cfg n) with
                              | Some (p, _) => one_line p && ignored cfg ("# " +:+ p) && ignored cfg ("# end of " +:+ p)
                              | None => false
                              end
                       | _ => true
                       end) (seq 0 (length (c_nodes cfg))).

Lemma plain_texts_check_sound cfg : plain_texts_check cfg = true -> plain_texts cfg.
Proof.
  unfold plain_texts_check. rewrite !andb_true_iff, forallb_forall. intros ((H1 & H2) & Hn).
  split; [done|]. intros n Hi.
  destruct (below_or_none (c_nodes cfg) no_node n) as [Hl|E].
  2: { unfold node in Hi. rewrite E in Hi. by destruct Hi. }
  specialize (Hn n Hl). destruct Hi as [Hi|Hi]; rewrite Hi in Hn;
    (apply orb_true_iff in Hn as [Hn%bool_decide_eq_true|Hn]; [by left|right]);
    (destruct (nd_prompt (node cfg n)) as [[p cond]|]; [|done]; exists p, cond;
     rewrite !andb_true_iff in Hn; tauto).
Qed.

(** ** The values *)

Section Values_.
Context (cfg : Config) `{L : Loaded cfg} (FL : fileable cfg) (U : uvals) (HU : user_ok cfg U).
Local Abbreviation rho := (solution cfg U).

(** Enough for [savable]: no default exceeds the visibility *)
Definition savable_check : bool :=
  forallb (fun c => (negb (v_ctri rho c =? 2) || bool_decide (is_Some (v_csel rho c)))
                    && (negb (v_ctri rho c =? 1) || negb (ch_is_optional (chc cfg c))
                        || existsb (fun s => bool_decide (sym_choice (sym cfg s) = Some c) && (v_tri rho s =? 1))
                             (ch_syms (chc cfg c))))
    (c_unique_choices cfg)
  && forallb (fun s =>
       (bool_decide (is_Some (sym_choice (sym cfg s))) || negb (is_bool_tristate (sym_orig_type (sym cfg s)))
        || (v_vis rho s =? 0) || (v_tri rho s <=? v_vis rho s))
       && (negb (is_auto cfg s) || bool_decide (u_sym U s = None) || (v_vis rho s =? 0))
       && one_line (v_str rho s)
       && (negb (is_int_hex (sym_orig_type (sym cfg s))) || String.eqb (rstrip (v_str rho s)) (v_str rho s)))
    (c_unique_defined_syms cfg).

Lemma savable_check_sound : savable_check = true -> savable cfg U rho.
Proof.
  unfold savable_check. rewrite andb_true_iff, !forallb_forall. intros [Hc Hs].
  assert (HV : forall s, v_vis rho s <> 0 -> In s (c_unique_defined_syms cfg)).
  { intros s Hv. by apply (visible_defined cfg U HU) in Hv as [? _]. }
  assert (HC : forall c, v_ctri rho c <> 0 -> In c (c_unique_choices cfg)) by by apply mode_defined.
  split.
  - intros c E. specialize (Hc c (HC c ltac:(lia))). rewrite E, andb_true_iff in Hc. destruct Hc as [Hc _].
    rewrite Z.eqb_refl in Hc. by apply bool_decide_eq_true in Hc.
  - intros c E. specialize (Hc c (HC c ltac:(lia))). rewrite E, andb_true_iff in Hc. destruct Hc as [_ Hc].
    rewrite Z.eqb_refl in Hc. cbn [negb orb] in Hc. apply orb_true_iff in Hc as [?%negb_true_iff|Hc]; [by left|right].
    apply existsb_exists in Hc as (s & _ & Hx). rewrite andb_true_iff, bool_decide_eq_true, Z.eqb_eq in Hx. eauto.
  - intros s E Ht Hv. specialize (Hs s (HV s Hv)). rewrite !andb_true_iff in Hs. destruct Hs as [[[Hs _] _] _].
    rewrite E, Ht, bool_decide_eq_false_2 in Hs by by intros [].
    apply Z.eqb_neq in Hv. rewrite Hv in Hs. left. by apply Z.leb_le.
  - intros s Ha _. destruct (decide (v_vis rho s = 0)) as [|Hv]; [by right|]. specialize (Hs s (HV s Hv)).
    rewrite !andb_true_iff, Ha in Hs. destruct Hs as [[[_ Hs] _] _]. apply Z.eqb_neq in Hv. rewrite Hv in Hs.
    cbn [negb orb] in Hs. rewrite orb_false_r, bool_decide_eq_true in Hs. by left.
  - intros s Hd. specialize (Hs s Hd). rewrite !andb_true_iff in Hs. destruct Hs as [[_ H1] H2].
    split; [done|]. intros Hi. rewrite Hi in H2. by apply String.eqb_eq in H2.
Qed.
End Values_.

(** ** The repository's configuration *)

#[export] Instance fpspy_treed : Treed fpspy.
Proof. apply tree_check_sound. vm_compute. reflexivity. Defined.

Lemma fpspy_fileable : fileable fpspy.
Proof. apply fileable_check_sound. vm_compute. reflexivity. Qed.

Lemma fpspy_plain_texts : plain_texts fpspy.
Proof. apply plain_texts_check_sound. vm_compute. reflexivity. Qed.
