(* ===== verification/FileProps.v ===== *)
(** * What the files of a configuration say

    Writing a configuration never fails, the C header and [config.mk] hold one
    line for each symbol that is written to a configuration, and a configuration
    that was written and is loaded again has the values it had. *)
From S2P Require Import Prelude PyStr Model Eval EvalSpec EvalRefine EvalDet Values SetValue Validity Session ConfigFile.
From S2P Require Import Checks Finalize Fpspy Demo Frames Tree Lines Reload Loading Saving Restore RoundTrip FileChecks.

(** ** The text of all written symbols *)

Section Written.
Context (cfg : Config) `{L : Loaded cfg} (U : uvals).
Local Abbreviation rho := (solution cfg U).
Local Abbreviation E := (ev cfg depth).

(** [str_value] and the flag it leaves *)
Lemma read_written st s : InUse cfg U st ->
  exists st', (val ← ev_str E s; w ← sget write_to_conf s; mret (val, w) : K (string * bool)) st
      = (Ok (v_str rho s, d_wtc cfg U rho s), st') /\ InUse cfg U st'.
Proof.
  intros [V HU]. pose proof (solution_model cfg U HU) as HM. pose proof (user_ok_typed _ _ HU) as HT.
  destruct (code_str cfg U rho rank HM loaded_ranked loaded_wf HT depth st s (loaded_depth _)
              (valid_coh cfg U rho rank HM loaded_ranked HT st V)) as (st' & Es & _ & Hw).
  destruct (read_str cfg U st s (Build_InUse _ _ _ V HU)) as (st2 & Es2 & H2).
  unfold evaluate in Es2. rewrite Es in Es2. injection Es2 as <-.
  exists st'. split; [|done]. cbv [mbind K_bind M_bind sget gets mret K_ret M_ret]. by rewrite Es, Hw.
Qed.

(** The lines of the symbols that are written to a configuration *)
Definition written_text (line : symid -> string -> string) (l : list symid) : string :=
  String.concat "" (map (fun s => if d_wtc cfg U rho s then line s (v_str rho s) else "") l).

Lemma concat_cons x l : String.concat "" (x :: l) = x +:+ String.concat "" l.
Proof. destruct l; simpl; [by rewrite append_nil_r|done]. Qed.

Lemma each_written_ok line out st : InUse cfg U st ->
  exists st', each_written cfg E line out st
      = (Ok (out +:+ written_text line (c_unique_defined_syms cfg)), st') /\ InUse cfg U st'.
Proof.
  unfold each_written, written_text. generalize (c_unique_defined_syms cfg) as l. intros l. revert out st.
  induction l as [|s l IH]; intros out st H.
  - exists st. by rewrite append_nil_r.
  - destruct (read_written st s H) as (st1 & E1 & H1).
    assert (Eb : (val ← ev_str E s; w ← sget write_to_conf s;
        mret (if w : bool then out +:+ line s val else out) : K string) st
      = (Ok (out +:+ (if d_wtc cfg U rho s then line s (v_str rho s) else "")), st1)).
    { revert E1. cbv [mbind K_bind M_bind sget gets mret K_ret M_ret].
      destruct (ev_str E s st) as [[x|e] st']; [|done]. intros [= -> -> ->].
      destruct (d_wtc cfg U rho s); [done|]. by rewrite append_nil_r. }
    destruct (IH (out +:+ (if d_wtc cfg U rho s then line s (v_str rho s) else "")) st1 H1) as (st2 & E2 & H2).
    exists st2. split; [|done]. refine (foldM_cons _ _ _ _ _ _ _ _ Eb _). cbn [map].
    by rewrite concat_cons, <- append_assoc.
Qed.

(** [autoconf.h] and [config.mk] *)
Definition autoconf_text (header : string) : string :=
  header +:+ written_text (define_line cfg) (c_unique_defined_syms cfg)
  +:+ lines_text ["#ifndef __ASSEMBLER__"; "#ifndef ENABLED_CONFIGURATIONS"; "#define ENABLED_CONFIGURATIONS";
                  "__attribute__((unused)) static const char *enabled_configurations[] = {"]
  +:+ written_text (enabled_line cfg) (c_unique_defined_syms cfg)
  +:+ lines_text ["    0,"; "};"; "#endif"; "#endif"].

Lemma autoconf_ok header st : InUse cfg U st ->
  exists st', autoconf_contents cfg E header st
      = (Ok (autoconf_text (default (c_header_header cfg) header)), st') /\ InUse cfg U st'.
Proof.
  intros H. destruct (each_written_ok (define_line cfg) (default (c_header_header cfg) header) st H) as (st1 & E1 & H1).
  set (out := (default (c_header_header cfg) header +:+ written_text (define_line cfg) (c_unique_defined_syms cfg)) +:+
    lines_text ["#ifndef __ASSEMBLER__"; "#ifndef ENABLED_CONFIGURATIONS"; "#define ENABLED_CONFIGURATIONS";
                  "__attribute__((unused)) static const char *enabled_configurations[] = {"]).
  destruct (each_written_ok (enabled_line cfg) out st1 H1) as (st2 & E2 & H2).
  exists st2. split; [|done]. unfold autoconf_contents.
  refine (bind_ok _ _ _ _ _ _ E1 _). refine (bind_ok _ _ _ _ _ _ E2 _).
  unfold out, autoconf_text. by rewrite !append_assoc.
Qed.

Lemma mk_ok header st : InUse cfg U st ->
  exists st', config_mk_write cfg E header st
      = (Ok (default (c_header_header cfg) header +:+ written_text (mk_line cfg) (c_unique_defined_syms cfg)), st')
    /\ InUse cfg U st'.
Proof. apply each_written_ok. Qed.
End Written.

(** ** Writing a configuration *)

Section WriteConfig.
Context (cfg : Config) `{L : Loaded cfg} `{T : Treed cfg} (PT : plain_texts cfg).
Context (getenv : string -> option string).

Definition saved_text (U : uvals) (header : option string) : string :=
  default (c_config_header cfg) header +:+ text cfg U (file_entries cfg U).

(** [Kconfig.write_config] writes three files *)
Lemma write_config_ok U f header old w : InUse cfg U (w_state w) ->
  exists st', write_config cfg depth getenv (Some f) header old w
      = (Ok "config.mk saved",
         mkWorld st' (<["config.mk" := default (c_header_header cfg) header
                          +:+ written_text cfg U (mk_line cfg) (c_unique_defined_syms cfg)]>
                      (<["include/config.h" := autoconf_text cfg U (c_header_header cfg)]>
                       (<[f := saved_text U header]> (w_files w))))
           (w_written w ++ [f; "include/config.h"; "config.mk"]))
    /\ InUse cfg U st'.
Proof.
  intros H. destruct (config_contents_ok cfg PT U header (w_state w) H) as (st1 & E1 & H1).
  destruct (autoconf_ok cfg U None st1 H1) as (st2 & E2 & H2).
  destruct (mk_ok cfg U header st2 H2) as (st3 & E3 & H3).
  exists st3. split; [|done]. unfold write_config. cbn [default].
  cbv [mbind W_bind M_bind in_state]. rewrite E1. unfold write_autoconf, write_if_changed, write_file, save_old, modify.
  cbn [default]. cbv [mbind W_bind M_bind in_state mret W_ret M_ret when].
  destruct old; cbn [w_state w_files]; rewrite E2; cbn [w_state w_files]; rewrite E3; cbn [w_state w_files w_written]; by rewrite <- !app_assoc.
Qed.
End WriteConfig.

(** ** Loading it again *)

Section LoadConfig.
Context (cfg : Config) `{L : Loaded cfg} `{T : Treed cfg} (FL : fileable cfg) (PT : plain_texts cfg).
Context (getenv : string -> option string).

(** Loading a named file that holds a saved configuration *)
Lemma load_config_ok U f header w V : user_ok cfg U -> savable cfg U (solution cfg U) ->
  plain_header cfg (default (c_config_header cfg) header) ->
  w_files w !! f = Some (saved_text cfg U header) -> InUse cfg V (w_state w) ->
  exists st' U', load_config cfg depth getenv (Some f) true w
      = (Ok ("Loaded configuration '" +:+ f +:+ "'"), mkWorld st' (w_files w) (w_written w))
    /\ InUse cfg U' st' /\ saved_users cfg U (solution cfg U) U'.
Proof.
  intros HU SV Hh Hf HV.
  assert (H0 : InUse cfg V (set_st_warn_assign_no_prompt false (w_state w))).
  { apply (in_use_same cfg V (w_state w)); [exact HV|by intros []|by split]. }
  destruct (load_saved cfg FL PT U HU SV (default (c_config_header cfg) header) f V _ Hh H0) as (st1 & U1 & E1 & H1 & S1).
  assert (H2 : InUse cfg U1 (set_st_warn_assign_no_prompt true st1)).
  { apply (in_use_same cfg U1 st1); [exact H1|by intros []|by split]. }
  exists (set_st_warn_assign_no_prompt true st1), U1. split; [|by split].
  unfold load_config, load_named, load_config_, open_config, try_os, read_file, configuration_msg, try_finally.
  cbv [mbind W_bind M_bind in_state modify mret W_ret M_ret]. cbn [w_files w_state]. rewrite Hf. cbn [w_files w_state].
  unfold saved_text. rewrite E1. reflexivity.
Qed.

(** Every reading of a state in use gives the value of the solution *)
Definition reads_as (rho : valuation) (st : State) : Prop :=
  (forall s, (ev_tri (ev cfg depth) s st).1 = Ok (v_tri rho s) /\ (ev_str (ev cfg depth) s st).1 = Ok (v_str rho s)
     /\ (ev_vis (ev cfg depth) s st).1 = Ok (v_vis rho s))
  /\ (forall c, (ev_ctri (ev cfg depth) c st).1 = Ok (v_ctri rho c) /\ (ev_csel (ev cfg depth) c st).1 = Ok (v_csel rho c)
     /\ (ev_cvis (ev cfg depth) c st).1 = Ok (v_cvis rho c)).

Lemma in_use_reads U st : InUse cfg U st -> reads_as (solution cfg U) st.
Proof.
  intros H. split; [intros s|intros c].
  - destruct (read_tri cfg U st s H) as (? & E1 & _), (read_str cfg U st s H) as (? & E2 & _),
      (read_vis cfg U st s H) as (? & E3 & _). unfold evaluate in *. by rewrite E1, E2, E3.
  - destruct (read_ctri cfg U st c H) as (? & E1 & _), (read_csel cfg U st c H) as (? & E2 & _),
      (read_cvis cfg U st c H) as (? & E3 & _). unfold evaluate in *. by rewrite E1, E2, E3.
Qed.

Lemma reads_as_agree r1 r2 st : (forall q, agree r1 r2 q) -> reads_as r1 st -> reads_as r2 st.
Proof.
  intros Ha [Hs Hc]. split; [intros s|intros c].
  - destruct (Hs s) as (-> & -> & ->). pose proof (Ha (QTri s)) as A1. pose proof (Ha (QStr s)) as A2.
    pose proof (Ha (QVis s)) as A3. simpl in *. split_and!; congruence.
  - destruct (Hc c) as (-> & -> & ->). pose proof (Ha (QCTri c)) as A1. pose proof (Ha (QCSel c)) as A2.
    pose proof (Ha (QCVis c)) as A3. simpl in *. split_and!; congruence.
Qed.
End LoadConfig.

(** ** Properties *)

(** C5. Saving and loading.  [Kconfig.write_config] to a file [f] succeeds in any
    state of a loaded configuration; loading [f] into any state [st0] of the same
    configuration, whatever its user values are, succeeds, and afterwards every
    value, visibility, choice mode and selection is the one that was saved.  The
    conditions are that names, prompts and the header can be written on lines of
    their own ([fileable], [plain_texts], [plain_header]) and [savable]: the file
    format has no way to say anything else (a value that a default lifts above the
    visibility of its symbol, say). *)
Theorem save_load_roundtrip (cfg : Config) (L : Loaded cfg) (T : Treed cfg) (getenv : string -> option string)
    (U V : uvals) (f : string) (header : option string) (old : bool) (w : World) (st0 : State) :
  fileable cfg -> plain_texts cfg -> plain_header cfg (default (c_config_header cfg) header) ->
  InUse cfg U (w_state w) -> savable cfg U (solution cfg U) -> InUse cfg V st0 ->
  f <> "config.mk" -> f <> "include/config.h" ->
  exists w1 st2, write_config cfg depth getenv (Some f) header old w = (Ok "config.mk saved", w1)
    /\ load_config cfg depth getenv (Some f) true (mkWorld st0 (w_files w1) (w_written w1))
       = (Ok ("Loaded configuration '" +:+ f +:+ "'"), mkWorld st2 (w_files w1) (w_written w1))
    /\ reads_as cfg (solution cfg U) (w_state w1) /\ reads_as cfg (solution cfg U) st2.
Proof.
  intros FL PT Hh HU SV HV N1 N2.
  destruct (write_config_ok cfg PT getenv U f header old w HU) as (st1 & E1 & H1).
  match type of E1 with _ = (_, mkWorld _ ?F ?N) => set (files := F) in E1; set (written := N) in E1 end.
  assert (Hf : files !! f = Some (saved_text cfg U header)).
  { unfold files. rewrite !lookup_insert_ne by done. apply lookup_insert_eq. }
  clearbody files. exists (mkWorld st1 files written).
  destruct (load_config_ok cfg FL PT getenv U f header (mkWorld st0 files written) V (use_user _ _ _ HU) SV Hh Hf HV)
    as (st2 & U2 & E2 & H2 & S2).
  exists st2. split; [exact E1|]. split; [exact E2|]. split; [by apply in_use_reads|].
  apply (reads_as_agree cfg (solution cfg U2)); [|by apply in_use_reads].
  intros q. apply (saved_same cfg FL U (use_user _ _ _ HU) SV U2 S2), (use_user _ _ _ H2).
Qed.

(** C6. What saving writes.  [Kconfig.write_config] to a file [f] succeeds, whatever
    has been cached so far, and writes three files whose texts are given by the
    user values alone: [f] itself (the header and an entry for every visited node
    of the menu tree), [include/config.h] and, last, [config.mk] (a line for every
    defined symbol whose value is written).  The other files stay as they are, and
    the caches still hold the values of the same configuration. *)
Theorem write_config_files (cfg : Config) (L : Loaded cfg) (T : Treed cfg) (getenv : string -> option string)
    (U : uvals) (f : string) (header : option string) (old : bool) (w : World) :
  plain_texts cfg -> InUse cfg U (w_state w) ->
  exists st', write_config cfg depth getenv (Some f) header old w
      = (Ok "config.mk saved",
         mkWorld st' (<["config.mk" := default (c_header_header cfg) header
                          +:+ written_text cfg U (mk_line cfg) (c_unique_defined_syms cfg)]>
                      (<["include/config.h" := autoconf_text cfg U (c_header_header cfg)]>
                       (<[f := default (c_config_header cfg) header +:+ text cfg U (file_entries cfg U)]> (w_files w))))
           (w_written w ++ [f; "include/config.h"; "config.mk"]))
    /\ InUse cfg U st'.
Proof. intros PT HU. exact (write_config_ok cfg PT getenv U f header old w HU). Qed.

(** ** Examples *)

(** The repository's configuration after a few changes: another architecture, a
    toolchain prefix that needs quoting, and a number *)
Definition changed (x : uvals * State) (s : symid) (v : string) : uvals * State :=
  (after_set_value fpspy x.1 s (UStr v), (set_value fpspy fpspy_depth s (UStr v) x.2).2).

Definition example_session : uvals * State :=
  changed (changed (changed (changed (no_user, init_state fpspy) 5%nat "y") 13%nat "n")
    7%nat ("a b" +:+ String QUOTE (String BSL "c"))) 17%nat "2048".

Lemma changed_in_use x s v : InUse fpspy x.1 x.2 -> InUse fpspy (changed x s v).1 (changed x s v).2.
Proof.
  intros H. destruct (change_sym fpspy x.1 x.2 s (UStr v) H) as (st' & E & H'). unfold changed.
  change fpspy_depth with (depth (cfg := fpspy)). cbn [fst snd]. by rewrite E.
Qed.

Lemma example_in_use : InUse fpspy example_session.1 example_session.2.
Proof. do 4 apply changed_in_use. apply (init_in_use fpspy), fpspy_wf. Qed.

Lemma example_savable : savable fpspy example_session.1 (solution fpspy example_session.1).
Proof.
  apply savable_check_sound; [apply fpspy_fileable|apply (use_user _ _ _ example_in_use)|].
  vm_compute. reflexivity.
Qed.

Lemma plain_header_line : plain_header fpspy ("# saved by fpspy" +:+ String NL "").
Proof. split; [right; by exists "# saved by fpspy"|done|repeat constructor]. Qed.

Lemma save_load_roundtrip_witness :
  exists w1 st2, write_config fpspy fpspy_depth (fun _ => None) (Some ".config") (Some ("# saved by fpspy" +:+ String NL "")) true
      (mkWorld example_session.2 ∅ []) = (Ok "config.mk saved", w1)
    /\ load_config fpspy fpspy_depth (fun _ => None) (Some ".config") true (mkWorld (init_state fpspy) (w_files w1) (w_written w1))
       = (Ok "Loaded configuration '.config'", mkWorld st2 (w_files w1) (w_written w1))
    /\ reads_as fpspy (solution fpspy example_session.1) (w_state w1)
    /\ reads_as fpspy (solution fpspy example_session.1) st2.
Proof.
  apply (save_load_roundtrip fpspy fpspy_loaded fpspy_treed (fun _ => None) example_session.1 no_user ".config"
           (Some ("# saved by fpspy" +:+ String NL "")) true (mkWorld example_session.2 ∅ []) (init_state fpspy)).
  - apply fpspy_fileable.
  - apply fpspy_plain_texts.
  - apply plain_header_line.
  - apply example_in_use.
  - apply example_savable.
  - apply (init_in_use fpspy), fpspy_wf.
  - done.
  - done.
Defined.

Lemma write_config_files_witness :
  let U := example_session.1 in
  exists st', write_config fpspy (@depth fpspy fpspy_loaded) (fun _ => None) (Some ".config") None false (mkWorld example_session.2 ∅ [])
      = (Ok "config.mk saved",
         mkWorld st' (<["config.mk" := default (c_header_header fpspy) None
                          +:+ written_text fpspy U (mk_line fpspy) (c_unique_defined_syms fpspy)]>
                      (<["include/config.h" := autoconf_text fpspy U (c_header_header fpspy)]>
                       (<[".config" := default (c_config_header fpspy) None +:+ text fpspy U (file_entries fpspy U)]> ∅)))
           [".config"; "include/config.h"; "config.mk"])
    /\ InUse fpspy U st'.
Proof.
  intros U. apply (write_config_files fpspy fpspy_loaded fpspy_treed (fun _ => None) U ".config" None false
           (mkWorld example_session.2 ∅ [])); [apply fpspy_plain_texts|apply example_in_use].
Defined.

(** The nodes of the repository's configuration *)
Lemma node_iter_preorder_witness : exists st',
  node_iter fpspy true (init_state fpspy) = (Ok (first_nodes fpspy (preorder (@tree fpspy fpspy_treed)) []), st').
Proof. exact (node_iter_preorder fpspy (T := fpspy_treed) true (init_state fpspy)). Defined.
