(* ===== verification/AnyFile.v ===== *)
(** * Loading any file

    [load_config] on a text that no tool need have written: lines that are
    malformed, name unknown symbols, have values of the wrong type or assign a
    symbol twice.  What counts of the text is the list of its assignments
    ([file_assigns]); the user values afterwards are the last valid ones. *)
From S2P Require Import Prelude PyStr Model Eval EvalSpec EvalRefine EvalDet Values SetValue Validity Session ConfigFile.
From S2P Require Import Checks Finalize Fpspy Demo Frames Tree Lines Reload Loading Saving Restore RoundTrip FileChecks FileProps.

Section AnyFile.
Context (cfg : Config) `{L : Loaded cfg}.

(** ** What the lines say *)

(** The symbol and the value that a line assigns, if it is well-formed *)
Definition line_assigns (line : string) : option (symid * string) :=
  let line := rstrip line in
  match set_match cfg line with
  | Some (name, val) => s ← get_sym cfg name; v ← checked_value cfg s val; Some (s, v)
  | None =>
      match unset_match cfg line with
      | Some name => s ← get_sym cfg name;
                     if is_bool_tristate (sym_orig_type (sym cfg s)) then Some (s, "n") else None
      | None => None
      end
  end.

Definition file_assigns (text : string) : list (symid * string) :=
  omap line_assigns (file_lines (translate_newlines text)).

(** The last value assigned to [s] that is valid for its type *)
Definition assign_step (s : symid) (v : option uval) (a : symid * string) : option uval :=
  if bool_decide (a.1 = s) && accepts cfg s (UStr a.2) then Some (typed_value cfg s (UStr a.2)) else v.
Definition last_assigned (s : symid) (l : list (symid * string)) : option uval := foldl (assign_step s) None l.

(** The last mode that an assignment to one of its symbols gives the choice [c] *)
Definition mode_step (c : choiceid) (m : option Z) (a : symid * string) : option Z :=
  match tri_of_str (UStr a.2) with
  | UTri z => if bool_decide (mode_line cfg a.1 a.2 = Some c) && ch_accepts cfg c (UStr a.2) then Some z else m
  | UStr _ => m
  end.
Definition last_mode (c : choiceid) (l : list (symid * string)) : option Z := foldl (mode_step c) None l.

(** The last symbol of the choice [c] that is set to y *)
Definition sel_step (c : choiceid) (o : option symid) (a : symid * string) : option symid :=
  if bool_decide (sym_choice (sym cfg a.1) = Some c) && accepts cfg a.1 (UStr a.2)
     && bool_decide (typed_value cfg a.1 (UStr a.2) = UTri 2)
  then Some a.1 else o.
Definition last_selected (c : choiceid) (l : list (symid * string)) : option symid := foldl (sel_step c) None l.

(** ** One line *)

(** Names of the table that have nodes are defined symbols *)
Definition names_defined : Prop := forall name s, get_sym cfg name = Some s -> In s (c_unique_defined_syms cfg).
Context (ND : names_defined).

(** A bool or tristate symbol with a set flag but without a user value *)
Definition flag_stale (U : uvals) (B : symid -> bool) (s : symid) : bool :=
  is_bool_tristate (sym_orig_type (sym cfg s)) && B s && bool_decide (u_sym U s = None).

(** A set flag comes with a user value *)
Definition set_flags_ok (U : uvals) (B : symid -> bool) : Prop :=
  forall s, In s (c_unique_defined_syms cfg) -> B s = true -> is_Some (u_sym U s).

Lemma set_flags_fresh U B s : set_flags_ok U B -> In s (c_unique_defined_syms cfg) -> flag_stale U B s = false.
Proof.
  intros HF Hs. unfold flag_stale. destruct (B s) eqn:HB; [|by rewrite andb_false_r].
  destruct (HF s Hs HB) as [v Hv]. rewrite Hv. by rewrite andb_false_r.
Qed.

Lemma user_val_text_ok U B C st s : tracked cfg U B C st ->
  is_bool_tristate (sym_orig_type (sym cfg s)) && bool_decide (u_sym U s = None) = false ->
  exists t, user_val_text cfg s (u_sym U s) st = (Ok t, st).
Proof.
  intros HT Hs. unfold user_val_text. destruct (is_bool_tristate _) eqn:Hb; [|eexists; reflexivity].
  destruct (u_sym U s) as [v|] eqn:Hv; [|done].
  pose proof (uo_sym _ _ (use_user _ _ _ (tk_use _ _ _ _ _ HT)) s v Hv) as Ht.
  destruct v as [z|x].
  - assert (Hz : z = 0 \/ z = 1 \/ z = 2) by (apply valid_for_type_range in Ht; lia).
    destruct Hz as [->|[->| ->]]; eexists; reflexivity.
  - by destruct (sym_orig_type (sym cfg s)).
Qed.

Lemma warn_if_same g msg loc st : exists st', (w ← gets g; when w (warn_at msg loc) : K unit) st = (Ok tt, st') /\ same_tables st st'.
Proof. cbv [mbind K_bind M_bind gets]. destruct (g st); cbn [when]; [|by exists st]. eexists. split; [reflexivity|apply warn_at_same]. Qed.

Lemma assigned_twice_ok U B C st s val f n : tracked cfg U B C st ->
  is_bool_tristate (sym_orig_type (sym cfg s)) && bool_decide (u_sym U s = None) = false ->
  exists st', assigned_twice cfg s val f n st = (Ok tt, st') /\ tracked cfg U B C st'.
Proof.
  intros HT Hs. destruct (user_val_text_ok U B C st s HT Hs) as [t Ht].
  rewrite <- (vd_user _ _ _ (use_valid _ _ _ (tk_use _ _ _ _ _ HT))) in Ht.
  edestruct (warn_if_same (if decide (t = Some val) then st_warn_assign_redun else st_warn_assign_override)) as (st' & E & S).
  exists st'. split; [|by eapply tracked_same].
  unfold assigned_twice. refine (bind_ok _ _ _ _ _ _ (eq_refl : sget user_value s st = (Ok _, st)) _).
  exact (bind_ok _ _ _ _ _ _ Ht E).
Qed.

(** A second assignment to a symbol with a stale flag *)
Lemma assign_stale U B C st s val f n : tracked cfg U B C st -> flag_stale U B s = true ->
  exists st', assign cfg depth s val f n st = (Err KeyError, st').
Proof.
  unfold flag_stale. rewrite !andb_true_iff, bool_decide_eq_true. intros HT [[Hb HB] HU].
  exists st. unfold assign, assigned_twice, user_val_text, sget. cbv [mbind K_bind M_bind gets].
  rewrite (tk_was _ _ _ _ _ HT), HB. cbn [when].
  by rewrite (vd_user _ _ _ (use_valid _ _ _ (tk_use _ _ _ _ _ HT))), HU, Hb.
Qed.

Lemma load_any_assign U B C st s val f n : tracked cfg U B C st -> flag_stale U B s = false ->
  exists st', assign cfg depth s val f n st = (Ok tt, st')
    /\ tracked cfg (after_set_value cfg U s (UStr val)) (was_after_line cfg B s val)
         (if accepts cfg s (UStr val) then ch_flag_after cfg C s (UStr val) else C) st'.
Proof.
  unfold flag_stale. intros HT HF. destruct (B s) eqn:HB; [|by apply load_assign]. rewrite andb_true_r in HF.
  destruct (assigned_twice_ok U B C st s val f n HT HF) as (st1 & E1 & HT1).
  destruct (tracked_set_value cfg U B C st1 s (UStr val) HT1) as (st' & E & H').
  exists st'. split; [|done]. unfold assign, sget. cbv [mbind K_bind M_bind gets]. rewrite (tk_was _ _ _ _ _ HT), HB. cbn [when].
  by rewrite E1, E.
Qed.

Lemma undef_assign_ok U B C st name val f n : tracked cfg U B C st ->
  exists st', undef_assign name val f n st = (Ok tt, st') /\ tracked cfg U B C st'.
Proof.
  intros HT. unfold undef_assign.
  edestruct (warn_if_same st_warn_assign_undef) as (st' & E & S). exists st'. split; [exact (bind_ok _ _ _ _ _ _ eq_refl E)|].
  by eapply tracked_same.
Qed.

Lemma after_mode_sym U s val x :
  u_sym (match mode_line cfg s val with Some c => after_ch_set_value cfg U c (UStr val) | None => U end) x = u_sym U x.
Proof.
  destruct (mode_line _ _ _); [|done]. unfold after_ch_set_value. destruct (tri_of_str _); [|done]. by destruct (valid_for_type _ _).
Qed.

Lemma stale_after_mode U B s val x :
  flag_stale (match mode_line cfg s val with Some c => after_ch_set_value cfg U c (UStr val) | None => U end) B x
  = flag_stale U B x.
Proof. unfold flag_stale. by rewrite after_mode_sym. Qed.

Lemma line_defined line s val : line_assigns line = Some (s, val) -> In s (c_unique_defined_syms cfg).
Proof.
  unfold line_assigns. destruct (set_match cfg _) as [[name v]|].
  - destruct (get_sym cfg name) as [s'|] eqn:Hg; [|done]. simpl. destruct (checked_value cfg s' v); [|done]. simpl.
    intros [= <- _]. by eapply ND.
  - destruct (unset_match cfg _) as [name|]; [|done]. destruct (get_sym cfg name) as [s'|] eqn:Hg; [|done]. simpl.
    destruct (is_bool_tristate _); [|done]. intros [= <- _]. by eapply ND.
Qed.

(** A line that assigns a symbol with a stale flag *)
Lemma load_stale_line U B C st f n line s val : tracked cfg U B C st ->
  line_assigns line = Some (s, val) -> flag_stale U B s = true ->
  exists st', load_line cfg depth f n line st = (Err KeyError, st').
Proof.
  unfold load_line, line_assigns. intros HT Hl HF. set (l := rstrip line) in *. destruct (set_match cfg l) as [[name v0]|].
  - destruct (get_sym cfg name) as [s'|] eqn:Hg; [|done]. simpl in Hl.
    destruct (load_checked_value cfg U B C st s' v0 f n HT) as (st1 & E1 & H1).
    cbv [mbind K_bind M_bind]. rewrite E1. destruct (checked_value cfg s' v0) as [v|]; [|done]. injection Hl as -> ->.
    eapply assign_stale; [exact H1|]. by rewrite stale_after_mode.
  - destruct (unset_match cfg l) as [name|]; [|done]. destruct (get_sym cfg name) as [s'|] eqn:Hg; [|done]. simpl in *.
    destruct (is_bool_tristate _); [|done]. injection Hl as -> <-. by eapply assign_stale.
Qed.

(** Any other line is read without an error, and what it assigns is set *)
Lemma load_any_line U B C st f n line : tracked cfg U B C st ->
  (forall s val, line_assigns line = Some (s, val) -> flag_stale U B s = false) ->
  exists st', load_line cfg depth f n line st = (Ok tt, st')
    /\ match line_assigns line with
       | Some (s, val) => In s (c_unique_defined_syms cfg)
           /\ tracked cfg (users_after_line cfg U s val) (was_after_line cfg B s val) (ch_was_after_line cfg C s val) st'
       | None => tracked cfg U B C st'
       end.
Proof.
  intros HT. pose proof (line_defined line) as LD. unfold load_line. unfold line_assigns in *. set (l := rstrip line) in *.
  revert LD. destruct (set_match cfg l) as [[name val]|].
  - destruct (get_sym cfg name) as [s|] eqn:Hg; [|by intros; apply undef_assign_ok]. simpl.
    destruct (load_checked_value cfg U B C st s val f n HT) as (st1 & E1 & H1).
    cbv [mbind K_bind M_bind]. rewrite E1. destruct (checked_value cfg s val) as [v|]; simpl; intros LD HF; [|by exists st1].
    edestruct (load_any_assign _ _ _ st1 s v f n H1) as (st2 & E2 & H2); [|exists st2; split; [exact E2|split; [by eapply LD|done]]].
    rewrite stale_after_mode. by eapply HF.
  - destruct (unset_match cfg l) as [name|].
    + destruct (get_sym cfg name) as [s|] eqn:Hg; [|by intros; apply undef_assign_ok]. simpl.
      destruct (is_bool_tristate _) eqn:Hb; intros LD HF; [|by exists st].
      destruct (load_any_assign U B C st s "n" f n HT (HF _ _ eq_refl)) as (st' & E & H'). exists st'. split; [exact E|].
      split; [by eapply LD|]. unfold users_after_line, ch_was_after_line, mode_line. by rewrite Hb.
    + intros _ _. match goal with |- context [when ?b _] => destruct b end; cbn [when]; [|by exists st].
      eexists. split; [reflexivity|]. exact (tracked_same cfg U B C st _ HT (warn_at_same _ _ _)).
Qed.

(** ** The whole file *)

(** The user values and flags after the assignments [l] *)
Record follows (l : list (symid * string)) (U : uvals) (B : symid -> bool) (C : choiceid -> bool) : Prop := {
  fo_sym : forall s, In s (c_unique_defined_syms cfg) ->
    match last_assigned s l with Some v => B s = true /\ u_sym U s = Some v | None => B s = false end;
  fo_mode : forall c, In c (c_unique_choices cfg) -> is_bool_tristate (ch_orig_type (chc cfg c)) = true ->
    match last_mode c l with Some m => C c = true /\ u_mode U c = Some m | None => C c = false end;
  fo_sel : forall c, is_bool_tristate (ch_orig_type (chc cfg c)) = true ->
    match last_selected c l with Some s => C c = true /\ u_sel U c = Some s | None => True end;
}.

Lemma follows_flags l U B C : follows l U B C -> set_flags_ok U B.
Proof.
  intros H s Hs HB. pose proof (fo_sym _ _ _ _ H s Hs) as Hf. destruct (last_assigned s l); [|congruence]. destruct Hf; eauto.
Qed.

(** A member that becomes y has set the mode too *)
Lemma selected_has_mode s val c : is_bool_tristate (ch_orig_type (chc cfg c)) = true ->
  sym_choice (sym cfg s) = Some c -> accepts cfg s (UStr val) = true -> typed_value cfg s (UStr val) = UTri 2 ->
  mode_line cfg s val = Some c /\ ch_accepts cfg c (UStr val) = true.
Proof.
  intros Hb Hc _. unfold typed_value, mode_line, ch_accepts.
  destruct (is_bool_tristate (sym_orig_type (sym cfg s))); [|done]. rewrite Hc. intros Ht. rewrite Ht.
  split; [|by destruct (ch_orig_type (chc cfg c))].
  destruct (String.eqb_spec val "n") as [->|]; [done|done].
Qed.

Lemma u_mode_set U s v c : u_mode (after_set_value cfg U s v) c = u_mode U c.
Proof.
  unfold after_set_value. destruct (accepts cfg s v); [|done]. destruct (sym_choice _) as [c'|]; [|done].
  destruct (typed_value cfg s v) as [z|]; [|done]. destruct (decide (z = 2)) as [->|Hz]; [done|].
  by destruct z as [|[| [] |]|].
Qed.
Lemma u_sym_set U s v x : u_sym (after_set_value cfg U s v) x
  = if bool_decide (s = x) && accepts cfg s v then Some (typed_value cfg s v) else u_sym U x.
Proof.
  unfold after_set_value. destruct (accepts cfg s v); [|by rewrite andb_false_r]. rewrite andb_true_r.
  assert (H : u_sym (set_user U s (Some (typed_value cfg s v))) x
    = if bool_decide (s = x) then Some (typed_value cfg s v) else u_sym U x) by (simpl; by case_decide; case_bool_decide).
  destruct (sym_choice _) as [c'|]; [|exact H].
  destruct (typed_value cfg s v) as [z|]; [|exact H]. destruct (decide (z = 2)) as [->|Hz]; [exact H|].
  by destruct z as [|[| [] |]|].
Qed.

Lemma u_sel_set U s v c : u_sel (after_set_value cfg U s v) c
  = if bool_decide (sym_choice (sym cfg s) = Some c) && accepts cfg s v && bool_decide (typed_value cfg s v = UTri 2)
    then Some s else u_sel U c.
Proof.
  unfold after_set_value. destruct (accepts cfg s v); [|by rewrite andb_false_r]. rewrite andb_true_r.
  destruct (sym_choice _) as [c'|]; [|done]. destruct (typed_value cfg s v) as [z|x]; [|by rewrite andb_false_r].
  destruct (decide (z = 2)) as [->|Hz].
  - rewrite (bool_decide_eq_true_2 (UTri 2 = UTri 2)), andb_true_r by done. simpl. case_decide; case_bool_decide; congruence.
  - rewrite (bool_decide_eq_false_2 (UTri z = UTri 2)), andb_false_r by congruence. by destruct z as [|[| [] |]|].
Qed.
Lemma after_mode_sel U s val c :
  u_sel (match mode_line cfg s val with Some c => after_ch_set_value cfg U c (UStr val) | None => U end) c = u_sel U c.
Proof.
  destruct (mode_line _ _ _); [|done]. unfold after_ch_set_value. destruct (tri_of_str _); [|done]. by destruct (valid_for_type _ _).
Qed.

(** Flags of choices are only raised *)
Lemma ch_was_raised C s val c : C c = true -> ch_was_after_line cfg C s val c = true.
Proof.
  intros HC. unfold ch_was_after_line, ch_flag_after. set (C1 := match mode_line cfg s val with Some c => _ | None => C end).
  assert (H1 : C1 c = true).
  { unfold C1. destruct (mode_line _ _ _); [|done]. destruct (ch_accepts _ _ _); [|done]. unfold put. by case_decide. }
  destruct (accepts _ _ _); [|done]. destruct (sym_choice _) as [c'|]; [|done]. destruct (typed_value _ _ _) as [z|]; [|done].
  destruct (decide (z = 2)) as [->|Hz]; [unfold put; by case_decide|by destruct z as [|[| [] |]|]].
Qed.
Lemma ch_was_selected C s val c : sym_choice (sym cfg s) = Some c -> accepts cfg s (UStr val) = true ->
  typed_value cfg s (UStr val) = UTri 2 -> ch_was_after_line cfg C s val c = true.
Proof. intros Hc Ha Ht. unfold ch_was_after_line, ch_flag_after. rewrite Ha, Hc, Ht. unfold put. by rewrite decide_True. Qed.

Lemma follows_step l U B C s val : follows l U B C ->
  follows (l ++ [(s, val)]) (users_after_line cfg U s val) (was_after_line cfg B s val) (ch_was_after_line cfg C s val).
Proof.
  intros [Hs Hm Hsel]. split.
  - intros x Hx. specialize (Hs x Hx). unfold last_assigned in *. rewrite foldl_app. cbn [foldl].
    unfold users_after_line, was_after_line. rewrite u_sym_set, after_mode_sym. unfold assign_step at 1. cbn [fst snd].
    case_bool_decide as E; [subst x|]; cbn [andb]; destruct (accepts cfg s (UStr val)); unfold put;
      rewrite ?decide_True, ?decide_False by done; done.
  - intros c Hc Hb. specialize (Hm c Hc Hb). unfold last_mode in *. rewrite foldl_app. cbn [foldl].
    unfold users_after_line, ch_was_after_line. rewrite u_mode_set. unfold mode_step. cbn [fst snd].
    set (C1 := match mode_line cfg s val with Some c => _ | None => C end).
    assert (HC1 : (if accepts cfg s (UStr val) then ch_flag_after cfg C1 s (UStr val) else C1) c = C1 c).
    { destruct (accepts cfg s (UStr val)) eqn:Ha; [|done]. unfold ch_flag_after.
      destruct (sym_choice (sym cfg s)) as [c'|] eqn:Hc'; [|done].
      destruct (typed_value cfg s (UStr val)) as [z|] eqn:Ht; [|done].
      destruct (decide (z = 2)) as [->|Hz]; [|by destruct z as [|[| [] |]|]].
      unfold put. case_decide as E; [subst c'|done].
      destruct (selected_has_mode s val c Hb Hc' Ha Ht) as [H1 H2]. unfold C1. rewrite H1, H2. unfold put. by rewrite decide_True. }
    rewrite HC1. clear HC1. unfold C1, ch_accepts, after_ch_set_value.
    destruct (mode_line cfg s val) as [c'|]; [|destruct (tri_of_str _); done].
    destruct (tri_of_str (UStr val)) as [z|]; [|by destruct (foldl _ _ _)].
    destruct (decide (c' = c)) as [->|Hne].
    + rewrite bool_decide_eq_true_2 by done. cbn [andb].
      destruct (valid_for_type _ _); [|done]. unfold put. simpl. by rewrite !decide_True.
    + rewrite bool_decide_eq_false_2 by congruence. cbn [andb].
      destruct (valid_for_type _ _); [|done]. unfold put. simpl. by rewrite !decide_False.
  - intros c Hb. specialize (Hsel c Hb). unfold last_selected in *. rewrite foldl_app. cbn [foldl].
    unfold users_after_line. rewrite u_sel_set, after_mode_sel. unfold sel_step at 1. cbn [fst snd].
    destruct (_ && _) eqn:E.
    + rewrite !andb_true_iff, !bool_decide_eq_true in E. destruct E as [[Hc Ha] Ht]. split; [by apply ch_was_selected|done].
    + destruct (foldl (sel_step c) None l); [|done]. destruct Hsel as [HC Hu]. split; [by apply ch_was_raised|done].
Qed.

Lemma load_any_lines f lines : forall n l U B C st, tracked cfg U B C st -> follows l U B C ->
  exists st' U' B' C', load_lines cfg depth f n lines st = (Ok tt, st')
    /\ tracked cfg U' B' C' st' /\ follows (l ++ omap line_assigns lines) U' B' C'.
Proof.
  induction lines as [|line lines IH]; intros n l U B C st HT HF.
  { exists st, U, B, C. by rewrite app_nil_r. }
  destruct (load_any_line U B C st f n line HT) as (st1 & E1 & H1).
  { intros s val Hl. apply set_flags_fresh; [by eapply follows_flags|by eapply line_defined]. }
  cbn [load_lines omap list_omap]. destruct (line_assigns line) as [[s val]|].
  - destruct H1 as [Hd HT1]. destruct (IH (n + 1) _ _ _ _ st1 HT1 (follows_step _ _ _ _ s val HF)) as (st' & U' & B' & C' & E' & H').
    exists st', U', B', C'. rewrite <- app_assoc in H'. split; [exact (bind_ok _ _ _ _ _ _ E1 E')|exact H'].
  - destruct (IH (n + 1) l _ _ _ st1 H1 HF) as (st' & U' & B' & C' & E' & H').
    exists st', U', B', C'. split; [exact (bind_ok _ _ _ _ _ _ E1 E')|exact H'].
Qed.

(** What a file says about user values *)
Record loaded_users (text : string) (U : uvals) : Prop := {
  lu_sym : forall s, In s (c_unique_defined_syms cfg) -> u_sym U s = last_assigned s (file_assigns text);
  lu_mode : forall c, In c (c_unique_choices cfg) -> is_bool_tristate (ch_orig_type (chc cfg c)) = true ->
    u_mode U c = last_mode c (file_assigns text);
  lu_sel : forall c, In c (c_unique_choices cfg) -> is_bool_tristate (ch_orig_type (chc cfg c)) = true ->
    match last_selected c (file_assigns text), last_mode c (file_assigns text) with
    | Some s, _ => u_sel U c = Some s | None, None => u_sel U c = None | None, Some _ => True end;
}.

Lemma load_any_contents f text U st : InUse cfg U st ->
  exists st' U', load_contents cfg depth f text true st = (Ok tt, st') /\ InUse cfg U' st' /\ loaded_users text U'.
Proof.
  intros H. destruct (reset_flags_ok cfg U st H) as (st1 & B & C & E1 & T1 & HB & HC).
  destruct (load_any_lines f (file_lines (translate_newlines text)) 1 [] U B C st1 T1) as (st2 & U2 & B2 & C2 & E2 & T2 & F2).
  { split; [intros s Hs; by apply HB|intros c Hc _; by apply HC|done]. }
  destruct (unset_syms cfg B2 C2 (c_unique_defined_syms cfg) U2 st2 T2) as (st3 & U3 & E3 & T3 & Hs3 & Hc3).
  destruct (unset_choices cfg B2 C2 (c_unique_choices cfg) U3 st3 T3) as (st4 & U4 & E4 & T4 & Hs4 & Hm4).
  { intros c Hc. by apply static_ch. }
  exists st4, U4. split; [|split; [apply T4|]].
  - unfold load_contents. cbn [when]. fold (reset_flags cfg). refine (bind_ok _ _ _ _ _ _ E1 _).
    refine (bind_ok _ _ _ _ _ _ E2 _). exact (bind_ok _ _ _ _ _ _ E3 E4).
  - split.
    + intros s Hs. pose proof (fo_sym _ _ _ _ F2 s Hs) as Hf. simpl in Hf. fold (file_assigns text) in Hf. rewrite Hs4, Hs3.
      rewrite bool_decide_eq_true_2 by by apply list_elem_of_In.
      destruct (last_assigned s _); [destruct Hf as [-> ->]|rewrite Hf]; done.
    + intros c Hc Hb. pose proof (fo_mode _ _ _ _ F2 c Hc Hb) as Hf. simpl in Hf. fold (file_assigns text) in Hf.
      rewrite (proj1 (Hm4 c)), (proj1 (Hc3 c)), bool_decide_eq_true_2 by by apply list_elem_of_In.
      destruct (last_mode c _); [destruct Hf as [-> ->]|rewrite Hf]; done.
    + intros c Hc Hb. pose proof (fo_mode _ _ _ _ F2 c Hc Hb) as Hf. pose proof (fo_sel _ _ _ _ F2 c Hb) as Hg.
      simpl in Hf, Hg. fold (file_assigns text) in Hf, Hg.
      rewrite (proj2 (Hm4 c)), (proj2 (Hc3 c)), bool_decide_eq_true_2 by by apply list_elem_of_In.
      destruct (last_selected c _); [destruct Hg as [-> ->]; done|].
      destruct (last_mode c _); [done|]. by rewrite Hf.
Qed.
End AnyFile.

Lemma load_any_config cfg `{L : Loaded cfg} getenv U f text w :
  names_defined cfg -> InUse cfg U (w_state w) -> w_files w !! f = Some text ->
  exists st U', load_config cfg depth getenv (Some f) true w
      = (Ok ("Loaded configuration '" +:+ f +:+ "'"), mkWorld st (w_files w) (w_written w))
    /\ InUse cfg U' st /\ loaded_users cfg text U'.
Proof.
  intros ND H Hf.
  assert (H0 : InUse cfg U (set_st_warn_assign_no_prompt false (w_state w))).
  { apply (in_use_same cfg U (w_state w)); [exact H|by intros []|by split]. }
  destruct (load_any_contents cfg ND f text U _ H0) as (st1 & U1 & E1 & H1 & S1).
  assert (H2 : InUse cfg U1 (set_st_warn_assign_no_prompt true st1)).
  { apply (in_use_same cfg U1 st1); [exact H1|by intros []|by split]. }
  exists (set_st_warn_assign_no_prompt true st1), U1. split; [|by split].
  unfold load_config, load_named, load_config_, open_config, try_os, read_file, configuration_msg, try_finally.
  cbv [mbind W_bind M_bind in_state modify mret W_ret M_ret]. cbn [w_files w_state]. rewrite Hf. cbn [w_files w_state].
  rewrite E1. reflexivity.
Qed.

(** ** The theorem *)

(** C8. Loading a file never fails, whatever the file contains: malformed lines,
    unknown symbols, values of the wrong type and repeated assignments are at
    most warned about.  Afterwards the configuration is consistent with user
    values that the text determines: each defined symbol has the last value that
    the text assigns to it and that fits its type, or none, and each choice the
    mode and the selection of the last assignments that set them. *)
Theorem load_any_file (cfg : Config) (L : Loaded cfg) (getenv : string -> option string) (U : uvals)
    (f text : string) (w : World) :
  names_defined cfg -> InUse cfg U (w_state w) -> w_files w !! f = Some text ->
  exists st U', load_config cfg depth getenv (Some f) true w
      = (Ok ("Loaded configuration '" +:+ f +:+ "'"), mkWorld st (w_files w) (w_written w))
    /\ InUse cfg U' st /\ loaded_users cfg text U'.
Proof. apply load_any_config. Qed.

(** A file with two architectures, an unknown symbol, values of wrong types and
    a repeated assignment *)
Definition messy_text : string :=
  lines_text ["CONFIG_ARCH_X64=y"; "CONFIG_ARCH_ARM64=yes"; "hello"; "CONFIG_UNKNOWN=y"; "CONFIG_MAX_CONTEXTS=12";
              "CONFIG_MAX_CONTEXTS=abc"; "CONFIG_NO_OUTPUT=m"; "# CONFIG_MAX_CONTEXTS is not set"; "# CONFIG_NO_OUTPUT is not set";
              "CONFIG_TOOLCHAIN_PREFIX=riscv"; "CONFIG_MAX_CONTEXTS=17"].

Definition names_defined_check (cfg : Config) : bool :=
  forallb (fun '(_, s) => bool_decide (sym_nodes (sym cfg s) = []) || bool_decide (s ∈ c_unique_defined_syms cfg))
    (map_to_list (c_sym_table cfg)).
Lemma names_defined_check_sound cfg : names_defined_check cfg = true -> names_defined cfg.
Proof.
  unfold names_defined_check, names_defined, get_sym. rewrite forallb_forall. intros H name s.
  destruct (c_sym_table cfg !! name) as [s'|] eqn:E; [|done].
  specialize (H (name, s')). rewrite <- list_elem_of_In, elem_of_map_to_list in H. specialize (H E). simpl in H.
  destruct (sym_nodes (sym cfg s')) eqn:En; [done|]. intros [= ->].
  rewrite bool_decide_eq_false_2 in H by done. by apply bool_decide_eq_true, list_elem_of_In in H.
Qed.

Lemma load_any_file_witness :
  exists st U', load_config fpspy (@depth fpspy fpspy_loaded) (fun _ => None) (Some ".config") true
      (mkWorld example_session.2 {[".config" := messy_text]} [])
      = (Ok "Loaded configuration '.config'", mkWorld st {[".config" := messy_text]} [])
    /\ InUse fpspy U' st /\ loaded_users fpspy messy_text U'
    /\ map (fun s => last_assigned fpspy s (file_assigns fpspy messy_text)) [4; 5; 7; 13; 14; 17]%nat
       = [Some (UTri 2); Some (UTri 2); None; None; Some (UTri 0); Some (UStr "17")].
Proof.
  destruct (load_any_file fpspy fpspy_loaded (fun _ => None) example_session.1 ".config" messy_text
    (mkWorld example_session.2 {[".config" := messy_text]} [])) as (st & U' & E & H & S).
  - apply names_defined_check_sound. vm_compute. reflexivity.
  - exact example_in_use.
  - apply lookup_singleton_eq.
  - exists st, U'. split; [exact E|]. split; [exact H|]. split; [exact S|]. vm_compute. reflexivity.
Defined.
