(* ===== verification/SyncProps.v ===== *)
(** * Synchronisation with [auto.conf]

    [Kconfig.sync_deps] empties the files of exactly the symbols whose value is not
    the one that [auto.conf] records, and of the names in it that are no symbols
    any more; done twice, it does not touch the file of a symbol the second time. *)
From S2P Require Import Prelude PyStr Model Eval EvalSpec EvalRefine EvalDet Values SetValue Validity Session ConfigFile.
From S2P Require Import Checks Finalize Fpspy Demo Frames Tree Lines Reload Loading Saving Restore RoundTrip FileChecks FileProps.

Section Sync.
Context (cfg : Config) `{L : Loaded cfg}.

(** ** What [auto.conf] says *)

(** A line: a name that is no symbol any more, or the old value of a symbol *)
Definition old_entry (line : string) : option (string + symid * string) :=
  '(name, val) ← set_match cfg line;
  match c_sym_table cfg !! name with
  | None => Some (inl name)
  | Some s =>
      if type_eqb (sym_orig_type (sym cfg s)) STRING
      then x ← conf_string_match val; Some (inr (s, unescape x))
      else Some (inr (s, val))
  end.
Definition old_entries (contents : option string) : list (string + symid * string) :=
  match contents with Some text => omap old_entry (file_lines (translate_newlines text)) | None => [] end.

Definition old_step (O : symid -> option string) (e : string + symid * string) : symid -> option string :=
  match e with inr (s, v) => fun x => if decide (s = x) then Some v else O x | inl _ => O end.
Definition old_values (l : list (string + symid * string)) : symid -> option string := foldl old_step (fun _ => None) l.
Definition gone_names (l : list (string + symid * string)) : list string :=
  omap (fun e => match e with inl name => Some name | inr _ => None end) l.

(** Files are emptied, or created *)
Definition touch_all (path : string) (names : list string) (files : gmap string string) : gmap string string :=
  foldl (fun m name => <[dep_file path name := ""]> m) files names.

(** The files of [names] have been touched, and the state is [st] *)
Definition touched (path : string) (names : list string) (st : State) (w : World) : World :=
  mkWorld st (touch_all path names (w_files w)) (w_written w ++ map (dep_file path) names).

Lemma touched_none path w : touched path [] (w_state w) w = w.
Proof. destruct w. unfold touched. simpl. by rewrite app_nil_r. Qed.
Lemma touched_app path names names' st st' w :
  touched path names' st' (touched path names st w) = touched path (names ++ names') st' w.
Proof. unfold touched, touch_all. simpl. by rewrite foldl_app, map_app, app_assoc. Qed.

Definition auto_conf (path : string) : string := path_join path "auto.conf".

(** ** The old values *)

Definition old_is (O : symid -> option string) (st : State) : Prop :=
  forall s, In s (c_unique_defined_syms cfg) -> old_val (symst st s) = O s.

(** A state in use with the old values [O] *)
Definition synced (U : uvals) (O : symid -> option string) (st : State) : Prop := InUse cfg U st /\ old_is O st.

Lemma put_old U O st s v : synced U O st -> synced U (fun x => if decide (s = x) then Some v else O x) (alter_sym (set_old_val (Some v)) s st).
Proof.
  intros [H HO]. split.
  - apply (in_use_same cfg U st); [exact H| |].
    + intros i. by apply same_at_put_sym.
    + split; intros; autorewrite with kst; [case_decide; by subst|done].
  - intros x Hx. autorewrite with kst. case_decide; [by subst|by apply HO].
Qed.

Lemma touch_ok path name w : touch_dep_file path name w = (Ok tt, touched path [name] (w_state w) w).
Proof. reflexivity. Qed.

Lemma load_old_line_ok path U O w line : synced U O (w_state w) ->
  exists st', load_old_line cfg path line w
      = (Ok tt, touched path (gone_names (option_list (old_entry line))) st' w)
    /\ synced U (foldl old_step O (option_list (old_entry line))) st'.
Proof.
  intros H. unfold load_old_line, old_entry. destruct w as [st files written]. simpl in H. unfold touched. simpl.
  destruct (set_match cfg line) as [[name val]|]; simpl; [|exists st; by rewrite app_nil_r].
  destruct (c_sym_table cfg !! name) as [s|]; [|by exists st].
  destruct (type_eqb _ _); [destruct (conf_string_match val) as [x|]|]; simpl; rewrite app_nil_r;
    [eexists; split; [reflexivity|by apply put_old]|by exists st|eexists; split; [reflexivity|by apply put_old]].
Qed.

Lemma load_old_lines_ok path U lines : forall O w, synced U O (w_state w) ->
  exists st', forM_ lines (load_old_line cfg path) w
      = (Ok tt, touched path (gone_names (omap old_entry lines)) st' w)
    /\ synced U (foldl old_step O (omap old_entry lines)) st'.
Proof.
  unfold forM_. induction lines as [|line lines IH]; intros O w H.
  { exists (w_state w). cbn [omap list_omap gone_names]. by rewrite touched_none. }
  destruct (load_old_line_ok path U O w line H) as (st1 & E1 & H1).
  destruct (IH _ (touched path (gone_names (option_list (old_entry line))) st1 w) H1) as (st' & E' & H').
  exists st'. rewrite touched_app in E'. cbn [omap list_omap].
  destruct (old_entry line) as [[name|[s v]]|]; cbn [option_list foldl gone_names omap list_omap app] in *;
    (split; [exact (foldM_cons _ _ _ _ _ _ _ _ E1 E')|exact H']).
Qed.

(** [_load_old_vals] *)
Lemma load_old_vals_ok path U w : InUse cfg U (w_state w) ->
  let l := old_entries (w_files w !! auto_conf path) in
  exists st', load_old_vals cfg path w = (Ok tt, touched path (gone_names l) st' w)
    /\ synced U (old_values l) st'.
Proof.
  intros H. cbv zeta. assert (F : flag_setter (set_old_val None)) by (split; [done|by intros; split_and!]).
  destruct (reset_syms cfg U _ (c_unique_defined_syms cfg) _ F H) as (st1 & E1 & H1 & Hs1 & _).
  assert (S1 : synced U (fun _ => None) st1).
  { split; [done|]. intros s Hs. by rewrite Hs1, bool_decide_eq_true_2 by by apply list_elem_of_In. }
  assert (Er : load_old_vals cfg path w
    = (f ← try_os (x ← read_file (auto_conf path); mret (Some x))
             (fun e => if String.eqb e "ENOENT" then mret None else raise (OSError e));
       match f with
       | None => mret tt
       | Some contents => forM_ (file_lines (translate_newlines contents)) (load_old_line cfg path)
       end : W unit) (touched path [] st1 w)).
  { unfold load_old_vals, touched. cbv [mbind W_bind M_bind in_state]. rewrite E1. cbn [touch_all foldl map].
    by rewrite app_nil_r. }
  rewrite Er. unfold old_entries, try_os, read_file. cbv [mbind W_bind M_bind]. cbn [w_files w_state touched touch_all foldl].
  destruct (w_files w !! auto_conf path) as [text|].
  - cbv [mret W_ret M_ret]. destruct (load_old_lines_ok path U (file_lines (translate_newlines text)) (fun _ => None) (touched path [] st1 w) S1)
      as (st' & E' & S'). exists st'. by rewrite touched_app in E'.
  - by exists st1.
Qed.
(** ** The symbols that have changed *)

Section Values.
Context (U : uvals).
Local Abbreviation rho := (solution cfg U).
Local Abbreviation E := (ev cfg depth).

(** Is the value of [s] different from the recorded one?  A symbol that is
    recorded must still be written with that value; one that is not must not be
    written, or have the value n *)
Definition changed (O : symid -> option string) (s : symid) : bool :=
  match O s with
  | Some old => negb (d_wtc cfg U rho s && String.eqb old (v_str rho s))
  | None => d_wtc cfg U rho s && negb (is_bool_tristate (sym_orig_type (sym cfg s)) && String.eqb (v_str rho s) "n")
  end.

Lemma old_ignores s : ignores_caches (fun st => old_val (symst st s)).
Proof. split; intros; autorewrite with kst; try case_decide; by subst. Qed.

Lemma old_read {A} O (m : K A) st : (forall s, frames (fun st => old_val (symst st s)) m) ->
  old_is O st -> old_is O (m st).2.
Proof. intros Hm HO s Hs. rewrite (Hm s st). by apply HO. Qed.

(** A reading keeps the old values *)
Lemma synced_after {A} O (m : K A) (a : A) st : synced U O st ->
  (forall s, frames (fun st => old_val (symst st s)) m) ->
  (exists st', m st = (Ok a, st') /\ InUse cfg U st') -> exists st', m st = (Ok a, st') /\ synced U O st'.
Proof.
  intros [_ HO] Hf (st' & Em & H'). exists st'. split; [done|]. split; [done|].
  assert (Hst : st' = (m st).2) by exact (eq_sym (f_equal snd Em)). rewrite Hst. by apply old_read.
Qed.

Lemma read_tri_synced O st s : synced U O st ->
  exists st', ev_tri E s st = (Ok (v_tri rho s), st') /\ synced U O st'.
Proof.
  intros H. apply synced_after; [done| |exact (read_tri cfg U st s (proj1 H))].
  intros s'. apply (fa_tri _ _ (frames_ev _ cfg (old_ignores s') depth)).
Qed.
Lemma read_config_string_synced O st s : synced U O st ->
  exists st', config_string cfg E s st = (Ok (d_config_string cfg U rho s), st') /\ synced U O st'.
Proof.
  intros H. apply synced_after; [done| |exact (read_config_string cfg U st s (proj1 H))].
  intros s'. apply frames_config_string, frames_ev, old_ignores.
Qed.
Lemma read_written_synced O st s : synced U O st ->
  exists st', (val ← ev_str E s; w ← sget write_to_conf s; mret (val, w) : K (string * bool)) st
      = (Ok (v_str rho s, d_wtc cfg U rho s), st') /\ synced U O st'.
Proof.
  intros H. apply synced_after; [done| |exact (read_written cfg U st s (proj1 H))].
  intros s'. apply frames_bind; [apply (fa_str _ _ (frames_ev _ cfg (old_ignores s') depth))|]. intros val.
  apply frames_bind; [apply frames_gets|]. intros w. apply frames_ret.
Qed.

Lemma sync_changed_ok O st s : synced U O st -> In s (c_unique_defined_syms cfg) ->
  exists st', sync_changed cfg depth s st = (Ok (changed O s), st') /\ synced U O st'.
Proof.
  intros H Hs. destruct (read_written_synced O st s H) as (st' & E1 & H').
  exists st'. split; [|done]. pose proof (proj2 H' s Hs) as HO. revert E1. unfold sync_changed, changed.
  generalize (v_str rho s) (d_wtc cfg U rho s). intros v b.
  cbv [mbind K_bind M_bind sget gets mret K_ret M_ret].
  destruct (ev_str E s st) as [[val|e] st1]; [|done]. intros [= -> -> ->]. rewrite HO.
  destruct (O s) as [old|]; destruct b; cbn [andb negb]; try done.
  - rewrite (bool_decide_eq_false_2 (Some old = None)) by done. cbn [andb negb]. do 3 f_equal.
    destruct (String.eqb_spec old v); case_bool_decide; congruence.
  - rewrite (bool_decide_eq_true_2 (None = None)) by done. rewrite (bool_decide_eq_false_2 (None = Some _)) by done.
    cbn [andb negb]. by rewrite andb_true_r.
Qed.

Lemma touch_changed_ok path O l : (forall s, In s l -> In s (c_unique_defined_syms cfg)) ->
  forall w, synced U O (w_state w) ->
  exists st', forM_ l (fun s => b ← in_state (sync_changed cfg depth s);
                               when b (touch_dep_file path (sym_name (sym cfg s)))) w
      = (Ok tt, touched path (map (fun s => sym_name (sym cfg s)) (List.filter (changed O) l)) st' w)
    /\ synced U O st'.
Proof.
  unfold forM_. induction l as [|s l IH]; intros Hl w H.
  { exists (w_state w). cbn [List.filter map]. by rewrite touched_none. }
  destruct (sync_changed_ok O (w_state w) s H (Hl s (or_introl eq_refl))) as (st1 & E1 & H1).
  set (names := if changed O s then [sym_name (sym cfg s)] else []).
  assert (Es : (b ← in_state (sync_changed cfg depth s); when b (touch_dep_file path (sym_name (sym cfg s))) : W unit) w
    = (Ok tt, touched path names st1 w)).
  { unfold names, touched. cbv [mbind W_bind M_bind in_state]. rewrite E1. destruct (changed O s); [done|]. simpl.
    by rewrite app_nil_r. }
  destruct (IH (fun x Hx => Hl x (or_intror Hx)) (touched path names st1 w) H1) as (st' & E' & H').
  exists st'. split; [|done]. rewrite touched_app in E'. unfold names in *. cbn [List.filter].
  destruct (changed O s); exact (foldM_cons _ _ _ _ _ _ _ _ Es E').
Qed.

(** ** The new [auto.conf] *)

(** The symbols it lists *)
Definition recorded_value (s : symid) : bool :=
  d_wtc cfg U rho s && negb (is_bool_tristate (sym_orig_type (sym cfg s)) && (v_tri rho s =? 0)).
Definition auto_text : string :=
  lines_text (map (fun s => symbol_line cfg s (v_str rho s)) (List.filter recorded_value (c_unique_defined_syms cfg))).

Lemma old_vals_contents_ok st : InUse cfg U st ->
  exists st', old_vals_contents cfg E st = (Ok auto_text, st') /\ InUse cfg U st'.
Proof.
  unfold old_vals_contents, auto_text. generalize (c_unique_defined_syms cfg) as l. intros l.
  assert (Hout : forall out, out +:+ lines_text (map (fun s => symbol_line cfg s (v_str rho s)) (List.filter recorded_value []))
    = out) by (intros; apply append_nil_r).
  enough (H : forall out st, InUse cfg U st -> exists st',
    foldM (fun out s =>
      no ← (if is_bool_tristate (sym_orig_type (sym cfg s)) then v ← ev_tri E s; mret (v =? 0) else mret false);
      if no : bool then mret out else line ← config_string cfg E s; mret (out +:+ line)) out l st
    = (Ok (out +:+ lines_text (map (fun s => symbol_line cfg s (v_str rho s)) (List.filter recorded_value l))), st')
    /\ InUse cfg U st') by exact (H "" st).
  clear st. induction l as [|s l IH]; intros out st H.
  { exists st. by rewrite Hout. }
  set (line := if recorded_value s then symbol_line cfg s (v_str rho s) +:+ String NL "" else "").
  assert (Hb : exists st1, (no ← (if is_bool_tristate (sym_orig_type (sym cfg s)) then v ← ev_tri E s; mret (v =? 0) else mret false);
      if no : bool then mret out else line ← config_string cfg E s; mret (out +:+ line) : K string) st
      = (Ok (out +:+ line), st1) /\ InUse cfg U st1).
  { destruct (read_tri cfg U st s H) as (st1 & E1 & H1). unfold evaluate in E1.
    assert (Hc : forall st0, InUse cfg U st0 -> is_bool_tristate (sym_orig_type (sym cfg s)) && (v_tri rho s =? 0) = false ->
      exists st2, (line ← config_string cfg E s; mret (out +:+ line) : K string) st0 = (Ok (out +:+ line), st2) /\ InUse cfg U st2).
    { intros st0 H0 Hn. destruct (read_config_string cfg U st0 s H0) as (st2 & E2 & H2). exists st2. split; [|done].
      unfold evaluate in E2. cbv [mbind K_bind M_bind]. rewrite E2, config_string_line. unfold line, recorded_value. rewrite Hn.
      by destruct (d_wtc cfg U rho s). }
    unfold line, recorded_value in *. destruct (is_bool_tristate _); cbn [andb] in *.
    - destruct (v_tri rho s =? 0) eqn:Hz.
      + exists st1. split; [|done]. refine (bind_ok _ _ _ _ _ _ (bind_ok _ _ _ _ _ _ E1 eq_refl) _). rewrite Hz. cbn [negb]. by rewrite andb_false_r, append_nil_r.
      + destruct (Hc st1 H1 eq_refl) as (st2 & E2 & H2). exists st2. split; [|done].
        refine (bind_ok _ _ _ _ _ _ (bind_ok _ _ _ _ _ _ E1 eq_refl) _). by rewrite Hz.
    - destruct (Hc st H eq_refl) as (st2 & E2 & H2). exists st2. by split. }
  destruct Hb as (st1 & E1 & H1). destruct (IH (out +:+ line) st1 H1) as (st' & E' & H').
  exists st'. split; [|done]. refine (foldM_cons _ _ _ _ _ _ _ _ E1 _). rewrite E'. do 2 f_equal. unfold line. cbn [List.filter].
  destruct (recorded_value s); cbn [map]; [|by rewrite append_nil_r]. rewrite lines_text_cons. by rewrite !append_assoc.
Qed.
(** ** [sync_deps] *)

(** The names whose files are touched *)
Definition sync_names (files : gmap string string) (path : string) : list string :=
  let l := old_entries (files !! auto_conf path) in
  gone_names l ++ map (fun s => sym_name (sym cfg s)) (List.filter (changed (old_values l)) (c_unique_defined_syms cfg)).

(** The files after synchronising *)
Definition sync_world (path : string) (st : State) (w : World) : World :=
  let names := sync_names (w_files w) path in
  mkWorld st (<[auto_conf path := auto_text]> (touch_all path names (w_files w)))
    (w_written w ++ map (dep_file path) names ++ [auto_conf path]).

Lemma sync_deps_ok path w : InUse cfg U (w_state w) ->
  exists st', sync_deps cfg depth path w = (Ok tt, sync_world path st' w) /\ InUse cfg U st'.
Proof.
  intros H. destruct (load_old_vals_ok path U w H) as (st1 & E1 & S1).
  set (l := old_entries (w_files w !! auto_conf path)) in *.
  edestruct (touch_changed_ok path (old_values l) (c_unique_defined_syms cfg) (fun _ Hs => Hs)
    (touched path (gone_names l) st1 w) S1) as (st2 & E2 & S2).
  destruct (old_vals_contents_ok st2 (proj1 S2)) as (st3 & E3 & H3).
  exists st3. split; [|done]. rewrite touched_app in E2. fold (sync_names (w_files w) path) in E2.
  unfold sync_deps. refine (bind_ok _ _ _ _ _ _ E1 _). refine (bind_ok _ _ _ _ _ _ E2 _).
  unfold write_old_vals. cbv [mbind W_bind M_bind in_state]. cbn [w_state touched]. rewrite E3. cbn [w_state w_files].
  unfold sync_world. by rewrite app_assoc.
Qed.

(** ** Reading the new [auto.conf] back *)

Context (FL : fileable cfg) (HU : user_ok cfg U).
Context (LI : forall s, In s (c_unique_defined_syms cfg) -> one_line (v_str rho s) = true).

Lemma conf_string_quoted v : conf_string_match (String QUOTE (escape v +:+ String QUOTE "")) = Some (escape v).
Proof. exact (conf_string_body_escape v ""). Qed.

Lemma old_entry_line s : In s (c_unique_defined_syms cfg) -> recorded_value s = true ->
  old_entry (symbol_line cfg s (v_str rho s) +:+ String NL "") = Some (inr (s, v_str rho s)).
Proof.
  intros Hs Hr. destruct (fl_names _ FL s Hs) as [Hn Hg]. unfold recorded_value in Hr. apply andb_true_iff in Hr as [Hw Hz].
  assert (Ht : c_sym_table cfg !! sym_name (sym cfg s) = Some s).
  { unfold get_sym in Hg. destruct (_ !! _) as [x|]; [|done]. by destruct (sym_nodes _). }
  assert (Hm : forall val, one_line val = true ->
    old_entry ((c_config_prefix cfg +:+ sym_name (sym cfg s) +:+ "=" +:+ val) +:+ String NL "")
    = if type_eqb (sym_orig_type (sym cfg s)) STRING then x ← conf_string_match val; Some (inr (s, unescape x)) else Some (inr (s, val))).
  { intros val Hv. unfold old_entry. rewrite !append_assoc, set_match_line by done. simpl.
    rewrite split_at_app by (unfold one_line in Hv; by apply andb_true_iff in Hv as [? _]). simpl. by rewrite Ht. }
  pose proof (LI s Hs) as H1. unfold symbol_line.
  destruct (is_bool_tristate (sym_orig_type (sym cfg s))) eqn:Hb.
  - cbn [andb] in Hz. rewrite (model_str _ _ _ (solution_model cfg U HU)) in H1 |- *. unfold d_str in *. rewrite Hb in *.
    pose proof (sol_tri cfg U HU s) as Bt. apply negb_true_iff, Z.eqb_neq in Hz.
    assert (Hc : v_tri rho s = 1 \/ v_tri rho s = 2) by lia.
    destruct Hc as [-> | ->]; cbn [TRI_TO_STR default from_option id String.eqb negb Ascii.eqb] in *;
      (etransitivity; [by apply Hm|]); by destruct (sym_orig_type (sym cfg s)).
  - destruct (is_int_hex (sym_orig_type (sym cfg s))) eqn:Hi.
    + rewrite Hm by done. by destruct (sym_orig_type (sym cfg s)).
    + rewrite Hm by (by rewrite one_line_cons, one_line_app, one_line_escape, H1).
      destruct (sym_orig_type (sym cfg s)) eqn:Et; try done.
      * unfold d_wtc in Hw. rewrite Et in Hw. by rewrite orb_true_r in Hw.
      * rewrite conf_string_quoted. cbn [type_eqb mbind option_bind]. by rewrite unescape_escape.
Qed.

Lemma old_entries_auto :
  old_entries (Some auto_text) = map (fun s => inr (s, v_str rho s)) (List.filter recorded_value (c_unique_defined_syms cfg)).
Proof.
  unfold old_entries, auto_text. destruct (fl_prefix _ FL) as [Hp _].
  assert (H1 : Forall (fun l => one_line l = true)
    (map (fun s => symbol_line cfg s (v_str rho s)) (List.filter recorded_value (c_unique_defined_syms cfg)))).
  { apply Forall_forall. intros l (s & -> & [Hs _]%list_elem_of_In%filter_In)%list_elem_of_fmap.
    apply symbol_line_one; [done|by apply (fl_names _ FL)|by apply LI]. }
  rewrite translate_id by by apply lines_text_no_cr. rewrite file_lines_text, map_map by done.
  apply omap_map_some. intros s [Hs Hr]%filter_In. by apply old_entry_line.
Qed.

Lemma old_values_auto s : In s (c_unique_defined_syms cfg) ->
  old_values (old_entries (Some auto_text)) s = if recorded_value s then Some (v_str rho s) else None.
Proof.
  intros Hs. rewrite old_entries_auto. unfold old_values.
  assert (H : forall l O, foldl old_step O (map (fun s => inr (s, v_str rho s)) l) s
    = if bool_decide (s ∈ l) then Some (v_str rho s) else O s).
  { induction l as [|x l IH]; intros O; [done|]. cbn [map foldl]. rewrite IH. cbn [old_step].
    destruct (bool_decide (s ∈ l)) eqn:Hl.
    - rewrite bool_decide_eq_true_2; [done|]. apply bool_decide_eq_true in Hl. by right.
    - apply bool_decide_eq_false in Hl. case_decide as Hx; [subst; by rewrite bool_decide_eq_true_2 by by left|].
      by rewrite bool_decide_eq_false_2 by (rewrite elem_of_cons; intros [?|?]; [congruence|done]). }
  rewrite H. destruct (recorded_value s) eqn:Hr.
  - rewrite bool_decide_eq_true_2; [done|]. by apply list_elem_of_In, filter_In.
  - rewrite bool_decide_eq_false_2; [done|]. intros [_ ?]%list_elem_of_In%filter_In. congruence.
Qed.

Lemma gone_names_auto : gone_names (old_entries (Some auto_text)) = [].
Proof. rewrite old_entries_auto. by induction (List.filter _ _). Qed.

Lemma unchanged_auto s : In s (c_unique_defined_syms cfg) -> changed (old_values (old_entries (Some auto_text))) s = false.
Proof.
  intros Hs. unfold changed. rewrite old_values_auto by done. unfold recorded_value.
  destruct (d_wtc cfg U rho s) eqn:Hw; [|done]. cbn [andb].
  destruct (is_bool_tristate (sym_orig_type (sym cfg s))) eqn:Hb; cbn [andb negb]; [|by rewrite String.eqb_refl].
  destruct (Z.eqb_spec (v_tri rho s) 0) as [Hz|Hz]; cbn [negb]; [|by rewrite String.eqb_refl].
  rewrite (model_str _ _ _ (solution_model cfg U HU)). unfold d_str. by rewrite Hb, Hz.
Qed.

Lemma sync_again path files : files !! auto_conf path = Some auto_text -> sync_names files path = [].
Proof.
  intros Hf. unfold sync_names. rewrite Hf, gone_names_auto.
  assert (Hn : List.filter (changed (old_values (old_entries (Some auto_text)))) (c_unique_defined_syms cfg) = []).
  { apply filter_none, unchanged_auto. }
  by rewrite Hn.
Qed.
End Values.
End Sync.

(** ** The theorems *)

(** C11. [sync_deps] always succeeds.  It touches (empties) exactly the files of the
    names that [auto.conf] lists and that are no symbols any more and of the symbols
    whose value is not the recorded one, in this order, and then records the
    values; no other file is opened for writing. *)
Theorem sync_deps_touches_changed (cfg : Config) (L : Loaded cfg) (path : string) (U : uvals) (w : World) :
  InUse cfg U (w_state w) ->
  let l := old_entries cfg (w_files w !! auto_conf path) in
  let names := gone_names l ++ map (fun s => sym_name (sym cfg s))
                 (List.filter (changed cfg U (old_values l)) (c_unique_defined_syms cfg)) in
  exists st, sync_deps cfg depth path w
      = (Ok tt, mkWorld st (<[auto_conf path := auto_text cfg U]> (touch_all path names (w_files w)))
                  (w_written w ++ map (dep_file path) names ++ [auto_conf path]))
    /\ InUse cfg U st.
Proof. exact (sync_deps_ok cfg U path w). Qed.

(** C12. Synchronising a second time, with the values as they were, touches no
    file of a symbol: the only file that is opened for writing is [auto.conf],
    which is written again with the contents it has.  (The documentation of
    [sync_deps] says that it is left alone, but [_write_if_changed] always
    writes.) *)
Theorem sync_deps_twice (cfg : Config) (L : Loaded cfg) (path : string) (U : uvals) (w : World) :
  fileable cfg -> InUse cfg U (w_state w) ->
  (forall s, In s (c_unique_defined_syms cfg) -> one_line (v_str (solution cfg U) s) = true) ->
  exists w1 st, sync_deps cfg depth path w = (Ok tt, w1)
    /\ sync_deps cfg depth path w1 = (Ok tt, mkWorld st (w_files w1) (w_written w1 ++ [auto_conf path])).
Proof.
  intros FL H LI. destruct (sync_deps_ok cfg U path w H) as (st1 & E1 & H1).
  set (w1 := sync_world cfg U path st1 w) in *.
  destruct (sync_deps_ok cfg U path w1 H1) as (st2 & E2 & _).
  exists w1, st2. split; [exact E1|]. rewrite E2. unfold sync_world at 1.
  assert (Ha : w_files w1 !! auto_conf path = Some (auto_text cfg U)) by apply lookup_insert_eq.
  rewrite (sync_again cfg U FL (use_user _ _ _ H) LI path _ Ha). cbn [map app touch_all foldl]. by rewrite insert_id.
Qed.

(** An [auto.conf] with a name that is gone, an old value and an unchanged one *)
Definition old_conf : gmap string string :=
  {["include/auto.conf" := lines_text ["CONFIG_GONE_NAME=y"; "CONFIG_MAX_CONTEXTS=1024"; "CONFIG_ARCH_ARM64=y"; "CONFIG_INTERCEPT_MEMORY_FAULTS=y"]]}.

Lemma old_conf_gone : gone_names (old_entries fpspy (old_conf !! auto_conf "include")) = ["GONE_NAME"].
Proof. vm_compute. reflexivity. Qed.
Lemma old_conf_changed : map (fun s => sym_name (sym fpspy s))
    (List.filter (changed fpspy example_session.1 (old_values (old_entries fpspy (old_conf !! auto_conf "include"))))
       (c_unique_defined_syms fpspy))
  = ["TOOLCHAIN_PREFIX"; "INTERCEPT_MEMORY_FAULTS"; "MAX_CONTEXTS"; "TRACE_BUFLEN"; "MAX_US_ON"; "MAX_US_OFF"].
Proof. vm_compute. reflexivity. Qed.

Definition example_names : list string :=
  ["GONE_NAME"; "TOOLCHAIN_PREFIX"; "INTERCEPT_MEMORY_FAULTS"; "MAX_CONTEXTS"; "TRACE_BUFLEN"; "MAX_US_ON"; "MAX_US_OFF"].

Lemma sync_deps_touches_changed_witness :
  exists st, sync_deps fpspy (@depth fpspy fpspy_loaded) "include" (mkWorld example_session.2 old_conf [])
      = (Ok tt, mkWorld st (<[auto_conf "include" := auto_text fpspy example_session.1]> (touch_all "include" example_names old_conf))
                  (map (dep_file "include") example_names ++ ["include/auto.conf"]))
    /\ InUse fpspy example_session.1 st.
Proof.
  destruct (sync_deps_touches_changed fpspy fpspy_loaded "include" example_session.1
    (mkWorld example_session.2 old_conf []) example_in_use) as (st & E & H).
  cbn [w_files w_written] in E. rewrite old_conf_gone, old_conf_changed in E. exists st. split; [exact E|exact H].
Defined.

Lemma example_values_one_line s : In s (c_unique_defined_syms fpspy) ->
  one_line (v_str (solution fpspy example_session.1) s) = true.
Proof.
  assert (H : forallb (fun s => one_line (v_str (solution fpspy example_session.1) s)) (c_unique_defined_syms fpspy) = true)
    by (vm_compute; reflexivity).
  rewrite forallb_forall in H. apply H.
Qed.

Lemma sync_deps_twice_witness :
  exists w1 st, sync_deps fpspy (@depth fpspy fpspy_loaded) "include" (mkWorld example_session.2 old_conf []) = (Ok tt, w1)
    /\ sync_deps fpspy (@depth fpspy fpspy_loaded) "include" w1 = (Ok tt, mkWorld st (w_files w1) (w_written w1 ++ ["include/auto.conf"])).
Proof.
  exact (sync_deps_twice fpspy fpspy_loaded "include" example_session.1 (mkWorld example_session.2 old_conf [])
    fpspy_fileable example_in_use example_values_one_line).
Defined.
