(* ===== verification/UnsetProps.v ===== *)
(** * Unsetting every value, and merging files

    [Kconfig.unset_values] brings a configuration back to its defaults.  Merging a
    file ([load_config] without [replace]) sets what the file assigns and keeps
    the rest; what [unset_values] leaves behind can make it fail, and it is said
    exactly when. *)
From S2P Require Import Prelude PyStr Model Eval EvalSpec EvalRefine EvalDet Values SetValue Validity Session Checks.
From S2P Require Import Fpspy Demo ConfigFile Tree Lines Reload Loading Saving Restore RoundTrip FileChecks FileProps AnyFile.

Section UnsetValues.
Context (cfg : Config) `{L : Loaded cfg}.

(** The user values are those of symbols and choices of the configuration *)
Definition only_defined (U : uvals) : Prop :=
  (forall s, s ∉ c_unique_defined_syms cfg -> u_sym U s = None)
  /\ (forall c, c ∉ c_unique_choices cfg -> u_mode U c = None /\ u_sel U c = None).

Lemma tracked_flag b U B C st : tracked cfg U B C st -> tracked cfg U B C (set_st_warn_assign_no_prompt b st).
Proof. intros H. by apply (tracked_same cfg U B C st). Qed.

Lemma unset_more {A} (x s : nat) l (a : option A) :
  (if bool_decide (x ∈ l) then None else if decide (s = x) then None else a)
  = if bool_decide (x ∈ s :: l) then None else a.
Proof.
  assert (Hb : bool_decide (x ∈ s :: l) = bool_decide (x = s) || bool_decide (x ∈ l)).
  { rewrite <- bool_decide_or. apply bool_decide_ext, elem_of_cons. }
  rewrite Hb. destruct (decide (s = x)) as [Hd|Hd].
  - subst. rewrite (bool_decide_eq_true_2 (x = x)) by done. by destruct (bool_decide (x ∈ l)).
  - by rewrite (bool_decide_eq_false_2 (x = s)) by congruence.
Qed.

Lemma unset_all_syms B C l : forall U st, tracked cfg U B C st -> exists st' U',
  forM_ l (unset_value cfg depth) st = (Ok tt, st') /\ tracked cfg U' B C st'
  /\ (forall s, u_sym U' s = if bool_decide (s ∈ l) then None else u_sym U s)
  /\ (forall c, u_mode U' c = u_mode U c /\ u_sel U' c = u_sel U c).
Proof.
  unfold forM_. induction l as [|s l IH]; intros U st H.
  { exists st, U. split_and!; try done. }
  destruct (tracked_unset cfg U B C st s H) as (st1 & E1 & H1).
  destruct (IH _ st1 H1) as (st2 & U' & E2 & H2 & Hs & Hc). exists st2, U'.
  split; [exact (foldM_cons _ _ _ _ _ _ _ _ E1 E2)|]. split; [done|]. split; [|done].
  intros x. rewrite Hs. simpl. clear. apply unset_more.
Qed.

Lemma unset_all_choices B C l : (forall c, In c l -> is_static cfg (IChoice c) = false) ->
  forall U st, tracked cfg U B C st -> exists st' U',
  forM_ l (ch_unset_value cfg depth) st = (Ok tt, st') /\ tracked cfg U' B C st'
  /\ (forall s, u_sym U' s = u_sym U s)
  /\ (forall c, (u_mode U' c = if bool_decide (c ∈ l) then None else u_mode U c)
              /\ (u_sel U' c = if bool_decide (c ∈ l) then None else u_sel U c)).
Proof.
  unfold forM_. intros Hl. induction l as [|c l IH]; intros U st H.
  { exists st, U. split_and!; try done. }
  destruct (tracked_ch_unset cfg U B C st c H (Hl c (or_introl eq_refl))) as (st1 & E1 & H1).
  destruct (IH (fun x Hx => Hl x (or_intror Hx)) _ st1 H1) as (st2 & U' & E2 & H2 & Hs & Hc). exists st2, U'.
  split; [exact (foldM_cons _ _ _ _ _ _ _ _ E1 E2)|]. split; [done|]. split; [done|].
  intros x. rewrite (proj1 (Hc x)), (proj2 (Hc x)). simpl. clear. split; apply unset_more.
Qed.

(** The user values of everything that is defined are gone, the flags are as before *)
Lemma unset_all U B C st : tracked cfg U B C st ->
  exists st' U', unset_values cfg depth st = (Ok tt, st') /\ tracked cfg U' B C st'
    /\ (forall s, u_sym U' s = if bool_decide (s ∈ c_unique_defined_syms cfg) then None else u_sym U s)
    /\ (forall c, (u_mode U' c = if bool_decide (c ∈ c_unique_choices cfg) then None else u_mode U c)
                /\ (u_sel U' c = if bool_decide (c ∈ c_unique_choices cfg) then None else u_sel U c)).
Proof.
  intros H.
  destruct (unset_all_syms B C (c_unique_defined_syms cfg) U _ (tracked_flag false U B C st H)) as (st1 & U1 & E1 & H1 & S1 & C1).
  destruct (unset_all_choices B C (c_unique_choices cfg) (fun c => proj1 (static_ch cfg c)) U1 st1 H1)
    as (st2 & U2 & E2 & H2 & S2 & C2).
  exists (set_st_warn_assign_no_prompt true st2), U2. split; [|split; [by apply tracked_flag|split]].
  - unfold unset_values. eapply bind_ok; [reflexivity|]. unfold try_finally. cbv beta.
    by rewrite (bind_ok _ _ _ _ _ _ E1 E2).
  - intros s. by rewrite S2, S1.
  - intros c. by rewrite (proj1 (C2 c)), (proj2 (C2 c)), (proj1 (C1 c)), (proj2 (C1 c)).
Qed.

Lemma in_use_tracked U st : InUse cfg U st ->
  tracked cfg U (fun s => was_set (symst st s)) (fun c => ch_was_set (chst st c)) st.
Proof. by split. Qed.

(** C31. [Kconfig.unset_values] succeeds in every state of a loaded configuration
    and leaves no user value: every value then read is the one the equations give
    for a configuration that no user has touched. *)
Theorem unset_values_resets (U : uvals) (st : State) :
  only_defined U -> InUse cfg U st ->
  exists st', unset_values cfg depth st = (Ok tt, st')
    /\ (forall s, user_value (symst st' s) = None)
    /\ (forall c, ch_user_value (chst st' c) = None /\ ch_user_selection (chst st' c) = None)
    /\ reads_as cfg (solution cfg no_user) st'.
Proof.
  intros [Os Oc] H. destruct (unset_all _ _ _ st (in_use_tracked U st H)) as (st3 & U2 & E & [H3 _ _] & S2 & C2).
  assert (Us : forall s, u_sym U2 s = None).
  { intros s. rewrite S2. case_bool_decide as Hs; auto. }
  assert (Uc : forall c, u_mode U2 c = None /\ u_sel U2 c = None).
  { intros c. rewrite (proj1 (C2 c)), (proj2 (C2 c)). case_bool_decide as Hx; [done|]. by apply Oc. }
  exists st3. split_and!; [done|..].
  - intros s. rewrite (vd_user _ _ _ (use_valid _ _ _ H3)). apply Us.
  - intros c. rewrite (vd_mode _ _ _ (use_valid _ _ _ H3)), (vd_sel _ _ _ (use_valid _ _ _ H3)). apply Uc.
  - apply (reads_as_agree cfg (solution cfg U2)); [|by apply in_use_reads]. intros q.
    apply (models_agree cfg rank loaded_ranked U2 no_user);
      [by eapply in_use_model|apply solution_model, user_ok_none|by eapply in_use_typed|].
    intros q' _. destruct q'; simpl; try done; apply Us || apply Uc.
Qed.

Lemma set_value_only_defined U s v :
  s ∈ c_unique_defined_syms cfg -> default 0%nat (sym_choice (sym cfg s)) ∈ c_unique_choices cfg ->
  only_defined U -> only_defined (after_set_value cfg U s v).
Proof.
  intros Hs Hc [Os Oc]. unfold after_set_value. destruct (accepts cfg s v); [|done].
  assert (H : forall s', s' ∉ c_unique_defined_syms cfg -> u_sym (set_user U s (Some (typed_value cfg s v))) s' = None).
  { intros s' Hs'. unfold set_user. cbn [u_sym]. rewrite decide_False by congruence. by apply Os. }
  destruct (sym_choice (sym cfg s)) as [c|]; [|by split].
  destruct (typed_value cfg s v) as [z|]; [|by split].
  destruct (decide (z = 2)) as [->|Hz]; [|destruct z as [|[p|[p|p|]|]|p]; solve [by split|congruence]].
  split; [exact H|]. intros c' Hc'. split; [by apply Oc|]. unfold set_sel. cbn [u_sel].
  rewrite decide_False by (simpl in Hc; congruence). by apply Oc.
Qed.

(** ** Merging a file *)

Context (ND : names_defined cfg).

(** A line leaves the other flags as they are, and its own fresh *)
Lemma stale_after_line U B s val x : flag_stale cfg U B s = false ->
  flag_stale cfg (users_after_line cfg U s val) (was_after_line cfg B s val) x = flag_stale cfg U B x.
Proof.
  intros HF. unfold users_after_line, was_after_line. destruct (decide (s = x)) as [<-|Hne].
  - rewrite HF. unfold flag_stale in *. rewrite u_sym_set, after_mode_sym, (bool_decide_eq_true_2 (s = s)) by done. cbn [andb].
    destruct (accepts cfg s (UStr val)); [by rewrite andb_false_r|done].
  - unfold flag_stale. rewrite u_sym_set, after_mode_sym, (bool_decide_eq_false_2 (s = x)) by done. cbn [andb].
    destruct (accepts cfg s (UStr val)); [|done]. unfold put. by rewrite decide_False.
Qed.

(** Merging fails at the first symbol with a stale flag that the lines assign;
    otherwise each symbol has the last valid value assigned to it, or the one it had *)
Lemma merge_lines f lines : forall n U B C st, tracked cfg U B C st ->
  exists st', load_lines cfg depth f n lines st
      = (if existsb (fun a => flag_stale cfg U B a.1) (omap (line_assigns cfg) lines) then Err KeyError else Ok tt, st')
    /\ (existsb (fun a => flag_stale cfg U B a.1) (omap (line_assigns cfg) lines) = false ->
        exists U', InUse cfg U' st' /\ forall s, u_sym U' s = foldl (assign_step cfg s) (u_sym U s) (omap (line_assigns cfg) lines)).
Proof.
  induction lines as [|line lines IH]; intros n U B C st HT.
  { exists st. split; [done|]. intros _. exists U. by destruct HT. }
  cbn [load_lines omap list_omap]. destruct (line_assigns cfg line) as [[s val]|] eqn:Hl; cbn [existsb fst foldl].
  - destruct (flag_stale cfg U B s) eqn:HF; cbn [orb].
    { destruct (load_stale_line cfg U B C st f n line s val HT Hl HF) as (st' & E). exists st'.
      cbv [mbind K_bind M_bind]. by rewrite E. }
    destruct (load_any_line cfg ND U B C st f n line HT) as (st1 & E1 & H1); [by intros s' v'; rewrite Hl; intros [= <- <-]|].
    rewrite Hl in H1. destruct H1 as [_ H1]. destruct (IH (n + 1) _ _ _ st1 H1) as (st2 & E2 & HS). exists st2.
    assert (He : existsb (fun a => flag_stale cfg (users_after_line cfg U s val) (was_after_line cfg B s val) a.1)
        (omap (line_assigns cfg) lines) = existsb (fun a => flag_stale cfg U B a.1) (omap (line_assigns cfg) lines)).
    { apply existsb_ext_in. intros a _. by apply stale_after_line. }
    rewrite He in E2, HS.
    cbv [mbind K_bind M_bind]. rewrite E1, E2. split; [done|]. intros Hn. destruct (HS Hn) as (U' & H' & Hu). exists U'.
    split; [done|]. intros x. rewrite Hu. f_equal. unfold users_after_line, assign_step.
    rewrite u_sym_set, after_mode_sym. cbn [fst snd]. by case_bool_decide; [subst|].
  - destruct (load_any_line cfg ND U B C st f n line HT) as (st1 & E1 & H1); [by rewrite Hl|].
    rewrite Hl in H1. destruct (IH (n + 1) _ _ _ st1 H1) as (st2 & E2 & HS). exists st2.
    cbv [mbind K_bind M_bind]. by rewrite E1, E2.
Qed.

Lemma merge_config getenv U f text w : InUse cfg U (w_state w) -> w_files w !! f = Some text ->
  let stale := existsb (fun a => flag_stale cfg U (fun s => was_set (symst (w_state w) s)) a.1) (file_assigns cfg text) in
  exists st, load_config cfg depth getenv (Some f) false w
      = (if stale then Err KeyError else Ok ("Merged configuration '" +:+ f +:+ "'"), mkWorld st (w_files w) (w_written w))
    /\ (stale = false -> exists U', InUse cfg U' st
        /\ forall s, u_sym U' s = foldl (assign_step cfg s) (u_sym U s) (file_assigns cfg text)).
Proof.
  intros H Hf.
  destruct (merge_lines f (file_lines (translate_newlines text)) 1 U _ _ _ (tracked_flag false _ _ _ _ (in_use_tracked U _ H)))
    as (st1 & E1 & HS).
  exists (set_st_warn_assign_no_prompt true st1). split.
  - unfold load_config, load_named, load_config_, open_config, try_os, read_file, configuration_msg, try_finally.
    cbv [mbind W_bind M_bind in_state modify mret W_ret M_ret]. cbn [w_files w_state w_written]. rewrite Hf. cbn [w_files w_state w_written].
    unfold load_contents. cbn [when]. cbv [mbind K_bind M_bind mret K_ret M_ret]. rewrite E1. unfold file_assigns.
    by destruct (existsb _ _).
  - intros Hn. destruct (HS Hn) as (U' & H' & Hu). exists U'. split; [|done].
    exact (tk_use _ _ _ _ _ (tracked_flag true _ _ _ _ (in_use_tracked U' _ H'))).
Qed.

Lemma file_assigns_defined text a : In a (file_assigns cfg text) -> In a.1 (c_unique_defined_syms cfg).
Proof.
  unfold file_assigns. intros (line & _ & Hl)%list_elem_of_In%list_elem_of_omap. destruct a as [s v].
  by eapply line_defined.
Qed.
End UnsetValues.

(** ** The repository's configuration *)

Definition member_check (n : nat) (l : list nat) : bool := existsb (Nat.eqb n) l.
Lemma member_check_sound n l : member_check n l = true -> n ∈ l.
Proof. intros (x & Hx & ->%Nat.eqb_eq)%existsb_exists. by apply list_elem_of_In. Qed.

Lemma example_only_defined : only_defined fpspy example_session.1.
Proof.
  do 4 (apply (set_value_only_defined fpspy); [apply member_check_sound; vm_compute; reflexivity..|]). by split.
Qed.

Lemma unset_values_resets_witness :
  exists st', unset_values fpspy (@depth fpspy fpspy_loaded) example_session.2 = (Ok tt, st')
    /\ (forall s, user_value (symst st' s) = None)
    /\ (forall c, ch_user_value (chst st' c) = None /\ ch_user_selection (chst st' c) = None)
    /\ reads_as fpspy (@solution fpspy fpspy_loaded no_user) st'.
Proof.
  exact (unset_values_resets fpspy (L := fpspy_loaded) example_session.1 example_session.2
           example_only_defined example_in_use).
Defined.

(** C33. [Kconfig.unset_values] does not clear the marks of the symbols that have
    been set.  After it, in any state of a loaded configuration, merging a file
    fails exactly when the file assigns a bool or tristate symbol that carries
    such a mark: [_assigned_twice] takes the assignment for a second one and looks
    up the missing old value, which raises [KeyError].  Any other file is merged. *)
Theorem merge_after_unset_raises (cfg : Config) (L : Loaded cfg) (getenv : string -> option string) (U : uvals)
    (f text : string) (w : World) :
  names_defined cfg -> InUse cfg U (w_state w) -> w_files w !! f = Some text ->
  exists st, in_state (unset_values cfg depth) w = (Ok tt, mkWorld st (w_files w) (w_written w))
    /\ (load_config cfg depth getenv (Some f) false (mkWorld st (w_files w) (w_written w))).1
       = if existsb (fun '(s, _) => is_bool_tristate (sym_orig_type (sym cfg s)) && was_set (symst (w_state w) s))
              (file_assigns cfg text)
         then Err KeyError else Ok ("Merged configuration '" +:+ f +:+ "'").
Proof.
  intros ND H Hf. destruct (unset_all cfg _ _ _ _ (in_use_tracked cfg U _ H)) as (st & U' & E & HT & Us & _).
  exists st. split; [unfold in_state; by rewrite E|].
  destruct (merge_config cfg ND getenv U' f text (mkWorld st (w_files w) (w_written w)) (tk_use _ _ _ _ _ HT) Hf) as (st2 & E2 & _).
  rewrite E2. cbn [fst w_state].
  rewrite (existsb_ext_in _ (fun '(s, _) => is_bool_tristate (sym_orig_type (sym cfg s)) && was_set (symst (w_state w) s)));
    [done|].
  intros [s v] Ha. apply (file_assigns_defined cfg ND) in Ha. unfold flag_stale. simpl in *. rewrite Us, (tk_was _ _ _ _ _ HT).
  rewrite (bool_decide_eq_true_2 (s ∈ _)) by by apply list_elem_of_In. by rewrite andb_true_r.
Qed.

(** C32. Merging any file, in any state in use.  If the file assigns a bool or
    tristate symbol that is marked as set but has no user value, it raises
    [KeyError]; such symbols are what [unset_values] leaves behind.  Otherwise
    merging succeeds, and afterwards every symbol has as its user value the last
    value that the text assigns to it and that fits its type, or else the one it
    had.  No file is written. *)
Theorem merge_any_file (cfg : Config) (L : Loaded cfg) (getenv : string -> option string) (U : uvals)
    (f text : string) (w : World) :
  names_defined cfg -> InUse cfg U (w_state w) -> w_files w !! f = Some text ->
  let stale '(s, _) := is_bool_tristate (sym_orig_type (sym cfg s)) && was_set (symst (w_state w) s)
                       && bool_decide (u_sym U s = None) in
  exists r st, load_config cfg depth getenv (Some f) false w = (r, mkWorld st (w_files w) (w_written w))
    /\ if existsb stale (file_assigns cfg text) then r = Err KeyError
       else r = Ok ("Merged configuration '" +:+ f +:+ "'")
            /\ exists U', InUse cfg U' st
               /\ forall s, u_sym U' s = foldl (assign_step cfg s) (u_sym U s) (file_assigns cfg text).
Proof.
  intros ND H Hf stale. destruct (merge_config cfg ND getenv U f text w H Hf) as (st & E & HS). cbv zeta in *.
  rewrite (existsb_ext_in _ stale) in E, HS by by intros []. eexists _, st. split; [exact E|].
  destruct (existsb stale _); [done|]. split; [done|]. by apply HS.
Qed.

(** A file that sets one symbol; it is loaded, everything is unset, and then it is merged *)
Definition one_line_file : World := mkWorld (init_state fpspy) {[".config" := "CONFIG_ARCH_ARM64=y" +:+ String NL ""]} [].
Definition load_unset_merge : W string :=
  load_config fpspy fpspy_depth (fun _ => None) (Some ".config") true;;
  in_state (unset_values fpspy fpspy_depth);;
  load_config fpspy fpspy_depth (fun _ => None) (Some ".config") false.

Example load_unset_merge_raises :
  (load_unset_merge one_line_file).1 = Err KeyError
  /\ (load_config fpspy fpspy_depth (fun _ => None) (Some ".config") false one_line_file).1
     = Ok "Merged configuration '.config'".
Proof. split; vm_compute; reflexivity. Qed.

(** The example session has set [ARCH_ARM64] *)
Lemma merge_after_unset_raises_witness :
  exists st, in_state (unset_values fpspy (@depth fpspy fpspy_loaded)) (mkWorld example_session.2 (w_files one_line_file) [])
      = (Ok tt, mkWorld st (w_files one_line_file) [])
    /\ (load_config fpspy (@depth fpspy fpspy_loaded) (fun _ => None) (Some ".config") false
          (mkWorld st (w_files one_line_file) [])).1 = Err KeyError.
Proof.
  assert (ND : names_defined fpspy) by (apply names_defined_check_sound; vm_compute; reflexivity).
  destruct (merge_after_unset_raises fpspy fpspy_loaded (fun _ => None) example_session.1 ".config"
    ("CONFIG_ARCH_ARM64=y" +:+ String NL "") (mkWorld example_session.2 (w_files one_line_file) []) ND
    example_in_use (lookup_singleton_eq _ _)) as (st & E & R).
  exists st. split; [exact E|]. cbn [w_files w_written] in R. rewrite R.
  assert (Hm : existsb (fun '(s, _) => is_bool_tristate (sym_orig_type (sym fpspy s)) && was_set (symst example_session.2 s))
    (file_assigns fpspy ("CONFIG_ARCH_ARM64=y" +:+ String NL "")) = true) by (vm_compute; reflexivity).
  cbn [w_state]. by rewrite Hm.
Defined.

(** Merging the messy file into the example session: [ARCH_X64] is y now, symbol 13,
    which the file does not mention, is still n, and [MAX_CONTEXTS] is 17 *)
Lemma merge_any_file_witness :
  exists r st, load_config fpspy (@depth fpspy fpspy_loaded) (fun _ => None) (Some ".config") false
      (mkWorld example_session.2 {[".config" := messy_text]} [])
      = (r, mkWorld st {[".config" := messy_text]} [])
    /\ r = Ok "Merged configuration '.config'"
    /\ exists U', InUse fpspy U' st
       /\ (forall s, u_sym U' s = foldl (assign_step fpspy s) (u_sym example_session.1 s) (file_assigns fpspy messy_text))
       /\ map (fun s => foldl (assign_step fpspy s) (u_sym example_session.1 s) (file_assigns fpspy messy_text)) [4; 13; 17]%nat
          = [Some (UTri 2); Some (UTri 0); Some (UStr "17")].
Proof.
  assert (ND : names_defined fpspy) by (apply names_defined_check_sound; vm_compute; reflexivity).
  destruct (merge_any_file fpspy fpspy_loaded (fun _ => None) example_session.1 ".config" messy_text
    (mkWorld example_session.2 {[".config" := messy_text]} []) ND example_in_use (lookup_singleton_eq _ _)) as (r & st & E & R).
  exists r, st. split; [exact E|].
  assert (Hs : existsb (fun '(s, _) => is_bool_tristate (sym_orig_type (sym fpspy s)) && was_set (symst example_session.2 s)
      && bool_decide (u_sym example_session.1 s = None)) (file_assigns fpspy messy_text) = false) by (vm_compute; reflexivity).
  cbn [w_state] in R. rewrite Hs in R. destruct R as (Hr & U' & H' & Hu). split; [exact Hr|]. exists U'.
  split; [exact H'|]. split; [exact Hu|]. vm_compute. reflexivity.
Defined.
