(* ===== verification/Preprocess.v ===== *)
(** * The state of the parser, and the preprocessor

    [PState] is the state of a [Kconfig] object while its files are parsed: the
    configuration built so far, the tables of constant symbols, named choices and
    preprocessor variables, the position in the files and the tokens of the
    current line.  The preprocessor expands macros: [_expand_macro], [_fn_val],
    [_expand_whole], [_expand_name], [_expand_str] and [_parse_assignment].
    Where the source keeps a string and an index into it, the model keeps the text
    before the index and the text after it.  The environment, the release of the
    system and the output of shell commands are parameters; [print] is not
    modelled, and there are no user-defined functions. *)
From S2P Require Import Prelude PyStr PyText Model Finalize.

(** ** Tokens *)

Inductive keyword :=
| T_ALLNOCONFIG_Y | T_AND | T_BOOL | T_CHOICE | T_CLOSE_PAREN | T_COMMENT | T_CONFIG | T_DEFAULT
| T_DEFCONFIG_LIST | T_DEF_BOOL | T_DEF_HEX | T_DEF_INT | T_DEF_STRING | T_DEF_TRISTATE | T_DEPENDS
| T_ENDCHOICE | T_ENDIF | T_ENDMENU | T_ENV | T_EQUAL | T_GREATER | T_GREATER_EQUAL | T_HELP | T_HEX | T_IF
| T_IMPLY | T_INT | T_LESS | T_LESS_EQUAL | T_MAINMENU | T_MENU | T_MENUCONFIG | T_MODULES | T_NOT | T_ON
| T_OPEN_PAREN | T_OPTION | T_OPTIONAL | T_OR | T_ORSOURCE | T_OSOURCE | T_PROMPT | T_RANGE | T_RSOURCE
| T_SELECT | T_SOURCE | T_STRING | T_TRISTATE | T_UNEQUAL | T_VISIBLE.

#[export] Instance keyword_eq_dec : EqDecision keyword.
Proof. solve_decision. Defined.

Inductive token := TKey (k : keyword) | TSym (s : symid) | TStr (s : string).

#[export] Instance token_eq_dec : EqDecision token.
Proof. solve_decision. Defined.

(** ** State *)

(** [Variable]; a variable that is being defined with [:=] has no value yet *)
Record Variable_ := mkVariable {
  var_value : option string;
  var_is_recursive : bool;
  var_n_expansions : Z;
}.

Record PState := mkPState {
  ps_cfg : Config;
  ps_const_syms : gmap string symid;
  ps_variables : gmap string Variable_;
  ps_named_choices : gmap string choiceid;
  ps_defined_syms : list symid;
  ps_choices : list choiceid;
  ps_filename : option string;
  ps_linenr : Z;
  ps_include_path : list (string * Z);
  ps_filestack : list (list (string * Z) * string);
  ps_unread : string;
  ps_line : string;
  ps_tokens : list (option token);
  ps_tokens_i : nat;
  ps_reuse_tokens : bool;
  ps_parsing_kconfigs : bool;
  ps_warn : bool;
  ps_warnings : list string;
  ps_kconfig_filenames : list string;
  ps_env_vars : list string;
}.

Section Setters.
Context (p : PState).
Definition with_ps_cfg v := mkPState v (ps_const_syms p) (ps_variables p) (ps_named_choices p) (ps_defined_syms p)
  (ps_choices p) (ps_filename p) (ps_linenr p) (ps_include_path p) (ps_filestack p) (ps_unread p) (ps_line p)
  (ps_tokens p) (ps_tokens_i p) (ps_reuse_tokens p) (ps_parsing_kconfigs p) (ps_warn p) (ps_warnings p)
  (ps_kconfig_filenames p) (ps_env_vars p).
Definition with_ps_const_syms v := mkPState (ps_cfg p) v (ps_variables p) (ps_named_choices p) (ps_defined_syms p)
  (ps_choices p) (ps_filename p) (ps_linenr p) (ps_include_path p) (ps_filestack p) (ps_unread p) (ps_line p)
  (ps_tokens p) (ps_tokens_i p) (ps_reuse_tokens p) (ps_parsing_kconfigs p) (ps_warn p) (ps_warnings p)
  (ps_kconfig_filenames p) (ps_env_vars p).
Definition with_ps_variables v := mkPState (ps_cfg p) (ps_const_syms p) v (ps_named_choices p) (ps_defined_syms p)
  (ps_choices p) (ps_filename p) (ps_linenr p) (ps_include_path p) (ps_filestack p) (ps_unread p) (ps_line p)
  (ps_tokens p) (ps_tokens_i p) (ps_reuse_tokens p) (ps_parsing_kconfigs p) (ps_warn p) (ps_warnings p)
  (ps_kconfig_filenames p) (ps_env_vars p).
Definition with_ps_items named defined choices := mkPState (ps_cfg p) (ps_const_syms p) (ps_variables p) named defined
  choices (ps_filename p) (ps_linenr p) (ps_include_path p) (ps_filestack p) (ps_unread p) (ps_line p)
  (ps_tokens p) (ps_tokens_i p) (ps_reuse_tokens p) (ps_parsing_kconfigs p) (ps_warn p) (ps_warnings p)
  (ps_kconfig_filenames p) (ps_env_vars p).
Definition with_ps_file filename linenr include_path filestack unread filenames :=
  mkPState (ps_cfg p) (ps_const_syms p) (ps_variables p) (ps_named_choices p) (ps_defined_syms p)
  (ps_choices p) filename linenr include_path filestack unread (ps_line p)
  (ps_tokens p) (ps_tokens_i p) (ps_reuse_tokens p) (ps_parsing_kconfigs p) (ps_warn p) (ps_warnings p)
  filenames (ps_env_vars p).
Definition with_ps_line v := mkPState (ps_cfg p) (ps_const_syms p) (ps_variables p) (ps_named_choices p) (ps_defined_syms p)
  (ps_choices p) (ps_filename p) (ps_linenr p) (ps_include_path p) (ps_filestack p) (ps_unread p) v
  (ps_tokens p) (ps_tokens_i p) (ps_reuse_tokens p) (ps_parsing_kconfigs p) (ps_warn p) (ps_warnings p)
  (ps_kconfig_filenames p) (ps_env_vars p).
Definition with_ps_tokens tokens i reuse := mkPState (ps_cfg p) (ps_const_syms p) (ps_variables p) (ps_named_choices p)
  (ps_defined_syms p) (ps_choices p) (ps_filename p) (ps_linenr p) (ps_include_path p) (ps_filestack p) (ps_unread p)
  (ps_line p) tokens i reuse (ps_parsing_kconfigs p) (ps_warn p) (ps_warnings p)
  (ps_kconfig_filenames p) (ps_env_vars p).
Definition with_ps_parsing v := mkPState (ps_cfg p) (ps_const_syms p) (ps_variables p) (ps_named_choices p)
  (ps_defined_syms p) (ps_choices p) (ps_filename p) (ps_linenr p) (ps_include_path p) (ps_filestack p) (ps_unread p)
  (ps_line p) (ps_tokens p) (ps_tokens_i p) (ps_reuse_tokens p) v (ps_warn p) (ps_warnings p)
  (ps_kconfig_filenames p) (ps_env_vars p).
Definition with_ps_warnings v := mkPState (ps_cfg p) (ps_const_syms p) (ps_variables p) (ps_named_choices p)
  (ps_defined_syms p) (ps_choices p) (ps_filename p) (ps_linenr p) (ps_include_path p) (ps_filestack p) (ps_unread p)
  (ps_line p) (ps_tokens p) (ps_tokens_i p) (ps_reuse_tokens p) (ps_parsing_kconfigs p) (ps_warn p) v
  (ps_kconfig_filenames p) (ps_env_vars p).
Definition with_ps_env_vars v := mkPState (ps_cfg p) (ps_const_syms p) (ps_variables p) (ps_named_choices p)
  (ps_defined_syms p) (ps_choices p) (ps_filename p) (ps_linenr p) (ps_include_path p) (ps_filestack p) (ps_unread p)
  (ps_line p) (ps_tokens p) (ps_tokens_i p) (ps_reuse_tokens p) (ps_parsing_kconfigs p) (ps_warn p) (ps_warnings p)
  (ps_kconfig_filenames p) v.
End Setters.

(** ** The monad of parsing code *)

Definition Q : Type -> Type := M PState.
#[export] Instance Q_ret : MRet Q := M_ret PState.
#[export] Instance Q_bind : MBind Q := M_bind PState.
#[export] Instance Q_fmap : FMap Q := fun A B f m => x ← m; mret (f x).

Definition cfg_of {A} (f : Config -> A) : Q A := gets (fun p => f (ps_cfg p)).
Definition on_cfg (f : Config -> Config) : Q unit := modify (fun p => with_ps_cfg p (f (ps_cfg p))).

(** [Kconfig._warn] *)
Definition q_warn (msg : string) (loc : option (option string * Z)) : Q unit :=
  modify (fun p =>
    if ps_warn p then
      with_ps_warnings p (ps_warnings p ++ [warn_msg msg (match loc with Some (Some f, l) => Some (f, l) | _ => None end)])
    else p).

(** [self._warn(msg, self.filename, self.linenr)] *)
Definition q_warn_here (msg : string) : Q unit :=
  loc ← gets (fun p => (ps_filename p, ps_linenr p)); q_warn msg (Some loc).

(** [Kconfig._parse_error], [Kconfig._trailing_tokens_error] *)
Definition here_str (p : PState) : string :=
  match ps_filename p with Some f => f +:+ ":" +:+ py_str (ps_linenr p) +:+ ": " | None => "" end.
Definition parse_error {A} (msg : string) : Q A :=
  p ← gets id;
  raise (KconfigError (here_str p +:+ "error: couldn't parse '" +:+ strip (ps_line p) +:+ "': " +:+ msg)).
Definition trailing_tokens_error {A} : Q A := parse_error "extra tokens at end of line".

(** ** Macros *)

Section Macros.
(** [os.environ], [os.uname().release], and the output and error output of a shell command *)
Context (getenv : string -> option string) (uname_release : string) (shell : string -> string * string).

Definition get_variable (fn : string) : Q (option Variable_) := gets (fun p => ps_variables p !! fn).
Definition put_variable (fn : string) (v : Variable_) : Q unit :=
  modify (fun p => with_ps_variables p (<[fn := v]> (ps_variables p))).

(** The predefined functions with the numbers of their arguments *)
Inductive builtin := FInfo | FErrorIf | FFilename | FLineno | FShell | FWarningIf.

Definition builtin_of (fn : string) : option (builtin * Z) :=
  if String.eqb fn "info" then Some (FInfo, 1) else if String.eqb fn "error-if" then Some (FErrorIf, 2)
  else if String.eqb fn "filename" then Some (FFilename, 0) else if String.eqb fn "lineno" then Some (FLineno, 0)
  else if String.eqb fn "shell" then Some (FShell, 1) else if String.eqb fn "warning-if" then Some (FWarningIf, 2)
  else None.

(** [_shell_fn] without decoding errors *)
Definition shell_fn (command : string) : Q string :=
  let '(stdout, stderr) := shell command in
  when (negb (String.eqb stderr ""))
    (q_warn_here ("'" +:+ command +:+ "' wrote to stderr: " +:+ py_join (String NL "") (splitlines stderr)));;
  mret (replace_char NL " " (drop_while_end (Ascii.eqb NL) (py_join (String NL "") (splitlines stdout)))).

(** [_info_fn], [_error_if_fn], [_filename_fn], [_lineno_fn], [_shell_fn], [_warning_if_fn];
    outside files [_filename_fn] gives [None], which the caller adds to a string *)
Definition call_builtin (f : builtin) (args : list string) : Q string :=
  match f, args with
  | FInfo, _ => mret ""
  | FFilename, _ =>
      f ← gets ps_filename;
      match f with Some f => mret f | None => raise TypeError end
  | FLineno, _ => l ← gets ps_linenr; mret (py_str l)
  | FErrorIf, [cond; msg] =>
      if String.eqb cond "y" then
        p ← gets id;
        raise (KconfigError (default "None" (ps_filename p) +:+ ":" +:+ py_str (ps_linenr p) +:+ ": " +:+ msg))
      else mret ""
  | FWarningIf, [cond; msg] => when (String.eqb cond "y") (q_warn_here msg);; mret ""
  | FShell, [command] => shell_fn command
  | _, _ => raise TypeError
  end.

(** [Kconfig._fn_val] on a builtin function or an environment variable *)
Definition fn_val_builtin (fn : string) (args : list string) : Q string :=
  match builtin_of fn with
  | Some (f, n) =>
      if Z.of_nat (length args) =? n then call_builtin f args
      else
        p ← gets id;
        raise (KconfigError (default "None" (ps_filename p) +:+ ":" +:+ py_str (ps_linenr p)
          +:+ ": bad number of arguments in call to " +:+ fn +:+ ", expected " +:+ py_str n +:+ ", got "
          +:+ py_str (Z.of_nat (length args))))
  | None =>
      match getenv fn with
      | Some v => modify (fun p => with_ps_env_vars p (fn :: ps_env_vars p));; mret v
      | None => mret ""
      end
  end.

(** The text after ["$("] *)
Definition macro_start (s : string) : option string :=
  match s with
  | String c (String d rest) => if Ascii.eqb c "$" && Ascii.eqb d "(" then Some rest else None
  | _ => None
  end.

(** [Kconfig._expand_macro] from the text after ["$("]: the value of the macro and
    the text after it.  [new_args] are the arguments found so far, [cur] the text
    of the current one.  [_fn_val] and [_expand_whole] are recursive with it. *)
Fixpoint expand_macro (fuel : nat) (args new_args : list string) (cur : string) (nesting : nat) (s : string)
    : Q (string * string) :=
  match fuel with
  | O => raise Diverges
  | S fuel =>
      match macro_start s, s with
      | Some rest, _ =>
          '(v, rest) ← expand_macro fuel args [] "" 0%nat rest;
          expand_macro fuel args new_args (cur +:+ v) nesting rest
      | None, EmptyString => parse_error "missing end parenthesis in macro expansion"
      | None, String c s' =>
          if Ascii.eqb c "(" then expand_macro fuel args new_args (cur +:+ "(") (S nesting) s'
          else if Ascii.eqb c ")" then
            match nesting with
            | S nesting => expand_macro fuel args new_args (cur +:+ ")") nesting s'
            | O =>
                let new_args := new_args ++ [cur] in
                v ← match py_int (hd "" new_args) 10 ≫= py_index args with
                    | Some a => mret a
                    | None => fn_val fuel new_args
                    end;
                mret (v, s')
            end
          else if Ascii.eqb c "," then
            match nesting with
            | O => expand_macro fuel args (new_args ++ [cur]) "" nesting s'
            | _ => expand_macro fuel args new_args (cur +:+ ",") nesting s'
            end
          else expand_macro fuel args new_args (cur +:+ String c "") nesting s'
      end
  end
with fn_val (fuel : nat) (args : list string) : Q string :=
  match fuel with
  | O => raise Diverges
  | S fuel =>
      let fn := hd "" args in
      v ← get_variable fn;
      match v with
      | Some var =>
          if (Z.of_nat (length args) =? 1) && negb (var_n_expansions var =? 0) then
            parse_error ("Preprocessor variable " +:+ fn +:+ " recursively references itself")
          else if negb (Z.of_nat (length args) =? 1) && (100 <? var_n_expansions var) then
            parse_error ("Preprocessor function " +:+ fn +:+ " seems stuck in infinite recursion")
          else
            put_variable fn (mkVariable (var_value var) (var_is_recursive var) (var_n_expansions var + 1));;
            res ← match var_value var with
                  | Some value => expand_whole fuel args "" value
                  | None => raise AttributeError
                  end;
            v ← get_variable fn;
            match v with
            | Some var => put_variable fn (mkVariable (var_value var) (var_is_recursive var) (var_n_expansions var - 1))
            | None => mret tt
            end;;
            mret res
      | None => fn_val_builtin fn (tl args)
      end
  end
with expand_whole (fuel : nat) (args : list string) (out s : string) : Q string :=
  match fuel with
  | O => raise Diverges
  | S fuel =>
      match macro_start s, s with
      | Some rest, _ =>
          '(v, rest) ← expand_macro fuel args [] "" 0%nat rest;
          expand_whole fuel args (out +:+ v) rest
      | None, EmptyString => mret out
      | None, String c s' => expand_whole fuel args (out +:+ String c "") s'
      end
  end.

(** [[A-Za-z0-9_$/.-]] *)
Definition is_name_char (c : ascii) : bool :=
  is_word c || Ascii.eqb c "$" || Ascii.eqb c "/" || Ascii.eqb c "." || Ascii.eqb c "-".

Definition lskip (s : string) : string := drop_while is_space s.

(** [Kconfig._expand_name_iter]: the expanded name and the text after it *)
Fixpoint expand_name_iter (fuel : nat) (name s : string) : Q (string * string) :=
  match fuel with
  | O => raise Diverges
  | S fuel =>
      match macro_start s, s with
      | Some rest, _ =>
          '(v, rest) ← expand_macro fuel [] [] "" 0%nat rest;
          expand_name_iter fuel (name +:+ v) rest
      | None, EmptyString => mret (name, s)
      | None, String c s' =>
          if is_name_char c then expand_name_iter fuel (name +:+ String c "") s' else mret (name, s)
      end
  end.

(** [Kconfig._expand_name]: the name, what was skipped after it, and the rest *)
Definition expand_name (fuel : nat) (s : string) : Q (string * string) :=
  '(name, rest) ← expand_name_iter fuel "" s;
  if String.eqb (strip name) "" then parse_error "macro expanded to blank string"
  else mret (name, rest).

(** [Kconfig._expand_str] from the text after the opening quote: the contents of
    the string and the text after the closing quote *)
Fixpoint expand_str (fuel : nat) (quote : ascii) (out s : string) : Q (string * string) :=
  match fuel with
  | O => raise Diverges
  | S fuel =>
      match macro_start s, s with
      | Some rest, _ =>
          '(v, rest) ← expand_macro fuel [] [] "" 0%nat rest;
          expand_str fuel quote (out +:+ v) rest
      | None, EmptyString => parse_error "unterminated string"
      | None, String c s' =>
          if Ascii.eqb c quote then mret (out, s')
          else if Ascii.eqb c BSL then
            match s' with
            | String d s'' => expand_str fuel quote (out +:+ String d "") s''
            | EmptyString => parse_error "unterminated string"
            end
          else expand_str fuel quote (out +:+ String c "") s'
      end
  end.

(** ** Environment variables in strings *)

(** The variable that a reference names: ["$name"] or ["${name}"], with the text after it *)
Definition env_ref (s : string) : option (string * string) :=
  match s with
  | String c rest =>
      if Ascii.eqb c "{" then
        let '(name, after) := span (fun d => negb (Ascii.eqb d "}")) rest in
        match after with String _ after => Some (name, after) | EmptyString => None end
      else
        let '(name, after) := span is_word s in
        if String.eqb name "" then None else Some (name, after)
  | EmptyString => None
  end.

(** [os.path.expandvars] *)
Fixpoint expandvars_ (fuel : nat) (s : string) : string :=
  match fuel, s with
  | S fuel, String c s' =>
      if Ascii.eqb c "$" then
        match env_ref s' with
        | Some (name, after) =>
            match getenv name with
            | Some v => v +:+ expandvars_ fuel after
            | None => String c (String.substring 0 (String.length s' - String.length after) s' +:+ expandvars_ fuel after)
            end
        | None => String c (expandvars_ fuel s')
        end
      else String c (expandvars_ fuel s')
  | _, _ => s
  end.
Definition expandvars (s : string) : string := expandvars_ (S (String.length s)) s.

(** What a string on the slow path of the tokenizer becomes *)
Definition string_contents (s : string) : string := expandvars (replace_str "$UNAME_RELEASE" uname_release s 0%nat).

(** ** Assignments *)

(** [[A-Za-z0-9_-]] *)
Definition is_lhs_char (c : ascii) : bool := is_word c || Ascii.eqb c "-".

(** The left-hand side of an assignment, expanded, and the text after it *)
Fixpoint assignment_lhs (fuel : nat) (name s : string) : Q (string * string) :=
  match fuel with
  | O => raise Diverges
  | S fuel =>
      let '(fragment, rest) := span is_lhs_char s in
      match macro_start rest with
      | Some rest =>
          '(v, rest) ← expand_macro fuel [] [] "" 0%nat rest;
          assignment_lhs fuel (name +:+ fragment +:+ v) rest
      | None => mret (name +:+ fragment, rest)
      end
  end.

Inductive assign_op := OpSet | OpNow | OpAppend.

(** [\s] *)
Definition is_re_space (c : ascii) : bool := in_range_n 9 13 c || Ascii.eqb c " ".

(** [_assignment_rhs_match] *)
Definition assignment_rhs (s : string) : option (assign_op * string) :=
  let s := drop_while is_re_space s in
  let value rest := (span (fun c => negb (Ascii.eqb c NL)) (drop_while is_re_space rest)).1 in
  match s with
  | String c rest =>
      if Ascii.eqb c "=" then Some (OpSet, value rest)
      else match rest with
           | String d rest =>
               if Ascii.eqb c ":" && Ascii.eqb d "=" then Some (OpNow, value rest)
               else if Ascii.eqb c "+" && Ascii.eqb d "=" then Some (OpAppend, value rest)
               else None
           | EmptyString => None
           end
  | EmptyString => None
  end.

(** [Kconfig._parse_assignment] *)
Definition parse_assignment (fuel : nat) (s : string) : Q unit :=
  '(name, rest) ← assignment_lhs fuel "" (lstrip s);
  if isspace (name +:+ rest) then mret tt
  else
    match assignment_rhs rest with
    | None => parse_error "syntax error"
    | Some (op, val) =>
        v ← get_variable name;
        match v, op with
        | None, OpNow =>
            put_variable name (mkVariable None false 0);;
            x ← expand_whole fuel [] "" val;
            put_variable name (mkVariable (Some x) false 0)
        | None, _ => put_variable name (mkVariable (Some val) true 0)
        | Some var, OpSet => put_variable name (mkVariable (Some val) true (var_n_expansions var))
        | Some var, OpNow =>
            put_variable name (mkVariable (var_value var) false (var_n_expansions var));;
            x ← expand_whole fuel [] "" val;
            put_variable name (mkVariable (Some x) false (var_n_expansions var))
        | Some var, OpAppend =>
            x ← (if var_is_recursive var then mret val else expand_whole fuel [] "" val);
            put_variable name (mkVariable ((fun y => y +:+ " " +:+ x) <$> var_value var) (var_is_recursive var)
                                 (var_n_expansions var))
        end
    end.
End Macros.
