(* ===== verification/Tokenize.v ===== *)
(** * The tokenizer

    [Kconfig._tokenize] splits a line into tokens and registers the symbols it
    meets; [_lookup_sym] and [_lookup_const_sym] are the symbol tables.  Of the
    line only the text that is left is kept: the source also looks for ['$'] and
    backslashes in the text before a string when it chooses how to read the
    string, but a string without these is read alike in both ways. *)
From S2P Require Import Prelude PyStr PyText Model Finalize Preprocess.

(** ** Keywords *)

Definition keyword_table : list (string * keyword) :=
  [ ("---help---", T_HELP); ("allnoconfig_y", T_ALLNOCONFIG_Y); ("bool", T_BOOL); ("boolean", T_BOOL);
    ("choice", T_CHOICE); ("comment", T_COMMENT); ("config", T_CONFIG); ("def_bool", T_DEF_BOOL);
    ("def_hex", T_DEF_HEX); ("def_int", T_DEF_INT); ("def_string", T_DEF_STRING);
    ("def_tristate", T_DEF_TRISTATE); ("default", T_DEFAULT); ("defconfig_list", T_DEFCONFIG_LIST);
    ("depends", T_DEPENDS); ("endchoice", T_ENDCHOICE); ("endif", T_ENDIF); ("endmenu", T_ENDMENU);
    ("env", T_ENV); ("grsource", T_ORSOURCE); ("gsource", T_OSOURCE); ("help", T_HELP); ("hex", T_HEX);
    ("if", T_IF); ("imply", T_IMPLY); ("int", T_INT); ("mainmenu", T_MAINMENU); ("menu", T_MENU);
    ("menuconfig", T_MENUCONFIG); ("modules", T_MODULES); ("on", T_ON); ("option", T_OPTION);
    ("optional", T_OPTIONAL); ("orsource", T_ORSOURCE); ("osource", T_OSOURCE); ("prompt", T_PROMPT);
    ("range", T_RANGE); ("rsource", T_RSOURCE); ("select", T_SELECT); ("source", T_SOURCE);
    ("string", T_STRING); ("tristate", T_TRISTATE); ("visible", T_VISIBLE) ].

Definition get_keyword (s : string) : option keyword :=
  first_some (fun '(name, k) => if String.eqb s name then Some k else None) keyword_table.

(** [_STRING_LEX]: keywords that strings follow *)
Definition string_lex (t : token) : bool :=
  match t with
  | TKey k =>
      match k with
      | T_BOOL | T_CHOICE | T_COMMENT | T_HEX | T_INT | T_MAINMENU | T_MENU | T_ORSOURCE | T_OSOURCE
      | T_PROMPT | T_RSOURCE | T_SOURCE | T_STRING | T_TRISTATE => true
      | _ => false
      end
  | _ => false
  end.

(** ** Symbols *)

(** [Symbol()] with the attributes that the lookups set *)
Definition new_symbol (name : string) (is_constant : bool) (n : symid) : Symbol :=
  mkSymbol name is_constant UNKNOWN [] [] [] [] [] (ESym n) (ESym n) (ESym n) None None false [].

Definition alloc_symbol (name : string) (is_constant : bool) : Q symid :=
  s ← cfg_of (fun c => length (c_syms c));
  on_cfg (fun c => with_syms (c_syms c ++ [new_symbol name is_constant (c_n c)]) c);;
  mret s.

Definition with_sym_table l (c : Config) := mkConfig (c_syms c) (c_choices c) (c_nodes c) (c_n c) (c_m c) (c_y c)
  (c_modules c) (c_defconfig_list c) (c_top_node c) (c_unique_defined_syms c) (c_unique_choices c)
  (c_menus c) (c_comments c) l (c_config_prefix c) (c_config_header c) (c_header_header c).

(** [Kconfig._lookup_sym] *)
Definition lookup_sym (name : string) : Q symid :=
  o ← cfg_of (fun c => c_sym_table c !! name);
  match o with
  | Some s => mret s
  | None =>
      s ← alloc_symbol name false;
      b ← gets ps_parsing_kconfigs;
      (if b : bool then on_cfg (fun c => with_sym_table (<[name := s]> (c_sym_table c)) c)
       else q_warn ("no symbol " +:+ name +:+ " in configuration") None);;
      mret s
  end.

(** [Kconfig._lookup_const_sym] *)
Definition lookup_const_sym (name : string) : Q symid :=
  o ← gets (fun p => ps_const_syms p !! name);
  match o with
  | Some s => mret s
  | None =>
      s ← alloc_symbol name true;
      b ← gets ps_parsing_kconfigs;
      when b (modify (fun p => with_ps_const_syms p (<[name := s]> (ps_const_syms p))));;
      mret s
  end.

(** [self.const_syms[name] if name in STR_TO_TRI else self._lookup_sym(name)] *)
Definition name_sym (name : string) : Q symid :=
  if bool_decide (is_Some (STR_TO_TRI name)) then
    o ← gets (fun p => ps_const_syms p !! name);
    match o with Some s => mret s | None => raise KeyError end
  else lookup_sym name.

(** ** Tokens *)

(** [_command_match]: the first word of a line and the rest *)
Definition is_command_char (c : ascii) : bool := is_word c || Ascii.eqb c "$" || Ascii.eqb c "-".
Definition command_match (s : string) : option (string * string) :=
  let '(w, rest) := span is_command_char (drop_while is_re_space s) in
  if String.eqb w "" then None else Some (w, drop_while is_re_space rest).

(** [_id_keyword_match]: an identifier at the start of the text *)
Definition id_match (s : string) : option (string * string) :=
  let '(w, rest) := span is_name_char s in if String.eqb w "" then None else Some (w, rest).

(** Operators and parentheses *)
Definition operator (s : string) : option (keyword * string) :=
  match s with
  | String c s1 =>
      let two d := match s1 with String e s2 => if Ascii.eqb d e then Some s2 else None | _ => None end in
      if Ascii.eqb c "&" then (fun r => (T_AND, r)) <$> two "&"%char
      else if Ascii.eqb c "|" then (fun r => (T_OR, r)) <$> two "|"%char
      else if Ascii.eqb c "=" then Some (T_EQUAL, s1)
      else if Ascii.eqb c "!" then Some (match two "="%char with Some r => (T_UNEQUAL, r) | None => (T_NOT, s1) end)
      else if Ascii.eqb c "(" then Some (T_OPEN_PAREN, s1)
      else if Ascii.eqb c ")" then Some (T_CLOSE_PAREN, s1)
      else if Ascii.eqb c "<" then Some (match two "="%char with Some r => (T_LESS_EQUAL, r) | None => (T_LESS, s1) end)
      else if Ascii.eqb c ">" then
        Some (match two "="%char with Some r => (T_GREATER_EQUAL, r) | None => (T_GREATER, s1) end)
      else None
  | EmptyString => None
  end.

Section Tokenize.
Context (getenv : string -> option string) (uname_release : string) (shell : string -> string * string).
(** A bound for the loops over one line, macro expansion included *)
Context (fuel : nat).

(** A quoted string: its value and the text after it *)
Definition quoted (quote : ascii) (s : string) : Q (string * string) :=
  if contains_char "$" s || contains_char BSL s then
    '(content, rest) ← expand_str getenv shell fuel quote "" s;
    mret (string_contents getenv uname_release content, rest)
  else
    match span (fun c => negb (Ascii.eqb c quote)) s with
    | (content, String _ rest) => mret (content, rest)
    | (_, EmptyString) => parse_error "unterminated string"
    end.

(** A token that is an identifier, a keyword or a string without quotes *)
Definition id_token (prev : token) (name after s : string) : Q (token * string) :=
  match get_keyword name with
  | Some k => mret (TKey k, drop_while is_re_space after)
  | None =>
      if negb (string_lex prev) then
        '(name, rest) ← (if contains_char "$" name
                         then '(name, rest) ← expand_name getenv shell fuel s; mret (name, lskip rest)
                         else mret (name, drop_while is_re_space after));
        t ← name_sym name;
        mret (TSym t, rest)
      else
        line ← gets ps_line;
        when (negb (bool_decide (prev = TKey T_CHOICE)))
          (q_warn_here ("style: quotes recommended around '" +:+ name +:+ "' in '" +:+ strip line +:+ "'"));;
        mret (TStr name, drop_while is_re_space after)
  end.

(** The token at the start of [s]; [None] is the beginning of a comment *)
Definition next_token (first prev : token) (s : string) : Q (option (token * string)) :=
  match id_match s with
  | Some (name, after) => Some <$> id_token prev name after s
  | None =>
      match s with
      | EmptyString => mret None
      | String c s' =>
          if Ascii.eqb c QUOTE || Ascii.eqb c "'" then
            '(val, rest) ← quoted c s';
            t ← (if string_lex prev || bool_decide (first = TKey T_OPTION) then mret (TStr val)
                 else TSym <$> lookup_const_sym val);
            mret (Some (t, lskip rest))
          else
            match operator s with
            | Some (k, rest) => mret (Some (TKey k, lskip rest))
            | None => if Ascii.eqb c "#" then mret None else parse_error "unknown tokens in line"
            end
      end
  end.

(** The main loop *)
Fixpoint tokens_loop (n : nat) (first prev : token) (s : string) (acc : list token) : Q (list token) :=
  match n with
  | O => raise Diverges
  | S n =>
      if String.eqb s "" then mret acc
      else
        r ← next_token first prev s;
        match r with
        | None => mret acc
        | Some (t, rest) =>
            tokens_loop n first t rest (acc ++ [t])
        end
  end.

(** [Kconfig._tokenize] *)
Definition tokenize (s : string) : Q (list (option token)) :=
  modify (fun p => with_ps_line p s);;
  match command_match s with
  | None =>
      if isspace s || startswith (lstrip s) "#" then mret [None]
      else parse_error "unknown token at start of line"
  | Some (w, rest) =>
      match get_keyword w with
      | None =>
          if String.eqb (strip_chars (fun c => Ascii.eqb c " " || Ascii.eqb c (chr 9) || Ascii.eqb c NL
                                               || Ascii.eqb c "-") s) "help"
          then mret [Some (TKey T_HELP); None]
          else parse_assignment getenv shell fuel s;; mret [None]
      | Some k =>
          l ← tokens_loop fuel (TKey k) (TKey k) rest [TKey k];
          mret (map Some l ++ [None])
      end
  end.
End Tokenize.
