(* ===== verification/Parse.v ===== *)
(** * The parser of Kconfig files

    [_next_line], [_parse_expr], [_parse_props], [_parse_block] and what they
    use.  The files, the sorted results of [glob] and the environment are
    parameters.  Attributes that [MenuNode.__init__] leaves unset raise
    [AttributeError] when the source reads them. *)
From S2P Require Import Prelude PyStr PyText Model Finalize Preprocess Tokenize ConfigFile.

(** ** Assignments to attributes *)

Definition add_sym_node (n : nodeid) (x : Symbol) := mkSymbol (sym_name x) (sym_is_constant x) (sym_orig_type x)
  (sym_nodes x ++ [n]) (sym_defaults x) (sym_selects x) (sym_implies x) (sym_ranges x) (sym_rev_dep x)
  (sym_weak_rev_dep x) (sym_direct_dep x) (sym_choice x) (sym_env_var x) (sym_is_allnoconfig_y x) (sym_dependents x).
Definition set_sym_options env_var allnoconfig_y (x : Symbol) := mkSymbol (sym_name x) (sym_is_constant x)
  (sym_orig_type x) (sym_nodes x) (sym_defaults x) (sym_selects x) (sym_implies x) (sym_ranges x) (sym_rev_dep x)
  (sym_weak_rev_dep x) (sym_direct_dep x) (sym_choice x) env_var allnoconfig_y (sym_dependents x).

Definition add_ch_node (n : nodeid) (x : Choice) := mkChoice (ch_name x) (ch_orig_type x) (ch_nodes x ++ [n])
  (ch_syms x) (ch_defaults x) (ch_direct_dep x) (ch_is_optional x) (ch_dependents x).
Definition set_ch_optional (x : Choice) := mkChoice (ch_name x) (ch_orig_type x) (ch_nodes x)
  (ch_syms x) (ch_defaults x) (ch_direct_dep x) true (ch_dependents x).

Definition set_nd_prompt v (x : MenuNode) := mkMenuNode (nd_item x) (nd_next x) (nd_list x) (nd_parent x) v
  (nd_dep x) (nd_visibility x) (nd_is_menuconfig x) (nd_help x) (nd_filename x) (nd_linenr x)
  (nd_include_path x) (nd_defaults x) (nd_selects x) (nd_implies x) (nd_ranges x).
Definition set_nd_dep v (x : MenuNode) := mkMenuNode (nd_item x) (nd_next x) (nd_list x) (nd_parent x) (nd_prompt x)
  v (nd_visibility x) (nd_is_menuconfig x) (nd_help x) (nd_filename x) (nd_linenr x)
  (nd_include_path x) (nd_defaults x) (nd_selects x) (nd_implies x) (nd_ranges x).
Definition set_nd_visibility v (x : MenuNode) := mkMenuNode (nd_item x) (nd_next x) (nd_list x) (nd_parent x)
  (nd_prompt x) (nd_dep x) v (nd_is_menuconfig x) (nd_help x) (nd_filename x) (nd_linenr x)
  (nd_include_path x) (nd_defaults x) (nd_selects x) (nd_implies x) (nd_ranges x).
Definition set_nd_help v (x : MenuNode) := mkMenuNode (nd_item x) (nd_next x) (nd_list x) (nd_parent x) (nd_prompt x)
  (nd_dep x) (nd_visibility x) (nd_is_menuconfig x) v (nd_filename x) (nd_linenr x)
  (nd_include_path x) (nd_defaults x) (nd_selects x) (nd_implies x) (nd_ranges x).
Definition add_nd_default d (x : MenuNode) :=
  set_nd_props (nd_defaults x ++ [d]) (nd_ranges x) (nd_selects x) (nd_implies x) x.
Definition add_nd_range r (x : MenuNode) :=
  set_nd_props (nd_defaults x) (nd_ranges x ++ [r]) (nd_selects x) (nd_implies x) x.
Definition add_nd_select s (x : MenuNode) :=
  set_nd_props (nd_defaults x) (nd_ranges x) (nd_selects x ++ [s]) (nd_implies x) x.
Definition add_nd_imply s (x : MenuNode) :=
  set_nd_props (nd_defaults x) (nd_ranges x) (nd_selects x) (nd_implies x ++ [s]) x.

Definition with_globals menus comments defconfig_list (c : Config) := mkConfig (c_syms c) (c_choices c) (c_nodes c)
  (c_n c) (c_m c) (c_y c) (c_modules c) defconfig_list (c_top_node c) (c_unique_defined_syms c)
  (c_unique_choices c) menus comments (c_sym_table c) (c_config_prefix c) (c_config_header c) (c_header_header c).
Definition with_uniques syms choices (c : Config) := mkConfig (c_syms c) (c_choices c) (c_nodes c)
  (c_n c) (c_m c) (c_y c) (c_modules c) (c_defconfig_list c) (c_top_node c) syms choices
  (c_menus c) (c_comments c) (c_sym_table c) (c_config_prefix c) (c_config_header c) (c_header_header c).

Definition q_nput (f : MenuNode -> MenuNode) (n : nodeid) : Q unit := on_cfg (upd_node f n).
Definition q_nget {A} (f : MenuNode -> A) (n : nodeid) : Q A := cfg_of (fun c => f (node c n)).

(** ** Tokens of the current line *)

(** [self._tokens[i]] *)
Definition token_at (i : nat) : Q (option token) :=
  o ← gets (fun p => nth_error (ps_tokens p) i);
  match o with Some t => mret t | None => raise IndexError end.

Definition set_tokens_i (i : nat) : Q unit :=
  modify (fun p => with_ps_tokens p (ps_tokens p) i (ps_reuse_tokens p)).

(** [token = self._tokens[self._tokens_i]; self._tokens_i += 1] *)
Definition take_token : Q (option token) :=
  i ← gets ps_tokens_i; t ← token_at i; set_tokens_i (S i);; mret t.
(** [self._tokens[self._tokens_i]] *)
Definition peek_token : Q (option token) := i ← gets ps_tokens_i; token_at i.

(** [if self._tokens[self._tokens_i] is not None: self._trailing_tokens_error()] *)
Definition expect_eol : Q unit :=
  t ← peek_token; match t with None => mret tt | Some _ => trailing_tokens_error end.

(** [Kconfig._check_token] *)
Definition check_token (k : keyword) : Q bool :=
  t ← peek_token;
  if bool_decide (t = Some (TKey k)) then i ← gets ps_tokens_i; set_tokens_i (S i);; mret true else mret false.

(** [Kconfig._expect_sym] *)
Definition expect_sym : Q symid :=
  t ← take_token; match t with Some (TSym s) => mret s | _ => parse_error "expected symbol" end.

(** [Kconfig._expect_nonconst_sym] *)
Definition expect_nonconst_sym : Q symid :=
  t ← token_at 1; set_tokens_i 2;;
  match t with
  | Some (TSym s) =>
      b ← cfg_of (fun c => sym_is_constant (sym c s));
      if b : bool then parse_error "expected nonconstant symbol" else mret s
  | _ => parse_error "expected nonconstant symbol"
  end.

(** [Kconfig._expect_str_and_eol] *)
Definition expect_str_and_eol : Q string :=
  t ← take_token;
  match t with Some (TStr s) => expect_eol;; mret s | _ => parse_error "expected string" end.

(** ** Expressions *)

Definition relation_of (t : option token) : option relop :=
  match t with
  | Some (TKey k) =>
      match k with
      | T_EQUAL => Some EQUAL | T_UNEQUAL => Some UNEQUAL | T_LESS => Some LESS | T_LESS_EQUAL => Some LESS_EQUAL
      | T_GREATER => Some GREATER | T_GREATER_EQUAL => Some GREATER_EQUAL | _ => None
      end
  | _ => None
  end.

(** [Kconfig._parse_expr], [_parse_and_expr] and [_parse_factor] *)
Fixpoint parse_expr (depth : nat) (transform_m : bool) : Q expr :=
  match depth with
  | O => raise RecursionError
  | S depth =>
      and_expr ← parse_and_expr depth transform_m;
      b ← check_token T_OR;
      if b : bool then e ← parse_expr depth transform_m; mret (EOr and_expr e) else mret and_expr
  end
with parse_and_expr (depth : nat) (transform_m : bool) : Q expr :=
  match depth with
  | O => raise RecursionError
  | S depth =>
      factor ← parse_factor depth transform_m;
      b ← check_token T_AND;
      if b : bool then e ← parse_and_expr depth transform_m; mret (EAnd factor e) else mret factor
  end
with parse_factor (depth : nat) (transform_m : bool) : Q expr :=
  match depth with
  | O => raise RecursionError
  | S depth =>
      t ← take_token;
      match t with
      | Some (TSym s) =>
          t ← peek_token;
          match relation_of t with
          | None =>
              c ← cfg_of id;
              mret (if transform_m && bool_decide (s = c_m c) then EAnd (e_m c) (ESym (c_modules c)) else ESym s)
          | Some r =>
              i ← gets ps_tokens_i; set_tokens_i (S i);;
              s2 ← expect_sym;
              mret (ERel r s s2)
          end
      | Some (TKey T_NOT) => e ← parse_factor depth transform_m; mret (ENot e)
      | Some (TKey T_OPEN_PAREN) =>
          e ← parse_expr depth transform_m;
          b ← check_token T_CLOSE_PAREN;
          if b : bool then mret e else parse_error "malformed expression"
      | _ => parse_error "malformed expression"
      end
  end.

(** [Kconfig._expect_expr_and_eol] *)
Definition expect_expr_and_eol (depth : nat) : Q expr := e ← parse_expr depth true; expect_eol;; mret e.

(** [Kconfig._parse_cond] *)
Definition parse_cond (depth : nat) : Q expr :=
  b ← check_token T_IF;
  e ← (if b : bool then parse_expr depth true else cfg_of e_y);
  expect_eol;;
  mret e.

(** ** Lines *)

Section Parse.
Context (getenv : string -> option string) (uname_release : string) (shell : string -> string * string).
(** The contents of files, the results of [glob], [self.srctree] and [self._srctree_prefix] *)
Context (files : gmap string string) (glob : string -> list string) (srctree srctree_prefix : string).
(** A bound for loops and for the depth of recursion *)
Context (fuel : nat).
Local Abbreviation tokenize := (tokenize getenv uname_release shell fuel).

(** [self._readline()] *)
Definition readline : Q string :=
  s ← gets ps_unread;
  let '(line, rest) := match split_at NL s with
                       | (l, Some rest) => (l +:+ String NL "", rest)
                       | (l, None) => (l, "")
                       end in
  modify (fun p => with_ps_file p (ps_filename p) (ps_linenr p) (ps_include_path p) (ps_filestack p) rest
                     (ps_kconfig_filenames p));;
  mret line.

Definition add_linenr (n : Z) : Q unit :=
  modify (fun p => with_ps_file p (ps_filename p) (ps_linenr p + n) (ps_include_path p) (ps_filestack p) (ps_unread p)
                     (ps_kconfig_filenames p)).

(** Line joining *)
Fixpoint join_lines (n : nat) (line : string) : Q string :=
  match drop_suffix (String BSL (String NL "")) line, n with
  | None, _ => mret line
  | Some _, O => raise Diverges
  | Some l, S n => more ← readline; add_linenr 1;; join_lines n (l +:+ more)
  end.

(** [Kconfig._next_line] *)
Definition next_line : Q bool :=
  r ← gets ps_reuse_tokens;
  if r : bool then
    modify (fun p => with_ps_tokens p (ps_tokens p) (ps_tokens_i p) false);; mret true
  else
    line ← readline;
    if String.eqb line "" then mret false
    else
      add_linenr 1;;
      line ← join_lines fuel line;
      l ← tokenize line;
      modify (fun p => with_ps_tokens p l 1%nat (ps_reuse_tokens p));;
      mret true.

(** [Kconfig._line_after_help] *)
Definition line_after_help (line : string) : Q unit :=
  line ← join_lines fuel line;
  l ← tokenize line;
  modify (fun p => with_ps_tokens p l (ps_tokens_i p) true).

(** ** Properties *)

Definition item_name_and_loc (n : nodeid) : Q string :=
  c ← cfg_of id;
  match nd_item (node c n) with
  | NSym s => mret (sym_name_and_loc c s)
  | NChoice x => mret (ch_name_and_loc c x)
  | _ => raise AttributeError
  end.

Definition item_orig_type (n : nodeid) : Q stype :=
  c ← cfg_of id;
  match nd_item (node c n) with
  | NSym s => mret (sym_orig_type (sym c s))
  | NChoice x => mret (ch_orig_type (chc c x))
  | _ => raise AttributeError
  end.

(** [Kconfig._set_type] *)
Definition set_type (n : nodeid) (t : stype) : Q unit :=
  old ← item_orig_type n;
  when (negb (type_eqb old UNKNOWN) && negb (type_eqb old t))
    (s ← item_name_and_loc n;
     q_warn (s +:+ " defined with multiple types, " +:+ TYPE_TO_STR t +:+ " will be used") None);;
  on_cfg (fun c => match nd_item (node c n) with
                   | NSym s => upd_sym (set_sym_orig_type t) s c
                   | NChoice x => upd_choice (set_ch_orig_type t) x c
                   | _ => c
                   end).

(** [Kconfig._parse_prompt] *)
Definition parse_prompt (n : nodeid) : Q unit :=
  old ← q_nget nd_prompt n;
  when (negb (is_none old))
    (s ← item_name_and_loc n; q_warn (s +:+ " defined with multiple prompts in single location") None);;
  t ← token_at 1;
  set_tokens_i 2;;
  match t with
  | Some (TStr prompt) =>
      when (negb (String.eqb prompt (strip prompt)))
        (s ← item_name_and_loc n; q_warn (s +:+ " has leading or trailing whitespace in its prompt") None);;
      cond ← parse_cond fuel;
      q_nput (set_nd_prompt (Some (strip prompt, cond))) n
  | _ => parse_error "expected prompt string"
  end.

(** [Kconfig._empty_help] *)
Definition empty_help (n : nodeid) (line : string) : Q unit :=
  s ← item_name_and_loc n;
  q_warn (s +:+ " has 'help' but empty help text") None;;
  q_nput (set_nd_help (Some "")) n;;
  when (negb (String.eqb line "")) (line_after_help line).

(** The first line of a help text that is not blank *)
Fixpoint first_help_line (k : nat) : Q string :=
  match k with
  | O => raise Diverges
  | S k =>
      line ← readline;
      add_linenr 1;;
      if negb (String.eqb line "") && isspace line then first_help_line k else mret line
  end.

Definition indent_of (expline : string) : nat := (String.length expline - String.length (lstrip expline))%nat.

(** The other lines, up to one with less indentation, which is returned *)
Fixpoint more_help_lines (k indent : nat) (lines : list string) : Q (list string * string) :=
  match k with
  | O => raise Diverges
  | S k =>
      line ← readline;
      if isspace line then more_help_lines k indent (lines ++ [String NL ""])
      else if String.eqb line "" then mret (lines, line)
      else
        let expline := expandtabs line in
        if (indent_of expline <? indent)%nat then mret (lines, line)
        else more_help_lines k indent (lines ++ [String.substring indent (String.length expline) expline])
  end.

(** [Kconfig._parse_help] *)
Definition parse_help (n : nodeid) : Q unit :=
  x ← cfg_of (fun c => node c n);
  match nd_item x with
  | NSym _ | NChoice _ => mret tt
  | _ => raise AttributeError
  end;;
  when (negb (is_none (nd_help x)))
    (s ← item_name_and_loc n;
     q_warn (s +:+ " defined with more than one help text -- only the last one will be used") None);;
  line ← first_help_line fuel;
  let expline := expandtabs line in
  let indent := indent_of expline in
  if String.eqb line "" || (indent =? 0)%nat then empty_help n line
  else
    '(lines, line) ← more_help_lines fuel indent [String.substring indent (String.length expline) expline];
    add_linenr (Z.of_nat (length lines));;
    q_nput (set_nd_help (Some (rstrip (String.concat "" lines)))) n;;
    when (negb (String.eqb line "")) (line_after_help line).

(** The types that the keywords stand for *)
Definition type_of_token (k : keyword) : option stype :=
  match k with
  | T_BOOL => Some BOOL | T_TRISTATE => Some TRISTATE | T_INT => Some INT | T_HEX => Some HEX | T_STRING => Some STRING
  | _ => None
  end.
Definition type_of_def (k : keyword) : option stype :=
  match k with
  | T_DEF_BOOL => Some BOOL | T_DEF_TRISTATE => Some TRISTATE | T_DEF_INT => Some INT | T_DEF_HEX => Some HEX
  | T_DEF_STRING => Some STRING
  | _ => None
  end.

(** [item.name] as it is formatted; [MENU] and [COMMENT] are numbers *)
Definition item_name (it : node_item) : Q string :=
  c ← cfg_of id;
  match it with
  | NSym s => mret (sym_name (sym c s))
  | NChoice x => mret (default "None" (ch_name (chc c x)))
  | _ => raise AttributeError
  end.

(** [option ...] lines *)
Definition parse_option (n : nodeid) : Q unit :=
  it ← q_nget nd_item n;
  env ← check_token T_ENV;
  if env : bool then
    eq ← check_token T_EQUAL;
    if negb eq then parse_error "expected '=' after 'env'"
    else
      env_var ← expect_str_and_eol;
      match it with
      | NSym s =>
          on_cfg (fun c => upd_sym (set_sym_options (Some env_var) (sym_is_allnoconfig_y (sym c s))) s c);;
          name ← cfg_of (fun c => sym_name (sym c s));
          match getenv env_var with
          | Some v =>
              d ← lookup_const_sym v;
              y ← cfg_of e_y;
              q_nput (add_nd_default (ESym d, y)) n
          | None =>
              q_warn_here (env_var +:+ " has 'option env=" +:+ String QUOTE (name +:+ String QUOTE
                ("', but the environment variable " +:+ name +:+ " is not set")))
          end;;
          when (negb (String.eqb env_var name))
            (q_warn_here ("Kconfiglib expands environment variables in strings directly, meaning you do not "
               +:+ "need 'option env=...' " +:+ String QUOTE ("bounce" +:+ String QUOTE (" symbols. For compatibility "
               +:+ "with the C tools, rename " +:+ name +:+ " to " +:+ env_var +:+ " (so that the symbol name "
               +:+ "matches the environment variable name)."))))
      | _ => raise AttributeError
      end
  else
    def ← check_token T_DEFCONFIG_LIST;
    if def : bool then
      old ← cfg_of c_defconfig_list;
      match old with
      | None => on_cfg (fun c => with_globals (c_menus c) (c_comments c) (Some it) c)
      | Some o =>
          old_name ← item_name o;
          name ← item_name it;
          q_warn_here ("'option defconfig_list' set on multiple symbols (" +:+ old_name +:+ " and "
            +:+ name +:+ "). Only " +:+ old_name +:+ " will be used.")
      end
    else
      mods ← check_token T_MODULES;
      if mods : bool then
        m ← cfg_of c_modules;
        when (negb (bool_decide (it = NSym m)))
          (q_warn_here ("the 'modules' option is not supported. Let me know if this is a problem for you, "
             +:+ "as it wouldn't be that hard to implement. Note that modules are supported -- "
             +:+ "Kconfiglib just assumes the symbol name MODULES, like older versions of the C "
             +:+ "implementation did when 'option modules' wasn't used."))
      else
        allno ← check_token T_ALLNOCONFIG_Y;
        if allno : bool then
          match it with
          | NSym s => on_cfg (fun c => upd_sym (set_sym_options (sym_env_var (sym c s)) true) s c)
          | _ => parse_error "the 'allnoconfig_y' option is only valid for symbols"
          end
        else parse_error "unrecognized option".

(** One line of properties; [false] if the line is no property *)
Definition parse_prop (n : nodeid) (t0 : keyword) : Q bool :=
  it ← q_nget nd_item n;
  match type_of_token t0, type_of_def t0, t0 with
  | Some t, _, _ =>
      set_type n t;;
      t1 ← token_at 1;
      when (negb (is_none t1)) (parse_prompt n);;
      mret true
  | None, Some t, _ =>
      set_type n t;;
      d ← parse_expr fuel false;
      cond ← parse_cond fuel;
      q_nput (add_nd_default (d, cond)) n;;
      mret true
  | None, None, T_DEPENDS =>
      on ← check_token T_ON;
      if negb on then parse_error "expected 'on' after 'depends'"
      else
        dep ← q_nget nd_dep n;
        e ← expect_expr_and_eol fuel;
        c ← cfg_of id;
        q_nput (set_nd_dep (make_and c dep e)) n;;
        mret true
  | None, None, T_HELP => parse_help n;; mret true
  | None, None, T_SELECT =>
      match it with
      | NSym _ =>
          s ← expect_nonconst_sym; cond ← parse_cond fuel; q_nput (add_nd_select (s, cond)) n;; mret true
      | _ => parse_error "only symbols can select"
      end
  | None, None, T_DEFAULT =>
      d ← parse_expr fuel false; cond ← parse_cond fuel; q_nput (add_nd_default (d, cond)) n;; mret true
  | None, None, T_PROMPT => parse_prompt n;; mret true
  | None, None, T_RANGE =>
      low ← expect_sym; high ← expect_sym; cond ← parse_cond fuel;
      q_nput (add_nd_range (low, high, cond)) n;; mret true
  | None, None, T_IMPLY =>
      match it with
      | NSym _ =>
          s ← expect_nonconst_sym; cond ← parse_cond fuel; q_nput (add_nd_imply (s, cond)) n;; mret true
      | _ => parse_error "only symbols can imply"
      end
  | None, None, T_VISIBLE =>
      b ← check_token T_IF;
      if negb b then parse_error "expected 'if' after 'visible'"
      else
        match it with
        | NMenu =>
            v ← q_nget nd_visibility n;
            e ← expect_expr_and_eol fuel;
            c ← cfg_of id;
            q_nput (set_nd_visibility (make_and c v e)) n;;
            mret true
        | _ => raise AttributeError
        end
  | None, None, T_OPTION => parse_option n;; mret true
  | None, None, T_OPTIONAL =>
      match it with
      | NChoice x => on_cfg (upd_choice set_ch_optional x);; mret true
      | _ => parse_error (String QUOTE ("optional" +:+ String QUOTE " is only valid for choices"))
      end
  | None, None, _ => mret false
  end.

(** The loop of [Kconfig._parse_props] *)
Fixpoint props_loop (k : nat) (n : nodeid) : Q unit :=
  match k with
  | O => raise Diverges
  | S k =>
      more ← next_line;
      if negb more then mret tt
      else
        t0 ← token_at 0;
        match t0 with
        | None => props_loop k n
        | Some (TKey t0) =>
            b ← parse_prop n t0;
            if b : bool then props_loop k n
            else modify (fun p => with_ps_tokens p (ps_tokens p) (ps_tokens_i p) true)
        | Some _ => modify (fun p => with_ps_tokens p (ps_tokens p) (ps_tokens_i p) true)
        end
  end.

(** [Kconfig._parse_props] *)
Definition parse_props (n : nodeid) : Q unit :=
  y ← cfg_of e_y; q_nput (set_nd_dep y) n;; props_loop fuel n.

(** ** Blocks *)

(** A new menu node with the current location; [dep] and [visibility] are set later where the source reads them *)
Definition new_node (it : node_item) (parent : nodeid) (is_menuconfig : bool) (prompt : option (string * expr)) : Q nodeid :=
  p ← gets id;
  let c := ps_cfg p in
  let n := length (c_nodes c) in
  on_cfg (fun c => with_nodes (c_nodes c ++ [mkMenuNode it None None (Some parent) prompt (e_y c) (e_y c)
    is_menuconfig None (default "" (ps_filename p)) (ps_linenr p) (ps_include_path p) [] [] [] []]) c);;
  mret n.

(** [prev.next = prev = node] *)
Definition link (prev n : nodeid) : Q nodeid := q_nput (set_nd_next (Some n)) prev;; mret n.

(** The choice that a [choice] line starts or continues *)
Definition get_choice : Q choiceid :=
  let alloc name := (c ← cfg_of id;
                     on_cfg (fun c => with_choices (c_choices c ++ [mkChoice name UNKNOWN [] [] [] (e_n c) false []]) c);;
                     mret (length (c_choices c)) : Q choiceid) in
  t1 ← token_at 1;
  match t1 with
  | None => alloc None
  | Some _ =>
      name ← expect_str_and_eol;
      o ← gets (fun p => ps_named_choices p !! name);
      match o with
      | Some x => mret x
      | None =>
          x ← alloc (Some name);
          modify (fun p => with_ps_items p (<[name := x]> (ps_named_choices p)) (ps_defined_syms p) (ps_choices p));;
          mret x
      end
  end.

(** Sorting of file names *)
Fixpoint insert_str (x : string) (l : list string) : list string :=
  match l with [] => [x] | y :: l' => if str_ltb y x then y :: insert_str x l' else x :: l end.
Definition sort_strs (l : list string) : list string := foldr insert_str [] l.

(** [os.path.dirname] *)
Definition dirname (f : string) : string :=
  let fix go (s : string) : option string :=
    match s with
    | EmptyString => None
    | String c s' =>
        match go s' with
        | Some d => Some (String c d)
        | None => if Ascii.eqb c "/" then Some "/" else None
        end
    end in
  match go f with
  | None => ""
  | Some d => let head := drop_while_end (Ascii.eqb "/") d in if String.eqb head "" then d else head
  end.

(** [Kconfig._enter_file] *)
Definition enter_file (filename : string) : Q unit :=
  let rel_filename := default filename (drop_prefix srctree_prefix filename) in
  p ← gets id;
  let include_path := ps_include_path p ++ [(default "" (ps_filename p), ps_linenr p)] in
  modify (fun p => with_ps_file p (ps_filename p) (ps_linenr p) include_path
    ((ps_include_path p, ps_unread p) :: ps_filestack p) (ps_unread p) (ps_kconfig_filenames p ++ [rel_filename]));;
  if existsb (fun '(name, _) => String.eqb name rel_filename) include_path then
    raise (KconfigError (String NL (here_str p +:+ "recursive 'source' of '" +:+ rel_filename
      +:+ "' detected. Check that environment variables are set correctly." +:+ String NL ("Include path:" +:+ String NL
      (py_join (String NL "") (map (fun '(name, l) => name +:+ ":" +:+ py_str l) include_path))))))
  else
    match files !! filename with
    | None => raise (OSError "ENOENT")
    | Some contents =>
        modify (fun p => with_ps_file p (Some rel_filename) 0 (ps_include_path p) (ps_filestack p)
                           (translate_newlines contents) (ps_kconfig_filenames p))
    end.

(** [Kconfig._leave_file] *)
Definition leave_file : Q unit :=
  p ← gets id;
  match last (ps_include_path p), ps_filestack p with
  | Some (filename, linenr), (include_path, unread) :: filestack =>
      modify (fun p => with_ps_file p (Some filename) linenr include_path filestack unread (ps_kconfig_filenames p))
  | _, _ => raise IndexError
  end.

Definition is_source (k : keyword) : bool :=
  match k with T_SOURCE | T_RSOURCE | T_OSOURCE | T_ORSOURCE => true | _ => false end.

(** The files of a [source] line, in order *)
Definition source_files (t0 : keyword) : Q (list string) :=
  pattern ← expect_str_and_eol;
  p ← gets id;
  let pattern := if bool_decide (t0 = T_RSOURCE) || bool_decide (t0 = T_ORSOURCE)
                 then path_join (dirname (default "" (ps_filename p))) pattern else pattern in
  let filenames := sort_strs (glob (path_join srctree_prefix pattern)) in
  if bool_decide (filenames = []) && (bool_decide (t0 = T_SOURCE) || bool_decide (t0 = T_RSOURCE)) then
    raise (KconfigError (here_str p +:+ "'" +:+ pattern +:+ "' not found (in '" +:+ strip (ps_line p)
      +:+ "'). Check that environment variables are set correctly (e.g. $srctree, which is "
      +:+ (if String.eqb srctree "" then "unset or blank" else "set to '" +:+ srctree +:+ "'")
      +:+ "). Also note that unset environment variables expand to the empty string."))
  else mret filenames.

Definition end_name (k : keyword) : string :=
  match k with T_ENDCHOICE => "endchoice" | T_ENDIF => "endif" | _ => "endmenu" end.

(** A [config] or [menuconfig] entry *)
Definition parse_config (t0 : keyword) (parent prev : nodeid) : Q nodeid :=
  t1 ← token_at 1;
  const ← match t1 with
          | Some (TSym s) => cfg_of (fun c => sym_is_constant (sym c s))
          | _ => mret true
          end;
  match t1 with
  | Some (TSym s) =>
      if const : bool then parse_error "missing or bad symbol name"
      else
        t2 ← token_at 2;
        when (negb (is_none t2)) trailing_tokens_error;;
        modify (fun p => with_ps_items p (ps_named_choices p) (ps_defined_syms p ++ [s]) (ps_choices p));;
        let menuconfig := bool_decide (t0 = T_MENUCONFIG) in
        n ← new_node (NSym s) parent menuconfig None;
        on_cfg (upd_sym (add_sym_node n) s);;
        parse_props n;;
        p ← q_nget nd_prompt n;
        when (menuconfig && is_none p)
          (name ← item_name_and_loc n; q_warn ("the menuconfig symbol " +:+ name +:+ " has no prompt") None);;
        link prev n
  | _ => parse_error "missing or bad symbol name"
  end.

(** [node.list = node.next] *)
Definition tilt (n : nodeid) : Q unit := nx ← q_nget nd_next n; q_nput (set_nd_list nx) n.

(** [Kconfig._parse_block]: the last node of the block *)
Fixpoint parse_block (k : nat) (end_token : option keyword) (parent prev : nodeid) : Q nodeid :=
  match k with
  | O => raise Diverges
  | S k =>
      more ← next_line;
      if negb more then
        match end_token with
        | Some e =>
            f ← gets ps_filename;
            raise (KconfigError ("error: expected '" +:+ end_name e +:+ "' at end of '" +:+ default "None" f +:+ "'"))
        | None => mret prev
        end
      else
        t0 ← token_at 0;
        match t0 with
        | None => parse_block k end_token parent prev
        | Some (TKey t0) =>
            if bool_decide (t0 = T_CONFIG \/ t0 = T_MENUCONFIG) then
              n ← parse_config t0 parent prev; parse_block k end_token parent n
            else if is_source t0 then
              filenames ← source_files t0;
              prev ← foldM (fun prev f => enter_file f;; prev ← parse_block k None parent prev; leave_file;; mret prev)
                       prev filenames;
              parse_block k end_token parent prev
            else if bool_decide (Some t0 = end_token) then
              t1 ← token_at 1;
              when (negb (is_none t1)) trailing_tokens_error;;
              q_nput (set_nd_next None) prev;;
              mret prev
            else
              match t0 with
              | T_IF =>
                  n ← new_node NIf parent false None;
                  e ← expect_expr_and_eol fuel;
                  q_nput (set_nd_dep e) n;;
                  parse_block k (Some T_ENDIF) n n;;
                  tilt n;;
                  n ← link prev n;
                  parse_block k end_token parent n
              | T_MENU =>
                  p ← expect_str_and_eol;
                  y ← cfg_of e_y;
                  n ← new_node NMenu parent true (Some (p, y));
                  on_cfg (fun c => with_globals (c_menus c ++ [n]) (c_comments c) (c_defconfig_list c) c);;
                  parse_props n;;
                  parse_block k (Some T_ENDMENU) n n;;
                  tilt n;;
                  n ← link prev n;
                  parse_block k end_token parent n
              | T_COMMENT =>
                  p ← expect_str_and_eol;
                  y ← cfg_of e_y;
                  n ← new_node NComment parent false (Some (p, y));
                  on_cfg (fun c => with_globals (c_menus c) (c_comments c ++ [n]) (c_defconfig_list c) c);;
                  parse_props n;;
                  n ← link prev n;
                  parse_block k end_token parent n
              | T_CHOICE =>
                  x ← get_choice;
                  modify (fun p => with_ps_items p (ps_named_choices p) (ps_defined_syms p) (ps_choices p ++ [x]));;
                  n ← new_node (NChoice x) parent true None;
                  on_cfg (upd_choice (add_ch_node n) x);;
                  parse_props n;;
                  parse_block k (Some T_ENDCHOICE) n n;;
                  tilt n;;
                  n ← link prev n;
                  parse_block k end_token parent n
              | T_MAINMENU =>
                  p ← expect_str_and_eol;
                  on_cfg (fun c => upd_node (set_nd_prompt (Some (p, e_y c))) (c_top_node c) c);;
                  parse_block k end_token parent prev
              | T_ENDCHOICE => parse_error "no corresponding 'choice'"
              | T_ENDIF => parse_error "no corresponding 'if'"
              | T_ENDMENU => parse_error "no corresponding 'menu'"
              | _ => parse_error "unrecognized construct"
              end
        | Some _ => parse_error "unrecognized construct"
        end
  end.
End Parse.
