(* ===== verification/Sanity.v ===== *)
(** * Sanity checks of a finished configuration

    [_check_sym_sanity], [_check_choice_sanity] and [_check_undef_syms]: they warn,
    and raise [KconfigError] for malformed defaults. *)
From S2P Require Import Prelude PyStr PyText Model Eval SetValue Printing ConfigFile.

Definition has_some {A} (o : option A) : bool := match o with Some _ => true | None => false end.

Section Sanity.
Context (cfg : Config).

(** [num_ok] *)
Definition num_ok (s : symid) (t : stype) : bool :=
  match sym_nodes (sym cfg s) with
  | [] => is_base_n (sym_name (sym cfg s)) (TYPE_TO_BASE t)
  | _ => type_eqb (sym_orig_type (sym cfg s)) t
  end.

Definition bool_tristate_unknown (t : stype) : bool := is_bool_tristate t || type_eqb t UNKNOWN.

(** [select] and [imply] of symbols that are not bool or tristate *)
Definition check_targets (s : symid) (word : string) (l : list (symid * expr)) : K unit :=
  forM_ l (fun '(target, _) =>
    when (negb (bool_tristate_unknown (sym_orig_type (sym cfg target))))
      (warn (sym_name_and_loc cfg s +:+ " " +:+ word +:+ " the " +:+ TYPE_TO_STR (sym_orig_type (sym cfg target))
             +:+ " symbol " +:+ sym_name_and_loc cfg target +:+ ", which is not bool or tristate"))).

(** A default of a string, int or hex symbol *)
Definition check_default (s : symid) (d : expr) : K unit :=
  let x := sym cfg s in
  let t := sym_orig_type x in
  match d with
  | EItem (ISym v) =>
      let y := sym cfg v in
      if type_eqb t STRING then
        when (negb (sym_is_constant y) && bool_decide (sym_nodes y = []) && negb (isupper (sym_name y)))
          (warn ("style: quotes recommended around default value for string symbol " +:+ sym_name_and_loc cfg s))
      else
        when (negb (num_ok v t))
          (warn ("the " +:+ TYPE_TO_STR t +:+ " symbol " +:+ sym_name_and_loc cfg s +:+ " has a non-"
                 +:+ TYPE_TO_STR t +:+ " default " +:+ sym_name_and_loc cfg v))
  | _ =>
      raise (KconfigError ("the " +:+ TYPE_TO_STR t +:+ " symbol " +:+ sym_name_and_loc cfg s
        +:+ " has a malformed default " +:+ expr_str (standard_sc_expr_str cfg) d +:+ " -- expected a single symbol"))
  end.

Definition check_range (s : symid) (r : symid * symid * expr) : K unit :=
  let t := sym_orig_type (sym cfg s) in
  let '(low, high, _) := r in
  when (negb (num_ok low t) || negb (num_ok high t))
    (warn ("the " +:+ TYPE_TO_STR t +:+ " symbol " +:+ sym_name_and_loc cfg s +:+ " has a non-" +:+ TYPE_TO_STR t
           +:+ " range [" +:+ sym_name_and_loc cfg low +:+ ", " +:+ sym_name_and_loc cfg high +:+ "]")).

(** The checks of one symbol in [Kconfig._check_sym_sanity] *)
Definition check_sym (s : symid) : K unit :=
  let x := sym cfg s in
  let t := sym_orig_type x in
  (if is_bool_tristate t then
     check_targets s "selects" (sym_selects x);; check_targets s "implies" (sym_implies x)
   else if negb (type_eqb t UNKNOWN) then
     forM_ (sym_defaults x) (fun '(d, _) => check_default s d);;
     when (negb (bool_decide (sym_selects x = [])) || negb (bool_decide (sym_implies x = [])))
       (warn ("the " +:+ TYPE_TO_STR t +:+ " symbol " +:+ sym_name_and_loc cfg s +:+ " has selects or implies"))
   else warn (sym_name_and_loc cfg s +:+ " defined without a type"));;
  when (negb (bool_decide (sym_ranges x = [])))
    (if is_int_hex t then forM_ (sym_ranges x) (check_range s)
     else warn ("the " +:+ TYPE_TO_STR t +:+ " symbol " +:+ sym_name_and_loc cfg s
                +:+ " has ranges, but is not int or hex")).

Definition check_sym_sanity : K unit := forM_ (c_unique_defined_syms cfg) check_sym.

(** [warn_select_imply] *)
Fixpoint si_lines (l : list expr) : K string :=
  match l with
  | [] => mret ""
  | si :: l =>
      match split_expr si AND with
      | EItem i :: _ => r ← si_lines l; mret (String NL (" - " +:+ name_and_loc cfg i) +:+ r)
      | _ => raise AttributeError
      end
  end.
Definition warn_select_imply (s : symid) (e : expr) (expr_type : string) : K unit :=
  l ← si_lines (split_expr e OR);
  warn ("the choice symbol " +:+ sym_name_and_loc cfg s +:+ " is " +:+ expr_type
        +:+ " by the following symbols, but select/imply has no effect on choice symbols" +:+ l).

(** The nodes of a choice symbol *)
Definition check_choice_sym_node (c : choiceid) (s : symid) (n : nodeid) : K unit :=
  let x := node cfg n in
  match nd_parent x with
  | None => raise AttributeError
  | Some p =>
      if bool_decide (nd_item (node cfg p) = NChoice c) then
        when (negb (has_some (nd_prompt x)))
          (warn ("the choice symbol " +:+ sym_name_and_loc cfg s +:+ " has no prompt"))
      else
        when (has_some (nd_prompt x))
          (warn ("the choice symbol " +:+ sym_name_and_loc cfg s +:+ " is defined with a prompt outside the choice"))
  end.

Definition check_choice_sym (c : choiceid) (s : symid) : K unit :=
  let x := sym cfg s in
  when (negb (bool_decide (sym_defaults x = [])))
    (warn ("default on the choice symbol " +:+ sym_name_and_loc cfg s
           +:+ " will have no effect, as defaults do not affect choice symbols"));;
  when (negb (bool_decide (sym_rev_dep x = e_n cfg))) (warn_select_imply s (sym_rev_dep x) "selected");;
  when (negb (bool_decide (sym_weak_rev_dep x = e_n cfg))) (warn_select_imply s (sym_weak_rev_dep x) "implied");;
  forM_ (sym_nodes x) (check_choice_sym_node c s).

Definition check_choice_default (c : choiceid) (d : expr) : K unit :=
  match d with
  | EItem (ISym v) =>
      when (negb (bool_decide (sym_choice (sym cfg v) = Some c)))
        (warn ("the default selection " +:+ sym_name_and_loc cfg v +:+ " of " +:+ ch_name_and_loc cfg c
               +:+ " is not contained in the choice"))
  | _ => raise (KconfigError (ch_name_and_loc cfg c +:+ " has a malformed default "
                              +:+ expr_str (standard_sc_expr_str cfg) d))
  end.

(** [Kconfig._check_choice_sanity] *)
Definition check_choice (c : choiceid) : K unit :=
  let x := chc cfg c in
  when (negb (is_bool_tristate (ch_orig_type x)))
    (warn (ch_name_and_loc cfg c +:+ " defined with type " +:+ TYPE_TO_STR (ch_orig_type x)));;
  when (negb (existsb (fun n => has_some (nd_prompt (node cfg n))) (ch_nodes x)))
    (warn (ch_name_and_loc cfg c +:+ " defined without a prompt"));;
  forM_ (ch_defaults x) (fun '(d, _) => check_choice_default c d);;
  forM_ (ch_syms x) (check_choice_sym c).

Definition check_choice_sanity : K unit := forM_ (c_unique_choices cfg) check_choice.

(** [is_num] in [Kconfig._check_undef_syms], and [_is_num] of the interface *)
Definition is_num (s : string) : bool :=
  match py_int s 10 with
  | Some _ => true
  | None => if startswith s "0x" || startswith s "0X" then is_base_n s 16 else false
  end.

(** Where an undefined symbol is referenced *)
Definition undef_references (s : symid) : K string :=
  ns ← node_iter cfg false;
  foldM (fun msg n =>
    if bool_decide (ISym s ∈ referenced cfg n) then
      d ← node_str cfg n;
      mret (msg +:+ String NL (String NL ("- Referenced at " +:+ nd_filename (node cfg n) +:+ ":"
            +:+ py_str (nd_linenr (node cfg n)) +:+ ":" +:+ String NL (String NL d))))
    else mret msg) "" ns.

(** [Kconfig._check_undef_syms]; [syms] are the values of [self.syms] in order *)
Definition check_undef_syms (syms : list symid) : K unit :=
  forM_ syms (fun s =>
    let x := sym cfg s in
    when (bool_decide (sym_nodes x = []) && negb (is_num (sym_name x)) && negb (String.eqb (sym_name x) "MODULES"))
      (refs ← undef_references s; warn ("undefined symbol " +:+ sym_name x +:+ ":" +:+ refs))).
End Sanity.
