(* ===== verification/Init.v ===== *)
(** * Constructing a configuration from its files

    [Kconfig.__init__]: the files are parsed, the menu tree is finished, the
    sanity checks run, dependents are recorded and searched for loops.
    [Kconfig.eval_string] parses an expression afterwards. *)
From S2P Require Import Prelude PyStr PyText Model Eval SetValue EvalSpec EvalRefine EvalDet Values Finalize Printing.
From S2P Require Import ConfigFile DepLoop Preprocess Tokenize Parse Sanity.

(** [_ordered_unique] *)
Fixpoint ordered_unique (l : list nat) (seen : list nat) : list nat :=
  match l with
  | [] => []
  | x :: l => if bool_decide (x ∈ seen) then ordered_unique l seen else x :: ordered_unique l (x :: seen)
  end.

Section Init.
Context (getenv : string -> option string) (uname_release : string) (shell : string -> string * string).
Context (files : gmap string string) (glob : string -> list string) (srctree_prefix : string).
(** Whether warnings are enabled, and a bound for loops and recursion *)
Context (warn_enabled : bool) (fuel : nat).

Definition srctree_ : string := default "" (getenv "srctree").

(** The state before the first line is read *)
Definition empty_config (filename : string) : Config :=
  let constant name := mkSymbol name true TRISTATE [] [] [] [] [] (ESym 0%nat) (ESym 0%nat) (ESym 0%nat) None None false [] in
  mkConfig [constant "n"; constant "m"; constant "y"] []
    [mkMenuNode NMenu None None None (Some ("Main menu", ESym 2%nat)) (ESym 2%nat) (ESym 2%nat) true None filename 1
       [] [] [] [] []]
    0%nat 1%nat 2%nat 3%nat None 0%nat [] [] [] [] ∅
    (default "CONFIG_" (getenv "CONFIG_")) (default "" (getenv "KCONFIG_CONFIG_HEADER"))
    (default "" (getenv "KCONFIG_AUTOHEADER_HEADER")).

Definition start (filename : string) : PState :=
  mkPState (empty_config filename) (<["n" := 0%nat]> (<["m" := 1%nat]> {["y" := 2%nat]})) ∅ ∅ [] []
    (Some filename) 0 [] [] "" "" [] 0%nat false true warn_enabled [] [filename] [].

(** The files are read, and the top node gets its children *)
Definition parse_files (filename : string) : Q unit :=
  lookup_sym "MODULES";;
  match files !! path_join srctree_ filename with
  | None => raise (OSError "ENOENT")
  | Some contents =>
      modify (fun p => with_ps_file p (ps_filename p) (ps_linenr p) (ps_include_path p) (ps_filestack p)
                         (translate_newlines contents) (ps_kconfig_filenames p));;
      top ← cfg_of c_top_node;
      last ← parse_block getenv uname_release shell files glob srctree_ srctree_prefix fuel fuel None top top;
      q_nput (set_nd_next None) last;;
      tilt top;;
      q_nput (set_nd_next None) top;;
      modify (fun p => with_ps_parsing p false)
  end.

(** The menu tree is finished; the lists of symbols and choices get their final form *)
Definition finalize_tree : Q unit := fun p =>
  let cfg := ps_cfg p in
  let '(r, cfg) := finalize_node fuel fuel (c_top_node cfg) (e_y cfg) cfg in
  (r, with_ps_cfg p (with_uniques (ordered_unique (ps_defined_syms p) []) (ordered_unique (ps_choices p) []) cfg)).

(** Code of the finished configuration, run in the state of its symbols *)
Definition checking (m : Config -> K unit) : Q unit := fun p =>
  let cfg := ps_cfg p in
  let st := set_st_warnings (ps_warnings p) (set_st_warn (ps_warn p) (init_state cfg)) in
  let '(r, st) := m cfg st in
  (r, with_ps_warnings p (st_warnings st)).

(** [Kconfig._init] from the parsing on; the symbols of [self.syms] are those that are not constant *)
Definition init_kconfig (filename : string) : Q unit :=
  parse_files filename;;
  finalize_tree;;
  checking check_sym_sanity;;
  checking check_choice_sanity;;
  when (bool_decide (getenv "KCONFIG_WARN_UNDEF" = Some "y") || bool_decide (getenv "KCONFIG_STRICT" = Some "y"))
    (checking (fun cfg => check_undef_syms cfg
       (List.filter (fun s => negb (sym_is_constant (sym cfg s))) (seq 0 (length (c_syms cfg))))));;
  on_cfg build_dep;;
  checking (fun cfg => check_dep_loops cfg fuel);;
  on_cfg add_choice_deps.

(** [Kconfig._init]; [__init__] without [suppress_traceback] passes its exceptions on *)
Definition kconfig (filename : string) : res unit * PState := init_kconfig filename (start filename).

(** [Kconfig.eval_string] on a finished configuration: the expression it parses, and its value *)
Definition parse_string (s : string) : Q expr :=
  modify (fun p => with_ps_file p None (ps_linenr p) (ps_include_path p) (ps_filestack p) (ps_unread p)
                     (ps_kconfig_filenames p));;
  l ← tokenize getenv uname_release shell fuel ("if " +:+ s);
  modify (fun p => with_ps_line (with_ps_tokens p l 1%nat (ps_reuse_tokens p)) s);;
  expect_expr_and_eol fuel.

Definition eval_string (depth : nat) (s : string) (ps : PState) (st : State) : res Z :=
  match parse_string s ps with
  | (Ok e, ps') => (expr_value (ps_cfg ps') (ev (ps_cfg ps') depth) e st).1
  | (Err e, _) => Err e
  end.
End Init.
