(* ===== verification/InitProps.v ===== *)
(** * The repository's own configuration, from its text

    Reading the text of src/Kconfig gives the configuration that the other files
    use as their instance. *)
From S2P Require Import Prelude PyStr PyText KconfigText Model Eval EvalSpec EvalRefine EvalDet Values SetValue Fpspy.
From S2P Require Import Finalize Printing ConfigFile DepLoop Preprocess Tokenize Parse Sanity Init.

(** The constructor run on a file system that holds one file, in an empty environment *)
Definition read_kconfig (text : string) : res unit * PState :=
  kconfig (fun _ => None) "5.0" (fun _ => ("", "")) {["Kconfig" := text]} (fun _ => []) "/" true 4000 "Kconfig".

(** The configuration without the help texts, which no other code reads *)
Definition without_help (cfg : Config) : Config := with_nodes (map (set_nd_help None) (c_nodes cfg)) cfg.

(** Constructing a configuration from the text of the repository's Kconfig
    file succeeds without a warning: the tokenizer and the parser read it, the
    menu tree is finished, the sanity checks find nothing and there is no
    dependency loop.  The result is the configuration [fpspy], for which the
    value theorems, the round trip of configuration files and the loop search
    are instantiated. *)
Example repository_kconfig_parses :
  exists p, read_kconfig kconfig_text = (Ok tt, p) /\ ps_warnings p = [] /\ without_help (ps_cfg p) = fpspy.
Proof. eexists. split; [vm_compute; reflexivity|]. split; vm_compute; reflexivity. Qed.
