(* ===== verification/PreprocessProps.v ===== *)
(** * Macro expansion leaves the variables alone

    Expansion counts the calls of a variable in [_n_expansions] to detect
    recursion.  The counters are back at their old values when it succeeds, and
    nothing else changes but the warnings and the list of environment variables
    that were read. *)
From S2P Require Import Prelude PyStr PyText Model Preprocess.

Definition quiet (p p' : PState) : Prop :=
  exists warnings env_vars, p' = with_ps_env_vars (with_ps_warnings p warnings) env_vars.

#[export] Instance quiet_preorder : PreOrder quiet.
Proof.
  split.
  - intros p. exists (ps_warnings p), (ps_env_vars p). by destruct p.
  - intros p p1 p2 (w & e & ->) (w' & e' & ->). by exists w', e'.
Qed.

Lemma quiet_variables p p' : quiet p p' -> ps_variables p' = ps_variables p.
Proof. by intros (w & e & ->). Qed.

(** Code that is quiet when it succeeds *)
Definition calm {A} (m : Q A) : Prop := forall p a p', m p = (Ok a, p') -> quiet p p'.

Lemma calm_ret {A} (a : A) : calm (mret a).
Proof. intros p b p' [= _ <-]. reflexivity. Qed.
Lemma calm_raise {A} e : calm (raise e : Q A).
Proof. by intros p a p' [=]. Qed.
Lemma calm_gets {A} (f : PState -> A) : calm (gets f).
Proof. intros p a p' [= _ <-]. reflexivity. Qed.
Lemma calm_bind {A B} (m : Q A) (k : A -> Q B) : calm m -> (forall a, calm (k a)) -> calm (m ≫= k).
Proof.
  intros Hm Hk p b p'. cbv [mbind Q_bind M_bind]. destruct (m p) as [[a|e] p1] eqn:E; [|done].
  intros H. transitivity p1; [by eapply Hm|by eapply Hk].
Qed.
Lemma calm_when b (m : Q unit) : calm m -> calm (when b m).
Proof. intros H. destruct b; [done|apply calm_ret]. Qed.
Lemma calm_error {A} msg : calm (parse_error msg : Q A).
Proof. apply calm_bind; [apply calm_gets|]. intros p. apply calm_raise. Qed.
Lemma calm_warn msg loc : calm (q_warn msg loc).
Proof.
  intros p a p' [= _ <-]. destruct (ps_warn p); [|reflexivity].
  eexists (ps_warnings p ++ [_]), (ps_env_vars p). by destruct p.
Qed.
Lemma calm_warn_here msg : calm (q_warn_here msg).
Proof. apply calm_bind; [apply calm_gets|]. intros loc. apply calm_warn. Qed.

Create HintDb calm.
#[export] Hint Resolve calm_ret calm_raise calm_gets calm_bind calm_when calm_error calm_warn calm_warn_here : calm.

Ltac calm_step :=
  match goal with
  | |- calm (mbind _ _) => apply calm_bind; [|intros ?]
  | |- calm (match ?x with _ => _ end) => destruct x
  | |- calm (let _ := _ in _) => cbv zeta
  | |- _ => solve [eauto with calm]
  end.

Section Expansion.
Context (getenv : string -> option string) (shell : string -> string * string).

Lemma calm_fn_val_builtin fn args : calm (fn_val_builtin getenv shell fn args).
Proof.
  unfold fn_val_builtin, call_builtin, shell_fn. repeat calm_step.
  all: try (intros q b q' [= _ <-]; exists (ps_warnings q); eexists; by destruct q).
Qed.

Lemma get_variable_bind {A} fn (k : option Variable_ -> Q A) p :
  (v ← get_variable fn; k v) p = k (ps_variables p !! fn) p.
Proof. done. Qed.

(** The counter of a variable goes up and comes down again *)
Lemma calm_counted fn var (m : Q string) :
  calm m -> forall p v p', ps_variables p !! fn = Some var ->
  (put_variable fn (mkVariable (var_value var) (var_is_recursive var) (var_n_expansions var + 1));;
   res ← m;
   v ← get_variable fn;
   match v with
   | Some var => put_variable fn (mkVariable (var_value var) (var_is_recursive var) (var_n_expansions var - 1))
   | None => mret tt
   end;;
   mret res) p = (Ok v, p') -> quiet p p'.
Proof.
  intros Hm p v p' Hv. cbv [mbind Q_bind M_bind put_variable get_variable modify gets].
  set (p1 := with_ps_variables p _). destruct (m p1) as [[res|e] p2] eqn:E; [|done].
  apply Hm in E as (w & es & ->). simpl. rewrite lookup_insert_eq. cbv [mret Q_ret M_ret]. intros [= _ <-]. simpl.
  rewrite insert_insert_eq, Z.add_simpl_r. replace (mkVariable _ _ _) with var by by destruct var.
  rewrite insert_id by done. exists w, es. by destruct p.
Qed.

Lemma calm_expand fuel :
  (forall args new_args cur nesting s, calm (expand_macro getenv shell fuel args new_args cur nesting s))
  /\ (forall args, calm (fn_val getenv shell fuel args))
  /\ (forall args out s, calm (expand_whole getenv shell fuel args out s)).
Proof.
  induction fuel as [|fuel (IHm & IHf & IHw)]; (split; [|split]); intros; simpl; try apply calm_raise.
  - repeat first [calm_step | apply IHm | apply IHf].
  - intros p v p'. rewrite get_variable_bind. destruct (ps_variables p !! hd "" args) as [var|] eqn:Hv; [|apply calm_fn_val_builtin].
    destruct (_ && _); [apply calm_error|]. destruct (_ && _); [apply calm_error|].
    apply calm_counted; [|done]. destruct (var_value var); [apply IHw|apply calm_raise].
  - repeat first [calm_step | apply IHm | apply IHw].
Qed.

(** C30. When macros are expanded successfully, every variable is as before, its
    expansion counter included, and so is everything else but the warnings and the
    recorded environment variables; so a later use of a variable is not taken
    for a recursive one. *)
Theorem expansion_preserves_variables (fuel : nat) (args : list string) (out s v : string) (p p' : PState) :
  expand_whole getenv shell fuel args out s p = (Ok v, p') ->
  ps_variables p' = ps_variables p /\ ps_cfg p' = ps_cfg p
  /\ exists warnings env_vars, p' = with_ps_env_vars (with_ps_warnings p warnings) env_vars.
Proof.
  intros H. apply (proj2 (proj2 (calm_expand fuel))) in H. destruct H as (w & e & ->). split; [done|]. split; [done|]. by exists w, e.
Qed.
End Expansion.

Definition example_vars : gmap string Variable_ :=
  <["X" := mkVariable (Some "$(Y)a$(error-if,n,no)") true 0]> {["Y" := mkVariable (Some "1") false 0]}.
Definition example_state (cfg : Config) : PState :=
  mkPState cfg ∅ example_vars ∅ [] [] (Some "Kconfig") 1 [] [] "" "" [] 0%nat false true true [] ["Kconfig"] [].
Definition example_run (cfg : Config) : res string * PState :=
  expand_whole (fun _ => None) (fun _ => ("", "")) 30 [] "" "$(X)-$(X)" (example_state cfg).

Lemma expansion_preserves_variables_witness (cfg := mkConfig [] [] [] 0%nat 0%nat 0%nat 0%nat None 0%nat [] [] [] [] ∅ "" "" "") :
  (example_run cfg).1 = Ok "1a-1a" /\ ps_variables (example_run cfg).2 = example_vars.
Proof.
  assert (H : (example_run cfg).1 = Ok "1a-1a") by (vm_compute; reflexivity). split; [exact H|].
  refine (proj1 (expansion_preserves_variables (fun _ => None) (fun _ => ("", "")) 30 [] "" "$(X)-$(X)" "1a-1a"
    (example_state cfg) (example_run cfg).2 _)).
  vm_compute. reflexivity.
Defined.
