(* ===== verification/ParseInv.v ===== *)
(** * What parsing kept true

    While the files are read, symbols, choices and menu nodes are only added or
    changed in harmless ways: the constants [n], [m] and [y] stay what they are,
    the items of menu nodes are symbols that are not constant, or choices, and are
    among those that have been recorded as defined, and defaults and selects are
    with the menu nodes and not yet with symbols and choices. *)
From S2P Require Import Prelude PyStr PyText Model Finalize Tables Preprocess Tokenize ConfigFile Parse PreprocessProps.

(** ** The invariant *)

Record built (c : Config) (syms : list symid) (choices : list choiceid) : Prop := {
  bt_tri : c_n c = 0%nat /\ c_m c = 1%nat /\ c_y c = 2%nat;
  bt_const : forall s, (s < 3)%nat -> sym_is_constant (sym c s) = true /\ sym_orig_type (sym c s) = TRISTATE;
  bt_node : forall n s, nd_item (node c n) = NSym s -> sym_is_constant (sym c s) = false /\ In s syms;
  bt_node_choice : forall n x, nd_item (node c n) = NChoice x -> In x choices;
  bt_sym : forall s, sym_defaults (sym c s) = [] /\ sym_rev_dep (sym c s) = ESym 0%nat;
  bt_choice : forall x, ch_defaults (chc c x) = [] /\ ch_syms (chc c x) = [];
}.

Section Built.
Context (syms : list symid) (choices : list choiceid).

Lemma built_upd_sym f s c :
  (forall x, sym_is_constant (f x) = sym_is_constant x /\ sym_defaults (f x) = sym_defaults x /\ sym_rev_dep (f x) = sym_rev_dep x) ->
  (forall x, sym_orig_type (f x) = sym_orig_type x) \/ sym_is_constant (sym c s) = false ->
  built c syms choices -> built (upd_sym f s c) syms choices.
Proof.
  intros Hf Ht [H1 H2 H3 H4 H5 H6].
  assert (Hc : forall t, sym_is_constant (sym (upd_sym f s c) t) = sym_is_constant (sym c t)
                      /\ sym_defaults (sym (upd_sym f s c) t) = sym_defaults (sym c t)
                      /\ sym_rev_dep (sym (upd_sym f s c) t) = sym_rev_dep (sym c t)).
  { intros t. rewrite sym_upd. by case_decide. }
  split; [done| | |done| |done].
  - intros t Hlt. destruct (Hc t) as (-> & _ & _). destruct (H2 t Hlt) as [Hk Ho]. split; [done|]. rewrite sym_upd.
    case_decide as E; [|done]. destruct E as [-> _]. destruct Ht as [Ht|Ht]; [by rewrite Ht|by rewrite Hk in Ht].
  - intros n t Hn. destruct (Hc t) as (-> & _ & _). by apply (H3 n).
  - intros t. destruct (Hc t) as (_ & -> & ->). apply H5.
Qed.

Lemma built_add_sym x c : sym_defaults x = [] -> sym_rev_dep x = ESym 0%nat ->
  built c syms choices -> built (with_syms (c_syms c ++ [x]) c) syms choices.
Proof.
  intros Hd Hr [H1 H2 H3 H4 H5 H6].
  pose proof (sym_add c x) as Hs. pose proof (sym_new c) as Hn.
  split; [done| | |done| |done].
  - intros t Hlt. rewrite Hs. case_decide as E; [|by apply H2]. subst t.
    destruct (H2 _ Hlt) as [_ Ho]. by rewrite Hn in Ho.
  - intros n t Ht. destruct (H3 n t Ht) as [Hk Hi]. rewrite Hs. case_decide as E; [|done].
    subst t. by rewrite Hn in Hk.
  - intros t. rewrite Hs. case_decide; [done|apply H5].
Qed.

Lemma built_upd_node f n c : (forall x, nd_item (f x) = nd_item x) ->
  built c syms choices -> built (upd_node f n c) syms choices.
Proof.
  intros Hf [H1 H2 H3 H4 H5 H6].
  assert (Hn : forall m, nd_item (node (upd_node f n c) m) = nd_item (node c m)).
  { intros m. rewrite node_upd. by case_decide. }
  split; try done; intros m z; rewrite Hn; [apply H3|apply H4].
Qed.

Lemma built_add_node x c :
  (forall s, nd_item x = NSym s -> sym_is_constant (sym c s) = false /\ In s syms) ->
  (forall y, nd_item x = NChoice y -> In y choices) ->
  built c syms choices -> built (with_nodes (c_nodes c ++ [x]) c) syms choices.
Proof.
  intros Hs Hc [H1 H2 H3 H4 H5 H6].
  pose proof (node_add c x) as Hn.
  split; try done; intros m z; rewrite Hn; case_decide; [apply Hs|apply H3|apply Hc|apply H4].
Qed.

Lemma built_upd_choice f x c : (forall y, ch_defaults (f y) = ch_defaults y /\ ch_syms (f y) = ch_syms y) ->
  built c syms choices -> built (upd_choice f x c) syms choices.
Proof.
  intros Hf [H1 H2 H3 H4 H5 H6]. split; try done. intros y. rewrite chc_upd. case_decide; [|apply H6].
  destruct (Hf (chc c y)) as [-> ->]. apply H6.
Qed.

Lemma built_add_choice y c : ch_defaults y = [] -> ch_syms y = [] ->
  built c syms choices -> built (with_choices (c_choices c ++ [y]) c) syms choices.
Proof.
  intros Hd Hs [H1 H2 H3 H4 H5 H6]. split; try done. intros z.
  rewrite chc_add. case_decide; [done|apply H6].
Qed.
End Built.

Lemma built_more c syms choices syms' choices' :
  built c syms choices -> incl syms syms' -> incl choices choices' -> built c syms' choices'.
Proof.
  intros [H1 H2 H3 H4 H5 H6] Hs Hc. split; try done.
  - intros n s Hn. destruct (H3 n s Hn) as [Hk Hi]. split; [done|]. by apply Hs.
  - intros n x Hn. apply Hc. by apply (H4 n).
Qed.

(** ** Programs that keep it *)

Definition Parsing (p : PState) : Prop := built (ps_cfg p) (ps_defined_syms p) (ps_choices p).

(** When [m] succeeds it leads from [pre] to [post] *)
Definition leads {A} (pre : PState -> Prop) (m : Q A) (post : A -> PState -> Prop) : Prop :=
  forall p a p', pre p -> m p = (Ok a, p') -> post a p'.
Definition kept {A} (m : Q A) : Prop := leads Parsing m (fun _ => Parsing).
(** [m] changes nothing when it succeeds *)
Definition idle {A} (m : Q A) : Prop := forall p a p', m p = (Ok a, p') -> p' = p.

Lemma leads_bind {A B} (m : Q A) (k : A -> Q B) pre mid post :
  leads pre m mid -> (forall a, leads (mid a) (k a) post) -> leads pre (m ≫= k) post.
Proof.
  intros Hm Hk p b p' Hp. cbv [mbind Q_bind M_bind]. destruct (m p) as [[a|e] p1] eqn:E; [|done].
  apply (Hk a). by eapply Hm.
Qed.
Lemma leads_idle {A B} (m : Q A) (k : A -> Q B) pre post :
  idle m -> (forall a, leads pre (k a) post) -> leads pre (m ≫= k) post.
Proof. intros Hm Hk. apply (leads_bind _ _ _ (fun _ => pre)); [|done]. intros p a p' Hp E. by rewrite (Hm _ _ _ E). Qed.
Lemma leads_post {A} (m : Q A) pre (post post' : A -> PState -> Prop) :
  leads pre m post -> (forall a p, post a p -> post' a p) -> leads pre m post'.
Proof. intros Hm H p a p' Hp E. by eapply H, Hm. Qed.
Lemma leads_modify f (pre : PState -> Prop) (post : unit -> PState -> Prop) :
  (forall p, pre p -> post tt (f p)) -> leads pre (modify f) post.
Proof. intros H p a p' Hp [= <- <-]. by apply H. Qed.
Lemma leads_gets {A} (f : PState -> A) (pre : PState -> Prop) (post : A -> PState -> Prop) :
  (forall p, pre p -> post (f p) p) -> leads pre (gets f) post.
Proof. intros H p a p' Hp [= <- <-]. by apply H. Qed.
Lemma leads_pure {A} (P : Prop) pre (m : Q A) post :
  (P -> leads pre m post) -> leads (fun p => pre p /\ P) m post.
Proof. intros H p a p' [Hp HP]. by apply H. Qed.

Lemma idle_ret {A} (a : A) : idle (mret a).
Proof. by intros p b p' [= _ <-]. Qed.
Lemma idle_gets {A} (f : PState -> A) : idle (gets f).
Proof. by intros p b p' [= _ <-]. Qed.
Lemma idle_raise {A} e : idle (raise e : Q A).
Proof. by intros p a p' [=]. Qed.
Lemma idle_error {A} msg : idle (parse_error msg : Q A).
Proof. by intros p a p' [=]. Qed.
Lemma idle_bind {A B} (m : Q A) (k : A -> Q B) : idle m -> (forall a, idle (k a)) -> idle (m ≫= k).
Proof.
  intros Hm Hk p b p'. cbv [mbind Q_bind M_bind]. destruct (m p) as [[a|e] p1] eqn:E; [|done].
  intros H. apply Hk in H. apply Hm in E. congruence.
Qed.
Lemma idle_when b (m : Q unit) : idle m -> idle (when b m).
Proof. intros H. destruct b; [done|apply idle_ret]. Qed.

Lemma kept_idle {A} (m : Q A) : idle m -> kept m.
Proof. intros Hm p a p' Hp E. by rewrite (Hm _ _ _ E). Qed.
Lemma kept_calm {A} (m : Q A) : calm m -> kept m.
Proof. intros Hm p a p' Hp E. destruct (Hm _ _ _ E) as (w & v & ->). exact Hp. Qed.
Lemma kept_bind {A B} (m : Q A) (k : A -> Q B) : kept m -> (forall a, kept (k a)) -> kept (m ≫= k).
Proof. intros Hm Hk. by apply (leads_bind _ _ _ (fun _ => Parsing)). Qed.
Lemma kept_fmap {A B} (f : A -> B) (m : Q A) : kept m -> kept (f <$> m).
Proof. intros Hm. apply kept_bind; [done|]. intros a. apply kept_idle, idle_ret. Qed.
Lemma kept_when b (m : Q unit) : kept m -> kept (when b m).
Proof. intros H. destruct b; [done|apply kept_idle, idle_ret]. Qed.
Lemma kept_modify f : (forall p, Parsing p -> Parsing (f p)) -> kept (modify f).
Proof. intros H. by apply leads_modify. Qed.
Lemma kept_on_cfg f : (forall c syms choices, built c syms choices -> built (f c) syms choices) -> kept (on_cfg f).
Proof. intros H. apply kept_modify. intros p. apply H. Qed.
Lemma kept_foldM {A B} (f : B -> A -> Q B) l : (forall b a, kept (f b a)) -> forall b, kept (foldM f b l).
Proof.
  intros Hf. induction l as [|a l IH]; intros b; [apply kept_idle, idle_ret|]. cbn [foldM].
  apply kept_bind; [apply Hf|]. intros b'. apply IH.
Qed.
Lemma kept_q_nput f n : (forall x, nd_item (f x) = nd_item x) -> kept (q_nput f n).
Proof. intros H. apply kept_on_cfg. intros c syms choices. by apply built_upd_node. Qed.
Lemma kept_warn msg loc : kept (q_warn msg loc).
Proof. apply kept_calm, calm_warn. Qed.
Lemma kept_warn_here msg : kept (q_warn_here msg).
Proof. apply kept_calm, calm_warn_here. Qed.

Create HintDb parsing.
#[export] Hint Resolve idle_ret idle_gets idle_raise idle_error idle_when : parsing.
#[export] Hint Resolve kept_idle kept_bind kept_fmap kept_when kept_warn kept_warn_here kept_q_nput : parsing.
#[export] Hint Extern 2 (kept (modify _)) => (apply kept_modify; intros ? H; exact H) : parsing.
#[export] Hint Extern 2 (kept (cfg_of _)) => (apply kept_idle, idle_gets) : parsing.
#[export] Hint Extern 2 (kept (q_nget _ _)) => (apply kept_idle, idle_gets) : parsing.
#[export] Hint Extern 2 (kept (trailing_tokens_error)) => (apply kept_idle, idle_error) : parsing.

Ltac keep_step :=
  match goal with
  | |- kept (mbind _ _) => apply kept_bind; [|intros ?]
  | |- kept (when _ _) => apply kept_when
  | |- kept (match ?x with _ => _ end) => destruct x
  | |- kept (let _ := _ in _) => cbv zeta
  | |- _ => solve [eauto with parsing]
  end.
Ltac keep := repeat keep_step.
Ltac as_keeps := match goal with |- leads _ ?m _ => change (kept m) end.

(** *** Macros and tokens *)

Section Lines.
Context (getenv : string -> option string) (uname_release : string) (shell : string -> string * string).
Context (files : gmap string string) (glob : string -> list string) (srctree srctree_prefix : string) (fuel : nat).

Lemma kept_expand f :
  (forall args new_args cur nesting s, kept (expand_macro getenv shell f args new_args cur nesting s))
  /\ (forall args out s, kept (expand_whole getenv shell f args out s)).
Proof. destruct (calm_expand getenv shell f) as (Hm & _ & Hw). split; intros; by apply kept_calm. Qed.

Lemma kept_expand_str q : forall f out s, kept (expand_str getenv shell f q out s).
Proof. induction f as [|f IH]; intros out s; cbn [expand_str]; repeat first [apply IH | apply kept_expand | keep_step]. Qed.
Lemma kept_name_iter : forall f name s, kept (expand_name_iter getenv shell f name s).
Proof. induction f as [|f IH]; intros name s; cbn [expand_name_iter]; repeat first [apply IH | apply kept_expand | keep_step]. Qed.
Lemma kept_expand_name f s : kept (expand_name getenv shell f s).
Proof. unfold expand_name. repeat first [apply kept_name_iter | keep_step]. Qed.
Lemma kept_lhs : forall f name s, kept (assignment_lhs getenv shell f name s).
Proof. induction f as [|f IH]; intros name s; cbn [assignment_lhs]; repeat first [apply IH | apply kept_expand | keep_step]. Qed.
Lemma kept_assignment f s : kept (parse_assignment getenv shell f s).
Proof. unfold parse_assignment, put_variable, get_variable. repeat first [apply kept_lhs | apply kept_expand | keep_step]. Qed.

Lemma kept_alloc name b : kept (alloc_symbol name b).
Proof.
  unfold alloc_symbol. keep. apply kept_on_cfg. intros c syms choices Hb. apply built_add_sym; [done| |done].
  simpl. by destruct (bt_tri _ _ _ Hb) as (-> & _).
Qed.
Lemma kept_lookup_sym name : kept (lookup_sym name).
Proof.
  unfold lookup_sym. repeat first [apply kept_alloc | keep_step]. apply kept_on_cfg.
  intros c syms choices [H1 H2 H3 H4 H5 H6]. by split.
Qed.
Lemma kept_lookup_const_sym name : kept (lookup_const_sym name).
Proof. unfold lookup_const_sym. repeat first [apply kept_alloc | keep_step]. Qed.
Lemma kept_name_sym name : kept (name_sym name).
Proof. unfold name_sym. repeat first [apply kept_lookup_sym | keep_step]. Qed.

Lemma kept_quoted q s : kept (quoted getenv uname_release shell fuel q s).
Proof. unfold quoted. repeat first [apply kept_expand_str | keep_step]. Qed.
Lemma kept_id_token prev name after s : kept (id_token getenv shell fuel prev name after s).
Proof. unfold id_token. repeat first [apply kept_expand_name | apply kept_name_sym | keep_step]. Qed.
Lemma kept_next_token first prev s : kept (next_token getenv uname_release shell fuel first prev s).
Proof.
  unfold next_token.
  repeat first [apply kept_fmap | apply kept_quoted | apply kept_id_token | apply kept_lookup_const_sym | keep_step].
Qed.
Lemma kept_tokens_loop first : forall n prev s acc, kept (tokens_loop getenv uname_release shell fuel n first prev s acc).
Proof. induction n as [|n IH]; intros prev s acc; cbn [tokens_loop]; repeat first [apply IH | apply kept_next_token | keep_step]. Qed.
Lemma kept_tokenize s : kept (tokenize getenv uname_release shell fuel s).
Proof. unfold tokenize. repeat first [apply kept_tokens_loop | apply kept_assignment | keep_step]. Qed.

(** *** Lines and properties *)

Lemma kept_token_at i : kept (token_at i).
Proof. unfold token_at. keep. Qed.
Lemma idle_token_at i : idle (token_at i).
Proof. unfold token_at. apply idle_bind; [apply idle_gets|]. intros []; [apply idle_ret|apply idle_raise]. Qed.
Lemma kept_set_tokens_i i : kept (set_tokens_i i).
Proof. unfold set_tokens_i. keep. Qed.
Lemma kept_take : kept take_token.
Proof. unfold take_token. repeat first [apply kept_token_at | apply kept_set_tokens_i | keep_step]. Qed.
Lemma kept_peek : kept peek_token.
Proof. unfold peek_token. repeat first [apply kept_token_at | keep_step]. Qed.
#[local] Hint Resolve kept_token_at kept_set_tokens_i kept_take kept_peek : parsing.

Lemma kept_expect_eol : kept expect_eol.
Proof. unfold expect_eol. keep. Qed.
Lemma kept_check k : kept (check_token k).
Proof. unfold check_token. keep. Qed.
Lemma kept_expect_sym : kept expect_sym.
Proof. unfold expect_sym. keep. Qed.
Lemma kept_expect_nonconst : kept expect_nonconst_sym.
Proof. unfold expect_nonconst_sym. keep. Qed.
#[local] Hint Resolve kept_expect_eol kept_check kept_expect_sym kept_expect_nonconst : parsing.
Lemma kept_expect_str : kept expect_str_and_eol.
Proof. unfold expect_str_and_eol. keep. Qed.

Lemma kept_exprs b : forall d, kept (parse_expr d b) /\ kept (parse_and_expr d b) /\ kept (parse_factor d b).
Proof.
  induction d as [|d (IHe & IHa & IHf)]; [split_and!; apply kept_idle, idle_raise|].
  split_and!; cbn [parse_expr parse_and_expr parse_factor]; repeat first [apply IHe | apply IHa | apply IHf | keep_step].
Qed.
Lemma kept_parse_expr d b : kept (parse_expr d b).
Proof. apply kept_exprs. Qed.
#[local] Hint Resolve kept_expect_str kept_parse_expr : parsing.
Lemma kept_expect_expr d : kept (expect_expr_and_eol d).
Proof. unfold expect_expr_and_eol. keep. Qed.
Lemma kept_cond d : kept (parse_cond d).
Proof. unfold parse_cond. keep. Qed.
#[local] Hint Resolve kept_expect_expr kept_cond kept_tokenize : parsing.

Lemma kept_readline : kept readline.
Proof. unfold readline. keep. Qed.
Lemma kept_add_linenr n : kept (add_linenr n).
Proof. unfold add_linenr. keep. Qed.
#[local] Hint Resolve kept_readline kept_add_linenr : parsing.
Lemma kept_join : forall n line, kept (join_lines n line).
Proof. induction n as [|n IH]; intros line; cbn [join_lines]; repeat first [apply IH | keep_step]. Qed.
#[local] Hint Resolve kept_join : parsing.
Lemma kept_next_line : kept (next_line getenv uname_release shell fuel).
Proof. unfold next_line. keep. Qed.
Lemma kept_after_help line : kept (line_after_help getenv uname_release shell fuel line).
Proof. unfold line_after_help. keep. Qed.
Lemma kept_first_help : forall k, kept (first_help_line k).
Proof. induction k as [|k IH]; cbn [first_help_line]; repeat first [apply IH | keep_step]. Qed.
Lemma kept_more_help : forall k i l, kept (more_help_lines k i l).
Proof. induction k as [|k IH]; intros i l; cbn [more_help_lines]; repeat first [apply IH | keep_step]. Qed.
#[local] Hint Resolve kept_next_line kept_after_help kept_first_help kept_more_help : parsing.

Lemma kept_name_and_loc n : kept (item_name_and_loc n).
Proof. unfold item_name_and_loc. keep. Qed.
Lemma kept_item_type n : kept (item_orig_type n).
Proof. unfold item_orig_type. keep. Qed.
Lemma kept_item_name i : kept (item_name i).
Proof. unfold item_name. keep. Qed.
#[local] Hint Resolve kept_name_and_loc kept_item_type kept_item_name : parsing.

(** The types of the constants never change: they are the items of no node *)
Lemma kept_set_type n t : kept (set_type n t).
Proof.
  unfold set_type. keep. apply kept_on_cfg. intros c syms choices Hb.
  destruct (nd_item (node c n)) as [s|x| | |] eqn:E; try done.
  - apply built_upd_sym; [done| |done]. right. by apply (bt_node _ _ _ Hb n).
  - by apply built_upd_choice.
Qed.
Lemma kept_options e a s : kept (on_cfg (fun c => upd_sym (set_sym_options (e c) (a c)) s c)).
Proof. apply kept_on_cfg. intros c syms choices Hb. apply built_upd_sym; [done|by left|done]. Qed.
Lemma kept_globals m k d : kept (on_cfg (fun c => with_globals (m c) (k c) (d c) c)).
Proof. apply kept_on_cfg. intros c syms choices [H1 H2 H3 H4 H5 H6]. by split. Qed.
#[local] Hint Resolve kept_set_type kept_lookup_const_sym : parsing.

Lemma kept_prompt n : kept (parse_prompt fuel n).
Proof. unfold parse_prompt. keep. Qed.
Lemma kept_help n : kept (parse_help getenv uname_release shell fuel n).
Proof. unfold parse_help, empty_help. keep. Qed.
Lemma kept_option n : kept (parse_option getenv n).
Proof.
  unfold parse_option. repeat first [keep_step
    | apply (kept_options (fun _ => Some _) (fun c => sym_is_allnoconfig_y (sym c _)))
    | apply (kept_options (fun c => sym_env_var (sym c _)) (fun _ => true))
    | apply (kept_globals c_menus c_comments (fun _ => Some _))].
Qed.
#[local] Hint Resolve kept_prompt kept_help kept_option : parsing.

Lemma kept_prop n t0 : kept (parse_prop getenv uname_release shell fuel n t0).
Proof.
  unfold parse_prop. keep.
  apply kept_on_cfg. intros x syms choices. by apply built_upd_choice.
Qed.
#[local] Hint Resolve kept_prop : parsing.
Lemma kept_props_loop : forall k n, kept (props_loop getenv uname_release shell fuel k n).
Proof. induction k as [|k IH]; intros n; cbn [props_loop]; repeat first [apply IH | keep_step]. Qed.
Lemma kept_props n : kept (parse_props getenv uname_release shell fuel n).
Proof. unfold parse_props. repeat first [apply kept_props_loop | keep_step]. Qed.

(** *** Blocks *)

(** What a node may be made for *)
Definition item_ok (it : node_item) (p : PState) : Prop :=
  match it with
  | NSym s => sym_is_constant (sym (ps_cfg p) s) = false /\ In s (ps_defined_syms p)
  | NChoice x => In x (ps_choices p)
  | _ => True
  end.

Lemma leads_new_node it parent mc prompt :
  leads (fun p => Parsing p /\ item_ok it p) (new_node it parent mc prompt) (fun _ => Parsing).
Proof.
  unfold new_node. apply leads_idle; [apply idle_gets|]. intros p0.
  apply (leads_bind _ _ _ (fun _ => Parsing)); [|intros _; apply kept_idle, idle_ret].
  apply leads_modify. intros p [Hp Hi]. apply built_add_node; [| |done]; simpl; intros z ->; exact Hi.
Qed.
Lemma kept_new_node it parent mc prompt : (forall p, item_ok it p) -> kept (new_node it parent mc prompt).
Proof. intros H p n p' Hp. apply leads_new_node. by split. Qed.

Lemma kept_link prev n : kept (link prev n).
Proof. unfold link. keep. Qed.
Lemma kept_tilt n : kept (tilt n).
Proof. unfold tilt. keep. Qed.
Lemma kept_leave_file : kept leave_file.
Proof. unfold leave_file. keep. Qed.
Lemma kept_enter_file f : kept (enter_file files srctree_prefix f).
Proof. unfold enter_file. keep. Qed.
Lemma kept_source_files t : kept (source_files glob srctree srctree_prefix t).
Proof. unfold source_files. keep. Qed.
Lemma kept_get_choice : kept get_choice.
Proof.
  unfold get_choice. keep.
  all: apply kept_on_cfg; intros x syms choices; by apply built_add_choice.
Qed.
#[local] Hint Resolve kept_props kept_link kept_tilt kept_leave_file kept_enter_file kept_source_files kept_get_choice : parsing.

(** A symbol or a choice is recorded before it gets a node *)
Lemma leads_record_sym s :
  leads (fun p => Parsing p /\ sym_is_constant (sym (ps_cfg p) s) = false)
    (modify (fun p => with_ps_items p (ps_named_choices p) (ps_defined_syms p ++ [s]) (ps_choices p)))
    (fun _ p => Parsing p /\ item_ok (NSym s) p).
Proof.
  apply leads_modify. intros p [Hp Hk]. split.
  - eapply built_more; [exact Hp|apply incl_appl, incl_refl|apply incl_refl].
  - split; [done|]. apply in_or_app. right. by left.
Qed.
Lemma leads_record_choice x :
  leads Parsing (modify (fun p => with_ps_items p (ps_named_choices p) (ps_defined_syms p) (ps_choices p ++ [x])))
    (fun _ p => Parsing p /\ item_ok (NChoice x) p).
Proof.
  apply leads_modify. intros p Hp. split.
  - eapply built_more; [exact Hp|apply incl_refl|apply incl_appl, incl_refl].
  - apply in_or_app. right. by left.
Qed.

Lemma kept_config t0 parent prev : kept (parse_config getenv uname_release shell fuel t0 parent prev).
Proof.
  unfold parse_config. apply leads_idle; [apply idle_token_at|]. intros [[key|s|x]|]; try solve [as_keeps; keep].
  apply (leads_bind _ _ _ (fun b p => Parsing p /\ sym_is_constant (sym (ps_cfg p) s) = b)); [by apply leads_gets|].
  intros []; [by intros p a p' _ E|].
  apply leads_idle; [apply idle_token_at|]. intros t2.
  apply leads_idle; [apply idle_when, idle_error|]. intros [].
  eapply leads_bind; [apply leads_record_sym|]. intros []. cbv zeta.
  eapply leads_bind; [apply leads_new_node|]. intros n. as_keeps. keep.
  apply kept_on_cfg. intros c syms choices. apply built_upd_sym; [done|by left].
Qed.
#[local] Hint Resolve kept_config : parsing.

Lemma kept_choice_node {A} x parent (k : nodeid -> Q A) : (forall n, kept (k n)) ->
  kept (modify (fun p => with_ps_items p (ps_named_choices p) (ps_defined_syms p) (ps_choices p ++ [x]));;
         n ← new_node (NChoice x) parent true None; k n).
Proof.
  intros Hk. eapply leads_bind; [apply leads_record_choice|]. intros []. eapply leads_bind; [apply leads_new_node|].
  intros n. as_keeps. apply Hk.
Qed.

Lemma kept_block : forall k e parent prev,
  kept (parse_block getenv uname_release shell files glob srctree srctree_prefix fuel k e parent prev).
Proof.
  induction k as [|k IH]; intros e parent prev; cbn [parse_block]; [apply kept_idle, idle_raise|].
  repeat lazymatch goal with
  | |- kept (mbind _ (modify _)) => apply kept_choice_node; intros ?
  | |- kept (mbind _ _) => apply kept_bind; [|intros ?]
  | |- kept (parse_block _ _ _ _ _ _ _ _ _ _ _ _) => apply IH
  | |- kept (new_node _ _ _ _) => apply kept_new_node; done
  | |- kept (foldM _ _ _) => apply kept_foldM; intros ? ?
  | |- kept (on_cfg _) => apply kept_on_cfg; intros c syms choices
  | |- kept _ => keep_step
  end.
  all: first [by apply built_upd_choice | by apply built_upd_node | intros [H1 H2 H3 H4 H5 H6]; by split].
Qed.
End Lines.
