(* ===== verification/ExprParse.v ===== *)
(** * Printed expressions are parsed back

    The tokens of a printed expression ([toks]), and the proof that the three
    mutually recursive functions of the expression parser rebuild the expression
    from them.  The parser associates operators to the right, so what comes back
    is the expression in that form ([rassoc]). *)
From S2P Require Import Prelude PyStr PyText Model Eval SetValue Finalize Preprocess Tokenize Parse.

(** ** Right association *)

Fixpoint and_app (e r : expr) : expr := match e with EAnd a b => EAnd a (and_app b r) | _ => EAnd e r end.
Fixpoint or_app (e r : expr) : expr := match e with EOr a b => EOr a (or_app b r) | _ => EOr e r end.

Fixpoint rassoc (e : expr) : expr :=
  match e with
  | EAnd a b => and_app (rassoc a) (rassoc b)
  | EOr a b => or_app (rassoc a) (rassoc b)
  | ENot e => ENot (rassoc e)
  | _ => e
  end.

Lemma and_app_assoc a b r : and_app (and_app a b) r = and_app a (and_app b r).
Proof. induction a; simpl; congruence. Qed.
Lemma or_app_assoc a b r : or_app (or_app a b) r = or_app a (or_app b r).
Proof. induction a; simpl; congruence. Qed.

Lemma rassoc_is_and e : is_and (rassoc e) = is_and e.
Proof. destruct e as [|a b|a b| |]; simpl; try done; [by destruct (rassoc a)|by destruct (rassoc a)]. Qed.
Lemma rassoc_is_or e : is_or (rassoc e) = is_or e.
Proof. destruct e as [|a b|a b| |]; simpl; try done; [by destruct (rassoc a)|by destruct (rassoc a)]. Qed.

Lemma and_app_other e r : is_and e = false -> and_app (rassoc e) r = EAnd (rassoc e) r.
Proof. rewrite <- rassoc_is_and. by destruct (rassoc e). Qed.
Lemma or_app_other e r : is_or e = false -> or_app (rassoc e) r = EOr (rassoc e) r.
Proof. rewrite <- rassoc_is_or. by destruct (rassoc e). Qed.

(** ** Tokens *)

Definition rel_key (r : relop) : keyword :=
  match r with
  | EQUAL => T_EQUAL | UNEQUAL => T_UNEQUAL | LESS => T_LESS | LESS_EQUAL => T_LESS_EQUAL
  | GREATER => T_GREATER | GREATER_EQUAL => T_GREATER_EQUAL
  end.

Definition ptoks (b : bool) (l : list token) : list token :=
  if b then TKey T_OPEN_PAREN :: l ++ [TKey T_CLOSE_PAREN] else l.

Definition is_item (e : expr) : bool := match e with EItem _ => true | _ => false end.

Fixpoint toks (e : expr) : list token :=
  match e with
  | EItem (ISym s) => [TSym s]
  | EItem (IChoice _) => []
  | EAnd a b => ptoks (is_or a) (toks a) ++ TKey T_AND :: ptoks (is_or b) (toks b)
  | EOr a b => ptoks (is_and a) (toks a) ++ TKey T_OR :: ptoks (is_and b) (toks b)
  | ENot e => TKey T_NOT :: ptoks (negb (is_item e)) (toks e)
  | ERel r s1 s2 => [TSym s1; TKey (rel_key r); TSym s2]
  end.

(** Expressions that the syntax can write: no choices *)
Fixpoint writable (e : expr) : bool :=
  match e with
  | EItem (ISym _) | ERel _ _ _ => true
  | EItem (IChoice _) => false
  | EAnd a b | EOr a b => writable a && writable b
  | ENot e => writable e
  end.

Fixpoint esize (e : expr) : nat :=
  match e with
  | EItem _ | ERel _ _ _ => 1
  | EAnd a b | EOr a b => S (esize a + esize b)
  | ENot e => S (esize e)
  end.

(** Does the symbol stand alone somewhere, as an operand that is not part of a relation? *)
Fixpoint bare (s : symid) (e : expr) : bool :=
  match e with
  | EItem i => bool_decide (i = ISym s)
  | EAnd a b | EOr a b => bare s a || bare s b
  | ENot e => bare s e
  | ERel _ _ _ => false
  end.

Lemma relation_of_key r : relation_of (Some (TKey (rel_key r))) = Some r.
Proof. by destruct r. Qed.

Section ExprParse.
Context (p : PState) (transform_m : bool).

(** The state while the tokens are read: only the position changes *)
Definition at_token (i : nat) : PState := with_ps_tokens p (ps_tokens p) i (ps_reuse_tokens p).

(** The tokens from one position to another *)
Definition tokens_at (i : nat) (l : list token) (j : nat) : Prop :=
  j = (i + length l)%nat /\ forall k t, l !! k = Some t -> nth_error (ps_tokens p) (i + k) = Some (Some t).

Definition next_is (i : nat) (t : option token) : Prop := nth_error (ps_tokens p) i = Some t.

Lemma tokens_at_app i l1 l2 j :
  tokens_at i (l1 ++ l2) j -> exists k, tokens_at i l1 k /\ tokens_at k l2 j.
Proof.
  intros [-> H]. exists (i + length l1)%nat. split; split; try done.
  - intros k t Hk. apply H. by apply lookup_app_l_Some.
  - rewrite length_app. lia.
  - intros k t Hk. rewrite <- Nat.add_assoc. apply H. rewrite lookup_app_r by lia.
    by replace (length l1 + k - length l1)%nat with k by lia.
Qed.

Lemma tokens_at_cons i t l j : tokens_at i (t :: l) j -> next_is i (Some t) /\ tokens_at (S i) l j.
Proof.
  intros [-> H]. split; [specialize (H 0%nat t eq_refl); by rewrite Nat.add_0_r in H|]. split; [simpl; lia|].
  intros k t' Hk. rewrite Nat.add_succ_comm. by apply (H (S k)).
Qed.

Lemma tokens_at_nil i j : tokens_at i [] j -> j = i.
Proof. intros [-> _]. simpl. lia. Qed.

(** *** The primitives *)

Lemma peek_at i t : next_is i t -> peek_token (at_token i) = (Ok t, at_token i).
Proof.
  intros H. unfold peek_token, token_at. cbv [gets mbind Q_bind M_bind]. simpl. by rewrite H.
Qed.

Lemma take_at i t : next_is i t -> take_token (at_token i) = (Ok t, at_token (S i)).
Proof.
  intros H. unfold take_token, token_at, set_tokens_i. cbv [gets mbind Q_bind M_bind modify]. simpl. by rewrite H.
Qed.

Lemma check_at i t k : next_is i t ->
  check_token k (at_token i)
    = if bool_decide (t = Some (TKey k)) then (Ok true, at_token (S i)) else (Ok false, at_token i).
Proof.
  intros H. unfold check_token. refine (bind_ok _ _ _ _ _ _ (peek_at i t H) _). by case_bool_decide.
Qed.

Lemma set_at i j : set_tokens_i j (at_token i) = (Ok tt, at_token j).
Proof. done. Qed.

Lemma expect_sym_at i s : next_is i (Some (TSym s)) -> expect_sym (at_token i) = (Ok s, at_token (S i)).
Proof. intros H. unfold expect_sym. by eapply bind_ok; [exact (take_at i _ H)|]. Qed.

(** *** The grammar's rules *)

Definition parses_factor d i e j := forall depth, (d <= depth)%nat ->
  parse_factor depth transform_m (at_token i) = (Ok e, at_token j).
Definition parses_and d i e j := forall depth, (d <= depth)%nat ->
  parse_and_expr depth transform_m (at_token i) = (Ok e, at_token j).
Definition parses_expr d i e j := forall depth, (d <= depth)%nat ->
  parse_expr depth transform_m (at_token i) = (Ok e, at_token j).

Lemma factor_sym i s t :
  next_is i (Some (TSym s)) -> next_is (S i) t -> relation_of t = None ->
  transform_m && bool_decide (s = c_m (ps_cfg p)) = false -> parses_factor 1 i (ESym s) (S i).
Proof.
  intros H0 H1 Hr Hm depth Hd. destruct depth as [|depth]; [lia|]. cbn [parse_factor].
  refine (bind_ok _ _ _ _ _ _ (take_at i _ H0) _). refine (bind_ok _ _ _ _ _ _ (peek_at (S i) _ H1) _).
  rewrite Hr. refine (bind_ok _ _ _ _ _ _ eq_refl _). cbv [id]. change (ps_cfg (at_token (S i))) with (ps_cfg p).
  by rewrite Hm.
Qed.

Lemma factor_rel i r s1 s2 :
  next_is i (Some (TSym s1)) -> next_is (S i) (Some (TKey (rel_key r))) -> next_is (S (S i)) (Some (TSym s2)) ->
  parses_factor 1 i (ERel r s1 s2) (S (S (S i))).
Proof.
  intros H0 H1 H2 depth Hd. destruct depth as [|depth]; [lia|]. cbn [parse_factor].
  refine (bind_ok _ _ _ _ _ _ (take_at i _ H0) _). refine (bind_ok _ _ _ _ _ _ (peek_at (S i) _ H1) _).
  rewrite relation_of_key. eapply bind_ok; [reflexivity|]. eapply bind_ok; [exact (set_at (S i) (S (S i)))|].
  eapply bind_ok; [exact (expect_sym_at (S (S i)) s2 H2)|done].
Qed.

Lemma factor_not i d e j :
  next_is i (Some (TKey T_NOT)) -> parses_factor d (S i) e j -> parses_factor (S d) i (ENot e) j.
Proof.
  intros H0 H depth Hd. destruct depth as [|depth]; [lia|]. cbn [parse_factor].
  refine (bind_ok _ _ _ _ _ _ (take_at i _ H0) _). by refine (bind_ok _ _ _ _ _ _ (H depth _) _); [lia|].
Qed.

Lemma factor_paren i d e j :
  next_is i (Some (TKey T_OPEN_PAREN)) -> parses_expr d (S i) e j -> next_is j (Some (TKey T_CLOSE_PAREN)) ->
  parses_factor (S d) i e (S j).
Proof.
  intros H0 H H1 depth Hd. destruct depth as [|depth]; [lia|]. cbn [parse_factor].
  refine (bind_ok _ _ _ _ _ _ (take_at i _ H0) _). refine (bind_ok _ _ _ _ _ _ (H depth _) _); [lia|].
  by eapply bind_ok; [exact (check_at j _ T_CLOSE_PAREN H1)|].
Qed.

Lemma and_last i d e j t :
  parses_factor d i e j -> next_is j t -> t <> Some (TKey T_AND) -> parses_and (S d) i e j.
Proof.
  intros H H1 Ht depth Hd. destruct depth as [|depth]; [lia|]. cbn [parse_and_expr].
  refine (bind_ok _ _ _ _ _ _ (H depth _) _); [lia|].
  refine (bind_ok _ _ false _ (at_token j) _ _ _); [|done]. by rewrite (check_at j t _ H1), bool_decide_eq_false_2.
Qed.

Lemma and_more i d e j d' r k :
  parses_factor d i e j -> next_is j (Some (TKey T_AND)) -> parses_and d' (S j) r k ->
  parses_and (S (d + d')) i (EAnd e r) k.
Proof.
  intros H H1 Hr depth Hd. destruct depth as [|depth]; [lia|]. cbn [parse_and_expr].
  refine (bind_ok _ _ _ _ _ _ (H depth _) _); [lia|].
  refine (bind_ok _ _ true _ (at_token (S j)) _ _ _); [by rewrite (check_at j _ _ H1), bool_decide_eq_true_2|].
  cbv iota. by refine (bind_ok _ _ _ _ _ _ (Hr depth _) _); [lia|].
Qed.

Lemma or_last i d e j t :
  parses_and d i e j -> next_is j t -> t <> Some (TKey T_OR) -> parses_expr (S d) i e j.
Proof.
  intros H H1 Ht depth Hd. destruct depth as [|depth]; [lia|]. cbn [parse_expr].
  refine (bind_ok _ _ _ _ _ _ (H depth _) _); [lia|].
  refine (bind_ok _ _ false _ (at_token j) _ _ _); [|done]. by rewrite (check_at j t _ H1), bool_decide_eq_false_2.
Qed.

Lemma or_more i d e j d' r k :
  parses_and d i e j -> next_is j (Some (TKey T_OR)) -> parses_expr d' (S j) r k ->
  parses_expr (S (d + d')) i (EOr e r) k.
Proof.
  intros H H1 Hr depth Hd. destruct depth as [|depth]; [lia|]. cbn [parse_expr].
  refine (bind_ok _ _ _ _ _ _ (H depth _) _); [lia|].
  refine (bind_ok _ _ true _ (at_token (S j)) _ _ _); [by rewrite (check_at j _ _ H1), bool_decide_eq_true_2|].
  cbv iota. by refine (bind_ok _ _ _ _ _ _ (Hr depth _) _); [lia|].
Qed.

Lemma factor_mono d d' i e j : parses_factor d i e j -> (d <= d')%nat -> parses_factor d' i e j.
Proof. intros H Hd depth Hk. apply H. lia. Qed.
Lemma and_mono d d' i e j : parses_and d i e j -> (d <= d')%nat -> parses_and d' i e j.
Proof. intros H Hd depth Hk. apply H. lia. Qed.
Lemma expr_mono d d' i e j : parses_expr d i e j -> (d <= d')%nat -> parses_expr d' i e j.
Proof. intros H Hd depth Hk. apply H. lia. Qed.

(** *** Expressions *)

Definition plain_next (t : option token) : Prop := relation_of t = None.
Definition ends_and (t : option token) : Prop := plain_next t /\ t <> Some (TKey T_AND).
Definition ends_or (t : option token) : Prop := ends_and t /\ t <> Some (TKey T_OR).

(** What the parser makes of the tokens of an expression, on its own or before an operator *)
Record parsed_back (e : expr) : Prop := {
  back_factor : is_and e = false -> is_or e = false -> forall i j t,
    tokens_at i (toks e) j -> next_is j t -> plain_next t -> parses_factor (10 * esize e) i (rassoc e) j;
  back_and : is_or e = false -> forall i j t,
    tokens_at i (toks e) j -> next_is j t -> ends_and t -> parses_and (10 * esize e + 1) i (rassoc e) j;
  back_and_more : is_or e = false -> forall i j d r k,
    tokens_at i (toks e) j -> next_is j (Some (TKey T_AND)) -> parses_and d (S j) r k ->
    parses_and (d + 10 * esize e + 4) i (and_app (rassoc e) r) k;
  back_expr : forall i j t,
    tokens_at i (toks e) j -> next_is j t -> ends_or t -> parses_expr (10 * esize e + 2) i (rassoc e) j;
  back_or_more : is_and e = false -> forall i j d r k,
    tokens_at i (toks e) j -> next_is j (Some (TKey T_OR)) -> parses_expr d (S j) r k ->
    parses_expr (d + 10 * esize e + 4) i (or_app (rassoc e) r) k;
}.

Lemma paren_factor e i j :
  parsed_back e -> tokens_at i (ptoks true (toks e)) j -> parses_factor (10 * esize e + 3) i (rassoc e) j.
Proof.
  intros B H. apply tokens_at_cons in H as [H0 H]. apply tokens_at_app in H as (k & H & H1).
  apply tokens_at_cons in H1 as [H1 H2]. apply tokens_at_nil in H2 as ->.
  apply (factor_mono (S (10 * esize e + 2))); [|lia]. apply factor_paren; [done| |done].
  by apply (back_expr e B (S i) k _ H H1).
Qed.

(** An operand of an operator: parenthesised where the other operator stands in it *)
Lemma and_operand e i j t :
  parsed_back e -> tokens_at i (ptoks (is_or e) (toks e)) j -> next_is j t -> ends_and t ->
  parses_and (10 * esize e + 4) i (rassoc e) j.
Proof.
  intros B H H1 He. destruct (is_or e) eqn:Ho.
  - apply (and_mono (S (10 * esize e + 3))); [|lia]. eapply and_last; [by apply paren_factor|exact H1|apply He].
  - eapply and_mono; [exact (back_and e B Ho i j t H H1 He)|lia].
Qed.

Lemma and_operand_more e i j d r k :
  parsed_back e -> tokens_at i (ptoks (is_or e) (toks e)) j -> next_is j (Some (TKey T_AND)) ->
  parses_and d (S j) r k -> parses_and (d + 10 * esize e + 4) i (and_app (rassoc e) r) k.
Proof.
  intros B H H1 Hr. destruct (is_or e) eqn:Ho; [|by apply (back_and_more e B Ho i j)].
  rewrite and_app_other by by destruct e.
  apply (and_mono (S (10 * esize e + 3 + d))); [|lia]. eapply and_more; [by apply paren_factor|exact H1|exact Hr].
Qed.

Lemma or_operand e i j t :
  parsed_back e -> tokens_at i (ptoks (is_and e) (toks e)) j -> next_is j t -> ends_or t ->
  parses_expr (10 * esize e + 5) i (rassoc e) j.
Proof.
  intros B H H1 He. destruct (is_and e) eqn:Ho.
  - apply (expr_mono (S (S (10 * esize e + 3)))); [|lia].
    eapply or_last; [eapply and_last; [by apply paren_factor|exact H1|apply He]|exact H1|apply He].
  - eapply expr_mono; [exact (back_expr e B i j t H H1 He)|lia].
Qed.

Lemma or_operand_more e i j d r k :
  parsed_back e -> tokens_at i (ptoks (is_and e) (toks e)) j -> next_is j (Some (TKey T_OR)) ->
  parses_expr d (S j) r k -> parses_expr (d + 10 * esize e + 5) i (or_app (rassoc e) r) k.
Proof.
  intros B H H1 Hr. destruct (is_and e) eqn:Ho; [|eapply expr_mono; [exact (back_or_more e B Ho i j d r k H H1 Hr)|lia]].
  rewrite or_app_other by by destruct e.
  apply (expr_mono (S (S (10 * esize e + 3) + d))); [|lia].
  eapply or_more; [eapply and_last; [by apply paren_factor|exact H1|done]|exact H1|exact Hr].
Qed.

(** The rules above a factor *)
Lemma back_of_factor e :
  is_and e = false -> is_or e = false ->
  (forall i j t, tokens_at i (toks e) j -> next_is j t -> plain_next t -> parses_factor (10 * esize e) i (rassoc e) j) ->
  parsed_back e.
Proof.
  intros Ha Ho F.
  assert (A : forall i j t, tokens_at i (toks e) j -> next_is j t -> ends_and t ->
    parses_and (10 * esize e + 1) i (rassoc e) j).
  { intros i j t H H1 [Hp Ht]. apply (and_mono (S (10 * esize e))); [|lia].
    eapply and_last; [by apply (F i j t)|exact H1|done]. }
  constructor; [done|intros _; exact A| | |].
  - intros _ i j d r k H H1 Hr. rewrite and_app_other by done.
    apply (and_mono (S (10 * esize e + d))); [|lia]. eapply and_more; [by apply (F i j _ H H1)|exact H1|exact Hr].
  - intros i j t H H1 [Hp Ht]. apply (expr_mono (S (10 * esize e + 1))); [|lia].
    eapply or_last; [by apply (A i j t)|exact H1|done].
  - intros _ i j d r k H H1 Hr. rewrite or_app_other by done.
    apply (expr_mono (S (10 * esize e + 1 + d))); [|lia]. eapply or_more; [by apply (A i j _ H H1)|exact H1|exact Hr].
Qed.

Lemma back_EAnd a b : parsed_back a -> parsed_back b -> parsed_back (EAnd a b).
Proof.
  intros Ba Bb.
  assert (A : forall i j t, tokens_at i (toks (EAnd a b)) j -> next_is j t -> ends_and t ->
    parses_and (10 * esize (EAnd a b) + 1) i (rassoc (EAnd a b)) j).
  { intros i j t H H1 He. cbn [toks] in H. apply tokens_at_app in H as (k & Ha & H).
    apply tokens_at_cons in H as [Hk Hb]. simpl.
    eapply and_mono; [exact (and_operand_more a i k _ _ j Ba Ha Hk (and_operand b (S k) j t Bb Hb H1 He))|lia]. }
  constructor; [done|intros _; exact A| | |done].
  - intros _ i j d r k H H1 Hr. cbn [toks] in H. apply tokens_at_app in H as (l & Ha & H).
    apply tokens_at_cons in H as [Hl Hb]. simpl. rewrite and_app_assoc.
    eapply and_mono; [exact (and_operand_more a i l _ _ k Ba Ha Hl (and_operand_more b (S l) j d r k Bb Hb H1 Hr))|lia].
  - intros i j t H H1 [Hp Ht]. apply (expr_mono (S (10 * esize (EAnd a b) + 1))); [|lia].
    eapply or_last; [by apply (A i j t)|exact H1|done].
Qed.

Lemma back_EOr a b : parsed_back a -> parsed_back b -> parsed_back (EOr a b).
Proof.
  intros Ba Bb. constructor; [done|done|done| |].
  - intros i j t H H1 He. cbn [toks] in H. apply tokens_at_app in H as (k & Ha & H).
    apply tokens_at_cons in H as [Hk Hb]. simpl.
    eapply expr_mono; [exact (or_operand_more a i k _ _ j Ba Ha Hk (or_operand b (S k) j t Bb Hb H1 He))|lia].
  - intros _ i j d r k H H1 Hr. cbn [toks] in H. apply tokens_at_app in H as (l & Ha & H).
    apply tokens_at_cons in H as [Hl Hb]. simpl. rewrite or_app_assoc.
    eapply expr_mono; [exact (or_operand_more a i l _ _ k Ba Ha Hl (or_operand_more b (S l) j d r k Bb Hb H1 Hr))|lia].
Qed.

Lemma back_ENot e : parsed_back e -> parsed_back (ENot e).
Proof.
  intros B. apply back_of_factor; [done|done|]. intros i j t H H1 Ht. cbn [toks] in H.
  apply tokens_at_cons in H as [H0 H]. destruct (is_item e) eqn:Hi.
  - apply (factor_mono (S (10 * esize e))); [|simpl; lia]. apply factor_not; [done|].
    destruct e; try done. by apply (back_factor _ B eq_refl eq_refl _ _ t).
  - apply (factor_mono (S (10 * esize e + 3))); [|simpl; lia]. apply factor_not; [done|]. by apply paren_factor.
Qed.

Lemma parse_toks e :
  writable e = true -> transform_m && bare (c_m (ps_cfg p)) e = false -> parsed_back e.
Proof.
  induction e as [[s|c]|a IHa b IHb|a IHa b IHb|e IH|r s1 s2]; intros Hw Hm; simpl in Hw; try done.
  - apply back_of_factor; [done|done|]. intros i j t H H1 Ht. apply tokens_at_cons in H as [H0 H].
    apply tokens_at_nil in H as ->. apply (factor_mono 1); [|simpl; lia]. eapply factor_sym; [done|exact H1|done|].
    destruct transform_m; [|done]. simpl in *. apply bool_decide_eq_false in Hm. apply bool_decide_eq_false. congruence.
  - apply andb_true_iff in Hw as [Ha Hb]. simpl in Hm. rewrite andb_orb_distrib_r in Hm.
    apply orb_false_iff in Hm as [Hma Hmb]. by apply back_EAnd; [apply IHa|apply IHb].
  - apply andb_true_iff in Hw as [Ha Hb]. simpl in Hm. rewrite andb_orb_distrib_r in Hm.
    apply orb_false_iff in Hm as [Hma Hmb]. by apply back_EOr; [apply IHa|apply IHb].
  - by apply back_ENot, IH.
  - apply back_of_factor; [done|done|]. intros i j t H H1 Ht. apply tokens_at_cons in H as [H0 H].
    apply tokens_at_cons in H as [H2 H]. apply tokens_at_cons in H as [H3 H]. apply tokens_at_nil in H as ->.
    apply (factor_mono 1); [|simpl; lia]. by apply factor_rel.
Qed.

End ExprParse.
