(* ===== verification/ExprText.v ===== *)
(** * The text of an expression

    The tokenizer reads the text that [expr_str] prints as the tokens [toks], so
    that [Kconfig.eval_string] gives a printed expression back. *)
From S2P Require Import Prelude PyStr PyText Model Eval SetValue Finalize Preprocess Tokenize Parse Sanity Init ExprParse.

(** ** Strings without macros *)

Lemma str_length_app s t : String.length (s +:+ t) = (String.length s + String.length t)%nat.
Proof. induction s as [|c s IH]; [done|]. rewrite append_cons. simpl. by rewrite IH. Qed.

Definition no_dollar (s : string) : bool := negb (contains_char "$" s).

Lemma no_dollar_cons c s : no_dollar (String c s) = negb (Ascii.eqb "$" c) && no_dollar s.
Proof. unfold no_dollar, contains_char. simpl. by rewrite negb_orb. Qed.

Lemma replace_no_dollar v s : no_dollar s = true -> replace_str "$UNAME_RELEASE" v s 0%nat = s.
Proof.
  induction s as [|c s IH]; [done|]. rewrite no_dollar_cons. intros [Hc Hs]%andb_true_iff. cbn [replace_str].
  rewrite IH by done. unfold startswith. cbn [String.prefix].
  destruct (ascii_dec "$" c) as [<-|Hn]; [done|reflexivity].
Qed.

Lemma macro_start_other c s : Ascii.eqb c "$" = false -> macro_start (String c s) = None.
Proof. intros H. destruct s; simpl; [done|]. by rewrite H. Qed.

Section Strings.
Context (getenv : string -> option string) (uname_release : string) (shell : string -> string * string).

Lemma expandvars_no_dollar s : no_dollar s = true -> expandvars getenv s = s.
Proof.
  intros H. unfold expandvars. generalize (S (String.length s)). revert H.
  induction s as [|c s IH]; intros H [|n]; try done. cbn [expandvars_].
  rewrite no_dollar_cons in H. apply andb_true_iff in H as [Hc Hs]. rewrite Ascii.eqb_sym in Hc.
  destruct (Ascii.eqb c "$"); [done|]. by rewrite IH.
Qed.

Lemma contents_no_dollar s : no_dollar s = true -> string_contents getenv uname_release s = s.
Proof. intros H. unfold string_contents. by rewrite replace_no_dollar, expandvars_no_dollar. Qed.

(** A quoted string is read up to its closing quote; backslashes are removed *)
Lemma expand_str_escape fuel out s rest (p : PState) :
  no_dollar s = true -> (String.length (escape s) < fuel)%nat ->
  expand_str getenv shell fuel QUOTE out (escape s +:+ String QUOTE rest) p = (Ok (out +:+ s, rest), p).
Proof.
  revert fuel out. induction s as [|c s IH]; intros fuel out Hd Hf.
  { destruct fuel as [|fuel]; [simpl in Hf; lia|]. cbn [expand_str]. simpl. rewrite append_nil_r. by destruct rest. }
  rewrite no_dollar_cons in Hd. apply andb_true_iff in Hd as [Hc Hd]. rewrite Ascii.eqb_sym in Hc.
  apply negb_true_iff in Hc. rewrite escape_cons in Hf |- *.
  assert (Hnext : forall k, (String.length (escape s) < k)%nat ->
    expand_str getenv shell k QUOTE (out +:+ String c "") (escape s +:+ String QUOTE rest) p
      = (Ok (out +:+ String c s, rest), p)).
  { intros k Hk. rewrite IH by done. by rewrite append_assoc. }
  destruct fuel as [|fuel]; [lia|].
  assert (Hbsl : expand_str getenv shell (S fuel) QUOTE out (String BSL (String c (escape s +:+ String QUOTE rest))) p
    = expand_str getenv shell fuel QUOTE (out +:+ String c "") (escape s +:+ String QUOTE rest) p) by reflexivity.
  destruct (Ascii.eqb_spec BSL c) as [<-|Hb];
    [rewrite !append_cons, Hbsl; apply Hnext; simpl in Hf; lia|].
  destruct (Ascii.eqb_spec QUOTE c) as [<-|Hq];
    [rewrite !append_cons, Hbsl; apply Hnext; simpl in Hf; lia|].
  rewrite append_cons. cbn [expand_str]. rewrite macro_start_other by done.
  destruct (Ascii.eqb_spec c QUOTE); [congruence|]. destruct (Ascii.eqb_spec c BSL); [congruence|].
  apply Hnext. simpl in Hf. lia.
Qed.

(** Both ways of reading a quoted string give its contents *)
Lemma any_char_app f s t : any_char f (s +:+ t) = any_char f s || any_char f t.
Proof. induction s as [|c s IH]; [done|]. rewrite append_cons. simpl. by rewrite IH, orb_assoc. Qed.

Lemma contains_bsl_escape s : contains_char BSL (escape s) = false ->
  escape s = s /\ all_chars (fun c => negb (Ascii.eqb c QUOTE)) s = true.
Proof.
  unfold contains_char. induction s as [|c s IH]; [done|]. rewrite escape_cons.
  destruct (Ascii.eqb BSL c); [done|]. destruct (Ascii.eqb_spec QUOTE c) as [|Hq]; [done|].
  simpl. intros [_ H]%orb_false_iff. apply IH in H as [-> ->]. split; [done|].
  by destruct (Ascii.eqb_spec c QUOTE); [congruence|].
Qed.

Lemma span_all f s c rest : all_chars f s = true -> f c = false -> span f (s +:+ String c rest) = (s, String c rest).
Proof.
  intros H Hc. induction s as [|d s IH]; [simpl; by rewrite Hc|]. rewrite append_cons. simpl in *.
  apply andb_true_iff in H as [-> H]. by rewrite IH.
Qed.

Lemma span_whole f s : all_chars f s = true -> span f s = (s, "").
Proof. intros H. induction s as [|d s IH]; [done|]. simpl in *. apply andb_true_iff in H as [-> H]. by rewrite IH. Qed.

Lemma quoted_escape fuel s rest (p : PState) :
  no_dollar s = true -> (String.length (escape s) < fuel)%nat ->
  quoted getenv uname_release shell fuel QUOTE (escape s +:+ String QUOTE rest) p = (Ok (s, rest), p).
Proof.
  intros Hd Hf. unfold quoted. destruct (_ || _) eqn:Hs.
  - eapply bind_ok; [by apply expand_str_escape|]. cbv beta iota. by rewrite append_nil_l, contents_no_dollar.
  - apply orb_false_iff in Hs as [_ Hs]. unfold contains_char in Hs. rewrite any_char_app in Hs.
    apply orb_false_iff in Hs as [Hs _]. apply contains_bsl_escape in Hs as [-> Hs].
    by rewrite (span_all _ s QUOTE rest Hs).
Qed.
End Strings.

(** ** Lexemes *)

(** What may follow a name: nothing, a parenthesis or a single space *)
Definition name_end (rest : string) : Prop :=
  match rest with
  | EmptyString => True
  | String c r =>
      c = ")"%char \/ c = " "%char /\ match r with EmptyString => False | String d _ => is_space d = false end
  end.

(** The first character of an expression *)
Definition head_ok (s : string) : Prop :=
  match s with EmptyString => False | String c _ => is_space c = false end.

Definition no_equals (rest : string) : Prop := match rest with String c _ => c <> "="%char | EmptyString => True end.


Lemma head_ok_app s t : head_ok s -> head_ok (s +:+ t).
Proof. by destruct s. Qed.

Lemma no_equals_app s t : head_ok s -> no_equals s -> no_equals (s +:+ t).
Proof. by destruct s. Qed.

Lemma lskip_head s : head_ok s -> lskip s = s.
Proof. destruct s; [done|]. intros H. unfold lskip. simpl. by rewrite H. Qed.

Lemma lskip_space s : head_ok s -> lskip (" " +:+ s) = s.
Proof. intros H. rewrite append_cons, append_nil_l. unfold lskip. simpl. by apply lskip_head. Qed.

Lemma name_end_space s : head_ok s -> name_end (" " +:+ s).
Proof. intros H. right. split; [done|]. by destruct s. Qed.

Lemma re_space_space c : is_space c = false -> is_re_space c = false.
Proof.
  intros H. pose proof (ascii_allb (fun c => is_space c || negb (is_re_space c)) eq_refl c) as Hc.
  simpl in Hc. rewrite H in Hc. by apply negb_true_iff.
Qed.

Lemma drop_re_space rest : name_end rest -> drop_while is_re_space rest = lskip rest.
Proof.
  unfold lskip. destruct rest as [|c r]; [done|]. intros [->|[-> Hr]]; [done|]. simpl.
  destruct r as [|d r]; [done|]. simpl. by rewrite Hr, re_space_space.
Qed.

Definition plain_name (s : string) : bool :=
  negb (String.eqb s "") && all_chars is_name_char s && no_dollar s && negb (has_some (get_keyword s)).

Section Lexing.
Context (getenv : string -> option string) (uname_release : string) (shell : string -> string * string).
Context (fuel : nat) (p : PState) (first : token).

(** The token that the text begins with *)
Definition reads (prev : token) (s : string) (t : token) (rest : string) : Prop :=
  next_token getenv uname_release shell fuel first prev s p = (Ok (Some (t, lskip rest)), p).

(** A text is read as a list of tokens, whatever acceptable text comes after it *)
Definition lexes (B : string -> Prop) (s : string) (ts : list token) : Prop :=
  forall rest prev, B rest -> string_lex prev = false ->
  exists prev', string_lex prev' = false /\ forall n acc,
    tokens_loop getenv uname_release shell fuel (length ts + n) first prev (s +:+ rest) acc p
    = tokens_loop getenv uname_release shell fuel n first prev' (lskip rest) (acc ++ ts) p.

Lemma lexes_one (B : string -> Prop) s t :
  s <> "" -> string_lex t = false ->
  (forall rest prev, B rest -> string_lex prev = false -> reads prev (s +:+ rest) t rest) -> lexes B s [t].
Proof.
  intros Hs Ht H rest prev HB Hp. exists t. split; [done|]. intros n acc. cbn [length Nat.add tokens_loop].
  destruct (String.eqb_spec (s +:+ rest) "") as [E|_]; [by destruct s|].
  eapply bind_ok; [exact (H rest prev HB Hp)|reflexivity].
Qed.

Lemma lexes_app (B1 B2 : string -> Prop) s1 s2 ts1 ts2 :
  lexes B1 s1 ts1 -> lexes B2 s2 ts2 -> head_ok s2 -> (forall rest, B1 (s2 +:+ rest)) ->
  lexes B2 (s1 +:+ s2) (ts1 ++ ts2).
Proof.
  intros H1 H2 Hh HB rest prev Hr Hp. destruct (H1 (s2 +:+ rest) prev (HB rest) Hp) as (q1 & Hq1 & E1).
  destruct (H2 rest q1 Hr Hq1) as (q2 & Hq2 & E2). exists q2. split; [done|]. intros n acc.
  rewrite length_app, <- Nat.add_assoc, append_assoc, E1, lskip_head, E2, <- app_assoc by by apply head_ok_app. done.
Qed.

Lemma lexes_space (B1 B2 : string -> Prop) s1 s2 ts1 ts2 :
  lexes B1 s1 ts1 -> lexes B2 s2 ts2 -> head_ok s2 -> (forall rest, head_ok rest -> B1 (" " +:+ rest)) ->
  lexes B2 (s1 +:+ " " +:+ s2) (ts1 ++ ts2).
Proof.
  intros H1 H2 Hh HB rest prev Hr Hp.
  destruct (H1 (" " +:+ s2 +:+ rest) prev (HB _ (head_ok_app _ rest Hh)) Hp) as (q1 & Hq1 & E1).
  destruct (H2 rest q1 Hr Hq1) as (q2 & Hq2 & E2). exists q2. split; [done|]. intros n acc.
  rewrite length_app, <- Nat.add_assoc, !append_assoc, E1, lskip_space, E2, <- app_assoc by by apply head_ok_app. done.
Qed.

(** *** Operators *)

Lemma lexes_operator (B : string -> Prop) c s k :
  is_name_char c = false -> Ascii.eqb c QUOTE || Ascii.eqb c "'" = false -> string_lex (TKey k) = false ->
  (forall rest, B rest -> operator (String c s +:+ rest) = Some (k, rest)) -> lexes B (String c s) [TKey k].
Proof.
  intros Hc Hq Hk H. apply lexes_one; [done|done|]. intros rest prev HB Hp. unfold reads, next_token, id_match.
  rewrite append_cons. cbn [span]. rewrite Hc. cbn [String.eqb]. cbv iota. rewrite Hq.
  rewrite <- append_cons, (H rest HB). done.
Qed.

Lemma lexes_and : lexes (fun _ => True) "&&" [TKey T_AND].
Proof. by apply lexes_operator. Qed.
Lemma lexes_or : lexes (fun _ => True) "||" [TKey T_OR].
Proof. by apply lexes_operator. Qed.
Lemma lexes_open : lexes (fun _ => True) "(" [TKey T_OPEN_PAREN].
Proof. by apply lexes_operator. Qed.
Lemma lexes_close : lexes (fun _ => True) ")" [TKey T_CLOSE_PAREN].
Proof. by apply lexes_operator. Qed.
Lemma lexes_not : lexes no_equals "!" [TKey T_NOT].
Proof.
  apply lexes_operator; [done..|]. intros [|c r] Hr; [done|]. by destruct c as [[] [] [] [] [] [] [] []]; try (destruct (Hr eq_refl)).
Qed.
Lemma lexes_rel r : lexes no_equals (REL_TO_STR r) [TKey (rel_key r)].
Proof.
  destruct r; apply lexes_operator; try done; intros [|c s] Hr; try done;
    by destruct c as [[] [] [] [] [] [] [] []]; try (destruct (Hr eq_refl)).
Qed.

(** *** Symbols *)

Definition known_sym (s : symid) : Prop :=
  let x := sym (ps_cfg p) s in
  if sym_is_constant x
  then no_dollar (sym_name x) = true /\ ps_const_syms p !! sym_name x = Some s
  else plain_name (sym_name x) = true /\ STR_TO_TRI (sym_name x) = None
       /\ c_sym_table (ps_cfg p) !! sym_name x = Some s.

Lemma lexes_name name s :
  plain_name name = true -> name_sym name p = (Ok s, p) -> lexes name_end name [TSym s].
Proof.
  unfold plain_name. rewrite !andb_true_iff, !negb_true_iff, String.eqb_neq. intros [[[Hn Hc] Hd] Hk] Hs.
  apply lexes_one; [done|done|]. intros rest prev HB Hp. unfold reads, next_token, id_match.
  assert (Hsp : span is_name_char (name +:+ rest) = (name, rest)).
  { destruct rest as [|c r]; [by rewrite append_nil_r, span_whole|].
    apply span_all; [done|]. by destruct HB as [->|[-> _]]. }
  rewrite Hsp. destruct (String.eqb_spec name "") as [|_]; [done|]. cbv iota. unfold id_token.
  destruct (get_keyword name); [done|]. rewrite Hp. cbn [negb].
  unfold no_dollar in Hd. apply negb_true_iff in Hd. rewrite Hd.
  eapply bind_ok; [|reflexivity]. eapply bind_ok; [reflexivity|]. cbv beta iota.
  eapply bind_ok; [exact Hs|]. by rewrite drop_re_space.
Qed.

Lemma lexes_quoted name s :
  first <> TKey T_OPTION -> no_dollar name = true -> (String.length (escape name) < fuel)%nat ->
  ps_const_syms p !! name = Some s ->
  lexes (fun _ => True) (String QUOTE (escape name +:+ String QUOTE "")) [TSym s].
Proof.
  intros Hf Hd Hl Hs. apply lexes_one; [done|done|]. intros rest prev _ Hp. unfold reads, next_token, id_match.
  rewrite append_cons. cbn [span]. change (is_name_char QUOTE) with false. cbn [String.eqb]. cbv iota.
  change (Ascii.eqb QUOTE QUOTE || Ascii.eqb QUOTE "'") with true. cbv iota.
  rewrite append_assoc, append_cons, append_nil_l.
  eapply bind_ok; [by apply quoted_escape|]. cbv beta iota. rewrite Hp, bool_decide_eq_false_2 by done.
  cbn [orb]. eapply bind_ok; [|reflexivity]. eapply bind_ok; [|reflexivity].
  unfold lookup_const_sym. eapply bind_ok; [reflexivity|]. cbv beta. by rewrite Hs.
Qed.

Local Abbreviation text := (expr_str (standard_sc_expr_str (ps_cfg p))).

Lemma name_char_head c : is_name_char c = true -> is_space c = false /\ c <> "="%char.
Proof.
  intros H. pose proof (ascii_allb (fun c => negb (is_name_char c) || (negb (is_space c) && negb (Ascii.eqb c "="))) eq_refl c) as Hc.
  simpl in Hc. rewrite H in Hc. simpl in Hc. apply andb_true_iff in Hc as [H1 H2]. rewrite negb_true_iff in H1, H2.
  split; [done|]. by apply Ascii.eqb_neq.
Qed.

Lemma plain_head s : plain_name s = true -> head_ok s /\ no_equals s.
Proof.
  unfold plain_name. destruct s as [|c s]; [done|]. simpl. intros H. apply name_char_head. by destruct (is_name_char c).
Qed.

Lemma lexes_sym s :
  first <> TKey T_OPTION -> known_sym s -> (String.length (text (ESym s)) < fuel)%nat ->
  (head_ok (text (ESym s)) /\ no_equals (text (ESym s))) /\ lexes name_end (text (ESym s)) [TSym s].
Proof.
  unfold known_sym. cbn [expr_str standard_sc_expr_str]. intros Hf Hk Hl.
  destruct (sym_is_constant (sym (ps_cfg p) s)).
  - destruct Hk as [Hd Hk]. simpl in Hl |- *. case_bool_decide as Ht; simpl in *.
    + split; [done|]. intros rest prev _ Hp. eapply lexes_quoted; [done..| |done|done|done].
      rewrite str_length_app in Hl. simpl in Hl. lia.
    + assert (Hp : plain_name (sym_name (sym (ps_cfg p) s)) = true).
      { unfold STR_TO_TRI in Ht. destruct (String.eqb_spec (sym_name (sym (ps_cfg p) s)) "n") as [->|]; [done|].
        destruct (String.eqb_spec (sym_name (sym (ps_cfg p) s)) "m") as [->|]; [done|].
        by destruct (String.eqb_spec (sym_name (sym (ps_cfg p) s)) "y") as [->|]. }
      split; [by apply plain_head|]. apply lexes_name; [done|]. unfold name_sym.
      rewrite bool_decide_eq_true_2 by by destruct (STR_TO_TRI _). eapply bind_ok; [reflexivity|]. cbv beta. by rewrite Hk.
  - destruct Hk as (Hp & Ht & Hs). simpl in Hl |- *. split; [by apply plain_head|]. apply lexes_name; [done|].
    unfold name_sym. rewrite bool_decide_eq_false_2 by (rewrite Ht; intros [? ?]; done).
    unfold lookup_sym. eapply bind_ok; [reflexivity|]. cbv beta. by rewrite Hs.
Qed.

(** *** Expressions *)

(** Every symbol of the expression is in the symbol tables, under a name that can be written *)
Definition known_syms (e : expr) : Prop := forall s, In (ISym s) (expr_items e) -> known_sym s.

Definition read_back (e : expr) : Prop := (head_ok (text e) /\ no_equals (text e)) /\ lexes name_end (text e) (toks e).

Lemma read_paren b e :
  read_back e -> (head_ok (paren b (text e)) /\ no_equals (paren b (text e))) /\ lexes name_end (paren b (text e)) (ptoks b (toks e)).
Proof.
  intros [[Hh Hq] Hl]. destruct b; [|done]. simpl. split; [done|].
  apply (lexes_app (fun _ => True) name_end "(" (text e +:+ ")") [TKey T_OPEN_PAREN] (toks e ++ [TKey T_CLOSE_PAREN]));
    [apply lexes_open| |by apply head_ok_app|done].
  apply (lexes_app name_end); [done| |by simpl|by left].
  intros rest prev _ Hp. by apply lexes_close.
Qed.

Lemma read_binary op k b1 b2 e1 e2 :
  read_back e1 -> read_back e2 -> head_ok op -> lexes (fun _ => True) op [TKey k] ->
  lexes name_end (paren b1 (text e1) +:+ " " +:+ op +:+ " " +:+ paren b2 (text e2))
    (ptoks b1 (toks e1) ++ TKey k :: ptoks b2 (toks e2)).
Proof.
  intros H1 H2 Ho Hk. destruct (read_paren b1 e1 H1) as [[Hh1 _] Hl1], (read_paren b2 e2 H2) as [[Hh2 _] Hl2].
  apply (lexes_space name_end); [done| |by apply head_ok_app|intros rest; apply name_end_space].
  by apply (lexes_space (fun _ => True) name_end op _ [TKey k]).
Qed.

Lemma lexes_weaken (B1 B2 : string -> Prop) s ts : lexes B1 s ts -> (forall rest, B2 rest -> B1 rest) -> lexes B2 s ts.
Proof. intros H HB rest prev Hr. apply H. auto. Qed.

Lemma text_head b e t : head_ok (paren b (text e)) /\ no_equals (paren b (text e)) ->
  head_ok (paren b (text e) +:+ t) /\ no_equals (paren b (text e) +:+ t).
Proof. intros [H1 H2]. split; [by apply head_ok_app|by apply no_equals_app]. Qed.

Lemma text_not e : text (ENot e) = "!" +:+ paren (negb (is_item e)) (text e).
Proof. by destruct e as [[s|c]| | | |]. Qed.

Lemma read_not e : read_back e -> read_back (ENot e).
Proof.
  intros H. unfold read_back. rewrite text_not. cbn [toks]. destruct (read_paren (negb (is_item e)) e H) as [[Hh Hq] Hl].
  split; [done|]. apply (lexes_app no_equals name_end "!" _ [TKey T_NOT]); [apply lexes_not|done|done|].
  intros rest. by apply no_equals_app.
Qed.

Lemma read_rel r s1 s2 :
  read_back (ESym s1) -> read_back (ESym s2) -> read_back (ERel r s1 s2).
Proof.
  intros [[Hh1 Hq1] Hl1] [[Hh2 Hq2] Hl2]. cbn [expr_str] in *. split; [split; [by apply head_ok_app|by apply no_equals_app]|].
  cbn [toks]. apply (lexes_space name_end name_end _ _ [TSym s1] [TKey (rel_key r); TSym s2]);
    [done| |destruct r; done|intros rest; apply name_end_space].
  apply (lexes_space no_equals name_end _ _ [TKey (rel_key r)]); [apply lexes_rel|done|done|done].
Qed.

Lemma paren_length b s : (String.length s <= String.length (paren b s))%nat.
Proof. destruct b; cbn [paren]; [|lia]. rewrite !str_length_app. lia. Qed.

Lemma text_length e s : In (ISym s) (expr_items e) ->
  (String.length (text (ESym s)) <= String.length (text e))%nat.
Proof.
  induction e as [i|e1 IH1 e2 IH2|e1 IH1 e2 IH2|e IH|r s1 s2]; intros H; simpl in H.
  - destruct H as [->|[]]. done.
  - cbn [expr_str]. rewrite !str_length_app. pose proof (paren_length (is_or e1) (text e1)).
    pose proof (paren_length (is_or e2) (text e2)). apply in_app_or in H as [H|H]; [apply IH1 in H|apply IH2 in H]; cbn [expr_str] in H; lia.
  - cbn [expr_str]. rewrite !str_length_app. pose proof (paren_length (is_and e1) (text e1)).
    pose proof (paren_length (is_and e2) (text e2)). apply in_app_or in H as [H|H]; [apply IH1 in H|apply IH2 in H]; cbn [expr_str] in H; lia.
  - apply IH in H. rewrite text_not, str_length_app. pose proof (paren_length (negb (is_item e)) (text e)). lia.
  - cbn [expr_str]. rewrite !str_length_app. destruct H as [[= ->]|[[= ->]|[]]]; cbn [expr_str]; lia.
Qed.

Lemma lexes_text e :
  first <> TKey T_OPTION -> writable e = true -> known_syms e -> (String.length (text e) < fuel)%nat -> read_back e.
Proof.
  intros Hf Hw Hk Hl.
  assert (Hs : forall s, In (ISym s) (expr_items e) -> read_back (ESym s)).
  { intros s Hs. apply lexes_sym; [done|by apply Hk|]. apply text_length in Hs. lia. }
  clear Hk Hl. induction e as [[s|c]|e1 IH1 e2 IH2|e1 IH1 e2 IH2|e IH|r s1 s2]; simpl in Hw; try done.
  - apply Hs. by left.
  - apply andb_true_iff in Hw as [Hw1 Hw2].
    assert (B1 : read_back e1) by (apply IH1; [done|]; intros s H; apply Hs, in_or_app; by left).
    assert (B2 : read_back e2) by (apply IH2; [done|]; intros s H; apply Hs, in_or_app; by right).
    split; [apply text_head, read_paren, B1|]. apply (read_binary "&&" T_AND); [done..|apply lexes_and].
  - apply andb_true_iff in Hw as [Hw1 Hw2].
    assert (B1 : read_back e1) by (apply IH1; [done|]; intros s H; apply Hs, in_or_app; by left).
    assert (B2 : read_back e2) by (apply IH2; [done|]; intros s H; apply Hs, in_or_app; by right).
    split; [apply text_head, read_paren, B1|]. apply (read_binary "||" T_OR); [done..|apply lexes_or].
  - by apply read_not, IH.
  - apply read_rel; apply Hs; simpl; auto.
Qed.
End Lexing.

(** ** [Kconfig.eval_string] *)

Lemma toks_length e : (length (toks e) <= 5 * esize e)%nat.
Proof.
  assert (Hp : forall b l, (length (ptoks b l) <= length l + 2)%nat).
  { intros [] l; simpl; rewrite ?length_app; simpl; lia. }
  induction e as [[s|c]|e1 IH1 e2 IH2|e1 IH1 e2 IH2|e IH|r s1 s2]; cbn [toks esize]; rewrite ?length_app; cbn [length]; try lia.
  - pose proof (Hp (is_or e1) (toks e1)). pose proof (Hp (is_or e2) (toks e2)). lia.
  - pose proof (Hp (is_and e1) (toks e1)). pose proof (Hp (is_and e2) (toks e2)). lia.
  - pose proof (Hp (negb (is_item e)) (toks e)). lia.
Qed.

Lemma nth_error_lookup {A} (l : list A) k : nth_error l k = l !! k.
Proof. revert k. induction l as [|x l IH]; intros [|k]; simpl; auto. Qed.

Section EvalString.
Context (getenv : string -> option string) (uname_release : string) (shell : string -> string * string).

(** A line that begins with [if] and an expression *)
Lemma tokenize_if fuel (p : PState) e :
  writable e = true -> known_syms p e ->
  (10 * esize e + String.length (expr_str (standard_sc_expr_str (ps_cfg p)) e) < fuel)%nat ->
  let line := "if " +:+ expr_str (standard_sc_expr_str (ps_cfg p)) e in
  tokenize getenv uname_release shell fuel line p
    = (Ok (map Some (TKey T_IF :: toks e) ++ [None]), with_ps_line p line).
Proof.
  intros Hw Hk Hf line. unfold tokenize. eapply bind_ok; [reflexivity|]. cbv beta.
  assert (Hc : forall t, command_match ("if " +:+ t) = Some ("if", drop_while is_re_space t)) by reflexivity.
  unfold line at 1. rewrite Hc. change (get_keyword "if") with (Some T_IF). cbv beta iota.
  destruct (lexes_text getenv uname_release shell fuel (with_ps_line p line) (TKey T_IF) e) as [[Hh _] Hl];
    [done|done|exact Hk|change (ps_cfg (with_ps_line p line)) with (ps_cfg p); lia|].
  change (ps_cfg (with_ps_line p line)) with (ps_cfg p) in *.
  assert (Hd : drop_while is_re_space (expr_str (standard_sc_expr_str (ps_cfg p)) e)
    = expr_str (standard_sc_expr_str (ps_cfg p)) e).
  { destruct (expr_str _ e); [done|]. simpl in Hh |- *. by rewrite re_space_space. }
  rewrite Hd. destruct (Hl "" (TKey T_IF) I eq_refl) as (prev' & _ & E). pose proof (toks_length e).
  specialize (E (fuel - length (toks e))%nat [TKey T_IF]).
  replace (length (toks e) + (fuel - length (toks e)))%nat with fuel in E by lia. rewrite append_nil_r in E.
  eapply bind_ok; [rewrite E|reflexivity]. by destruct (fuel - length (toks e))%nat eqn:Hn; [lia|].
Qed.

Lemma parse_string_text fuel (p : PState) e :
  writable e = true -> known_syms p e -> bare (c_m (ps_cfg p)) e = false ->
  (10 * esize e + String.length (expr_str (standard_sc_expr_str (ps_cfg p)) e) + 2 <= fuel)%nat ->
  exists p', parse_string getenv uname_release shell fuel (expr_str (standard_sc_expr_str (ps_cfg p)) e) p
      = (Ok (rassoc e), p') /\ ps_cfg p' = ps_cfg p /\ ps_warnings p' = ps_warnings p.
Proof.
  intros Hw Hk Hm Hf. unfold parse_string.
  set (p1 := with_ps_file p None (ps_linenr p) (ps_include_path p) (ps_filestack p) (ps_unread p) (ps_kconfig_filenames p)).
  pose proof (tokenize_if fuel p1 e Hw Hk) as E1. change (ps_cfg p1) with (ps_cfg p) in E1.
  set (s := expr_str (standard_sc_expr_str (ps_cfg p)) e) in *.
  set (l := map Some (TKey T_IF :: toks e) ++ [None]) in *.
  set (p2 := with_ps_line (with_ps_tokens (with_ps_line p1 ("if " +:+ s)) l 1%nat (ps_reuse_tokens p)) s).
  assert (Ht : tokens_at p2 1 (toks e) (1 + length (toks e))%nat).
  { split; [done|]. intros k t Hkt. change (ps_tokens p2) with l. unfold l. simpl.
    rewrite nth_error_app1, nth_error_map by (rewrite length_map; by eapply lookup_lt_Some).
    by rewrite nth_error_lookup, Hkt. }
  assert (Hn : next_is p2 (1 + length (toks e)) None).
  { unfold next_is. change (ps_tokens p2) with l. unfold l. simpl.
    rewrite nth_error_app2 by (rewrite length_map; lia). by rewrite length_map, Nat.sub_diag. }
  exists (at_token p2 (1 + length (toks e))). split; [|done].
  eapply bind_ok; [reflexivity|]. cbv beta. fold p1. eapply bind_ok; [apply E1; lia|].
  eapply bind_ok; [reflexivity|]. cbv beta. change (ps_reuse_tokens (with_ps_line p1 ("if " +:+ s))) with (ps_reuse_tokens p). fold p2.
  unfold expect_expr_and_eol. change p2 with (at_token p2 1).
  eapply bind_ok; [apply (back_expr p2 true e (parse_toks p2 true e Hw Hm) 1 _ None Ht Hn); [done|lia]|].
  eapply bind_ok; [|reflexivity]. unfold expect_eol. by eapply bind_ok; [exact (peek_at p2 _ _ Hn)|].
Qed.
End EvalString.
