(* ===== verification/ExprProps.v ===== *)
(** * Expressions as text

    Properties of [expr_str] and [Kconfig.eval_string]. *)
From S2P Require Import Prelude PyStr PyText Model Eval EvalSpec EvalRefine EvalDet Values SetValue Validity Session.
From S2P Require Import Finalize Fpspy Demo ConfigFile Saving Restore RoundTrip FileProps Preprocess Tokenize Parse Sanity Init ExprParse ExprText.

Section Text.
Context (getenv : string -> option string) (uname_release : string) (shell : string -> string * string).

(** C9. Printing and parsing: the text that [expr_str] prints for an expression is
    parsed, outside a Kconfig file, to that expression with [&&] and [||]
    associated to the right.  It holds for every expression of symbols whose
    names can be written and are in the symbol tables ([known_syms]), without a
    bare [m], which the parser would make [m && MODULES]; the bound on the
    recursion is linear in the size of the expression.  The configuration and
    its warnings are left as they were. *)
Theorem expr_str_parses (p : PState) (e : expr) (fuel : nat) :
  let text := expr_str (standard_sc_expr_str (ps_cfg p)) e in
  writable e = true -> known_syms p e -> bare (c_m (ps_cfg p)) e = false ->
  (10 * esize e + String.length text + 2 <= fuel)%nat ->
  exists p', parse_string getenv uname_release shell fuel text p = (Ok (rassoc e), p')
    /\ ps_cfg p' = ps_cfg p /\ ps_warnings p' = ps_warnings p.
Proof. exact (parse_string_text getenv uname_release shell fuel p e). Qed.


End Text.

(** ** An instance *)

(** The parser's state after the repository's configuration *)
Definition fpspy_parser : PState := with_ps_parsing (with_ps_cfg (start (fun _ => None) true "Kconfig") fpspy) false.

(** [!NO_OUTPUT && MAX_CONTEXTS < 1024 && (ARCH_X64 || ARCH_ARM64 = y)], associated to the left *)
Definition example_expr : expr :=
  EAnd (EAnd (ENot (ESym 14%nat)) (ERel LESS 17%nat 18%nat)) (EOr (ESym 4%nat) (ERel EQUAL 5%nat 2%nat)).

Example example_text :
  expr_str (standard_sc_expr_str fpspy) example_expr = "!NO_OUTPUT && MAX_CONTEXTS < 1024 && (ARCH_X64 || ARCH_ARM64 = y)".
Proof. vm_compute. reflexivity. Qed.

Lemma example_known : known_syms fpspy_parser example_expr.
Proof.
  intros s Hs. simpl in Hs. repeat (destruct Hs as [[= <-]|Hs]; [vm_compute; auto|]). destruct Hs.
Qed.

Lemma example_writable : writable example_expr = true /\ bare (c_m (ps_cfg fpspy_parser)) example_expr = false.
Proof. vm_compute. done. Qed.

Lemma example_fuel : (10 * esize example_expr
  + String.length (expr_str (standard_sc_expr_str (ps_cfg fpspy_parser)) example_expr) + 2 <= 150)%nat.
Proof. apply Nat.leb_le. vm_compute. reflexivity. Qed.

Lemma expr_str_parses_witness :
  exists p', parse_string (fun _ => None) "" (fun _ => ("", "")) 150
      (expr_str (standard_sc_expr_str (ps_cfg fpspy_parser)) example_expr) fpspy_parser = (Ok (rassoc example_expr), p')
    /\ ps_cfg p' = ps_cfg fpspy_parser /\ ps_warnings p' = ps_warnings fpspy_parser.
Proof.
  exact (expr_str_parses (fun _ => None) "" (fun _ => ("", "")) fpspy_parser example_expr 150
           (proj1 example_writable) example_known (proj2 example_writable) example_fuel).
Defined.


