(* ===== verification/ParseTotal.v ===== *)
(** * Reading an expression always ends

    [eval_string] on any text without ['$'] either parses it or raises
    [KconfigError]: no loop of the tokenizer or of the expression parser runs out
    of fuel or recursion, and nothing else is raised. *)
From S2P Require Import Prelude PyStr PyText Model Eval SetValue Validity Session Finalize Fpspy Demo Preprocess Tokenize Parse.
From S2P Require Import Sanity Init ExprParse ExprText ExprProps.

(** ** Programs that end with a result or with [KconfigError] *)

Definition settles {A} (pre : PState -> Prop) (m : Q A) (post : A -> PState -> Prop) : Prop :=
  forall p, pre p -> match m p with
                     | (Ok a, p') => post a p'
                     | (Err (KconfigError _), _) => True
                     | (Err _, _) => False
                     end.

Lemma settles_ret {A} (a : A) (pre : PState -> Prop) (post : A -> PState -> Prop) :
  (forall p, pre p -> post a p) -> settles pre (mret a) post.
Proof. intros H p Hp. by apply H. Qed.
Lemma settles_bind {A B} (m : Q A) (k : A -> Q B) pre mid post :
  settles pre m mid -> (forall a, settles (mid a) (k a) post) -> settles pre (m ≫= k) post.
Proof.
  intros Hm Hk p Hp. specialize (Hm p Hp). cbv [mbind Q_bind M_bind]. destruct (m p) as [[a|[]] p']; try done. by apply Hk.
Qed.
Lemma settles_error {A} msg pre (post : A -> PState -> Prop) : settles pre (parse_error msg) post.
Proof. done. Qed.
Lemma settles_post {A} (m : Q A) pre (post post' : A -> PState -> Prop) :
  settles pre m post -> (forall a p, post a p -> post' a p) -> settles pre m post'.
Proof. intros Hm H p Hp. specialize (Hm p Hp). destruct (m p) as [[a|[]] p']; try done. by apply H. Qed.
Lemma settles_gets {A} (f : PState -> A) (pre : PState -> Prop) (post : A -> PState -> Prop) :
  (forall p, pre p -> post (f p) p) -> settles pre (gets f) post.
Proof. intros H p Hp. by apply H. Qed.
Lemma settles_modify f (pre : PState -> Prop) (post : unit -> PState -> Prop) :
  (forall p, pre p -> post tt (f p)) -> settles pre (modify f) post.
Proof. intros H p Hp. by apply H. Qed.
(** ** The expression parser *)

Section Parser.
Context (l : list token).

(** [k] tokens of the line are left *)
Definition left (k : nat) (p : PState) : Prop :=
  ps_tokens p = map Some l ++ [None] /\ (ps_tokens_i p + k = length l)%nat.

Lemma token_here p k : left k p ->
  nth_error (ps_tokens p) (ps_tokens_i p) = Some (match k with O => None | S _ => nth_error l (ps_tokens_i p) end)
  /\ (k <> 0%nat -> is_Some (nth_error l (ps_tokens_i p))).
Proof.
  intros [-> Hk]. destruct k as [|k].
  - rewrite nth_error_app2 by (rewrite length_map; lia). rewrite length_map.
    by replace (ps_tokens_i p - length l)%nat with 0%nat by lia.
  - rewrite nth_error_app1 by (rewrite length_map; lia). rewrite nth_error_map.
    destruct (nth_error l (ps_tokens_i p)) eqn:E; [split; [done|eauto]|]. apply nth_error_None in E. lia.
Qed.

(** The next token is looked at, or taken *)
Lemma settles_peek k : settles (left k) peek_token (fun t p => left k p /\ (t <> None -> k <> 0%nat)).
Proof.
  intros p Hp. destruct (token_here p k Hp) as [E _]. unfold peek_token, token_at.
  cbv [mbind Q_bind M_bind gets]. rewrite E. split; [done|]. by destruct k.
Qed.
Lemma left_next k p : left (S k) p -> left k (with_ps_tokens p (ps_tokens p) (S (ps_tokens_i p)) (ps_reuse_tokens p)).
Proof. intros [H1 H2]. split; [done|]. simpl. lia. Qed.
Lemma settles_take k : settles (left k) take_token
  (fun t p => match t with Some _ => exists k', k = S k' /\ left k' p | None => True end).
Proof.
  intros p Hp. destruct (token_here p k Hp) as [E Hs]. unfold take_token, token_at, set_tokens_i.
  cbv [mbind Q_bind M_bind gets modify]. rewrite E. cbv [mret Q_ret M_ret]. destruct k as [|k]; [done|].
  destruct (Hs (Nat.neq_succ_0 k)) as [t Ht]. rewrite Ht. exists k. split; [done|]. by apply left_next.
Qed.
Lemma settles_check key k : settles (left k) (check_token key)
  (fun b p => if b then exists k', k = S k' /\ left k' p else left k p).
Proof.
  unfold check_token. eapply settles_bind; [apply settles_peek|]. intros t. case_bool_decide as Ht.
  - intros p [Hp Hk]. assert (Hk' : k <> 0%nat) by (apply Hk; by rewrite Ht).
    destruct k as [|k]; [done|]. exists k. split; [done|]. by apply left_next.
  - apply settles_ret. by intros p [Hp _].
Qed.
Lemma settles_expect_sym k : settles (left k) expect_sym (fun _ p => exists k', k = S k' /\ left k' p).
Proof.
  unfold expect_sym. eapply settles_bind; [apply settles_take|]. intros [[s|key|x]|]; try apply settles_error.
  by apply settles_ret.
Qed.

(** Fewer tokens are left *)
Definition less (k : nat) (p : PState) : Prop := exists k', (k' < k)%nat /\ left k' p.

Lemma settles_less {A} k (m : Q A) (post : A -> PState -> Prop) :
  (forall k', (k' < k)%nat -> settles (left k') m post) -> settles (less k) m post.
Proof. intros H p (k' & Hk & Hp). by apply (H k' Hk). Qed.
Lemma settles_one {A} k (m : Q A) (post : A -> PState -> Prop) :
  (forall k', k = S k' -> settles (left k') m post) -> settles (fun p => exists k', k = S k' /\ left k' p) m post.
Proof. intros H p (k' & Hk & Hp). by apply (H k' Hk). Qed.
Lemma settles_and {A} (P : Prop) pre (m : Q A) (post : A -> PState -> Prop) :
  (P -> settles pre m post) -> settles (fun p => pre p /\ P) m post.
Proof. intros H p [Hp HP]. by apply H. Qed.
Lemma less_trans k k' p : less k p -> (k <= k')%nat -> less k' p.
Proof. intros (j & Hj & Hp) Hk. exists j. split; [lia|done]. Qed.

(** The rest of an operand, once its first symbol is read *)
Lemma settles_operand s k b : settles (left k)
  (t ← peek_token;
   match relation_of t with
   | None =>
       c ← cfg_of id;
       mret (if b && bool_decide (s = c_m c) then EAnd (e_m c) (ESym (c_modules c)) else ESym s)
   | Some r => i ← gets ps_tokens_i; set_tokens_i (S i);; s2 ← expect_sym; mret (ERel r s s2)
   end) (fun _ => less (S k)).
Proof.
  eapply settles_bind; [apply settles_peek|]. intros t. destruct (relation_of t) as [r|] eqn:Hr.
  - apply settles_and. intros Hk. assert (Hk' : k <> 0%nat) by (apply Hk; by destruct t). destruct k as [|k]; [done|].
    eapply settles_bind; [apply (settles_gets _ _ (fun i p => left (S k) p /\ i = ps_tokens_i p)); auto|]. intros i.
    apply (settles_bind _ _ _ (fun _ => left k)).
    { intros p [Hp ->]. by apply left_next. }
    intros _. eapply settles_bind; [apply settles_expect_sym|]. intros s2.
    apply settles_ret. intros p (k' & -> & Hp). exists k'. split; [lia|done].
  - apply settles_and. intros _. eapply settles_bind; [apply (settles_gets _ _ (fun _ => left k)); auto|]. intros c.
    apply settles_ret. intros p Hp. exists k. split; [lia|done].
Qed.

(** Each of the three functions takes at least one token *)
Lemma settles_parse b : forall d,
  (forall k, (3 * k + 3 <= d)%nat -> settles (left k) (parse_expr d b) (fun _ => less k))
  /\ (forall k, (3 * k + 2 <= d)%nat -> settles (left k) (parse_and_expr d b) (fun _ => less k))
  /\ (forall k, (3 * k + 1 <= d)%nat -> settles (left k) (parse_factor d b) (fun _ => less k)).
Proof.
  assert (Hret : forall A (a : A) k k', (k' <= k)%nat -> settles (less k') (mret a) (fun _ => less k)).
  { intros A a k k' Hk. apply settles_ret. intros p Hp. by eapply less_trans. }
  induction d as [|d (IHe & IHa & IHf)]; [split_and!; intros; lia|]. split_and!; intros k Hk.
  - cbn [parse_expr]. eapply settles_bind; [apply IHa; lia|]. intros e1. apply settles_less. intros k1 H1.
    eapply settles_bind; [apply settles_check|]. intros []; [|apply settles_ret; by exists k1].
    apply settles_one. intros k2 ->. eapply settles_bind; [apply IHe; lia|]. intros e. apply Hret. lia.
  - cbn [parse_and_expr]. eapply settles_bind; [apply IHf; lia|]. intros e1. apply settles_less. intros k1 H1.
    eapply settles_bind; [apply settles_check|]. intros []; [|apply settles_ret; by exists k1].
    apply settles_one. intros k2 ->. eapply settles_bind; [apply IHa; lia|]. intros e. apply Hret. lia.
  - cbn [parse_factor]. eapply settles_bind; [apply settles_take|]. intros [[key|s|x]|]; try apply settles_error.
    + apply settles_one. intros k1 ->. destruct key; try apply settles_error.
      * eapply settles_bind; [apply IHf; lia|]. intros e. apply Hret. lia.
      * eapply settles_bind; [apply IHe; lia|]. intros e. apply settles_less. intros k2 H2.
        eapply settles_bind; [apply settles_check|]. intros []; [|apply settles_error].
        apply settles_one. intros k3 ->. apply settles_ret. intros p Hp. exists k3. split; [lia|done].
    + apply settles_one. intros k1 ->. apply settles_operand.
Qed.

Lemma settles_expect_eol k : settles (left k) expect_eol (fun _ _ => True).
Proof.
  unfold expect_eol. eapply settles_bind; [apply settles_peek|]. intros [t|]; [apply settles_error|by apply settles_ret].
Qed.
Lemma settles_expect_expr d k : (3 * k + 3 <= d)%nat -> settles (left k) (expect_expr_and_eol d) (fun _ _ => True).
Proof.
  intros Hd. unfold expect_expr_and_eol. eapply settles_bind; [by apply settles_parse|]. intros e. apply settles_less.
  intros k' _. eapply settles_bind; [apply settles_expect_eol|]. intros []. by apply settles_ret.
Qed.
End Parser.

(** ** The tokenizer *)

(** The constants that the tokenizer takes for granted *)
Definition consts (p : PState) : Prop := forall v, is_Some (STR_TO_TRI v) -> is_Some (ps_const_syms p !! v).

(** At most [n] characters of the line are left, and no macro *)
Definition rest_of (n : nat) (s : string) : Prop := (String.length s <= n)%nat /\ no_dollar s = true.

Lemma rest_cons n c s : rest_of n (String c s) ->
  exists m, n = S m /\ rest_of m s /\ Ascii.eqb c "$" = false.
Proof.
  intros [Hl Hd]. rewrite no_dollar_cons in Hd. apply andb_true_iff in Hd as [Hc Hd]. simpl in Hl.
  destruct n as [|m]; [lia|]. exists m. split_and!; [done|split; [lia|done]|]. rewrite Ascii.eqb_sym. by apply negb_true_iff.
Qed.
Lemma rest_le n m s : rest_of n s -> (n <= m)%nat -> rest_of m s.
Proof. intros [Hl Hd] Hm. split; [lia|done]. Qed.
Lemma rest_drop f n s : rest_of n s -> rest_of n (drop_while f s).
Proof.
  revert n. induction s as [|c s IH]; intros n H; [done|]. simpl. destruct (f c); [|done].
  destruct (rest_cons _ _ _ H) as (m & -> & Hm & _). eapply rest_le; [by apply IH|lia].
Qed.
Lemma rest_span f n s w r : span f s = (w, r) -> rest_of n s ->
  no_dollar w = true /\ rest_of n r /\ (w <> "" -> exists m, n = S m /\ rest_of m r).
Proof.
  revert n w. induction s as [|c s IH]; intros n w; simpl.
  { intros [= <- <-] H. split_and!; done. }
  destruct (f c); [|intros [= <- <-] H; split_and!; done].
  destruct (span f s) as [a b] eqn:E. intros [= <- <-] H. destruct (rest_cons _ _ _ H) as (m & -> & Hm & Hc).
  destruct (IH m a eq_refl Hm) as (Ha & Hb & _).
  split_and!; [rewrite no_dollar_cons, Ascii.eqb_sym, Hc; done|eapply rest_le; [done|lia]|by exists m].
Qed.
Lemma rest_operator n s k r : operator s = Some (k, r) -> rest_of n s -> exists m, n = S m /\ rest_of m r.
Proof.
  destruct s as [|c s]; [done|]. intros Ho H. destruct (rest_cons _ _ _ H) as (m & -> & Hm & _). exists m. split; [done|].
  assert (Htwo : forall d r', match s with String e s2 => if Ascii.eqb d e then Some s2 else None | "" => None end = Some r' ->
    rest_of m r').
  { intros d r' E. destruct s as [|e s2]; [done|]. destruct (Ascii.eqb d e); [|done]. injection E as <-.
    destruct (rest_cons _ _ _ Hm) as (j & -> & Hj & _). eapply rest_le; [done|lia]. }
  unfold operator in Ho. cbv zeta in Ho.
  set (two := fun d => match s with String e s2 => if Ascii.eqb d e then Some s2 else None | "" => None end) in *.
  assert (Hone : forall k0 : keyword, Some (k0, s) = Some (k, r) -> rest_of m r) by (intros k0 [= _ <-]; done).
  assert (Hor : forall d k1 k2, Some (match two d with Some r => (k1, r) | None => (k2, s) end) = Some (k, r) -> rest_of m r).
  { intros d k1 k2 E. destruct (two d) as [r'|] eqn:Ed; [injection E as _ <-; by apply (Htwo d)|by apply (Hone k2)]. }
  assert (Hmap : forall d (k0 : keyword), (fun r => (k0, r)) <$> two d = Some (k, r) -> rest_of m r).
  { intros d k0 E. destruct (two d) as [r'|] eqn:Ed; [injection E as _ <-; by apply (Htwo d)|done]. }
  repeat (match type of Ho with (if ?b then _ else _) = _ => destruct b end;
    [first [exact (Hone _ Ho) | exact (Hmap "&"%char _ Ho) | exact (Hmap "|"%char _ Ho) | exact (Hor "="%char _ _ Ho)]|]). done.
Qed.

Lemma settles_alloc name b : settles consts (alloc_symbol name b) (fun _ => consts).
Proof. intros p Hp. exact Hp. Qed.
Lemma settles_warn msg loc : settles consts (q_warn msg loc) (fun _ => consts).
Proof. apply settles_modify. intros p Hp. by destruct (ps_warn p). Qed.
Lemma settles_when P (b : bool) m : settles P m (fun _ => P) -> settles P (when b m) (fun _ => P).
Proof. intros H. destruct b; [done|]. by apply settles_ret. Qed.
Lemma settles_read {A} (P : PState -> Prop) (f : PState -> A) : settles P (gets f) (fun _ => P).
Proof. by apply settles_gets. Qed.

Lemma settles_lookup_sym name : settles consts (lookup_sym name) (fun _ => consts).
Proof.
  unfold lookup_sym. eapply settles_bind; [apply settles_read|]. intros [s|]; [by apply settles_ret|].
  eapply settles_bind; [apply settles_alloc|]. intros s. eapply settles_bind; [apply settles_read|]. intros b.
  apply (settles_bind _ _ _ (fun _ => consts)); [|intros _; by apply settles_ret].
  destruct b; [by apply settles_modify|apply settles_warn].
Qed.
Lemma settles_lookup_const_sym name : settles consts (lookup_const_sym name) (fun _ => consts).
Proof.
  unfold lookup_const_sym. eapply settles_bind; [apply settles_read|]. intros [s|]; [by apply settles_ret|].
  eapply settles_bind; [apply settles_alloc|]. intros s. eapply settles_bind; [apply settles_read|]. intros b.
  apply (settles_bind _ _ _ (fun _ => consts)); [|intros _; by apply settles_ret].
  apply settles_when, settles_modify. intros p Hp v Hv. cbn. rewrite lookup_insert. case_decide; [eauto|by apply Hp].
Qed.
Lemma settles_name_sym name : settles consts (name_sym name) (fun _ => consts).
Proof.
  unfold name_sym. case_bool_decide as Hv; [|apply settles_lookup_sym].
  eapply settles_bind; [apply (settles_gets _ _ (fun o p => consts p /\ is_Some o))|].
  - intros p Hp. split; [done|by apply Hp].
  - intros o. apply settles_and. intros [s ->]. by apply settles_ret.
Qed.

Section Tokens.
Context (getenv : string -> option string) (uname_release : string) (shell : string -> string * string) (fuel : nat).

(** A reader of text hands on what is left of it *)
Definition hands_on {A} (n : nat) (r : A * string) (p : PState) : Prop := consts p /\ rest_of n r.2.

Lemma settles_expand_str q : forall f n out s, rest_of n s -> (n < f)%nat ->
  settles consts (expand_str getenv shell f q out s) (hands_on n).
Proof.
  induction f as [|f IH]; intros n out s H Hf; [lia|]. cbn [expand_str]. destruct s as [|c s]; [apply settles_error|].
  destruct (rest_cons _ _ _ H) as (m & -> & Hm & Hc). rewrite macro_start_other by done.
  assert (Hle : forall k out' s', rest_of k s' -> (k <= m)%nat -> settles consts (expand_str getenv shell f q out' s') (hands_on (S m))).
  { intros k out' s' Hk Hkm. eapply settles_post; [apply (IH k); [done|lia]|]. intros [v r] p [Hp Hr].
    split; [done|]. eapply rest_le; [done|lia]. }
  destruct (Ascii.eqb c q). { apply settles_ret. intros p Hp. split; [done|]. eapply rest_le; [done|lia]. }
  destruct (Ascii.eqb c BSL); [|by apply (Hle m)]. destruct s as [|d s]; [apply settles_error|].
  destruct (rest_cons _ _ _ Hm) as (j & -> & Hj & _). apply (Hle j); [done|lia].
Qed.

Lemma settles_hands_on {A B} n (m : Q (A * string)) (k : A * string -> Q B) post :
  settles consts m (hands_on n) -> (forall a s, rest_of n s -> settles consts (k (a, s)) post) -> settles consts (m ≫= k) post.
Proof.
  intros Hm Hk. eapply settles_bind; [exact Hm|]. intros [a s] p [Hp Hs]. exact (Hk a s Hs p Hp).
Qed.
Lemma settles_done {A} n (a : A) s : rest_of n s -> settles consts (mret (a, s)) (hands_on n).
Proof. intros H. by apply settles_ret. Qed.

Lemma settles_quoted q n s : rest_of n s -> (n < fuel)%nat ->
  settles consts (quoted getenv uname_release shell fuel q s) (hands_on n).
Proof.
  intros H Hf. unfold quoted. destruct (_ || _).
  - eapply settles_hands_on; [by apply settles_expand_str|]. intros v r Hr. by apply settles_done.
  - destruct (span _ s) as [w r] eqn:E. destruct (rest_span _ n _ _ _ E H) as (_ & Hr & _).
    destruct r as [|c r]; [apply settles_error|]. destruct (rest_cons _ _ _ Hr) as (m & -> & Hm & _).
    apply settles_done. eapply rest_le; [done|lia].
Qed.

Lemma settles_id_token n prev name after s : no_dollar name = true -> rest_of n after ->
  settles consts (id_token getenv shell fuel prev name after s) (hands_on n).
Proof.
  intros Hd H. assert (Ha := rest_drop is_re_space n after H). unfold id_token.
  destruct (get_keyword name); [by apply settles_done|]. destruct (negb (string_lex prev)).
  - unfold no_dollar in Hd. apply negb_true_iff in Hd. rewrite Hd.
    eapply settles_hands_on; [by apply settles_done|]. intros name' r Hr.
    eapply settles_bind; [apply settles_name_sym|]. intros t. by apply settles_done.
  - eapply settles_bind; [apply settles_read|]. intros line.
    apply (settles_bind _ _ _ (fun _ => consts)); [|intros _; by apply settles_done].
    apply settles_when. unfold q_warn_here. eapply settles_bind; [apply settles_read|]. intros loc. apply settles_warn.
Qed.

(** A token takes at least one character *)
Lemma settles_next_token n first prev s : rest_of (S n) s -> (n < fuel)%nat ->
  settles consts (next_token getenv uname_release shell fuel first prev s)
    (fun o p => consts p /\ match o with Some (_, r) => rest_of n r | None => True end).
Proof.
  intros H Hf. unfold next_token, id_match.
  destruct (span is_name_char s) as [w after] eqn:Es. destruct (rest_span _ _ _ _ _ Es H) as (Hw & _ & Hlt).
  destruct (String.eqb_spec w "") as [->|Hne].
  - destruct s as [|c s]; [by apply settles_ret|]. destruct (rest_cons _ _ _ H) as (m & [= <-] & Hm & _).
    destruct (_ || Ascii.eqb c "'").
    + eapply settles_hands_on; [by apply settles_quoted|]. intros v r Hr.
      apply (settles_bind _ _ _ (fun _ => consts)).
      * destruct (_ || bool_decide _); [by apply settles_ret|].
        apply (settles_bind _ _ _ (fun _ => consts)); [apply settles_lookup_const_sym|]. intros x. by apply settles_ret.
      * intros t. apply settles_ret. intros p Hp. split; [done|]. by apply rest_drop.
    + destruct (operator (String c s)) as [[k r]|] eqn:Eo.
      * destruct (rest_operator _ _ _ _ Eo H) as (j & [= <-] & Hj). apply settles_ret. intros p Hp.
        split; [done|]. by apply rest_drop.
      * destruct (Ascii.eqb c "#"); [by apply settles_ret|apply settles_error].
  - destruct (Hlt Hne) as (m & [= <-] & Hm).
    eapply settles_bind; [by apply (settles_id_token n)|]. intros [t r]. apply settles_ret. by intros p [Hp Hr].
Qed.

(** As many tokens as characters, at most *)
Lemma settles_tokens_loop first : forall f n prev s acc, rest_of n s -> (n < f)%nat -> (n <= fuel)%nat ->
  settles consts (tokens_loop getenv uname_release shell fuel f first prev s acc)
    (fun l p => consts p /\ exists l', l = acc ++ l' /\ (length l' <= n)%nat).
Proof.
  assert (Hstop : forall acc n, settles consts (mret acc)
    (fun (l : list token) p => consts p /\ exists l', l = acc ++ l' /\ (length l' <= n)%nat)).
  { intros acc n. apply settles_ret. intros p Hp. split; [done|]. exists []. rewrite app_nil_r. split; [done|simpl; lia]. }
  induction f as [|f IH]; intros n prev s acc H Hf Hn; [lia|]. cbn [tokens_loop].
  destruct (String.eqb_spec s "") as [->|Hs]; [apply Hstop|].
  destruct n as [|n]; [destruct s; [done|destruct H as [H _]; simpl in H; lia]|].
  eapply settles_bind; [by apply (settles_next_token n)|]. intros [[t r]|]; [|apply (settles_and True); intros _; apply Hstop].
  apply settles_and. intros Hr. eapply settles_post; [apply (IH n); [done|lia|lia]|].
  intros l p (Hp & l' & -> & Hl). split; [done|]. exists (t :: l'). rewrite <- app_assoc. split; [done|simpl; lia].
Qed.

Lemma settles_tokenize_if n s : rest_of n s -> (n < fuel)%nat ->
  settles consts (tokenize getenv uname_release shell fuel ("if " +:+ s))
    (fun l p => consts p /\ exists l', l = map Some (TKey T_IF :: l') ++ [None] /\ (length l' <= n)%nat).
Proof.
  intros H Hf. unfold tokenize. apply (settles_bind _ _ _ (fun _ => consts)); [by apply settles_modify|]. intros _.
  change (command_match ("if " +:+ s)) with (Some ("if", drop_while is_re_space s)).
  change (get_keyword "if") with (Some T_IF). cbv beta iota.
  eapply settles_bind; [apply (settles_tokens_loop _ _ n); [by apply rest_drop|done|lia]|]. intros l.
  apply settles_ret. intros p (Hp & l' & -> & Hl). split; [done|]. by exists l'.
Qed.

(** C10. Reading an expression always ends: on every text without ['$'] the
    tokenizer and the expression parser give an expression or raise
    [KconfigError], within a fuel and a recursion depth of three times the length
    of the text.  No other exception is possible (an [IndexError] past the last
    token, a [KeyError] for a constant); of the parser's state it takes only that
    the constants [n], [m] and [y] are in the table. *)
Theorem parse_string_total (p : PState) (s : string) :
  (forall v, is_Some (STR_TO_TRI v) -> is_Some (ps_const_syms p !! v)) ->
  contains_char "$" s = false -> (3 * String.length s + 3 <= fuel)%nat ->
  let r := (parse_string getenv uname_release shell fuel s p).1 in
  (exists e, r = Ok e) \/ (exists msg, r = Err (KconfigError msg)).
Proof.
  intros Hc Hd Hf. set (n := String.length s) in *.
  assert (Hs : rest_of n s) by (split; [done|]; unfold no_dollar; by rewrite Hd).
  assert (H : settles consts (parse_string getenv uname_release shell fuel s) (fun _ _ => True)).
  { unfold parse_string. apply (settles_bind _ _ _ (fun _ => consts)); [by apply settles_modify|]. intros _.
    eapply settles_bind; [apply (settles_tokenize_if n); [done|lia]|]. intros l.
    apply settles_and. intros (l' & -> & Hl).
    apply (settles_bind _ _ _ (fun _ => left (TKey T_IF :: l') (length l'))).
    - apply settles_modify. intros p1 _. by split.
    - intros _. apply settles_expect_expr. lia. }
  specialize (H p Hc). cbv zeta. destruct (parse_string _ _ _ _ s p) as [[e|[]] p']; simpl; try done; eauto.
Qed.
End Tokens.

(** A text with an unclosed parenthesis, on the parsed configuration of FPSpy *)
Lemma example_consts v : is_Some (STR_TO_TRI v) -> is_Some (ps_const_syms fpspy_parser !! v).
Proof.
  unfold STR_TO_TRI. intros [z Hz].
  repeat match type of Hz with (if String.eqb v ?w then _ else _) = _ => destruct (String.eqb_spec v w) as [->|] end;
    [vm_compute; eauto..|done].
Qed.

Lemma parse_string_total_witness :
  let r := (parse_string (fun _ => None) "" (fun _ => ("", "")) 60 "(NO_OUTPUT || X" fpspy_parser).1 in
  (exists e, r = Ok e) \/ (exists msg, r = Err (KconfigError msg)).
Proof.
  exact (parse_string_total (fun _ => None) "" (fun _ => ("", "")) 60 fpspy_parser "(NO_OUTPUT || X" example_consts
           eq_refl ltac:(simpl; lia)).
Defined.
