(* ===== verification/Edit.v ===== *)
(** * Edit boxes and scrolling

    [_edit_text], the editing commands of the input dialogs of the interface,
    with the horizontal scroll that follows the cursor; [_max_scroll]; and the
    keys the curses library delivers. *)
From S2P Require Import Prelude PyStr PyText.

(** ** Keys *)

(** What [_getch_compat] returns; a resize event carries the new size of the terminal *)
Inductive key :=
| KChar (c : ascii)
| KEY_DOWN | KEY_UP | KEY_LEFT | KEY_RIGHT | KEY_HOME | KEY_END | KEY_NPAGE | KEY_PPAGE
| KEY_BACKSPACE | KEY_DC
| KEY_RESIZE (height width : Z)
| KEY_OTHER (code : Z).

#[export] Instance key_eq_dec : EqDecision key.
Proof. solve_decision. Defined.

(** [c in (...)] for the characters of a string *)
Definition is_one_of (k : key) (chars : string) : bool :=
  match k with
  | KChar c => existsb (Ascii.eqb c) (list_ascii_of_string chars)
  | _ => false
  end.

Definition is_char (k : key) (n : nat) : bool :=
  match k with KChar c => Ascii.eqb c (chr n) | _ => false end.

(** ** Slices *)

(** [s[:n]] and [s[n:]] for [0 <= n] *)
Fixpoint str_take (n : nat) (s : string) : string :=
  match n, s with
  | S n, String c s => String c (str_take n s)
  | _, _ => EmptyString
  end.
Fixpoint str_drop (n : nat) (s : string) : string :=
  match n, s with
  | S n, String _ s => str_drop n s
  | _, _ => s
  end.
Definition take_z (i : Z) (s : string) : string := str_take (Z.to_nat i) s.
Definition drop_z (i : Z) (s : string) : string := str_drop (Z.to_nat i) s.

(** ** The editor *)

Definition SCROLL_OFFSET : Z := 5.

(** [_max_scroll(lst, win)] from the length of the list and the height of the window *)
Definition max_scroll (len height : Z) : Z := Z.max 0 (len - height).

(** Do zero or more word characters, or one other character, and then white
    space make up the whole string? *)
Fixpoint words_spaces (s : string) : bool :=
  all_chars is_space s
  || match s with String c s' => is_word c && words_spaces s' | EmptyString => true end.
Definition other_spaces (s : string) : bool :=
  match s with String c s' => negb (is_word c) && all_chars is_space s' | EmptyString => false end.

(** The start of the leftmost match of Ctrl-W's regular expression *)
Fixpoint word_start (s : string) : nat :=
  if words_spaces s || other_spaces s then O
  else match s with String _ s' => S (word_start s') | EmptyString => O end.

Section Edit.
(** [_ERASE_CHAR], which is empty when it cannot be decoded *)
Context (erase_char : option ascii).

Definition is_erase (k : key) : bool :=
  match erase_char, k with Some e, KChar c => Ascii.eqb c e | _, _ => false end.

(** The editing command: the new text and cursor *)
Definition edit_command (c : key) (s : string) (i : Z) : string * Z :=
  if bool_decide (c = KEY_LEFT) then (s, if 0 <? i then i - 1 else i)
  else if bool_decide (c = KEY_RIGHT) then (s, if i <? slen s then i + 1 else i)
  else if bool_decide (c = KEY_HOME) || is_char c 1 then (s, 0)
  else if bool_decide (c = KEY_END) || is_char c 5 then (s, slen s)
  else if bool_decide (c = KEY_BACKSPACE) || is_erase c then
    if 0 <? i then (take_z (i - 1) s +:+ drop_z i s, i - 1) else (s, i)
  else if bool_decide (c = KEY_DC) then (take_z i s +:+ drop_z (i + 1) s, i)
  else if is_char c 23 then
    let new_i := Z.of_nat (word_start (take_z i s)) in
    (take_z new_i s +:+ drop_z i s, new_i)
  else if is_char c 11 then (take_z i s, i)
  else if is_char c 21 then (drop_z i s, 0)
  else match c with
       | KChar ch => (take_z i s +:+ String ch (drop_z i s), i + 1)
       | _ => (s, i)
       end.

(** The scroll that keeps the cursor away from the edges of the box *)
Definition edit_scroll (s : string) (i hscroll width : Z) : Z :=
  if i <? hscroll + SCROLL_OFFSET then Z.max (i - SCROLL_OFFSET) 0
  else if hscroll + width - SCROLL_OFFSET <=? i then
    Z.min (i - width + SCROLL_OFFSET + 1) (Z.max (slen s - width + 1) 0)
  else hscroll.

(** [_edit_text] *)
Definition edit_text (c : key) (s : string) (i hscroll width : Z) : string * Z * Z :=
  let '(s, i) := edit_command c s i in (s, i, edit_scroll s i hscroll width).
End Edit.

(** ** Lemmas *)

Lemma length_append s t : String.length (s +:+ t) = (String.length s + String.length t)%nat.
Proof. induction s as [|c s IH]; [done|]. rewrite append_cons. simpl. by rewrite IH. Qed.

Lemma length_str_take n s : String.length (str_take n s) = Nat.min n (String.length s).
Proof. revert s. induction n as [|n IH]; intros [|c s]; simpl; try done. by rewrite IH. Qed.

Lemma length_str_drop n s : String.length (str_drop n s) = (String.length s - n)%nat.
Proof. revert s. induction n as [|n IH]; intros [|c s]; simpl; done. Qed.

Lemma slen_nonneg s : 0 <= slen s.
Proof. unfold slen. lia. Qed.

Lemma slen_append s t : slen (s +:+ t) = slen s + slen t.
Proof. unfold slen. rewrite length_append. lia. Qed.

Lemma slen_take i s : 0 <= i <= slen s -> slen (take_z i s) = i.
Proof. unfold slen, take_z. intros H. rewrite length_str_take. lia. Qed.

Lemma slen_drop i s : 0 <= i -> slen (drop_z i s) = Z.max 0 (slen s - i).
Proof. unfold slen, drop_z. intros H. rewrite length_str_drop. lia. Qed.

Lemma slen_cons c s : slen (String c s) = 1 + slen s.
Proof. unfold slen. simpl. lia. Qed.

Lemma word_start_le s : (word_start s <= String.length s)%nat.
Proof. induction s as [|c s IH]; [done|]. cbn [word_start String.length]. destruct (_ || _); lia. Qed.

Lemma take_append_drop n s : str_take n s +:+ str_drop n s = s.
Proof.
  revert s. induction n as [|n IH]; intros [|c s]; try done.
  cbn [str_take str_drop]. rewrite append_cons. by rewrite IH.
Qed.

Lemma take_app n s t : (n <= String.length s)%nat -> str_take n (s +:+ t) = str_take n s.
Proof.
  revert s. induction n as [|n IH]; intros [|c s] H; try done; [simpl in H; lia|].
  rewrite append_cons. cbn [str_take]. rewrite IH; [done|]. simpl in H. lia.
Qed.

Lemma take_full n s : (String.length s <= n)%nat -> str_take n s = s.
Proof. revert s. induction n as [|n IH]; intros [|c s]; simpl; intros H; try done; [lia|]. by rewrite IH by lia. Qed.

Lemma drop_app n s t : n = String.length s -> str_drop n (s +:+ t) = t.
Proof. intros ->. induction s as [|c s IH]; [by destruct t|]. rewrite append_cons. simpl. apply IH. Qed.

#[export] Hint Rewrite slen_append slen_cons : pystr.

(** The cursor stays within the text *)
Lemma edit_command_cursor erase c s i :
  0 <= i <= slen s -> let '(s', i') := edit_command erase c s i in 0 <= i' <= slen s'.
Proof.
  intros Hi. unfold edit_command. pose proof (slen_nonneg s).
  destruct (bool_decide (c = KEY_LEFT)); [destruct (Z.ltb_spec 0 i); lia|].
  destruct (bool_decide (c = KEY_RIGHT)); [destruct (Z.ltb_spec i (slen s)); lia|].
  destruct (_ || is_char c 1); [lia|]. destruct (_ || is_char c 5); [lia|].
  destruct (_ || is_erase erase c).
  { destruct (Z.ltb_spec 0 i); [|lia]. rewrite slen_append, slen_take, slen_drop by lia. lia. }
  destruct (bool_decide (c = KEY_DC)).
  { rewrite slen_append, slen_take, slen_drop by lia. lia. }
  destruct (is_char c 23).
  { pose proof (word_start_le (take_z i s)) as Hw.
    assert (Z.of_nat (word_start (take_z i s)) <= i).
    { pose proof (slen_take i s Hi). unfold slen in *. lia. }
    rewrite slen_append, slen_take, slen_drop by lia. lia. }
  destruct (is_char c 11); [rewrite slen_take by lia; lia|].
  destruct (is_char c 21); [rewrite slen_drop by lia; lia|].
  destruct c; try lia. rewrite slen_append, slen_cons, slen_take, slen_drop by lia. lia.
Qed.

(** ** Properties *)

(** C28. Editing keeps the cursor within the text, and in a box at least six columns
    wide the scroll keeps it inside the box, wherever the box was scrolled to before. *)
Theorem edit_text_cursor (erase : option ascii) (c : key) (s : string) (i hscroll width : Z) :
  0 <= i <= slen s -> 0 <= hscroll -> 6 <= width ->
  let '(s', i', h') := edit_text erase c s i hscroll width in
  0 <= i' <= slen s' /\ 0 <= h' <= i' /\ i' < h' + width.
Proof.
  intros Hi Hh Hw. unfold edit_text. pose proof (edit_command_cursor erase c s i Hi) as H.
  destruct (edit_command erase c s i) as [s' i']. split; [done|]. unfold edit_scroll, SCROLL_OFFSET.
  destruct (Z.ltb_spec i' (hscroll + 5)); [lia|].
  destruct (Z.leb_spec (hscroll + width - 5) i'); lia.
Qed.

Lemma edit_text_cursor_witness :
  0 <= 3 <= slen "abc" /\ let '(s', i', h') := edit_text None (KChar "d") "abc" 3 0 6 in
    0 <= i' <= slen s' /\ 0 <= h' <= i' /\ i' < h' + 6.
Proof.
  assert (H : 0 <= 3 <= slen "abc") by (vm_compute; split; intros E; discriminate E).
  split; [exact H|]. apply (edit_text_cursor None (KChar "d") "abc" 3 0 6 H); lia.
Defined.

(** C29. Typing a character and deleting it with Backspace gives the text and the
    cursor back. *)
Theorem edit_insert_delete (erase : option ascii) (c : ascii) (s : string) (i : Z) :
  0 <= i <= slen s -> is_word c = true -> is_erase erase (KChar c) = false ->
  edit_command erase (KChar c) s i = (take_z i s +:+ String c (drop_z i s), i + 1)
  /\ edit_command erase KEY_BACKSPACE (take_z i s +:+ String c (drop_z i s)) (i + 1) = (s, i).
Proof.
  intros Hi Hc He. split.
  - unfold edit_command. rewrite He. rewrite !bool_decide_eq_false_2 by done. cbn [orb].
    assert (Hn : forall n, is_word (chr n) = false -> is_char (KChar c) n = false).
    { intros n Hn. cbn [is_char]. destruct (Ascii.eqb_spec c (chr n)); congruence. }
    by rewrite !Hn.
  - unfold edit_command. rewrite (bool_decide_eq_false_2 (KEY_BACKSPACE = KEY_LEFT)), (bool_decide_eq_false_2 (KEY_BACKSPACE = KEY_RIGHT)),
      (bool_decide_eq_false_2 (KEY_BACKSPACE = KEY_HOME)), (bool_decide_eq_false_2 (KEY_BACKSPACE = KEY_END)) by done.
    rewrite (bool_decide_eq_true_2 (KEY_BACKSPACE = KEY_BACKSPACE)) by done. cbn [orb is_char].
    rewrite (proj2 (Z.ltb_lt 0 (i + 1))) by lia. replace (i + 1 - 1) with i by lia.
    pose proof (slen_take i s Hi) as Ht. unfold take_z, drop_z, slen in *.
    f_equal. rewrite take_app by lia. rewrite (take_full _ (str_take _ _)) by lia.
    replace (Z.to_nat (i + 1)) with (String.length (str_take (Z.to_nat i) s +:+ String c "")).
    2: { rewrite length_append. simpl. lia. }
    change (String c (str_drop (Z.to_nat i) s)) with (String c "" +:+ str_drop (Z.to_nat i) s).
    rewrite <- append_assoc, drop_app by done. apply take_append_drop.
Qed.

Lemma edit_insert_delete_witness :
  0 <= 1 <= slen "ab" /\ edit_command None (KChar "x") "ab" 1 = (take_z 1 "ab" +:+ String "x" (drop_z 1 "ab"), 1 + 1)
  /\ edit_command None KEY_BACKSPACE (take_z 1 "ab" +:+ String "x" (drop_z 1 "ab")) (1 + 1) = ("ab", 1).
Proof.
  assert (H : 0 <= 1 <= slen "ab") by (vm_compute; split; intros E; discriminate E).
  split; [exact H|]. exact (edit_insert_delete None "x" "ab" 1 H eq_refl eq_refl).
Defined.
