(* ===== verification/Menu.v ===== *)
(** * The menu interface: its state and its operations

    The global variables of the curses interface are a record [UI]; each
    function that moves the cursor, enters and leaves menus, changes values or
    answers a dialog is a definition in the monad [M UI].  What the user types
    is a list of keys in the state, and what the program tells curses to draw is a
    list of calls ([ui_drawn]). *)
From S2P Require Import Prelude PyStr PyText Model Eval SetValue ConfigFile Edit.

(** ** What is drawn *)

Inductive window :=
| stdscr
| path_win | top_sep_win | menu_win | bot_sep_win | help_win
| body_win
| edit_box | matches_win | matches_sep_win | matches_help_win
| top_line_win | text_win | text_sep_win | text_help_win.

Inductive glyph := ACS_UARROW | ACS_DARROW | ACS_RARROW | BLANK.

(** The methods of a window that are called, and the functions of curses for [stdscr] *)
Inductive draw_call :=
| Erase
| Noutrefresh
| Doupdate
| Curs_set (visibility : Z)
| Bkgdset (attr : Z)
| Resize (height width : Z)
| Mvwin (y x : Z)
| Addnstr (y x : Z) (s : string) (n : Z) (attr : option Z)
| Addch (g : glyph)
| Hline (y x : Z) (g : glyph) (n : Z) (attr : option Z)
| Vline (y x : Z) (g : glyph) (n : Z)
| Move (y x : Z)
| Attron (attr : Z)
| Attroff (attr : Z).

(** ** State *)

Record UI := mkUI {
  ui_world : World;
  ui_cur_menu : nodeid;
  ui_shown : list nodeid;
  ui_sel_node_i : Z;
  ui_menu_scroll : Z;
  ui_parent_screen_rows : list Z;
  ui_show_help : bool;
  ui_show_name : bool;
  ui_show_all : bool;
  ui_conf_changed : bool;
  ui_conf_filename : string;
  ui_minconf_filename : string;
  ui_menu_height : Z;
  ui_screen : Z * Z;
  ui_input : list key;
  ui_drawn : list (window * draw_call);
}.

Definition set_world v u := mkUI v (ui_cur_menu u) (ui_shown u) (ui_sel_node_i u) (ui_menu_scroll u)
  (ui_parent_screen_rows u) (ui_show_help u) (ui_show_name u) (ui_show_all u) (ui_conf_changed u)
  (ui_conf_filename u) (ui_minconf_filename u) (ui_menu_height u) (ui_screen u) (ui_input u) (ui_drawn u).
(** The four variables of the current position *)
Definition set_position menu shown sel scroll u := mkUI (ui_world u) menu shown sel scroll
  (ui_parent_screen_rows u) (ui_show_help u) (ui_show_name u) (ui_show_all u) (ui_conf_changed u)
  (ui_conf_filename u) (ui_minconf_filename u) (ui_menu_height u) (ui_screen u) (ui_input u) (ui_drawn u).
Definition set_cur_menu v u := set_position v (ui_shown u) (ui_sel_node_i u) (ui_menu_scroll u) u.
Definition set_shown v u := set_position (ui_cur_menu u) v (ui_sel_node_i u) (ui_menu_scroll u) u.
Definition set_sel_node_i v u := set_position (ui_cur_menu u) (ui_shown u) v (ui_menu_scroll u) u.
Definition set_menu_scroll v u := set_position (ui_cur_menu u) (ui_shown u) (ui_sel_node_i u) v u.
Definition set_parent_screen_rows v u := mkUI (ui_world u) (ui_cur_menu u) (ui_shown u) (ui_sel_node_i u)
  (ui_menu_scroll u) v (ui_show_help u) (ui_show_name u) (ui_show_all u) (ui_conf_changed u)
  (ui_conf_filename u) (ui_minconf_filename u) (ui_menu_height u) (ui_screen u) (ui_input u) (ui_drawn u).
Definition set_show_flags help name all u := mkUI (ui_world u) (ui_cur_menu u) (ui_shown u) (ui_sel_node_i u)
  (ui_menu_scroll u) (ui_parent_screen_rows u) help name all (ui_conf_changed u)
  (ui_conf_filename u) (ui_minconf_filename u) (ui_menu_height u) (ui_screen u) (ui_input u) (ui_drawn u).
Definition set_show_help v u := set_show_flags v (ui_show_name u) (ui_show_all u) u.
Definition set_show_name v u := set_show_flags (ui_show_help u) v (ui_show_all u) u.
Definition set_show_all v u := set_show_flags (ui_show_help u) (ui_show_name u) v u.
Definition set_conf changed file minfile u := mkUI (ui_world u) (ui_cur_menu u) (ui_shown u) (ui_sel_node_i u)
  (ui_menu_scroll u) (ui_parent_screen_rows u) (ui_show_help u) (ui_show_name u) (ui_show_all u) changed
  file minfile (ui_menu_height u) (ui_screen u) (ui_input u) (ui_drawn u).
Definition set_conf_changed v u := set_conf v (ui_conf_filename u) (ui_minconf_filename u) u.
Definition set_conf_filename v u := set_conf (ui_conf_changed u) v (ui_minconf_filename u) u.
Definition set_minconf_filename v u := set_conf (ui_conf_changed u) (ui_conf_filename u) v u.
Definition set_terminal height screen input u := mkUI (ui_world u) (ui_cur_menu u) (ui_shown u) (ui_sel_node_i u)
  (ui_menu_scroll u) (ui_parent_screen_rows u) (ui_show_help u) (ui_show_name u) (ui_show_all u) (ui_conf_changed u)
  (ui_conf_filename u) (ui_minconf_filename u) height screen input (ui_drawn u).
Definition set_menu_height v u := set_terminal v (ui_screen u) (ui_input u) u.
Definition set_screen v u := set_terminal (ui_menu_height u) v (ui_input u) u.
Definition set_input v u := set_terminal (ui_menu_height u) (ui_screen u) v u.
Definition set_drawn v u := mkUI (ui_world u) (ui_cur_menu u) (ui_shown u) (ui_sel_node_i u) (ui_menu_scroll u)
  (ui_parent_screen_rows u) (ui_show_help u) (ui_show_name u) (ui_show_all u) (ui_conf_changed u)
  (ui_conf_filename u) (ui_minconf_filename u) (ui_menu_height u) (ui_screen u) (ui_input u) v.

Definition I : Type -> Type := M UI.
#[export] Instance I_ret : MRet I := M_ret UI.
#[export] Instance I_bind : MBind I := M_bind UI.

(** Calls on a window *)
Definition draw_all (l : list (window * draw_call)) : I unit := modify (fun u => set_drawn (ui_drawn u ++ l) u).
Definition draw (w : window) (l : list draw_call) : I unit := draw_all (map (pair w) l).

(** Code of the configuration, run from the interface *)
Definition in_world {A} (m : W A) : I A := fun u =>
  match m (ui_world u) with (r, w) => (r, set_world w u) end.
Definition in_conf {A} (m : K A) : I A := in_world (in_state m).

(** [lst.index(x)] *)
Definition list_index {A} `{EqDecision A} (x : A) (l : list A) : option Z :=
  Z.of_nat ∘ fst <$> list_find (fun y => x = y) l.

Definition index_or_raise (n : nodeid) (l : list nodeid) : I Z :=
  match list_index n l with Some i => mret i | None => raise ValueError end.

(** [lst[i]], for an index that is not negative *)
Definition item_at (l : list nodeid) (i : Z) : I nodeid :=
  match l !! Z.to_nat i with
  | Some n => if 0 <=? i then mret n else raise IndexError
  | None => raise IndexError
  end.

Definition len {A} (l : list A) : Z := Z.of_nat (length l).

(** ** The size of the main window *)

Definition MAIN_HELP_LINES : Z := 4.
Definition SHOW_HELP_HEIGHT : Z := 8.
Definition PG_JUMP : nat := 6%nat.

(** The calls of [_resize_main] on the windows *)
Definition resize_main_calls (screen_height screen_width help_win_height : Z) : list (window * draw_call) :=
  let menu_win_height := screen_height - help_win_height - 3 in
  map (fun w => (w, Resize 1 screen_width)) [path_win; top_sep_win; bot_sep_win]
  ++ if 1 <=? menu_win_height then
       [(menu_win, Resize menu_win_height screen_width); (help_win, Resize help_win_height screen_width);
        (top_sep_win, Mvwin 1 0); (menu_win, Mvwin 2 0); (bot_sep_win, Mvwin (2 + menu_win_height) 0);
        (help_win, Mvwin (2 + menu_win_height + 1) 0)]
     else [(menu_win, Resize 1 screen_width); (help_win, Resize 1 screen_width)]
          ++ map (fun w => (w, Mvwin 0 0)) [top_sep_win; menu_win; bot_sep_win; help_win].

(** [_resize_main] *)
Definition resize_main : I unit :=
  u ← gets id;
  let '(screen_height, screen_width) := ui_screen u in
  let help_win_height := if ui_show_help u then SHOW_HELP_HEIGHT else MAIN_HELP_LINES in
  let menu_win_height := screen_height - help_win_height - 3 in
  let menu_win_height := if 1 <=? menu_win_height then menu_win_height else 1 in
  draw_all (resize_main_calls screen_height screen_width help_win_height);;
  modify (set_menu_height menu_win_height);;
  when (menu_win_height <=? ui_sel_node_i u - ui_menu_scroll u)
    (modify (set_menu_scroll (ui_sel_node_i u - menu_win_height + 1))).

(** [_center_vertically] *)
Definition center_vertically : I unit :=
  modify (fun u => set_menu_scroll
    (Z.min (Z.max (ui_sel_node_i u - ui_menu_height u / 2) 0) (max_scroll (len (ui_shown u)) (ui_menu_height u))) u).

(** ** The nodes of a menu *)

Section Interface.
Context (cfg : Config) (depth : nat).
Local Abbreviation E := (ev cfg depth).

(** [_visible] *)
Definition visible (n : nodeid) : K bool :=
  match nd_prompt (node cfg n) with
  | None => mret false
  | Some (_, cond) =>
      c ← expr_value cfg E cond;
      if c =? 0 then mret false
      else match nd_item (node cfg n) with
           | NMenu => v ← expr_value cfg E (nd_visibility (node cfg n)); mret (negb (v =? 0))
           | _ => mret true
           end
  end.

Definition is_symbol_node (n : nodeid) : bool :=
  match nd_item (node cfg n) with NSym _ => true | _ => false end.

(** [rec] of [_shown_nodes], on the chain of nodes from [nd] on *)
Fixpoint shown_rec (fuel : nat) (show_all : bool) (nd : option nodeid) : K (list nodeid) :=
  match nd, fuel with
  | None, _ => mret []
  | Some _, O => raise RecursionError
  | Some n, S fuel =>
      let x := node cfg n in
      v ← (if show_all then visible n;; mret true else visible n);
      here ← (if v : bool then
                match nd_list x with
                | Some l => if nd_is_menuconfig x then mret [n]
                            else sub ← shown_rec fuel show_all (Some l); mret (n :: sub)
                | None => mret [n]
                end
              else
                match nd_list x with
                | Some l =>
                    if is_symbol_node n then
                      sub ← shown_rec fuel show_all (Some l);
                      mret (match sub with
                            | [] => []
                            | _ => if nd_is_menuconfig x then [n] else n :: sub
                            end)
                    else mret []
                | None => mret []
                end);
      rest ← shown_rec fuel show_all (nd_next x);
      mret (here ++ rest)
  end.

(** The nodes of the choice's other locations, symbols listed once *)
Definition choice_nodes (menu choice_node : nodeid) (nodes : list nodeid)
    (acc : list nodeid * list symid) : list nodeid * list symid :=
  foldl (fun '(res, seen) n =>
    match nd_item (node cfg n) with
    | NSym s =>
        if negb (bool_decide (s ∈ seen)) || bool_decide (choice_node = menu)
        then (res ++ [n], s :: seen) else (res, seen)
    | _ => (res ++ [n], seen)
    end) acc nodes.

Definition shown_fuel : nat := S (length (c_nodes cfg)).

(** [_shown_nodes] *)
Definition shown_nodes (show_all : bool) (menu : nodeid) : K (list nodeid) :=
  match nd_item (node cfg menu) with
  | NChoice c =>
      here ← shown_rec shown_fuel show_all (nd_list (node cfg menu));
      let seen := omap (fun n => match nd_item (node cfg n) with NSym s => Some s | _ => None end) here in
      r ← foldM (fun acc choice_node =>
            nodes ← shown_rec shown_fuel show_all (nd_list (node cfg choice_node));
            mret (choice_nodes menu choice_node nodes acc)) ([], seen) (ch_nodes (chc cfg c));
      mret r.1
  | _ => shown_rec shown_fuel show_all (nd_list (node cfg menu))
  end.

Definition shown_now (menu : nodeid) : I (list nodeid) :=
  all ← gets ui_show_all; in_conf (shown_nodes all menu).

(** [_parent_menu] *)
Fixpoint parent_menu_ (fuel : nat) (menu : option nodeid) : option nodeid :=
  match menu, fuel with
  | Some n, S fuel => if nd_is_menuconfig (node cfg n) then Some n else parent_menu_ fuel (nd_parent (node cfg n))
  | _, _ => None
  end.
Definition parent_menu (n : nodeid) : I nodeid :=
  match parent_menu_ shown_fuel (nd_parent (node cfg n)) with
  | Some p => mret p
  | None => raise AttributeError
  end.

(** ** Moving in a menu *)

(** [_select_next_menu_entry] *)
Definition select_next_menu_entry : I unit :=
  u ← gets id;
  when (ui_sel_node_i u <? len (ui_shown u) - 1)
    (let sel := ui_sel_node_i u + 1 in
     modify (set_sel_node_i sel);;
     when ((ui_menu_scroll u + ui_menu_height u - SCROLL_OFFSET <=? sel)
           && (ui_menu_scroll u <? max_scroll (len (ui_shown u)) (ui_menu_height u)))
       (modify (set_menu_scroll (ui_menu_scroll u + 1)))).

(** [_select_prev_menu_entry] *)
Definition select_prev_menu_entry : I unit :=
  u ← gets id;
  when (0 <? ui_sel_node_i u)
    (let sel := ui_sel_node_i u - 1 in
     modify (set_sel_node_i sel);;
     when (sel <? ui_menu_scroll u + SCROLL_OFFSET)
       (modify (set_menu_scroll (Z.max (ui_menu_scroll u - 1) 0)))).

(** [_select_last_menu_entry], [_select_first_menu_entry] *)
Definition select_last_menu_entry : I unit :=
  modify (fun u => set_position (ui_cur_menu u) (ui_shown u) (len (ui_shown u) - 1)
                     (max_scroll (len (ui_shown u)) (ui_menu_height u)) u).
Definition select_first_menu_entry : I unit :=
  modify (fun u => set_position (ui_cur_menu u) (ui_shown u) 0 0 u).

Fixpoint repeatM (n : nat) (m : I unit) : I unit :=
  match n with O => mret tt | S n => m;; repeatM n m end.

(** [_select_selected_choice_sym] *)
Definition select_selected_choice_sym : I unit :=
  u ← gets id;
  match nd_item (node cfg (ui_cur_menu u)) with
  | NChoice c =>
      sel ← in_conf (ev_csel E c);
      match sel with
      | Some s =>
          match first_some (fun n => list_index n (ui_shown u)) (sym_nodes (sym cfg s)) with
          | Some i => modify (set_sel_node_i i);; center_vertically
          | None => mret tt
          end
      | None => mret tt
      end
  | _ => mret tt
  end.

(** [_enter_menu] *)
Definition enter_menu (menu : nodeid) : I bool :=
  if negb (nd_is_menuconfig (node cfg menu)) then mret false
  else
    shown_sub ← shown_now menu;
    match shown_sub with
    | [] => mret false
    | _ =>
        modify (fun u => set_parent_screen_rows
          (ui_parent_screen_rows u ++ [ui_sel_node_i u - ui_menu_scroll u]) u);;
        modify (set_position menu shown_sub 0 0);;
        match nd_item (node cfg menu) with
        | NChoice _ => select_selected_choice_sym
        | _ => mret tt
        end;;
        mret true
    end.

(** [_leave_menu] *)
Definition leave_menu : I unit :=
  u ← gets id;
  if bool_decide (ui_cur_menu u = c_top_node cfg) then mret tt
  else
    parent ← parent_menu (ui_cur_menu u);
    shown ← shown_now parent;
    modify (set_shown shown);;
    i ← index_or_raise (ui_cur_menu u) shown;
    modify (fun u => set_cur_menu parent (set_sel_node_i i u));;
    match reverse (ui_parent_screen_rows u) with
    | row :: rows =>
        modify (set_parent_screen_rows (reverse rows));;
        let screen_row := Z.min row (ui_menu_height u - 1) in
        modify (set_menu_scroll (Z.max (i - screen_row) 0))
    | [] => center_vertically
    end.

(** [_toggle_show_all]: the closest node that stays, upwards first *)
Definition toggle_target (shown new_shown : list nodeid) (sel : Z) : option Z :=
  let k := Z.to_nat sel in
  match first_some (fun n => list_index n new_shown) (reverse (take (S k) shown)) with
  | Some i => Some i
  | None => first_some (fun n => list_index n new_shown) (drop (S k) shown)
  end.

Definition toggle_show_all : I unit :=
  u ← gets id;
  let old_row := ui_sel_node_i u - ui_menu_scroll u in
  modify (set_show_all (negb (ui_show_all u)));;
  new_shown ← shown_now (ui_cur_menu u);
  match toggle_target (ui_shown u) new_shown (ui_sel_node_i u) with
  | Some i => modify (set_position (ui_cur_menu u) new_shown i (Z.max (i - old_row) 0))
  | None => modify (set_show_all true)
  end.

(** [_jump_to] *)
Definition jump_to (nd : nodeid) : I unit :=
  modify (set_parent_screen_rows []);;
  old_show_all ← gets ui_show_all;
  let jump_into := match nd_item (node cfg nd), nd_list (node cfg nd) with
                   | (NChoice _ | NMenu), Some l => Some l
                   | _, _ => None
                   end in
  match jump_into with
  | Some _ => modify (set_cur_menu nd)
  | None => p ← parent_menu nd; modify (set_cur_menu p)
  end;;
  let nd := default nd jump_into in
  menu ← gets ui_cur_menu;
  shown ← shown_now menu;
  modify (set_shown shown);;
  when (negb (bool_decide (nd ∈ shown)))
    (modify (set_show_all true);; shown ← shown_now menu; modify (set_shown shown));;
  shown ← gets ui_shown;
  i ← index_or_raise nd shown;
  modify (set_sel_node_i i);;
  new_show_all ← gets ui_show_all;
  when (bool_decide (is_Some jump_into) && negb old_show_all && new_show_all) toggle_show_all;;
  center_vertically;;
  match jump_into, nd_item (node cfg menu) with
  | Some _, NChoice _ => select_selected_choice_sym
  | _, _ => mret tt
  end.

(** ** Changing values *)

(** [_update_menu] *)
Definition update_menu : I unit :=
  u ← gets id;
  let old_row := ui_sel_node_i u - ui_menu_scroll u in
  sel_node ← item_at (ui_shown u) (ui_sel_node_i u);
  shown ← shown_now (ui_cur_menu u);
  modify (set_shown shown);;
  i ← index_or_raise sel_node shown;
  modify (set_sel_node_i i);;
  modify (set_menu_scroll (Z.max (i - old_row) 0)).

(** The symbol or choice of a node *)
Definition node_sc (n : nodeid) : option item :=
  match nd_item (node cfg n) with NSym s => Some (ISym s) | NChoice c => Some (IChoice c) | _ => None end.

Definition sc_orig_type (i : item) : stype :=
  match i with ISym s => sym_orig_type (sym cfg s) | IChoice c => ch_orig_type (chc cfg c) end.
Definition sc_assignable (i : item) : K (list Z) :=
  match i with ISym s => sym_assignable cfg E s | IChoice c => ch_assignable cfg E c end.
Definition sc_str_value (i : item) : K string :=
  match i with ISym s => ev_str E s | IChoice c => ch_str_value E c end.
Definition sc_tri_value (i : item) : K Z :=
  match i with ISym s => ev_tri E s | IChoice c => ev_ctri E c end.
Definition sc_set_value (i : item) (v : uval) : K bool :=
  match i with ISym s => set_value cfg depth s v | IChoice c => ch_set_value cfg depth c v end.

(** [_set_val] *)
Definition set_val (i : item) (val : uval) : I unit :=
  let val := match val with
             | UTri z => match TRI_TO_STR z with Some t => UStr t | None => val end
             | UStr _ => val
             end in
  old ← in_conf (sc_str_value i);
  when (negb (bool_decide (val = UStr old)))
    (in_conf (sc_set_value i val);;
     modify (set_conf_changed true);;
     update_menu).

(** [_is_y_mode_choice_sym] *)
Definition is_y_mode_choice_sym (i : item) : K bool :=
  match i with
  | ISym s =>
      match sym_choice (sym cfg s) with
      | Some _ => v ← ev_vis E s; mret (v =? 2)
      | None => mret false
      end
  | IChoice _ => mret false
  end.

(** [_changeable] *)
Definition changeable (n : nodeid) : K bool :=
  match node_sc n, nd_prompt (node cfg n) with
  | Some i, Some (_, cond) =>
      c ← expr_value cfg E cond;
      if c =? 0 then mret false
      else
        match sc_orig_type i with
        | STRING | INT | HEX => mret true
        | _ =>
            a ← sc_assignable i;
            if (1 <? len a) then mret true else is_y_mode_choice_sym i
        end
  | _, _ => mret false
  end.

(** [_set_sel_node_tri_val] *)
Definition set_sel_node_tri_val (tri_val : Z) : I unit :=
  u ← gets id;
  n ← item_at (ui_shown u) (ui_sel_node_i u);
  match node_sc n with
  | Some i =>
      a ← in_conf (sc_assignable i);
      when (bool_decide (tri_val ∈ a)) (set_val i (UTri tri_val))
  | None => mret tt
  end.
End Interface.
