(* ===== verification/Display.v ===== *)
(** * What the interface shows

    The text of a menu entry ([_node_str]) and of the information screen
    ([_info_str]).  They read values through the caches, so they run in the
    monad [K]. *)
From S2P Require Import Prelude PyStr PyText Model Eval SetValue Printing ConfigFile Sanity Menu.

Section Display.
Context (cfg : Config) (depth : nat).
Local Abbreviation E := (ev cfg depth).

Definition one_of_types (t : stype) (l : list stype) : bool := existsb (type_eqb t) l.
Definition quote (s : string) : string := String QUOTE (s +:+ String QUOTE "").
Definition line (s : string) : string := s +:+ String NL "".

(** The prompts at the places where a symbol or choice is defined *)
Definition node_prompts (ns : list nodeid) : list string := omap (fun n => fst <$> nd_prompt (node cfg n)) ns.
Definition items_of (n : nodeid) : option item := node_sc cfg n.
Definition sc_type (i : item) : K stype := match i with ISym s => sym_type cfg E s | IChoice c => ch_type cfg E c end.
Definition sc_name (i : item) : option string :=
  match i with ISym s => Some (sym_name (sym cfg s)) | IChoice c => ch_name (chc cfg c) end.
Definition sc_direct_dep (i : item) : expr :=
  match i with ISym s => sym_direct_dep (sym cfg s) | IChoice c => ch_direct_dep (chc cfg c) end.

(** ** Menu entries *)

(** [_value_str] *)
Definition value_str (n : nodeid) : K string :=
  match items_of n with
  | None => mret ""
  | Some i =>
      let t := sc_orig_type cfg i in
      if type_eqb t UNKNOWN then mret ""
      else if one_of_types t [STRING; INT; HEX] then v ← sc_str_value cfg depth i; mret ("(" +:+ v +:+ ")")
      else
        y ← is_y_mode_choice_sym cfg depth i;
        match y, i with
        | true, ISym s =>
            match sym_choice (sym cfg s) with
            | Some c => sel ← ev_csel E c; mret (if bool_decide (sel = Some s) then "(X)" else "( )")
            | None => raise AttributeError
            end
        | _, _ =>
            v ← sc_tri_value cfg depth i;
            c ← match [" "; "M"; "*"] !! Z.to_nat v with Some c => mret c | None => raise IndexError end;
            a ← sc_assignable cfg depth i;
            if len a <=? 1 then mret (match i with IChoice _ => "" | ISym _ => "-" +:+ c +:+ "-" end)
            else
              t ← sc_type i;
              if type_eqb t BOOL then mret ("[" +:+ c +:+ "]")
              else mret (if bool_decide (a = [1; 2]) then "{" +:+ c +:+ "}" else "<" +:+ c +:+ ">")
        end
  end.

(** [_should_show_name] *)
Definition should_show_name (show_name : bool) (n : nodeid) : bool :=
  bool_decide (nd_prompt (node cfg n) = None) || (show_name && has_some (items_of n)).

(** The indentation of an entry: four columns for each parent below the closest menu *)
Definition SUBMENU_INDENT : nat := 4%nat.
Fixpoint entry_indent (fuel : nat) (parent : option nodeid) : K nat :=
  match fuel, parent with
  | O, _ => raise Diverges
  | S _, None => raise AttributeError
  | S fuel, Some p =>
      if nd_is_menuconfig (node cfg p) then mret 0%nat
      else i ← entry_indent fuel (nd_parent (node cfg p)); mret (SUBMENU_INDENT + i)%nat
  end.

(** The prompt of the selected symbol of a choice, at this choice or anywhere *)
Definition selected_prompt (n : nodeid) (s : symid) : option string :=
  let ns := sym_nodes (sym cfg s) in
  let prompt m := fst <$> nd_prompt (node cfg m) in
  match first_some (fun m => if bool_decide (nd_parent (node cfg m) = Some n) then prompt m else None) ns with
  | Some p => Some p
  | None => first_some prompt ns
  end.

Definition is_new (s : symid) : K bool :=
  u ← sget user_value s;
  if bool_decide (u = None) && negb (type_eqb (sym_orig_type (sym cfg s)) UNKNOWN) then
    match sym_choice (sym cfg s) with
    | Some c => v ← ev_ctri E c; mret (negb (v =? 2))
    | None => mret true
    end
  else mret false.

(** [_node_str] *)
Definition entry_str (show_name show_all : bool) (n : nodeid) : K string :=
  let x := node cfg n in
  indent ← entry_indent (S (length (c_nodes cfg))) (nd_parent x);
  v ← value_str n;
  let s := ljust v (3 + indent) in
  let s := if should_show_name show_name n then
             match nd_item x with
             | NSym y => s +:+ " <" +:+ sym_name (sym cfg y) +:+ ">"
             | NChoice c => s +:+ " " +:+ standard_sc_expr_str cfg (IChoice c)
             | _ => s
             end
           else s in
  s ← match nd_prompt x with
      | None => mret s
      | Some (p, _) =>
          match nd_item x with
          | NComment => mret (s +:+ " *** " +:+ p +:+ " ***")
          | NSym y => new ← is_new y; mret (s +:+ " " +:+ p +:+ if new : bool then " (NEW)" else "")
          | _ => mret (s +:+ " " +:+ p)
          end
      end;
  s ← match nd_item x with
      | NChoice c =>
          v ← ev_ctri E c;
          if v =? 2 then
            sel ← ev_csel E c;
            mret (match sel with
                  | Some y => match selected_prompt n y with Some p => s +:+ " (" +:+ p +:+ ")" | None => s end
                  | None => s
                  end)
          else mret s
      | _ => mret s
      end;
  if nd_is_menuconfig x then
    sub ← shown_nodes cfg depth show_all n;
    mret (s +:+ match sub with [] => "  ----" | _ => "  --->" end)
  else mret s.

(** ** The information screen *)

(** [_name_and_val_str] *)
Definition name_and_val_str (i : item) : K string :=
  match i with
  | ISym s =>
      let x := sym cfg s in
      if negb (sym_is_constant x) && negb (is_num (sym_name x)) then
        match sym_nodes x with
        | [] => mret (sym_name x +:+ "(undefined/n)")
        | _ => v ← ev_str E s; mret (sym_name x +:+ "(=" +:+ v +:+ ")")
        end
      else mret (standard_sc_expr_str cfg i)
  | IChoice _ => mret (standard_sc_expr_str cfg i)
  end.

(** [_expr_str] *)
Definition value_expr_str (e : expr) : K string := expr_strM name_and_val_str e.

(** [_indent] *)
Definition indent_lines (s : string) (n : nat) : string :=
  py_join (String NL "") (map (fun l => spaces n +:+ l) (split_on NL s)).

(** [_name_info], [_prompt_info], [_value_info] *)
Definition name_info (i : item) : string :=
  match sc_name i with Some n => if String.eqb n "" then "" else line ("Name: " +:+ n) | None => "" end.
Definition prompt_info (i : item) : string :=
  String.concat "" (map (fun p => line ("Prompt: " +:+ p)) (node_prompts (item_nodes cfg i))).
Definition value_info (s : symid) : K string :=
  v ← ev_str E s;
  mret (line ("Value: " +:+ if type_eqb (sym_orig_type (sym cfg s)) STRING then quote v else v)).

(** [_choice_syms_info]; the selection is read for every symbol *)
Definition choice_syms_info (c : choiceid) : K string :=
  l ← mapM (fun s => sel ← ev_csel E c;
              mret (line ("  - " +:+ sym_name (sym cfg s) +:+ if bool_decide (sel = Some s) then " (selected)" else "")))
        (ch_syms (chc cfg c));
  mret (line (line "Choice symbols:" +:+ String.concat "" l)).

(** [_help_info] *)
Definition help_info (i : item) : string :=
  line "" +:+ String.concat "" (omap (fun n =>
    (fun h => line "Help:" +:+ line "" +:+ line (line (indent_lines h 2))) <$> nd_help (node cfg n)) (item_nodes cfg i)).

(** The value hint of an expression that is not a single symbol or choice *)
Definition value_hint (e : expr) : K string :=
  match e with
  | EItem _ => mret ""
  | _ => v ← expr_value cfg E e; t ← tri_to_str v; mret ("  (=" +:+ t +:+ ")")
  end.

(** [_split_expr_info] *)
Definition split_expr_info (e : expr) (indent : nat) : K string :=
  let '(op, op_str) := if (1 <? len (split_expr e AND)) then (AND, "&&") else (OR, "||") in
  l ← mapM (fun '(i, term) =>
        s ← value_expr_str term;
        h ← value_hint term;
        mret (line (spaces indent +:+ (if Nat.eqb i 0 then "  " else op_str) +:+ " " +:+ s +:+ h)))
      (imap pair (split_expr e op));
  mret (String.concat "" l).

(** [_direct_dep_info] *)
Definition direct_dep_info (i : item) : K string :=
  let d := sc_direct_dep i in
  if bool_decide (d = e_y cfg) then mret ""
  else v ← expr_value cfg E d; t ← tri_to_str v; s ← split_expr_info d 2;
       mret (line (line ("Direct dependencies (=" +:+ t +:+ "):") +:+ s)).

(** [_defaults_info]; the default of a choice must be a symbol or choice *)
Definition default_info (i : item) (d : expr * expr) : K string :=
  let '(val, cond) := d in
  s ← match i with
      | ISym _ => s ← value_expr_str val; h ← value_hint val; mret (s +:+ h)
      | IChoice _ => match val with
                     | EItem v => match sc_name v with Some n => mret n | None => raise TypeError end
                     | _ => raise AttributeError
                     end
      end;
  c ← (if bool_decide (cond = e_y cfg) then mret ""
       else v ← expr_value cfg E cond; t ← tri_to_str v; x ← split_expr_info cond 4;
            mret (line ("    Condition (=" +:+ t +:+ "):") +:+ x));
  mret (line ("  - " +:+ s) +:+ c).

Definition sc_defaults (i : item) : list (expr * expr) :=
  match i with ISym s => sym_defaults (sym cfg s) | IChoice c => ch_defaults (chc cfg c) end.

Definition defaults_info (i : item) : K string :=
  match sc_defaults i with
  | [] => mret ""
  | ds =>
      l ← mapM (default_info i) (flat_map (orig_defaults cfg) (item_nodes cfg i));
      mret (line (line ("Default" +:+ (if 1 <? len ds then "s" else "") +:+ ":") +:+ String.concat "" l))
  end.

(** [_select_imply_info] *)
Definition sis (e : expr) (val : Z) (title : string) : K string :=
  l ← filterM (fun si => v ← expr_value cfg E si; mret (v =? val)) (split_expr e OR);
  match l with
  | [] => mret ""
  | _ =>
      names ← mapM (fun si => match split_expr si AND with
                              | EItem i :: _ => mret (line ("  - " +:+ default "None" (sc_name i)))
                              | _ => raise AttributeError
                              end) l;
      mret (line (title +:+ String.concat "" names))
  end.

Definition sis_lines (e : expr) (word : string) : K string :=
  if bool_decide (e = e_n cfg) then mret ""
  else
    let title v := line ("Symbols currently " +:+ v +:+ "-" +:+ word +:+ " this symbol:") in
    y ← sis e 2 (title "y");
    m ← sis e 1 (title "m");
    n ← sis e 0 (line ("Symbols currently n-" +:+ word +:+ " this symbol (no effect):"));
    mret (y +:+ m +:+ n).

Definition select_imply_info (s : symid) : K string :=
  a ← sis_lines (sym_rev_dep (sym cfg s)) "selecting";
  b ← sis_lines (sym_weak_rev_dep (sym cfg s)) "implying";
  mret (a +:+ b).

(** [_include_path_info], [_menu_path_info] *)
Definition include_path_info (n : nodeid) : string :=
  match nd_include_path (node cfg n) with
  | [] => ""
  | l => line ("Included via " +:+ py_join " -> " (map (fun '(f, l) => f +:+ ":" +:+ py_str l) l))
  end.

Fixpoint menu_path (fuel : nat) (n : nodeid) (path : string) : K string :=
  match fuel with
  | O => raise Diverges
  | S fuel =>
      if bool_decide (nd_parent (node cfg n) = Some (c_top_node cfg)) then mret path
      else
        match nd_parent (node cfg n) with
        | None => raise AttributeError
        | Some p =>
            s ← match nd_prompt (node cfg p), items_of p with
                | Some (t, _), _ => mret t
                | None, Some i => mret (standard_sc_expr_str cfg i)
                | None, None => raise AttributeError
                end;
            menu_path fuel p (" -> " +:+ s +:+ path)
        end
  end.
Definition menu_path_info (n : nodeid) : K string :=
  s ← menu_path (S (length (c_nodes cfg))) n ""; mret ("(Top)" +:+ s).

(** [_kconfig_def_info] *)
Definition def_info (n : nodeid) : K string :=
  m ← menu_path_info n;
  d ← node_custom_str cfg name_and_val_str n;
  mret (line (line "") +:+ line ("At " +:+ nd_filename (node cfg n) +:+ ":" +:+ py_str (nd_linenr (node cfg n)))
        +:+ include_path_info n +:+ line (line ("Menu path: " +:+ m)) +:+ indent_lines d 2).

Definition kconfig_def_info (ns : list nodeid) : K string :=
  let s := line ("Kconfig definition" +:+ (if 1 <? len ns then "s" else "")
                 +:+ ", with parent deps. propagated to 'depends on'") in
  l ← mapM def_info ns;
  mret (s +:+ String.concat "" (repeat "=" (String.length s - 1)) +:+ String.concat "" l).

(** [_info_str] *)
Definition info_str (n : nodeid) : K string :=
  match items_of n with
  | Some (ISym s as i) =>
      t ← sym_type cfg E s;
      v ← value_info s;
      d ← direct_dep_info i;
      f ← defaults_info i;
      si ← select_imply_info s;
      k ← kconfig_def_info (item_nodes cfg i);
      mret (name_info i +:+ prompt_info i +:+ line ("Type: " +:+ TYPE_TO_STR t) +:+ v +:+ help_info i
            +:+ d +:+ f +:+ si +:+ k)
  | Some (IChoice c as i) =>
      t ← ch_type cfg E c;
      v ← ch_str_value E c;
      y ← choice_syms_info c;
      d ← direct_dep_info i;
      f ← defaults_info i;
      k ← kconfig_def_info (item_nodes cfg i);
      mret (name_info i +:+ prompt_info i +:+ line ("Type: " +:+ TYPE_TO_STR t) +:+ line ("Mode: " +:+ v)
            +:+ help_info i +:+ y +:+ d +:+ f +:+ k)
  | None => kconfig_def_info [n]
  end.
End Display.
