(* ===== verification/Style.v ===== *)
(** * Colours and styles of the interface

    [_parse_style], [_style_to_curses], [_style_attr] and the colour functions
    below them.  The calls of curses that change the terminal are kept in a list;
    what the terminal can do, the numbers of curses' attributes and the calls that
    it refuses are parameters.  Luminance is calculated with binary floating point
    numbers, as the source does. *)
From Stdlib Require Import Floats.SpecFloat.
From S2P Require Import Prelude PyStr PyText.

(** ** Numbers *)

(** [round(n / d)], to the nearest integer and to the even one of two *)
Definition round_div (n d : Z) : Z :=
  let q := n / d in let r := n mod d in
  if 2 * r <? d then q else if d <? 2 * r then q + 1 else if Z.even q then q else q + 1.

(** Double precision *)
Definition float_of (n : Z) : spec_float := binary_normalize 53 1024 n 0 false.
Definition float_mul := SFmul 53 1024.
Definition float_add := SFadd 53 1024.
Definition float_sub := SFsub 53 1024.
Definition float_div := SFdiv 53 1024.

(** [int(round(x))] of a number that is not too large *)
Definition round_float (x : spec_float) : Z :=
  match x with
  | S754_finite s m e =>
      let n := if s then Z.neg m else Z.pos m in
      if 0 <=? e then n * 2 ^ e else round_div n (2 ^ (- e))
  | _ => 0
  end.

(** ** Colours *)

Definition rgb : Type := Z * Z * Z.
Definition map_rgb (f : Z -> Z) (c : rgb) : rgb := let '(r, g, b) := c in (f r, f g, f b).

Definition rgb_to_6cube (c : rgb) : rgb :=
  map_rgb (fun x => if x <? 48 then 0 else if x - 55 <? 40 then 1 else round_div (x - 55) 40) c.

Definition cube6_to_rgb (c : rgb) : rgb := map_rgb (fun x => if x =? 0 then 0 else 40 * x + 55) c.

(** [0.299*rgb[0] + 0.587*rgb[1] + 0.114*rgb[2]] *)
Definition luma (c : rgb) : spec_float :=
  let '(r, g, b) := c in
  let weighted w x := float_mul (float_div (float_of w) (float_of 1000)) (float_of x) in
  float_add (float_add (weighted 299 r) (weighted 587 g)) (weighted 114 b).

Definition rgb_to_gray (c : rgb) : Z :=
  let index := round_float (float_div (float_sub (luma c) (float_of 8)) (float_of 10)) in
  Z.max 0 (Z.min index 23).

Definition gray_to_rgb (index : Z) : rgb := let x := 10 * index + 8 in (x, x, x).

(** The squared distance of two colours *)
Definition dist (c d : rgb) : Z :=
  let '(r, g, b) := c in let '(r', g', b') := d in
  (r - r') ^ 2 + (g - g') ^ 2 + (b - b') ^ 2.

(** ** The state: the calls made, the allocated colours and pairs, the styles *)

Inductive term_call :=
| init_color (index r g b : Z)
| init_pair (number fg bg : Z)
| use_default_colors
| style_warning (words : list string).

Record TermState := mkTermState {
  t_calls : list term_call;
  t_rgb2index : list (rgb * Z);
  t_color_attribs : list ((Z * Z) * Z);
  t_style : gmap string Z;
}.
Definition T : Type -> Type := M TermState.

Definition term_call_ (c : term_call) : T unit := modify (fun t =>
  mkTermState (t_calls t ++ [c]) (t_rgb2index t) (t_color_attribs t) (t_style t)).
Definition set_rgb2index v : T unit := modify (fun t => mkTermState (t_calls t) v (t_color_attribs t) (t_style t)).
Definition set_color_attribs v : T unit := modify (fun t => mkTermState (t_calls t) (t_rgb2index t) v (t_style t)).
Definition put_style (k : string) (v : Z) : T unit := modify (fun t =>
  mkTermState (t_calls t) (t_rgb2index t) (t_color_attribs t) (<[k := v]> (t_style t))).
Definition warn_style (words : list string) : T unit := term_call_ (style_warning words).

(** A dict with its keys in the order of insertion *)
Definition dict_get {A B} `{EqDecision A} (k : A) (d : list (A * B)) : option B :=
  first_some (fun p => if decide (p.1 = k) then Some p.2 else None) d.

Definition rgb_str (c : rgb) : string :=
  let '(r, g, b) := c in "(" +:+ py_str r +:+ ", " +:+ py_str g +:+ ", " +:+ py_str b +:+ ")".

Definition NAMED_COLORS : list (string * Z) :=
  [("black", 0); ("red", 1); ("green", 2); ("yellow", 3); ("blue", 4); ("magenta", 5); ("cyan", 6); ("white", 7);
   ("brightblack", 8); ("brightred", 9); ("brightgreen", 10); ("brightyellow", 11); ("brightblue", 12);
   ("brightmagenta", 13); ("brightcyan", 14); ("brightwhite", 15); ("purple", 5); ("brightpurple", 13)].

Definition STYLES : list (string * string) :=
  [("default",
    "path=fg:black,bg:white,bold separator=fg:black,bg:yellow,bold list=fg:black,bg:white selection=fg:white,bg:blue,bold inv-list=fg:red,bg:white inv-selection=fg:red,bg:blue help=path show-help=list frame=fg:black,bg:yellow,bold body=fg:white,bg:black edit=fg:white,bg:blue jump-edit=edit text=list");
   ("monochrome",
    "path=bold separator=fg:black,bg:yellow,bold list= selection=bold,standout inv-list=bold inv-selection=bold,standout selection=fg:black,bg:green,bold frame=fg:black,bg:yellow,bold help=bold frame=bold,standout body= edit=standout jump-edit= text=");
   ("aquatic",
    "path=fg:white,bg:blue separator=fg:white,bg:cyan help=path frame=fg:white,bg:cyan body=fg:white,bg:blue edit=fg:black,bg:white")].

Section Styles.
(** What the terminal can do *)
Context (has_colors can_change_color : bool) (COLORS : Z) (color_content : Z -> rgb).
(** The calls of curses that succeed, and the numbers it gives *)
Context (color_ok : Z -> rgb -> bool) (pair_ok : Z -> Z -> Z -> bool) (color_pair : Z -> Z).
Context (IS_WINDOWS : bool) (A_NORMAL A_BOLD A_STANDOUT A_UNDERLINE : Z).

Definition call_init_color (index : Z) (c : rgb) : T unit :=
  let '(r, g, b) := c in if color_ok index c then term_call_ (init_color index r g b) else raise CursesError.
Definition call_init_pair (number fg bg : Z) : T unit :=
  if pair_ok number fg bg then term_call_ (init_pair number fg bg) else raise CursesError.

Definition alloc_rgb (c : rgb) : T Z :=
  d ← gets t_rgb2index;
  match dict_get c d with
  | Some index => mret index
  | None =>
      let color_index := 16 + Z.of_nat (length d) in
      if 256 <=? color_index then
        warn_style ["Unable to allocate new RGB color "; rgb_str c; ". Too many colors allocated."];;
        mret 0
      else
        call_init_color color_index (map_rgb (fun x => round_div (1000 * x) 255) c);;
        set_rgb2index (d ++ [(c, color_index)]);;
        mret color_index
  end.

Definition color_from_num (num : Z) : T Z :=
  if (num <? 16) || (255 <? num) || negb can_change_color || (COLORS <? 256) then mret num
  else if num <? 232 then
    let num := num - 16 in
    alloc_rgb (cube6_to_rgb ((num / 36) mod 6, (num / 6) mod 6, num mod 6))
  else alloc_rgb (gray_to_rgb (num - 232)).

(** The best of the colours of the terminal: the first one nearest to [c] *)
Definition nearest_color (c : rgb) : Z :=
  (foldl (fun best color =>
     let d := dist c (map_rgb (fun x => round_div (255 * x) 1000) (color_content color)) in
     match best with
     | (Some min_dist, _) => if d <? min_dist then (Some d, color) else best
     | (None, _) => (Some d, color)
     end) (None, -1) (map Z.of_nat (seq 0 (Z.to_nat COLORS)))).2.

Definition color_from_rgb (c : rgb) : T Z :=
  if 256 <=? COLORS then
    if can_change_color then alloc_rgb c
    else
      let c6 := rgb_to_6cube c in
      let gray := rgb_to_gray c in
      if dist c (cube6_to_rgb c6) <? dist c (gray_to_rgb gray) then
        let '(r, g, b) := c6 in mret (16 + 36 * r + 6 * g + b)
      else mret (232 + gray)
  else mret (nearest_color c).

(** ** Styles *)

(** [_style_attr] *)
Definition style_attr (fg bg attribs : Z) : T Z :=
  if negb has_colors then mret attribs
  else
    d ← gets t_color_attribs;
    match dict_get (fg, bg) d with
    | Some a => mret (Z.lor a attribs)
    | None =>
        let n := Z.of_nat (length d) + 1 in
        call_init_pair n fg bg;;
        set_color_attribs (d ++ [((fg, bg), color_pair n)]);;
        mret (Z.lor (color_pair n) attribs)
    end.

(** [re.match("#[A-Fa-f0-9]{6}", s)] and the three numbers *)
Definition html_color (s : string) : option rgb :=
  match s with
  | String h (String a (String b (String c (String d (String e (String f _)))))) =>
      let two x y := match digit_value x, digit_value y with
                     | Some x, Some y => if (x <? 16) && (y <? 16) then Some (16 * x + y) else None
                     | _, _ => None end in
      if Ascii.eqb h "#" then
        match two a b, two c d, two e f with
        | Some r, Some g, Some b => Some (r, g, b)
        | _, _, _ => None
        end
      else None
  | _ => None
  end.

(** [s.split(":", 1)[1]] of a field that holds a colon *)
Fixpoint after_char (c : ascii) (s : string) : option string :=
  match s with
  | EmptyString => None
  | String d s' => if Ascii.eqb d c then Some s' else after_char c s'
  end.

Definition color_of_def (color_def : string) : option (T Z) :=
  match dict_get color_def NAMED_COLORS with
  | Some n => Some (color_from_num n)
  | None => color_from_num <$> py_int color_def 0
  end.

Definition parse_color (field : string) : T Z :=
  match after_char ":" field with
  | None => raise IndexError
  | Some color_def =>
      match html_color color_def with
      | Some c => color_from_rgb c
      | None =>
          match color_of_def color_def with
          | None =>
              warn_style ["Ignoring color"; color_def; "that's neither predefined nor a number"];;
              mret (-1)
          | Some m =>
              color_num ← m;
              if (-1 <=? color_num) && (color_num <? COLORS) then mret color_num
              else
                warn_style ["Ignoring color " +:+ color_def +:+ ", which is outside the range -1..curses.COLORS-1 (-1.."
                            +:+ py_str (COLORS - 1) +:+ ")"];;
                mret (-1)
          end
      end
  end.

(** One attribute of a style *)
Definition style_field (st : Z * Z * Z) (field : string) : T (Z * Z * Z) :=
  let '(fg, bg, attrs) := st in
  if startswith field "fg:" then c ← parse_color field; mret (c, bg, attrs)
  else if startswith field "bg:" then c ← parse_color field; mret (fg, c, attrs)
  else if String.eqb field "bold" then mret (fg, bg, Z.lor attrs (if IS_WINDOWS then A_NORMAL else A_BOLD))
  else if String.eqb field "standout" then mret (fg, bg, Z.lor attrs A_STANDOUT)
  else if String.eqb field "underline" then mret (fg, bg, Z.lor attrs A_UNDERLINE)
  else warn_style ["Ignoring unknown style attribute"; field];; mret st.

Definition style_to_curses (style_def : string) : T Z :=
  '(fg, bg, attrs) ← (if String.eqb style_def "" then mret (-1, -1, 0)
                      else foldM style_field (-1, -1, 0) (split_on "," style_def));
  style_attr fg bg attrs.

(** [key, data = sline.split("=", 1)] *)
Fixpoint key_data (s : string) : option (string * string) :=
  match s with
  | EmptyString => None
  | String c s' =>
      if Ascii.eqb c "=" then Some ("", s')
      else match key_data s' with Some (k, d) => Some (String c k, d) | None => None end
  end.

(** An assignment of a style *)
Definition style_assign (parsing_default : bool) (key data : string) : T unit :=
  style ← gets t_style;
  when (bool_decide (style !! key = None) && negb parsing_default) (warn_style ["Ignoring non-existent style"; key]);;
  match style !! data with
  | Some v => put_style key v
  | None => v ← style_to_curses data; put_style key v
  end.

(** [depth] bounds the templates in templates *)
Fixpoint parse_style (depth : nat) (style_str : string) (parsing_default : bool) : T unit :=
  match depth with
  | O => raise RecursionError
  | S depth =>
      forM_ (fields is_space style_str) (fun sline =>
        match key_data sline with
        | Some (key, data) => style_assign parsing_default key data
        | None =>
            match dict_get sline STYLES with
            | Some template => parse_style depth template parsing_default
            | None => warn_style ["Ignoring non-existent style template"; sline]
            end
        end)
  end.

(** [_init_styles]; [style] is MENUCONFIG_STYLE *)
Definition init_styles (style : option string) : T unit :=
  if has_colors then
    term_call_ use_default_colors;;
    parse_style 3 "monochrome" true;;
    match style with Some s => parse_style 3 s false | None => mret tt end
  else parse_style 3 "monochrome" true.
End Styles.
