(* ===== verification/Draw.v ===== *)
(** * What is drawn

    The functions that draw the windows: [_draw_main] and those of the dialogs.
    They read values through the caches and tell curses what to write where.
    [Platform] holds what the interface gets from outside: the environment, the
    terminal, regular expressions, and the table of styles that [_init_styles]
    has filled. *)
From stdpp Require Import list_numbers.
From S2P Require Import Prelude PyStr PyText Model Eval SetValue ConfigFile Edit Menu Display.

Record Platform := mkPlatform {
  pf_erase_char : option ascii;
  pf_getenv : string -> option string;
  pf_expanduser : string -> string;
  (** [strerror] of an error number, by its name *)
  pf_strerror : string -> string;
  pf_getcwd : string;
  (** [re.compile]: the message of [re.error], or [search] *)
  pf_re_compile : string -> string + (string -> bool);
  (** [textwrap.wrap] *)
  pf_wrap : string -> Z -> res (list string);
  (** [getyx] of a window after the given calls on it *)
  pf_getyx : list draw_call -> Z * Z;
  pf_style : gmap string Z;
}.

(** [s[a:b]] *)
Definition py_slice (s : string) (a b : Z) : string :=
  let at_ i := if i <? 0 then Z.max 0 (i + slen s) else Z.min i (slen s) in
  String.substring (Z.to_nat (at_ a)) (Z.to_nat (at_ b - at_ a)) s.

(** [_safe_addstr] at a position of a window of a width *)
Definition safe_addstr (width y x : Z) (s : string) (attr : option Z) : draw_call :=
  Addnstr y x (expandtabs s) (width - x) attr.

(** Text in the middle of a row *)
Definition title_call (width : Z) (title : string) : draw_call :=
  safe_addstr width 0 (Z.max ((width - slen title) / 2) 0) title None.

Definition N_SCROLL_ARROWS : Z := 14.
Definition MAIN_HELP : list string :=
  ["[Space/Enter] Toggle/enter  [ESC] Leave menu           [S] Save";
   "[O] Load                    [?] Symbol info            [/] Jump to symbol";
   "[F] Toggle show-help mode   [C] Toggle show-name mode  [A] Toggle show-all mode";
   "[Q] Quit (prompts for save) [D] Save minimal config (advanced)"].
Definition INFO_HELP : list string := ["[ESC/q] Return to menu      [/] Jump to symbol"].
Definition JUMP_TO_HELP : list string :=
  ["Type text to narrow the search. Regexes are supported (via Python's 're'";
   "module). The up/down cursor keys step in the list. [Enter] jumps to the";
   "selected symbol. [ESC] aborts the search. Type multiple space-separated";
   "strings/regexes to find entries that match all of them. Type Ctrl-F to";
   "view the help of the selected item without leaving the dialog."].

(** Lines below each other from row [y] on *)
Definition lines_at (width y x : Z) (l : list string) : list draw_call :=
  imap (fun i s => safe_addstr width (y + Z.of_nat i) x s None) l.

(** Arrows where the list can be scrolled *)
Definition arrows (b : bool) (g : glyph) : list draw_call := if b then [Hline 0 4 g N_SCROLL_ARROWS None] else [].

(** A window with the calls of one update *)
Definition update (w : window) (l : list draw_call) : I unit := draw w (Erase :: l ++ [Noutrefresh]).
Definition doupdate : I unit := draw stdscr [Doupdate].
Definition safe_curs_set (v : Z) : I unit := draw stdscr [Curs_set v].

Section Draw.
Context (cfg : Config) (depth : nat) (pf : Platform).
Local Abbreviation E := (ev cfg depth).

(** [_style[name]] *)
Definition get_style (name : string) : I Z :=
  match pf_style pf !! name with Some a => mret a | None => raise KeyError end.

(** [_set_style], [_styled_win] *)
Definition set_style (w : window) (name : string) : I unit := a ← get_style name; draw w [Bkgdset a].

(** ** The main display *)

(** [Kconfig.mainmenu_text] *)
Definition mainmenu_text : I string :=
  match nd_prompt (node cfg (c_top_node cfg)) with Some (p, _) => mret p | None => raise TypeError end.

(** The rows of the menu: indexes of shown nodes *)
Definition menu_rows (u : UI) : list Z :=
  let scroll := ui_menu_scroll u in
  seqZ scroll (Z.min (scroll + ui_menu_height u) (len (ui_shown u)) - scroll).

(** One row *)
Definition draw_row (i : Z) : I unit :=
  u ← gets id;
  nd ← item_at (ui_shown u) i;
  v ← in_conf (visible cfg depth nd);
  let selected := i =? ui_sel_node_i u in
  style ← get_style (if (v : bool) || negb (ui_show_all u) then if selected then "selection" else "list"
                     else if selected then "inv-selection" else "inv-list");
  s ← in_conf (entry_str cfg depth (ui_show_name u) (ui_show_all u) nd);
  draw menu_win [safe_addstr (ui_screen u).2 (i - ui_menu_scroll u) 0 s (Some style)].

(** The separator above the help *)
Definition enabled_modes (u : UI) : list string :=
  (if ui_show_help u then ["show-help (toggle with [F])"] else [])
  ++ (if ui_show_name u then ["show-name"] else []) ++ (if ui_show_all u then ["show-all"] else []).
Definition bot_sep_calls (u : UI) : list draw_call :=
  arrows (ui_menu_scroll u <? max_scroll (len (ui_shown u)) (ui_menu_height u)) ACS_DARROW
  ++ match enabled_modes u with
     | [] => []
     | l => let s := py_join " and " l +:+ " mode enabled" in
            let width := (ui_screen u).2 in
            [safe_addstr width 0 (Z.max (width - slen s - 2) 0) s None]
     end.

(** The height of the help window *)
Definition help_height (u : UI) : Z :=
  let h := if ui_show_help u then SHOW_HELP_HEIGHT else MAIN_HELP_LINES in
  if 1 <=? (ui_screen u).1 - h - 3 then h else 1.

(** The help text of a node, as far as it fits *)
Definition node_help_calls (height width : Z) (nd : nodeid) : I (list draw_call) :=
  match node_sc cfg nd, nd_help (node cfg nd) with
  | Some _, Some help =>
      if String.eqb help "" then mret [safe_addstr width 0 0 "(no help)" None]
      else
        help_lines ← lift_res (pf_wrap pf help width);
        mret (lines_at width 0 0 (take (Z.to_nat height) help_lines))
  | _, _ => mret [safe_addstr width 0 0 "(no help)" None]
  end.

(** The help window *)
Definition help_calls : I (list draw_call) :=
  u ← gets id;
  if ui_show_help u then
    nd ← item_at (ui_shown u) (ui_sel_node_i u);
    node_help_calls (help_height u) (ui_screen u).2 nd
  else mret (lines_at (ui_screen u).2 0 0 MAIN_HELP).

(** The prompts of the menus from [menu] up to the top, innermost first *)
Fixpoint path_prompts (fuel : nat) (menu : option nodeid) : I (list string) :=
  match fuel with
  | O => raise Diverges
  | S fuel =>
      match menu with
      | None => raise AttributeError
      | Some m =>
          if bool_decide (m = c_top_node cfg) then mret []
          else
            p ← match nd_prompt (node cfg m), node_sc cfg m with
                | Some (p, _), _ => mret p
                | None, Some sc => mret (standard_sc_expr_str cfg sc)
                | None, None => raise AttributeError
                end;
            l ← path_prompts fuel (nd_parent (node cfg m));
            mret (p :: l)
      end
  end.

(** [_safe_addstr] at the cursor, after the calls [l] *)
Definition addstr_here (width : Z) (l : list draw_call) (s : string) : list draw_call :=
  let '(y, x) := pf_getyx pf l in l ++ [safe_addstr width y x s None].

(** The path; NUL stands for the arrows *)
Definition path_calls (width : Z) (prompts : list string) : list draw_call :=
  let path := py_join (" " +:+ String (chr 0) " ") (rev (prompts ++ ["(Top)"])) in
  let path := if width <? slen path then py_slice path (slen path - width) (slen path) else path in
  match split_on (chr 0) path with
  | [] => [Erase]
  | s :: l => foldl (fun calls s => addstr_here width (calls ++ [Addch ACS_RARROW]) s) (addstr_here width [Erase] s) l
  end.

(** [_draw_main] *)
Definition draw_main : I unit :=
  u ← gets id;
  draw top_sep_win (Erase :: arrows (0 <? ui_menu_scroll u) ACS_UARROW);;
  title ← mainmenu_text;
  draw top_sep_win [title_call (ui_screen u).2 title; Noutrefresh];;
  draw menu_win [Erase];;
  forM_ (menu_rows u) draw_row;;
  draw menu_win [Noutrefresh];;
  update bot_sep_win (bot_sep_calls u);;
  draw help_win [Erase];;
  help ← help_calls;
  draw help_win (help ++ [Noutrefresh]);;
  prompts ← path_prompts (S (length (c_nodes cfg))) (Some (ui_cur_menu u));
  draw path_win (path_calls (ui_screen u).2 prompts ++ [Noutrefresh]).

(** ** Dialogs *)

(** [_draw_frame] *)
Definition frame_calls (height width : Z) (title : string) (frame : Z) : list draw_call :=
  [Attron frame; Hline 0 0 BLANK width None; Hline (height - 1) 0 BLANK width None;
   Vline 0 0 BLANK height; Vline 0 (width - 1) BLANK height; title_call width title; Attroff frame].

(** A window in the middle of the screen *)
Definition centered (screen : Z * Z) (height width : Z) : list draw_call :=
  [Resize height width; Mvwin ((screen.1 - height) / 2) ((screen.2 - width) / 2)].

(** [_draw_key_dialog] *)
Definition draw_key_dialog (height width : Z) (title text : string) : I unit :=
  draw body_win (Erase :: lines_at width 2 2 (split_on NL text));;
  frame ← get_style "frame";
  draw body_win (frame_calls height width title frame ++ [Noutrefresh]).

(** [_draw_input_dialog] *)
Definition draw_input_dialog (height width : Z) (title : string) (info_lines : list string) (s : string) (i hscroll : Z)
    : I unit :=
  let edit_width := width - 4 in
  let visible_s := py_slice s hscroll (hscroll + edit_width) in
  edit ← get_style "edit";
  draw body_win (Erase
    :: safe_addstr width 2 2 (visible_s +:+ spaces (Z.to_nat (edit_width - slen visible_s))) (Some edit)
    :: lines_at width 4 2 info_lines);;
  frame ← get_style "frame";
  draw body_win (frame_calls height width title frame ++ [Move 2 (2 + i - hscroll); Noutrefresh]).

(** The text of a match in the search dialog *)
Definition match_str (nd : nodeid) : I string :=
  let prompt := fst <$> nd_prompt (node cfg nd) in
  match node_sc cfg nd with
  | Some sc =>
      s ← in_conf (name_and_val_str cfg depth sc);
      mret match prompt with Some p => s +:+ " " +:+ quote p | None => s end
  | None =>
      match prompt with
      | Some p => mret ((match nd_item (node cfg nd) with NMenu => "menu " | _ => "comment " end) +:+ quote p)
      | None => raise TypeError
      end
  end.

(** [_draw_jump_to_dialog]; [height] is that of the list of matches *)
Definition draw_match (width scroll sel : Z) (matches : list nodeid) (i : Z) : I unit :=
  nd ← item_at matches i;
  s ← match_str nd;
  style ← get_style (if i =? sel then "selection" else "list");
  draw matches_win [safe_addstr width (i - scroll) 0 s (Some style)].

Definition draw_jump_to_dialog (box_height height width : Z) (s : string) (s_i hscroll : Z) (bad_re : option string)
    (matches : list nodeid) (sel scroll : Z) : I unit :=
  let edit_width := width - 2 in
  draw matches_win [Erase];;
  match matches with
  | [] => draw matches_win [safe_addstr width 0 0 (default "No matches" bad_re) None]
  | _ => forM_ (seqZ scroll (Z.min (scroll + height) (len matches) - scroll)) (draw_match width scroll sel matches)
  end;;
  draw matches_win [Noutrefresh];;
  update matches_sep_win (arrows (scroll <? max_scroll (len matches) height) ACS_DARROW);;
  update matches_help_win (lines_at width 0 0 JUMP_TO_HELP);;
  draw edit_box [Erase];;
  frame ← get_style "frame";
  draw edit_box (frame_calls box_height width "Jump to symbol/choice/menu/comment" frame
    ++ (if 0 <? scroll then [Hline 2 4 ACS_UARROW N_SCROLL_ARROWS (Some frame)] else [])
    ++ [safe_addstr width 1 1 (py_slice s hscroll (hscroll + edit_width)) None; Move 1 (1 + s_i - hscroll); Noutrefresh]).

(** [_draw_info_dialog] *)
Definition info_title (nd : nodeid) : string :=
  (match nd_item (node cfg nd) with
   | NSym _ => "Symbol" | NChoice _ => "Choice" | NMenu => "Menu" | _ => "Comment" end) +:+ " information".

Definition draw_info_dialog (height width : Z) (nd : nodeid) (lines : list string) (scroll : Z) : I unit :=
  update text_win (lines_at width 0 0 (take (Z.to_nat height) (drop (Z.to_nat scroll) lines)));;
  update text_sep_win (arrows (scroll <? max_scroll (len lines) height) ACS_DARROW);;
  update text_help_win (lines_at width 0 0 INFO_HELP);;
  update top_line_win (arrows (0 <? scroll) ACS_UARROW ++ [title_call width (info_title nd)]).
End Draw.
