(* ===== verification/Dialogs.v ===== *)
(** * The dialogs and the main loop of the interface

    [_input_dialog], [_key_dialog], the dialogs built from them, the search and
    the information dialog, [_change_node], and the loop [_menuconfig] that draws
    the screen and reads keys.  Each loop consumes at least one key per round, so
    the number of keys that are left bounds it. *)
From S2P Require Import Prelude PyStr PyText Model Eval SetValue ConfigFile Edit Menu Display Draw.

Section Dialogs.
Context (cfg : Config) (depth : nat) (pf : Platform).
Local Abbreviation E := (ev cfg depth).
Local Abbreviation erase_char := (pf_erase_char pf).
Local Abbreviation getenv := (pf_getenv pf).
Local Abbreviation draw_main := (draw_main cfg depth pf).
Local Abbreviation styled_win := (set_style pf).

(** [_getch_compat]; no key is left when the terminal has gone away *)
Definition getch : I key :=
  u ← gets id;
  match ui_input u with
  | [] => raise CursesError
  | k :: ks =>
      modify (set_input ks);;
      match k with KEY_RESIZE h w => modify (set_screen (h, w)) | _ => mret tt end;;
      mret k
  end.

Definition keys_left : I nat := gets (fun u => S (length (ui_input u))).

Definition is_escape (k : key) : bool := is_char k 27.
Definition is_newline (k : key) : bool := is_char k 10.

(** ** Key dialogs *)

(** The size that [_resize_key_dialog] gives the window *)
Definition key_dialog_size (text : string) (screen : Z * Z) : Z * Z :=
  let lines := split_on NL text in
  (Z.min (len lines + 4) screen.1, Z.min (foldl Z.max 0 (map slen lines) + 4) screen.2).

Definition resize_key_dialog (text : string) : I unit :=
  screen ← gets ui_screen;
  let '(height, width) := key_dialog_size text screen in draw body_win (centered screen height width).

(** The loop of [_key_dialog]: the key that closed the dialog, lowercase, or [None] for ESC *)
Fixpoint key_dialog_ (fuel : nat) (title text keys : string) : I (option ascii) :=
  match fuel with
  | O => raise Diverges
  | S fuel =>
      draw_main;;
      screen ← gets ui_screen;
      let '(height, width) := key_dialog_size text screen in
      draw_key_dialog pf height width title text;;
      doupdate;;
      c ← getch;
      match c with
      | KEY_RESIZE _ _ => resize_main;; resize_key_dialog text;; key_dialog_ fuel title text keys
      | KChar ch =>
          if is_escape c then mret None
          else if is_one_of (KChar (lower_char ch)) keys then mret (Some (lower_char ch))
          else key_dialog_ fuel title text keys
      | _ => key_dialog_ fuel title text keys
      end
  end.

(** [_key_dialog] *)
Definition key_dialog (title text keys : string) : I (option ascii) :=
  styled_win body_win "body";;
  resize_key_dialog text;;
  n ← keys_left;
  key_dialog_ n title text keys.

(** [_msg], [_error] *)
Definition msg (title text : string) : I unit := key_dialog title text (" " +:+ String NL "");; mret tt.
Definition error (text : string) : I unit := msg "Error" text.

(** ** The input dialog *)

Definition INPUT_DIALOG_MIN_WIDTH : Z := 30.

(** The width of the window that [_resize_input_dialog] sets *)
Definition input_dialog_width (title : string) (info_lines : list string) (screen_width : Z) : Z :=
  Z.min (foldl Z.max (Z.max INPUT_DIALOG_MIN_WIDTH (slen title + 4)) (map (fun l => slen l + 4) info_lines))
    screen_width.
Definition input_dialog_height (info_lines : list string) (screen_height : Z) : Z :=
  Z.min (match info_lines with [] => 5 | _ => 5 + (len info_lines + 1) end) screen_height.

(** [_resize_input_dialog] *)
Definition resize_input_dialog (title : string) (info_lines : list string) : I unit :=
  screen ← gets ui_screen;
  draw body_win (centered screen (input_dialog_height info_lines screen.1)
                   (input_dialog_width title info_lines screen.2)).

(** The loop of [_input_dialog] *)
Fixpoint input_loop (fuel : nat) (title : string) (info_lines : list string) (s : string) (i hscroll width : Z)
    : I (option string) :=
  match fuel with
  | O => raise Diverges
  | S fuel =>
      draw_main;;
      screen ← gets ui_screen;
      draw_input_dialog pf (input_dialog_height info_lines screen.1) width title info_lines s i hscroll;;
      doupdate;;
      c ← getch;
      match c with
      | KEY_RESIZE _ w =>
          resize_main;;
          resize_input_dialog title info_lines;;
          input_loop fuel title info_lines s i hscroll (input_dialog_width title info_lines w)
      | _ =>
          if is_newline c then safe_curs_set 0;; mret (Some s)
          else if is_escape c then safe_curs_set 0;; mret None
          else
            let '(s, i, hscroll) := edit_text erase_char c s i hscroll (width - 4) in
            input_loop fuel title info_lines s i hscroll width
      end
  end.

(** [_input_dialog] *)
Definition input_dialog (title initial_text : string) (info_text : option string) : I (option string) :=
  styled_win body_win "body";;
  u ← gets id;
  let info_lines := match info_text with
                    | Some t => if String.eqb t "" then [] else split_on NL t
                    | None => []
                    end in
  resize_input_dialog title info_lines;;
  safe_curs_set 2;;
  let width := input_dialog_width title info_lines (ui_screen u).2 in
  let i := slen initial_text in
  n ← keys_left;
  input_loop n title info_lines initial_text i (Z.max (i - (width - 4) + 1) 0) width.

(** ** Changing the value of a node *)

(** [_range_info] *)
Definition range_info (i : item) : K (option string) :=
  match i with
  | ISym s =>
      if is_int_hex (sym_orig_type (sym cfg s)) then
        first_someM (fun '(low, high, cond) =>
          c ← expr_value cfg E cond;
          if c =? 0 then mret None
          else l ← ev_str E low; h ← ev_str E high; mret (Some ("Range: " +:+ l +:+ "-" +:+ h)))
          (sym_ranges (sym cfg s))
      else mret None
  | IChoice _ => mret None
  end.

(** [_check_valid], up to the error dialog: what is wrong with [v], if anything.
    [int] raises [ValueError] when a bound is not a number *)
Definition check_valid_ (s : symid) (v : string) : K (option string) :=
  let t := sym_orig_type (sym cfg s) in
  if negb (is_int_hex t) then mret None
  else
    let base := TYPE_TO_BASE t in
    match py_int v base with
    | None => mret (Some ("'" +:+ v +:+ "' is a malformed " +:+ TYPE_TO_STR t +:+ " value"))
    | Some n =>
        r ← first_someM (fun '(low_sym, high_sym, cond) =>
              c ← expr_value cfg E cond;
              if c =? 0 then mret None
              else
                low_s ← ev_str E low_sym;
                high_s ← ev_str E high_sym;
                let outside := Some (v +:+ " is outside the range " +:+ low_s +:+ "-" +:+ high_s) in
                match py_int low_s base with
                | None => raise ValueError
                | Some low =>
                    if low <=? n then
                      match py_int high_s base with
                      | None => raise ValueError
                      | Some high => mret (Some (if n <=? high then None else outside))
                      end
                    else mret (Some outside)
                end) (sym_ranges (sym cfg s));
        mret (default None r)
    end.

(** [_check_valid] *)
Definition check_valid (s : symid) (v : string) : I bool :=
  r ← in_conf (check_valid_ s v);
  match r with None => mret true | Some text => error text;; mret false end.

(** What is done to the text before it is checked *)
Definition normalize_input (t : stype) (v : string) : string :=
  if is_int_hex t then
    let v := strip v in
    if type_eqb t HEX && negb (startswith v "0x" || startswith v "0X") then "0x" +:+ v else v
  else v.

(** The loop of [_change_node] that asks for a value until it is valid *)
Fixpoint ask_value (fuel : nat) (s : symid) (title v : string) (info : option string) : I unit :=
  match fuel with
  | O => raise Diverges
  | S fuel =>
      r ← input_dialog title v info;
      match r with
      | None => mret tt
      | Some v =>
          let v := normalize_input (sym_orig_type (sym cfg s)) v in
          ok ← check_valid s v;
          if ok : bool then set_val cfg depth (ISym s) (UStr v)
          else ask_value fuel s title v info
      end
  end.

(** [_change_node] *)
Definition change_node (nd : nodeid) : I bool :=
  b ← in_conf (changeable cfg depth nd);
  if negb b then mret false
  else
    match node_sc cfg nd with
    | None => mret false
    | Some i =>
        match i, sc_orig_type cfg i with
        | ISym s, (STRING | INT | HEX) as t =>
            v ← in_conf (ev_str E s);
            p ← in_conf (prompt_text cfg nd);
            info ← in_conf (range_info i);
            n ← keys_left;
            ask_value n s (p +:+ " (" +:+ TYPE_TO_STR (sym_orig_type (sym cfg s)) +:+ ")") v info
        | _, _ =>
            a ← in_conf (sc_assignable cfg depth i);
            match a with
            | [v] => set_val cfg depth i (UTri v)
            | _ =>
                v ← in_conf (sc_tri_value cfg depth i);
                match list_index v a with
                | Some k =>
                    match a !! Z.to_nat ((k + 1) mod len a) with
                    | Some v => set_val cfg depth i (UTri v)
                    | None => raise IndexError
                    end
                | None => raise ValueError
                end
            end
        end;;
        y ← in_conf (is_y_mode_choice_sym cfg depth i);
        when (y && bool_decide (nd_list (node cfg nd) = None)) (leave_menu cfg depth);;
        mret true
    end.

(** ** Loading and saving *)

Definition load_save_info : string := "(Relative to " +:+ path_join (pf_getcwd pf) "" +:+ ")" +:+ String NL (String NL
  "Refer to your home directory with ~").

(** The text of an [OSError] *)
Definition os_error_text (what errno : string) : string :=
  what +:+ String NL (String NL (pf_strerror pf errno +:+ " (errno: " +:+ errno +:+ ")")).

(** [_try_load]; an [OSError] is shown *)
Definition try_load (filename : string) : I bool := fun u =>
  match in_world (load_config cfg depth getenv (Some filename) true) u with
  | (Ok _, u') => (Ok true, u')
  | (Err (OSError e), u') => (error (os_error_text ("Error loading '" +:+ filename +:+ "'") e);; mret false) u'
  | (Err e, u') => (Err e, u')
  end.

(** [_try_save] *)
Definition try_save (save_fn : string -> W string) (filename description : string) : I (option string) := fun u =>
  match in_world (save_fn filename) u with
  | (Ok m, u') => (Ok (Some m), u')
  | (Err (OSError e), u') =>
      (error (os_error_text ("Error saving " +:+ description +:+ " to '" +:+ filename +:+ "'") e);; mret None) u'
  | (Err e, u') => (Err e, u')
  end.

Definition save_config (filename : string) : W string := write_config cfg depth getenv (Some filename) None true.
Definition save_min_config (filename : string) : W string := write_min_config cfg depth filename None.

(** [_save_dialog] *)
Fixpoint save_dialog_ (fuel : nat) (save_fn : string -> W string) (filename description : string)
    : I (option string) :=
  match fuel with
  | O => raise Diverges
  | S fuel =>
      r ← input_dialog ("Filename to save " +:+ description +:+ " to") filename (Some load_save_info);
      match r with
      | None => mret None
      | Some f =>
          let f := pf_expanduser pf f in
          m ← try_save save_fn f description;
          match m with
          | Some t => if String.eqb t "" then save_dialog_ fuel save_fn f description else msg "Success" t;; mret (Some f)
          | None => save_dialog_ fuel save_fn f description
          end
      end
  end.
Definition save_dialog (save_fn : string -> W string) (default_filename description : string) : I (option string) :=
  n ← keys_left; save_dialog_ n save_fn default_filename description.

(** [_needs_save]: the body after the first [return] is never reached *)
Definition needs_save : K bool := mret true.

(** The loop of [_load_dialog] *)
Fixpoint load_dialog_ (fuel : nat) (filename : string) : I unit :=
  match fuel with
  | O => raise Diverges
  | S fuel =>
      r ← input_dialog "File to load" filename (Some load_save_info);
      match r with
      | None => mret tt
      | Some f =>
          let f := pf_expanduser pf f in
          ok ← try_load f;
          if ok : bool then
            modify (set_conf_filename f);;
            b ← in_conf needs_save;
            modify (set_conf_changed b);;
            u ← gets id;
            n ← item_at (ui_shown u) (ui_sel_node_i u);
            shown ← shown_now cfg depth (ui_cur_menu u);
            when (negb (bool_decide (n ∈ shown))) (modify (set_show_all true));;
            update_menu cfg depth;;
            msg "Success" ("Loaded " +:+ f)
          else load_dialog_ fuel f
      end
  end.

(** [_load_dialog] *)
Definition load_dialog : I unit :=
  changed ← gets ui_conf_changed;
  go ← (if changed : bool then
          c ← key_dialog "Load" (py_join (String NL "")
                ["You have unsaved changes. Load new"; "configuration anyway?"; ""; "         (O)K  (C)ancel"]) "oc";
          mret (match c with Some k => negb (Ascii.eqb k "c") | None => false end)
        else mret true);
  when go (f ← gets ui_conf_filename; n ← keys_left; load_dialog_ n f).

Definition QUIT_TEXT : string :=
  py_join (String NL "") [" Save configuration?"; ""; "(Y)es  (N)o  (C)ancel"].

(** [_quit_dialog]: the message to leave the interface with, or [None] to go on *)
Fixpoint quit_dialog_ (fuel : nat) : I (option string) :=
  match fuel with
  | O => raise Diverges
  | S fuel =>
      c ← key_dialog "Quit" QUIT_TEXT ("ync" +:+ String NL "");
      f ← gets ui_conf_filename;
      match c with
      | None => mret None
      | Some k =>
          if Ascii.eqb k "c" then mret None
          else if Ascii.eqb k "y" || Ascii.eqb k NL then
            m ← try_save save_config f "configuration";
            match m with
            | Some t => if String.eqb t "" then quit_dialog_ fuel else mret (Some t)
            | None => quit_dialog_ fuel
            end
          else if Ascii.eqb k "n" then mret (Some ("Configuration (" +:+ f +:+ ") was not saved"))
          else quit_dialog_ fuel
      end
  end.
Definition quit_dialog : I (option string) :=
  u ← gets id;
  if negb (ui_conf_changed u) then mret (Some ("No changes to save (for '" +:+ ui_conf_filename u +:+ "')"))
  else n ← keys_left; quit_dialog_ n.

(** ** Searching *)

(** [sorted(l, key=...)]: stable insertion *)
Fixpoint insert_by {A} (lt : A -> A -> bool) (x : A) (l : list A) : list A :=
  match l with
  | [] => [x]
  | y :: l' => if lt x y then x :: l else y :: insert_by lt x l'
  end.
Definition sorted_by {A} (k : A -> string) (l : list A) : list A :=
  foldl (fun acc x => insert_by (fun a b => str_ltb (k a) (k b)) x acc) [] l.

Definition node_prompt_text (n : nodeid) : string :=
  match nd_prompt (node cfg n) with Some (p, _) => p | None => "" end.

(** [_sorted_sc_nodes], [_sorted_menu_comment_nodes] *)
Definition sorted_sc_nodes : list nodeid :=
  flat_map (fun s => sym_nodes (sym cfg s)) (sorted_by (fun s => sym_name (sym cfg s)) (c_unique_defined_syms cfg))
  ++ sorted_by node_prompt_text
       (flat_map (fun c => ch_nodes (chc cfg c))
          (sorted_by (fun c => default "" (ch_name (chc cfg c))) (c_unique_choices cfg))).
Definition sorted_menu_comment_nodes : list nodeid :=
  sorted_by node_prompt_text (c_menus cfg) ++ sorted_by node_prompt_text (c_comments cfg).

(** The name and prompt a search looks at *)
Definition sc_search_name (n : nodeid) : option string :=
  match nd_item (node cfg n) with
  | NSym s => Some (sym_name (sym cfg s))
  | NChoice c => ch_name (chc cfg c)
  | _ => None
  end.
Definition matches_sc (n : nodeid) (search : string -> bool) : bool :=
  match sc_search_name n with Some x => negb (String.eqb x "") && search (str_lower x) | None => false end
  || match nd_prompt (node cfg n) with Some (p, _) => search (str_lower p) | None => false end.
Definition matches_mc (n : nodeid) (search : string -> bool) : bool := search (str_lower (node_prompt_text n)).

(** The functions of the words of the search text, or the message for the first bad one *)
Fixpoint compile_all (l : list string) : string + list (string -> bool) :=
  match l with
  | [] => inr []
  | r :: l =>
      match pf_re_compile pf r with
      | inl m => inl ("Bad regular expression: " +:+ m)
      | inr f => match compile_all l with inl m => inl m | inr fs => inr (f :: fs) end
      end
  end.

(** The nodes that match all the words of the search text; none when one is a bad regular expression *)
Definition search_matches_ (s : string) : option string * list nodeid :=
  match compile_all (fields is_space (str_lower s)) with
  | inl m => (Some m, [])
  | inr searches =>
      (None, List.filter (fun n => forallb (matches_sc n) searches) sorted_sc_nodes
             ++ List.filter (fun n => forallb (matches_mc n) searches) sorted_menu_comment_nodes)
  end.
Definition search_matches (s : string) : list nodeid := (search_matches_ s).2.
Definition bad_re (s : string) : option string := (search_matches_ s).1.

(** The selected row and the scroll of the list of matches *)
Definition select_next_match (n height : Z) (p : Z * Z) : Z * Z :=
  let '(sel, scroll) := p in
  if sel =? n - 1 then p
  else if (scroll + height - SCROLL_OFFSET <=? sel + 1) && (scroll <? max_scroll n height)
  then (sel + 1, scroll + 1) else (sel + 1, scroll).
Definition select_prev_match (p : Z * Z) : Z * Z :=
  let '(sel, scroll) := p in
  if sel =? 0 then p
  else if sel - 1 <? scroll + SCROLL_OFFSET then (sel - 1, Z.max (scroll - 1) 0) else (sel - 1, scroll).

(** The height of the list and the scroll that [_resize_jump_to_dialog] sets *)
Definition JUMP_TO_HELP_LINES : Z := 5.
Definition matches_height (screen_height : Z) : Z :=
  let h := screen_height - JUMP_TO_HELP_LINES - 4 in if 1 <=? h then h else 1.
Definition resize_matches (screen_height : Z) (p : Z * Z) : Z * Z :=
  let h := matches_height screen_height in
  (p.1, if h <=? p.1 - p.2 then p.1 - h + 1 else p.2).

(** The calls of [_resize_jump_to_dialog] on the windows *)
Definition edit_box_height (screen_height : Z) : Z :=
  if 1 <=? screen_height - JUMP_TO_HELP_LINES - 4 then 3 else screen_height.
Definition resize_jump_to_dialog : I unit :=
  screen ← gets ui_screen;
  let '(screen_height, screen_width) := screen in
  let h := screen_height - JUMP_TO_HELP_LINES - 4 in
  draw_all ((matches_sep_win, Resize 1 screen_width)
    :: if 1 <=? h then
         [(edit_box, Resize 3 screen_width); (matches_win, Resize h screen_width);
          (matches_help_win, Resize JUMP_TO_HELP_LINES screen_width); (matches_win, Mvwin 3 0);
          (matches_sep_win, Mvwin (3 + h) 0); (matches_help_win, Mvwin (3 + h + 1) 0)]
       else
         [(edit_box, Resize screen_height screen_width); (matches_win, Resize 1 screen_width);
          (matches_help_win, Resize 1 screen_width); (matches_win, Mvwin 0 0); (matches_sep_win, Mvwin 0 0);
          (matches_help_win, Mvwin 0 0)]).

(** ** The information dialog *)

Definition INFO_HELP_LINES : Z := 1.
Definition text_height (screen_height : Z) : Z :=
  let h := screen_height - INFO_HELP_LINES - 2 in if 1 <=? h then h else 1.

(** [_resize_info_dialog] *)
Definition resize_info_dialog : I unit :=
  screen ← gets ui_screen;
  let '(screen_height, screen_width) := screen in
  let h := screen_height - INFO_HELP_LINES - 2 in
  draw_all ((top_line_win, Resize 1 screen_width) :: (text_sep_win, Resize 1 screen_width)
    :: if 1 <=? h then
         [(text_win, Resize h screen_width); (text_help_win, Resize INFO_HELP_LINES screen_width);
          (text_win, Mvwin 1 0); (text_sep_win, Mvwin (1 + h) 0); (text_help_win, Mvwin (1 + h + 1) 0)]
       else
         [(text_win, Resize 1 screen_width); (text_help_win, Resize 1 screen_width);
          (text_win, Mvwin 0 0); (text_sep_win, Mvwin 0 0); (text_help_win, Mvwin 0 0)]).

(** The scroll after a key; [None] for the keys that do not scroll *)
Definition info_scroll (c : key) (n height scroll : Z) : option Z :=
  let last := max_scroll n height in
  let down := if scroll <? last then scroll + 1 else scroll in
  let up := if 0 <? scroll then scroll - 1 else scroll in
  let page := Z.of_nat PG_JUMP in
  match c with
  | KEY_DOWN => Some down
  | KEY_UP => Some up
  | KEY_NPAGE => Some (Z.min (scroll + page) last)
  | KEY_PPAGE => Some (Z.max (scroll - page) 0)
  | KEY_END => Some last
  | KEY_HOME => Some 0
  | _ =>
      if is_one_of c "jJ" then Some down
      else if is_char c 4 then Some (Z.min (scroll + page) last)
      else if is_char c 21 then Some (Z.max (scroll - page) 0)
      else if is_one_of c "G" then Some last
      else if is_one_of c "g" then Some 0
      else if is_one_of c "kK" then Some up
      else None
  end.

(** The loop of [_info_dialog]; [jump] is the search dialog, unless the dialog was opened from there *)
Fixpoint info_dialog_ (fuel : nat) (jump : option (I bool)) (nd : nodeid) (lines : list string) (scroll : Z) : I unit :=
  match fuel with
  | O => raise Diverges
  | S fuel =>
      screen ← gets ui_screen;
      draw_info_dialog cfg (text_height screen.1) screen.2 nd lines scroll;;
      doupdate;;
      c ← getch;
      screen ← gets ui_screen;
      match c, info_scroll c (len lines) (text_height screen.1) scroll with
      | KEY_RESIZE _ _, _ => resize_info_dialog;; info_dialog_ fuel jump nd lines scroll
      | _, Some scroll => info_dialog_ fuel jump nd lines scroll
      | _, None =>
          if is_one_of c "/" then
            match jump with
            | None => mret tt
            | Some search =>
                jumped ← search;
                if jumped : bool then mret tt
                else resize_info_dialog;; info_dialog_ fuel jump nd lines scroll
            end
          else if bool_decide (c = KEY_LEFT \/ c = KEY_BACKSPACE) || is_erase erase_char c || is_escape c
                  || is_one_of c "qQhH" then mret tt
          else info_dialog_ fuel jump nd lines scroll
      end
  end.

(** [_info_dialog] *)
Definition info_dialog_from (jump : option (I bool)) (nd : nodeid) : I unit :=
  styled_win top_line_win "separator";;
  styled_win text_win "text";;
  styled_win text_sep_win "separator";;
  styled_win text_help_win "help";;
  resize_info_dialog;;
  s ← in_conf (info_str cfg depth nd);
  n ← keys_left;
  info_dialog_ n jump nd (split_on NL s) 0.

(** The loop of [_jump_to_dialog]: the edit box, the list of matches, the selected row and the scroll *)
Fixpoint jump_loop (fuel : nat) (s : string) (s_i hscroll : Z) (matches : list nodeid) (p : Z * Z) : I bool :=
  match fuel with
  | O => raise Diverges
  | S fuel =>
      screen ← gets ui_screen;
      draw_jump_to_dialog cfg depth pf (edit_box_height screen.1) (matches_height screen.1) screen.2
        s s_i hscroll (bad_re s) matches p.1 p.2;;
      doupdate;;
      c ← getch;
      screen ← gets ui_screen;
      let height := matches_height screen.1 in
      let again p := jump_loop fuel s s_i hscroll matches p in
      if is_newline c then
        match matches with
        | [] => again p
        | _ => n ← item_at matches p.1; jump_to cfg depth n;; safe_curs_set 0;; mret true
        end
      else if is_escape c then safe_curs_set 0;; mret false
      else match c with
      | KEY_RESIZE h _ => resize_jump_to_dialog;; again (resize_matches h p)
      | KEY_DOWN => again (select_next_match (len matches) height p)
      | KEY_UP => again (select_prev_match p)
      | KEY_NPAGE => again (Nat.iter PG_JUMP (select_next_match (len matches) height) p)
      | KEY_PPAGE => again (Nat.iter PG_JUMP select_prev_match p)
      | KEY_END => again (len matches - 1, max_scroll (len matches) height)
      | KEY_HOME => again (0, 0)
      | _ =>
          if is_char c 6 then
            match matches with
            | [] => again p
            | _ =>
                safe_curs_set 0;;
                n ← item_at matches p.1;
                info_dialog_from None n;;
                safe_curs_set 2;;
                resize_jump_to_dialog;;
                screen ← gets ui_screen;
                again (resize_matches screen.1 p)
            end
          else if is_char c 4 then again (Nat.iter PG_JUMP (select_next_match (len matches) height) p)
          else
            let '(s', s_i', hscroll') := edit_text erase_char c s s_i hscroll (screen.2 - 2) in
            if String.eqb s' s then jump_loop fuel s' s_i' hscroll' matches p
            else jump_loop fuel s' s_i' hscroll' (search_matches s') (0, 0)
      end
  end.

(** [_jump_to_dialog]: did the user jump? *)
Definition jump_to_dialog : I bool :=
  styled_win edit_box "jump-edit";;
  styled_win matches_win "list";;
  styled_win matches_sep_win "separator";;
  styled_win matches_help_win "help";;
  resize_jump_to_dialog;;
  safe_curs_set 2;;
  n ← keys_left;
  jump_loop n "" 0 0 (search_matches "") (0, 0).

(** [_info_dialog] from the main display *)
Definition info_dialog (nd : nodeid) : I unit := info_dialog_from (Some jump_to_dialog) nd.

(** ** The main loop *)

(** What one key does in [_menuconfig]; a message means that the interface is left *)
Definition handle_key (c : key) : I (option string) :=
  let on (m : I unit) : I (option string) := m;; mret None in
  match c with
  | KEY_RESIZE _ _ => on resize_main
  | KEY_DOWN => on select_next_menu_entry
  | KEY_UP => on select_prev_menu_entry
  | KEY_NPAGE => on (repeatM PG_JUMP select_next_menu_entry)
  | KEY_PPAGE => on (repeatM PG_JUMP select_prev_menu_entry)
  | KEY_END => on select_last_menu_entry
  | KEY_HOME => on select_first_menu_entry
  | _ =>
      if is_one_of c "jJ" then on select_next_menu_entry
      else if is_one_of c "kK" then on select_prev_menu_entry
      else if is_char c 4 then on (repeatM PG_JUMP select_next_menu_entry)
      else if is_char c 21 then on (repeatM PG_JUMP select_prev_menu_entry)
      else if is_one_of c "G" then on select_last_menu_entry
      else if is_one_of c "g" then on select_first_menu_entry
      else if is_one_of c " " then
        u ← gets id; n ← item_at (ui_shown u) (ui_sel_node_i u);
        b ← change_node n;
        on (when (negb b) (enter_menu cfg depth n;; mret tt))
      else if bool_decide (c = KEY_RIGHT) || is_newline c || is_one_of c "lL" then
        u ← gets id; n ← item_at (ui_shown u) (ui_sel_node_i u);
        b ← enter_menu cfg depth n;
        on (when (negb b) (change_node n;; mret tt))
      else if is_one_of c "nN" then on (set_sel_node_tri_val cfg depth 0)
      else if is_one_of c "mM" then on (set_sel_node_tri_val cfg depth 1)
      else if is_one_of c "yY" then on (set_sel_node_tri_val cfg depth 2)
      else if bool_decide (c = KEY_LEFT \/ c = KEY_BACKSPACE) || is_erase erase_char c || is_escape c
              || is_one_of c "hH" then
        u ← gets id;
        if is_escape c && bool_decide (ui_cur_menu u = c_top_node cfg) then quit_dialog
        else on (leave_menu cfg depth)
      else if is_one_of c "oO" then on load_dialog
      else if is_one_of c "sS" then
        f ← gets ui_conf_filename;
        r ← save_dialog save_config f "configuration";
        on (match r with
            | Some f => when (negb (String.eqb f "")) (modify (set_conf_filename f);; modify (set_conf_changed false))
            | None => mret tt
            end)
      else if is_one_of c "dD" then
        f ← gets ui_minconf_filename;
        r ← save_dialog save_min_config f "minimal configuration";
        on (match r with
            | Some f => when (negb (String.eqb f "")) (modify (set_minconf_filename f))
            | None => mret tt
            end)
      else if is_one_of c "/" then on (jump_to_dialog;; resize_main)
      else if is_one_of c "?" then
        u ← gets id; n ← item_at (ui_shown u) (ui_sel_node_i u); on (info_dialog n;; resize_main)
      else if is_one_of c "fF" then
        modify (fun u => set_show_help (negb (ui_show_help u)) u);;
        b ← gets ui_show_help;
        on (styled_win help_win (if b : bool then "show-help" else "help");; resize_main)
      else if is_one_of c "cC" then on (modify (fun u => set_show_name (negb (ui_show_name u)) u))
      else if is_one_of c "aA" then on (toggle_show_all cfg depth)
      else if is_one_of c "qQ" then quit_dialog
      else mret None
  end.

(** [_menuconfig], after [_init] *)
Fixpoint main_loop (fuel : nat) : I string :=
  match fuel with
  | O => raise Diverges
  | S fuel =>
      draw_main;;
      doupdate;;
      c ← getch;
      r ← handle_key c;
      match r with
      | Some message => if String.eqb message "" then main_loop fuel else mret message
      | None => main_loop fuel
      end
  end.

(** [_init], after [_init_styles]: the windows and the position variables *)
Definition init_ui : I unit :=
  safe_curs_set 0;;
  styled_win path_win "path";;
  styled_win top_sep_win "separator";;
  styled_win menu_win "list";;
  styled_win bot_sep_win "separator";;
  styled_win help_win "help";;
  modify (set_parent_screen_rows []);;
  let menu := c_top_node cfg in
  shown ← shown_now cfg depth menu;
  modify (set_position menu shown 0 0);;
  modify (set_show_help false);;
  modify (set_show_name false);;
  resize_main.

(** The first part of [menuconfig]: what is loaded, and whether anything can be shown *)
Definition startup : I bool :=
  let f := standard_config_filename getenv in
  modify (set_conf_filename f);;
  in_world (load_config cfg depth getenv None true);;
  there ← in_world (exists_file f);
  b ← (if there : bool then in_conf needs_save else mret true);
  modify (set_conf_changed b);;
  modify (set_minconf_filename "defconfig");;
  modify (set_show_all false);;
  shown ← shown_now cfg depth (c_top_node cfg);
  match shown with
  | _ :: _ => mret true
  | [] =>
      modify (set_show_all true);;
      shown ← shown_now cfg depth (c_top_node cfg);
      mret (match shown with [] => false | _ => true end)
  end.

(** [menuconfig]: the message printed at the end, if the interface was entered *)
Definition menuconfig : I (option string) :=
  go ← startup;
  if go : bool then
    in_conf (modify (set_st_warn false));;
    init_ui;;
    n ← keys_left;
    m ← main_loop n;
    mret (Some m)
  else mret None.
End Dialogs.
