(* ===== verification/MenuProps.v ===== *)
(** * The position in the menus

    The selected entry is one of the entries shown, and it is on the screen: an
    invariant of every key of the main loop. *)
From S2P Require Import Prelude PyStr PyText Model Eval SetValue EvalSpec EvalRefine EvalDet Values Fpspy ConfigFile Edit Menu Display Style Draw Dialogs.

Record placed (u : UI) : Prop := {
  placed_sel : 0 <= ui_sel_node_i u < len (ui_shown u);
  placed_scroll : 0 <= ui_menu_scroll u <= ui_sel_node_i u;
  placed_visible : ui_sel_node_i u < ui_menu_scroll u + ui_menu_height u;
  placed_height : 1 <= ui_menu_height u;
  placed_rows : Forall (fun r => 0 <= r) (ui_parent_screen_rows u);
}.

(** What [placed] looks at is the same in two states *)
Definition same_place (u u' : UI) : Prop :=
  ui_sel_node_i u' = ui_sel_node_i u /\ ui_shown u' = ui_shown u /\ ui_menu_scroll u' = ui_menu_scroll u
  /\ ui_menu_height u' = ui_menu_height u /\ ui_parent_screen_rows u' = ui_parent_screen_rows u.

Lemma placed_same u u' : same_place u u' -> placed u -> placed u'.
Proof. intros (E1 & E2 & E3 & E4 & E5) [? ? ? ? ?]. by split; rewrite ?E1, ?E2, ?E3, ?E4, ?E5. Qed.

#[export] Instance same_place_preorder : PreOrder same_place.
Proof.
  split; [by intros u; split_and!|]. intros u v w (? & ? & ? & ? & ?) (? & ? & ? & ? & ?). split_and!; congruence.
Qed.

(** ** Code that stays in place, and code that keeps the invariant *)

Definition still {A} (m : I A) : Prop := forall u a u', m u = (Ok a, u') -> same_place u u'.
Definition keeps_placed {A} (m : I A) : Prop := forall u a u', placed u -> m u = (Ok a, u') -> placed u'.

Lemma still_keeps {A} (m : I A) : still m -> keeps_placed m.
Proof. intros H u a u' Hp E. eapply placed_same; [by eapply H|done]. Qed.

Lemma still_ret {A} (a : A) : still (mret a).
Proof. intros u b u' [= _ <-]. reflexivity. Qed.
Lemma still_raise {A} e : still (raise e : I A).
Proof. by intros u a u' [=]. Qed.
Lemma still_gets {A} (f : UI -> A) : still (gets f).
Proof. intros u a u' [= _ <-]. reflexivity. Qed.
Lemma still_modify f : (forall u, same_place u (f u)) -> still (modify f).
Proof. intros H u a u' [= _ <-]. apply H. Qed.
Lemma still_bind {A B} (m : I A) (k : A -> I B) : still m -> (forall a, still (k a)) -> still (m ≫= k).
Proof. intros Hm Hk u b u' (a & u1 & E1 & E2)%bind_inv. transitivity u1; [by eapply Hm|by eapply Hk]. Qed.
Lemma still_when b (m : I unit) : still m -> still (when b m).
Proof. intros H. destruct b; [done|apply still_ret]. Qed.
Lemma still_in_world {A} (m : W A) : still (in_world m).
Proof. intros u a u'. unfold in_world. destruct (m (ui_world u)) as [r w]. intros [= _ <-]. by split_and!. Qed.
Lemma still_in_conf {A} (m : K A) : still (in_conf m).
Proof. apply still_in_world. Qed.

Lemma still_forM {A} (l : list A) (f : A -> I unit) : (forall x, still (f x)) -> still (forM_ l f).
Proof.
  intros H. unfold forM_. induction l as [|x l IH]; simpl; [apply still_ret|]. apply still_bind; [done|]. by intros [].
Qed.
Lemma still_draw_all l : still (draw_all l).
Proof. apply still_modify. by intros u. Qed.
Lemma still_lift {A} (r : res A) : still (lift_res r).
Proof. intros u a u' [= _ <-]. reflexivity. Qed.

Lemma placed_bind {A B} (m : I A) (k : A -> I B) :
  keeps_placed m -> (forall a, keeps_placed (k a)) -> keeps_placed (m ≫= k).
Proof. intros Hm Hk u b u' Hp (a & u1 & E1 & E2)%bind_inv. eapply Hk; [by eapply Hm|done]. Qed.
Lemma placed_when b (m : I unit) : keeps_placed m -> keeps_placed (when b m).
Proof. intros H. destruct b; [done|apply still_keeps, still_ret]. Qed.
Lemma placed_modify f : (forall u, placed u -> placed (f u)) -> keeps_placed (modify f).
Proof. intros H u a u' Hp [= _ <-]. by apply H. Qed.

Create HintDb menu.
#[export] Hint Resolve still_ret still_raise still_gets still_in_world still_in_conf still_draw_all still_lift : menu.
#[export] Hint Unfold draw update doupdate safe_curs_set : menu.

(** One step of the decomposition of a program that stays in place *)
Ltac still_step :=
  match goal with
  | |- still (mbind _ _) => apply still_bind; [|intros ?]
  | |- still (when _ _) => apply still_when
  | |- still (forM_ _ _) => apply still_forM; intros ?
  | |- still (match ?x with _ => _ end) => destruct x
  | |- still (let _ := _ in _) => cbv zeta
  | |- _ => solve [eauto with menu]
  end.

Lemma still_resize_key_dialog s : still (resize_key_dialog s).
Proof. unfold resize_key_dialog. repeat still_step. Qed.
Lemma still_resize_input_dialog t l : still (resize_input_dialog t l).
Proof. unfold resize_input_dialog. repeat still_step. Qed.
Lemma still_resize_jump_to_dialog : still resize_jump_to_dialog.
Proof. unfold resize_jump_to_dialog. repeat still_step. Qed.
Lemma still_resize_info_dialog : still resize_info_dialog.
Proof. unfold resize_info_dialog. repeat still_step. Qed.

Section Drawing.
Context (cfg : Config) (depth : nat) (pf : Platform).

Lemma still_style name : still (get_style pf name).
Proof. unfold get_style. repeat still_step. Qed.
Lemma still_set_style w name : still (set_style pf w name).
Proof. unfold set_style. repeat first [apply still_style | still_step]. Qed.
Lemma still_item_at l i : still (item_at l i).
Proof. unfold item_at. repeat still_step. Qed.
Hint Resolve still_style still_item_at : menu.
Lemma still_path_prompts fuel : forall m, still (path_prompts cfg fuel m).
Proof. induction fuel; intros m; simpl; repeat still_step. Qed.
Hint Resolve still_path_prompts : menu.
Lemma still_draw_main : still (draw_main cfg depth pf).
Proof. unfold draw_main, mainmenu_text, draw_row, help_calls, node_help_calls. repeat still_step. Qed.
Lemma still_key_dialog h w t s : still (draw_key_dialog pf h w t s).
Proof. unfold draw_key_dialog. repeat still_step. Qed.
Lemma still_input_dialog h w t l s i hs : still (draw_input_dialog pf h w t l s i hs).
Proof. unfold draw_input_dialog. repeat still_step. Qed.
Lemma still_info_dialog h w n l sc : still (draw_info_dialog cfg h w n l sc).
Proof. unfold draw_info_dialog. repeat still_step. Qed.
Lemma still_jump_dialog b h w s i hs br ms sel sc : still (draw_jump_to_dialog cfg depth pf b h w s i hs br ms sel sc).
Proof. unfold draw_jump_to_dialog, draw_match, match_str. repeat still_step. Qed.
End Drawing.
#[export] Hint Resolve still_set_style still_item_at still_draw_main still_key_dialog still_input_dialog still_info_dialog
  still_jump_dialog still_resize_key_dialog still_resize_input_dialog still_resize_jump_to_dialog
  still_resize_info_dialog : menu.

(** One step of the decomposition of a program *)
Ltac keeps_step :=
  match goal with
  | |- keeps_placed (mbind _ _) => apply placed_bind; [|intros ?]
  | |- keeps_placed (when _ _) => apply placed_when
  | |- keeps_placed (match ?x with _ => _ end) => destruct x
  | |- keeps_placed (let _ := _ in _) => cbv zeta
  | |- keeps_placed (modify (set_input _)) => apply still_keeps, still_modify; intros ?; by split_and!
  | |- keeps_placed (modify (set_screen _)) => apply still_keeps, still_modify; intros ?; by split_and!
  | |- keeps_placed (modify (set_show_all _)) => apply still_keeps, still_modify; intros ?; by split_and!
  | |- keeps_placed (modify (set_conf_changed _)) => apply still_keeps, still_modify; intros ?; by split_and!
  | |- keeps_placed (modify (set_conf_filename _)) => apply still_keeps, still_modify; intros ?; by split_and!
  | |- keeps_placed (modify (set_minconf_filename _)) => apply still_keeps, still_modify; intros ?; by split_and!
  | |- _ => solve [eauto with menu | apply still_keeps; eauto with menu]
  end.

(** ** Moving *)

Lemma list_index_range {A} `{EqDecision A} (x : A) l i : list_index x l = Some i -> 0 <= i < len l.
Proof.
  unfold list_index, len. destruct (list_find _ l) as [[k y]|] eqn:Hf; simpl; [|done]. intros [= <-].
  apply list_find_Some in Hf as (Hk & _). apply lookup_lt_Some in Hk. lia.
Qed.

Lemma max_scroll_spec n h : max_scroll n h = Z.max 0 (n - h).
Proof. done. Qed.

Lemma center_placed u : 0 <= ui_sel_node_i u < len (ui_shown u) -> 1 <= ui_menu_height u ->
  Forall (fun r => 0 <= r) (ui_parent_screen_rows u) -> placed (center_vertically u).2.
Proof.
  intros Hs Hh Hr. pose proof (Z.div_lt (ui_menu_height u) 2 ltac:(lia) ltac:(lia)).
  pose proof (Z.div_pos (ui_menu_height u) 2 ltac:(lia) ltac:(lia)).
  unfold center_vertically, modify. cbn [snd]. rewrite max_scroll_spec.
  split; cbn [set_menu_scroll set_position ui_sel_node_i ui_shown ui_menu_scroll ui_menu_height ui_parent_screen_rows];
    try done; lia.
Qed.

Lemma keeps_resize : keeps_placed resize_main.
Proof.
  intros u a u' [Hs Hc Hv Hh Hr]. unfold resize_main. cbv [mbind I_bind M_bind gets id modify draw_all]. destruct (ui_screen u) as [hh ww].
  set (h0 := hh - _ - 3). set (h := if 1 <=? h0 then h0 else 1).
  assert (1 <= h) by (unfold h; destruct (Z.leb_spec 1 h0); lia). clearbody h.
  destruct (Z.leb_spec h (ui_sel_node_i u - ui_menu_scroll u)); intros [= _ <-]; split; simpl; try done; lia.
Qed.

Lemma keeps_next : keeps_placed select_next_menu_entry.
Proof.
  intros u a u' [Hs Hc Hv Hh Hr]. unfold select_next_menu_entry. cbv [mbind I_bind M_bind gets id modify].
  destruct (Z.ltb_spec (ui_sel_node_i u) (len (ui_shown u) - 1)); cbn [when];
    [|intros [= _ <-]; by split]. rewrite max_scroll_spec.
  unfold SCROLL_OFFSET. destruct (_ && _) eqn:E; intros [= _ <-]; split; simpl; try done; lia.
Qed.

Lemma keeps_prev : keeps_placed select_prev_menu_entry.
Proof.
  intros u a u' [Hs Hc Hv Hh Hr]. unfold select_prev_menu_entry. cbv [mbind I_bind M_bind gets id modify].
  destruct (Z.ltb_spec 0 (ui_sel_node_i u)); cbn [when]; [|intros [= _ <-]; by split].
  destruct (Z.ltb_spec (ui_sel_node_i u - 1) (ui_menu_scroll u + SCROLL_OFFSET)); intros [= _ <-];
    unfold SCROLL_OFFSET in *; split; simpl; try done; lia.
Qed.

Lemma keeps_last : keeps_placed select_last_menu_entry.
Proof.
  apply placed_modify. intros u [Hs Hc Hv Hh Hr]. rewrite max_scroll_spec. split; simpl; try done; lia.
Qed.
Lemma keeps_first : keeps_placed select_first_menu_entry.
Proof. apply placed_modify. intros u [Hs Hc Hv Hh Hr]. split; simpl; try done; lia. Qed.

Lemma keeps_repeat n m : keeps_placed m -> keeps_placed (repeatM n m).
Proof. intros H. induction n; simpl; [apply still_keeps, still_ret|by apply placed_bind]. Qed.
#[export] Hint Resolve keeps_resize keeps_next keeps_prev keeps_last keeps_first keeps_repeat : menu.

(** ** Menus *)

Definition ready (u : UI) : Prop := 1 <= ui_menu_height u /\ Forall (fun r => 0 <= r) (ui_parent_screen_rows u).
Definition chosen (u : UI) : Prop := ready u /\ 0 <= ui_sel_node_i u < len (ui_shown u).

Lemma placed_chosen u : placed u -> chosen u.
Proof. intros [? ? ? ? ?]. split; [by split|done]. Qed.

Lemma chosen_center u a u' : chosen u -> center_vertically u = (Ok a, u') -> placed u'.
Proof. intros [[Hh Hr] Hs] E. replace u' with (center_vertically u).2 by by rewrite E. by apply center_placed. Qed.

Lemma index_inv n l u i u' : index_or_raise n l u = (Ok i, u') -> 0 <= i < len l /\ u' = u.
Proof.
  unfold index_or_raise. destruct (list_index n l) as [j|] eqn:E; [|done]. intros [= <- <-]. split; [|done].
  by eapply list_index_range.
Qed.

Section Operations.
Context (cfg : Config) (depth : nat).

Lemma shown_now_inv n u l u' : shown_now cfg depth n u = (Ok l, u') -> same_place u u'.
Proof.
  unfold shown_now. intros (all & u1 & E1 & E2)%bind_inv. transitivity u1; [by eapply still_gets|by eapply still_in_conf].
Qed.

Lemma keeps_select_choice : keeps_placed (select_selected_choice_sym cfg depth).
Proof.
  unfold select_selected_choice_sym. intros u a u' Hp (u0 & u1 & E0 & E)%bind_inv. injection E0 as <- <-.
  destruct (nd_item _); try (injection E as _ <-; done).
  apply bind_inv in E as (sel & u2 & E1 & E). assert (S : same_place u u2) by (by eapply still_in_conf).
  pose proof (placed_same u u2 S Hp) as Hp2. destruct sel as [s|]; [|injection E as _ <-; done].
  destruct (first_some _ _) as [i|] eqn:Ei; [|injection E as _ <-; done].
  apply first_some_in in Ei as (x & _ & Hx%list_index_range).
  apply bind_inv in E as ([] & u3 & E2 & E). injection E2 as <-. eapply chosen_center; [|exact E].
  destruct S as (_ & Hs & _). destruct (placed_chosen _ Hp2) as [Hr _]. split; [exact Hr|]. simpl. rewrite Hs. exact Hx.
Qed.

Lemma keeps_enter menu : keeps_placed (enter_menu cfg depth menu).
Proof.
  unfold enter_menu. intros u a u' Hp E. destruct (negb _); [injection E as _ <-; done|].
  apply bind_inv in E as (l & u1 & E1 & E). pose proof (placed_same _ _ (shown_now_inv _ _ _ _ E1) Hp) as [Hs Hc Hv Hh Hr].
  destruct l as [|n l]; [injection E as _ <-; by split|].
  apply bind_inv in E as ([] & u2 & E2 & E). injection E2 as <-. apply bind_inv in E as ([] & u3 & E3 & E). injection E3 as <-.
  apply bind_inv in E as ([] & u4 & E4 & E). injection E as _ <-.
  match type of E4 with _ ?v = _ => assert (Hp2 : placed v) end.
  { split; simpl; unfold len; simpl; try lia. apply Forall_app. split; [done|]. constructor; [lia|done]. }
  destruct (nd_item _); try (injection E4 as <-; done). by eapply keeps_select_choice.
Qed.

Lemma keeps_leave : keeps_placed (leave_menu cfg depth).
Proof.
  unfold leave_menu. intros u a u' Hp (u0 & u1 & E0 & E)%bind_inv. injection E0 as <- <-.
  destruct (bool_decide _); [injection E as _ <-; done|].
  apply bind_inv in E as (parent & u1 & E1 & E). assert (S1 : same_place u u1).
  { unfold parent_menu in E1. destruct (parent_menu_ _ _ _); [injection E1 as _ <-; reflexivity|done]. }
  apply bind_inv in E as (l & u2 & E2 & E). assert (S : same_place u u2) by (transitivity u1; [done|by eapply shown_now_inv]).
  pose proof (placed_same u u2 S Hp) as [Hs Hc Hv Hh Hr]. apply bind_inv in E as ([] & u3 & E3 & E). injection E3 as <-.
  apply bind_inv in E as (i & u4 & [Hi ->]%index_inv & E). apply bind_inv in E as ([] & u5 & E5 & E). injection E5 as <-.
  destruct S as (_ & _ & _ & Sh & Sr). unfold id in *. rewrite <- Sr in E. rewrite <- Sh in E.
  destruct (reverse (ui_parent_screen_rows u2)) as [|row rows] eqn:Er.
  - eapply chosen_center; [|exact E]. split; [split; simpl; done|simpl; done].
  - apply bind_inv in E as ([] & u6 & E6 & E). injection E6 as <-. injection E as _ <-.
    assert (Hrows : Forall (fun r => 0 <= r) (row :: rows)) by (rewrite <- Er; by apply Forall_reverse).
    inversion_clear Hrows. split; simpl; try lia; try done. by apply Forall_reverse.
Qed.

Lemma toggle_target_range shown new_shown sel i : toggle_target shown new_shown sel = Some i -> 0 <= i < len new_shown.
Proof.
  unfold toggle_target. destruct (first_some _ (reverse _)) as [j|] eqn:E; [intros [= <-]|clear E; intros E];
    apply first_some_in in E as (x & _ & Hx%list_index_range); done.
Qed.

Lemma toggle_inv u a u' : toggle_show_all cfg depth u = (Ok a, u') -> chosen u -> chosen u' /\ (placed u -> placed u').
Proof.
  unfold toggle_show_all. intros (u0 & u1 & E0 & E)%bind_inv [[Hh Hr] Hs]. injection E0 as <- <-.
  apply bind_inv in E as ([] & u1 & E1 & E). injection E1 as <-. apply bind_inv in E as (l & u2 & E2 & E).
  apply shown_now_inv in E2 as (S1 & S2 & S3 & S4 & S5). cbv [id] in *. simpl in S1, S2, S3, S4, S5.
  destruct (toggle_target _ _ _) as [i|] eqn:Et.
  - apply toggle_target_range in Et. injection E as _ <-. split; [split; [split|]; simpl; congruence || done|].
    intros [? ? ? ? ?]. split; simpl; rewrite ?S4, ?S5; try done; lia.
  - injection E as _ <-. split; [split; [split|]; simpl; congruence|]. intros [? ? ? ? ?]. split; simpl; congruence.
Qed.

Lemma keeps_toggle : keeps_placed (toggle_show_all cfg depth).
Proof. intros u a u' Hp E. eapply toggle_inv; [exact E|by apply placed_chosen|done]. Qed.

Lemma keeps_update : keeps_placed (update_menu cfg depth).
Proof.
  unfold update_menu. intros u a u' [Hs Hc Hv Hh Hr] (u0 & u1 & E0 & E)%bind_inv. injection E0 as <- <-.
  apply bind_inv in E as (n & u1 & E1 & E). assert (u1 = u) as ->.
  { unfold item_at in E1. cbv [id] in E1. destruct (_ !! _); [|done]. destruct (0 <=? _); [|done]. by injection E1. }
  apply bind_inv in E as (l & u2 & (S1 & S2 & S3 & S4 & S5)%shown_now_inv & E).
  apply bind_inv in E as ([] & u3 & E3 & E). injection E3 as <-. apply bind_inv in E as (i & u4 & [Hi ->]%index_inv & E).
  apply bind_inv in E as ([] & u5 & E5 & E). injection E5 as <-. injection E as _ <-. cbv [id].
  split; simpl; rewrite ?S4, ?S5; try done; lia.
Qed.

(** Jumping to a node: the height of the window and the rows are all that is used of the old position *)
Definition keeps_ready {A} (m : I A) : Prop := forall u a u', ready u -> m u = (Ok a, u') -> ready u'.

Lemma ready_same u u' : same_place u u' -> ready u -> ready u'.
Proof. intros (_ & _ & _ & E4 & E5) [? ?]. by split; rewrite ?E4, ?E5. Qed.
Lemma ready_still {A} (m : I A) : still m -> keeps_ready m.
Proof. intros H u a u' Hr E. eapply ready_same; [by eapply H|done]. Qed.
Lemma ready_bind {A B} (m : I A) (k : A -> I B) : keeps_ready m -> (forall a, keeps_ready (k a)) -> keeps_ready (m ≫= k).
Proof. intros Hm Hk u b u' Hr (a & u1 & E1 & E2)%bind_inv. eapply Hk; [by eapply Hm|done]. Qed.
Lemma ready_modify f : (forall u, ready u -> ready (f u)) -> keeps_ready (modify f).
Proof. intros H u a u' Hr [= _ <-]. by apply H. Qed.
Lemma ready_shown_now n : keeps_ready (shown_now cfg depth n).
Proof. intros u a u' Hr E. eapply ready_same; [by eapply shown_now_inv|done]. Qed.
Lemma ready_parent n : keeps_ready (parent_menu cfg n).
Proof. intros u a u' Hr. unfold parent_menu. destruct (parent_menu_ _ _ _); [by intros [= _ <-]|done]. Qed.

Lemma keeps_jump n : keeps_placed (jump_to cfg depth n).
Proof.
  unfold jump_to. intros u a u' [Hs Hc Hv Hh Hr] ([] & u1 & E1 & E)%bind_inv. injection E1 as <-.
  assert (R : ready (set_parent_screen_rows [] u)) by (split; [exact Hh|constructor]).
  apply bind_inv in E as (old & u2 & E2 & E). injection E2 as <- <-.
  set (jump_into := match nd_item _, nd_list _ with | (NChoice _ | NMenu), Some l => Some l | _, _ => None end) in E.
  apply bind_inv in E as ([] & u2 & E2 & E).
  assert (R2 : ready u2).
  { revert E2. destruct jump_into; [intros [= <-]; exact R|]. apply ready_bind; [apply ready_parent| |exact R].
    intros p. by apply ready_modify. }
  clear E2 R. apply bind_inv in E as (menu & u3 & E3 & E). injection E3 as <- <-.
  apply bind_inv in E as (l & u3 & E3 & E). apply ready_shown_now in E3; [|done].
  apply bind_inv in E as ([] & u4 & E4 & E). injection E4 as <-.
  apply bind_inv in E as ([] & u4 & E4 & E).
  assert (R4 : ready u4).
  { revert E4. match goal with |- when ?b _ _ = _ -> _ => destruct b end; cbn [when]; [|intros E4; by injection E4 as <-].
    apply ready_bind; [by apply ready_modify| |exact E3]. intros _. apply ready_bind; [apply ready_shown_now|].
    intros l'. by apply ready_modify. }
  clear E4 E3 R2. apply bind_inv in E as (l' & u5 & E5 & E). injection E5 as <- <-.
  apply bind_inv in E as (i & u5 & [Hi ->]%index_inv & E). apply bind_inv in E as ([] & u5 & E5 & E). injection E5 as <-.
  assert (C : chosen (set_sel_node_i i u4)) by (split; [exact R4|exact Hi]).
  apply bind_inv in E as (all & u5 & E5 & E). injection E5 as <- <-.
  apply bind_inv in E as ([] & u5 & E5 & E).
  assert (C5 : chosen u5).
  { revert E5. match goal with |- when ?b _ _ = _ -> _ => destruct b end; cbn [when]; [intros E5; by eapply toggle_inv|intros E5; by injection E5 as <-]. }
  apply bind_inv in E as ([] & u6 & E6 & E). apply chosen_center in E6; [|done].
  destruct jump_into; [|by injection E as _ <-].
  destruct (nd_item _); try (injection E as _ <-; done). by eapply keeps_select_choice.
Qed.
End Operations.
#[export] Hint Resolve keeps_select_choice keeps_enter keeps_leave keeps_toggle keeps_update keeps_jump : menu.

(** ** Dialogs *)

Ltac keeps := repeat keeps_step.

Section Dialogs.
Context (cfg : Config) (depth : nat) (pf : Platform).

Lemma keeps_shown_now n : keeps_placed (shown_now cfg depth n).
Proof. intros u a u' Hp E. eapply placed_same; [by eapply shown_now_inv|done]. Qed.

Lemma keeps_item_at l i : keeps_placed (item_at l i).
Proof. unfold item_at. keeps. Qed.

Lemma keeps_getch : keeps_placed getch.
Proof. unfold getch. keeps. Qed.
Hint Resolve keeps_shown_now keeps_item_at keeps_getch : menu.

Lemma keeps_key_dialog_ fuel t s keys : keeps_placed (key_dialog_ cfg depth pf fuel t s keys).
Proof. induction fuel; simpl; keeps. Qed.
Hint Resolve keeps_key_dialog_ : menu.

Lemma keeps_key_dialog t s keys : keeps_placed (key_dialog cfg depth pf t s keys).
Proof. unfold key_dialog, keys_left. keeps. Qed.
Hint Resolve keeps_key_dialog : menu.

Lemma keeps_msg t s : keeps_placed (msg cfg depth pf t s).
Proof. unfold msg. keeps. Qed.
Hint Resolve keeps_msg : menu.

Lemma keeps_input_loop fuel : forall title info s i h w, keeps_placed (input_loop cfg depth pf fuel title info s i h w).
Proof. induction fuel; intros; simpl; keeps. Qed.
Hint Resolve keeps_input_loop : menu.

Lemma keeps_input_dialog title text info : keeps_placed (input_dialog cfg depth pf title text info).
Proof. unfold input_dialog, keys_left. keeps. Qed.
Hint Resolve keeps_input_dialog : menu.

Lemma keeps_set_val i v : keeps_placed (set_val cfg depth i v).
Proof. unfold set_val. keeps. Qed.
Hint Resolve keeps_set_val : menu.

Lemma keeps_set_sel z : keeps_placed (set_sel_node_tri_val cfg depth z).
Proof. unfold set_sel_node_tri_val. keeps. Qed.

Lemma keeps_ask_value fuel s title info : forall v, keeps_placed (ask_value cfg depth pf fuel s title v info).
Proof. induction fuel; intros; simpl; unfold check_valid, error; keeps. Qed.
Hint Resolve keeps_ask_value : menu.

Lemma keeps_change_node n : keeps_placed (change_node cfg depth pf n).
Proof. unfold change_node, keys_left. keeps. Qed.
Hint Resolve keeps_set_sel keeps_change_node : menu.

Lemma keeps_try {A B} (m : W A) (good : A -> I B) (bad : string -> I B) :
  (forall a, still (good a)) -> (forall e, keeps_placed (bad e)) ->
  keeps_placed (fun u => match in_world m u with
                         | (Ok a, u') => good a u'
                         | (Err (OSError e), u') => bad e u'
                         | (Err e, u') => (Err e, u')
                         end).
Proof.
  intros Hg Hb u b u' Hp. unfold in_world. destruct (m (ui_world u)) as [[a|e] w].
  - intros E. eapply placed_same; [|exact Hp]. by apply Hg in E.
  - destruct e; try done. apply Hb. eapply placed_same; [|exact Hp]. by split_and!.
Qed.

Lemma keeps_error text : keeps_placed (error cfg depth pf text).
Proof. unfold error. keeps. Qed.
Hint Resolve keeps_error : menu.

Lemma keeps_try_load f : keeps_placed (try_load cfg depth pf f).
Proof.
  refine (keeps_try (load_config cfg depth (pf_getenv pf) (Some f) true) (fun _ => mret true)
    (fun e => error cfg depth pf _;; mret false) (fun _ => still_ret true) _). intros e. keeps.
Qed.
Lemma keeps_try_save save f d : keeps_placed (try_save cfg depth pf save f d).
Proof.
  refine (keeps_try (save f) (fun m => mret (Some m)) (fun e => error cfg depth pf _;; mret None)
    (fun m => still_ret (Some m)) _). intros e. keeps.
Qed.
Hint Resolve keeps_try_load keeps_try_save : menu.

Lemma keeps_save_dialog_ fuel save d : forall f, keeps_placed (save_dialog_ cfg depth pf fuel save f d).
Proof. induction fuel; intros; simpl; keeps. Qed.
Hint Resolve keeps_save_dialog_ : menu.
Lemma keeps_save_dialog save f d : keeps_placed (save_dialog cfg depth pf save f d).
Proof. unfold save_dialog, keys_left. keeps. Qed.
Hint Resolve keeps_save_dialog : menu.

Lemma keeps_load_dialog_ fuel : forall f, keeps_placed (load_dialog_ cfg depth pf fuel f).
Proof. induction fuel; intros; simpl; keeps. Qed.
Hint Resolve keeps_load_dialog_ : menu.
Lemma keeps_load_dialog : keeps_placed (load_dialog cfg depth pf).
Proof. unfold load_dialog, keys_left. keeps. Qed.
Hint Resolve keeps_load_dialog : menu.

Lemma keeps_quit_dialog_ fuel : keeps_placed (quit_dialog_ cfg depth pf fuel).
Proof. induction fuel; simpl; keeps. Qed.
Hint Resolve keeps_quit_dialog_ : menu.
Lemma keeps_quit_dialog : keeps_placed (quit_dialog cfg depth pf).
Proof. unfold quit_dialog, keys_left. keeps. Qed.
Hint Resolve keeps_quit_dialog : menu.

Lemma keeps_info_dialog_ fuel jump nd lines : match jump with Some m => keeps_placed m | None => True end ->
  forall scroll, keeps_placed (info_dialog_ cfg pf fuel jump nd lines scroll).
Proof. intros H. induction fuel; intros scroll; simpl; [keeps|]. destruct jump; keeps. Qed.
Lemma keeps_info_dialog_from jump nd : match jump with Some m => keeps_placed m | None => True end ->
  keeps_placed (info_dialog_from cfg depth pf jump nd).
Proof. intros H. unfold info_dialog_from, keys_left. repeat first [apply (keeps_info_dialog_ _ _ _ _ H) | keeps_step]. Qed.

Lemma keeps_jump_loop fuel : forall s i h ms p, keeps_placed (jump_loop cfg depth pf fuel s i h ms p).
Proof.
  induction fuel; intros; simpl; [apply still_keeps, still_raise|].
  repeat first [apply (keeps_info_dialog_from None _ Logic.I) | keeps_step].
Qed.
Hint Resolve keeps_jump_loop : menu.
Lemma keeps_jump_to_dialog : keeps_placed (jump_to_dialog cfg depth pf).
Proof. unfold jump_to_dialog, keys_left. keeps. Qed.
Hint Resolve keeps_jump_to_dialog : menu.
Lemma keeps_info_dialog nd : keeps_placed (info_dialog cfg depth pf nd).
Proof. apply keeps_info_dialog_from, keeps_jump_to_dialog. Qed.
Hint Resolve keeps_info_dialog : menu.

Lemma keeps_handle_key c :
  keeps_placed (handle_key cfg depth pf c).
Proof.
  unfold handle_key. cbv zeta.
  repeat first [apply (still_keeps (modify _)); apply still_modify; intros ?; by split_and! | keeps_step].
Qed.

(** One round of the main loop: the screen is drawn, a key is read and handled *)
Definition one_round : I (option string) :=
  draw_main cfg depth pf;; doupdate;; c ← getch; handle_key cfg depth pf c.

(** The states at the beginning of the rounds of [_menuconfig] *)
Inductive reachable (u0 : UI) : UI -> Prop :=
| reach_start : reachable u0 u0
| reach_round u r u' : reachable u0 u -> one_round u = (Ok r, u') -> reachable u0 u'.

Lemma reachable_placed u0 u : placed u0 -> reachable u0 u -> placed u.
Proof.
  intros H0. induction 1 as [|u r u' _ IH E]; [done|].
  refine ((_ : keeps_placed one_round) u r u' IH E). unfold one_round. keeps. apply keeps_handle_key.
Qed.

(** [_init] puts the position at the first entry *)
Lemma init_placed u u0 : init_ui cfg depth pf u = (Ok tt, u0) -> ui_shown u0 <> [] -> placed u0.
Proof.
  unfold init_ui. intros E. do 6 (apply bind_inv in E as ([] & ? & _ & E)).
  apply bind_inv in E as ([] & u1 & E1 & E). injection E1 as <-.
  apply bind_inv in E as (l & u2 & E2 & E). apply shown_now_inv in E2 as (_ & _ & _ & _ & Hr).
  apply bind_inv in E as ([] & u3 & E3 & E). injection E3 as <-.
  apply bind_inv in E as ([] & u3 & E3 & E). injection E3 as <-.
  apply bind_inv in E as ([] & u3 & E3 & E). injection E3 as <-. revert E.
  unfold resize_main. cbv [mbind I_bind M_bind gets id modify draw_all]. destruct (ui_screen _) as [hh ww].
  set (h0 := hh - _ - 3). set (h := if 1 <=? h0 then h0 else 1).
  assert (1 <= h) by (unfold h; destruct (Z.leb_spec 1 h0); lia). clearbody h. simpl.
  destruct (Z.leb_spec h (0 - 0)); [lia|]. intros [= <-] Hs. simpl in Hs |- *.
  assert (0 < len l) by (unfold len; destruct l; simpl; [done|lia]).
  split; simpl; try lia. rewrite Hr. constructor.
Qed.

(** C14. Throughout a session of the menu interface, whatever keys are typed and
    whatever the dialogs do, the selected entry is one of the entries shown and
    is on the screen: it lies between the first and the last visible row, so no
    key ever indexes outside the list of shown nodes. *)
Theorem selection_on_screen (u u0 u' : UI) :
  init_ui cfg depth pf u = (Ok tt, u0) -> ui_shown u0 <> [] -> reachable u0 u' ->
  0 <= ui_sel_node_i u' < len (ui_shown u')
  /\ ui_menu_scroll u' <= ui_sel_node_i u' < ui_menu_scroll u' + ui_menu_height u' /\ 0 <= ui_menu_scroll u'.
Proof. intros Hi Hs Hr. destruct (reachable_placed _ _ (init_placed _ _ Hi Hs) Hr). lia. Qed.
End Dialogs.

(** ** The repository's configuration on a terminal of 24 lines and 8 colours *)

(** The table of styles after [_init_styles] *)
Definition terminal_styles (menuconfig_style : option string) : gmap string Z :=
  t_style (init_styles true false 8 (fun _ => (0, 0, 0)) (fun _ _ => true) (fun _ _ _ => true) (fun n => n * 256)
    false 0 2097152 65536 131072 menuconfig_style (mkTermState [] [] [] ∅)).2.

(** The cursor of a window of one row: after the text that was written *)
Definition cursor_after (l : list draw_call) : Z * Z :=
  (0, foldl (fun x c => match c with Addnstr _ _ s n _ => x + Z.min (slen s) n | Addch _ => x + 1 | _ => x end) 0 l).

Definition fpspy_platform : Platform :=
  mkPlatform None (fun _ => None) id (fun e => e) "/" (fun _ => inl "no regular expressions")
    (fun s _ => Ok (split_on NL s)) cursor_after (terminal_styles None).

Definition fpspy_ui (input : list key) : UI :=
  mkUI (mkWorld (init_state fpspy) ∅ []) 0%nat [] 0 0 [] false false false true ".config" "defconfig" 0 (24, 80) input [].
Definition first_screen : UI :=
  (init_ui fpspy fpspy_depth fpspy_platform (fpspy_ui [KEY_RIGHT; KEY_DOWN; KChar "G"])).2.
Definition next_screen (u : UI) : UI := (one_round fpspy fpspy_depth fpspy_platform u).2.

Lemma run_snd {S A} (m : M S A) st r : (m st).1 = Ok r -> m st = (Ok r, (m st).2).
Proof. by destruct (m st) as [x st']; intros [= ->]. Qed.

Lemma next_screen_reachable u0 u : reachable fpspy fpspy_depth fpspy_platform u0 u ->
  (one_round fpspy fpspy_depth fpspy_platform u).1 = Ok None ->
  reachable fpspy fpspy_depth fpspy_platform u0 (next_screen u).
Proof.
  intros H E. apply (reach_round _ _ _ _ u None _ H). unfold next_screen. exact (run_snd _ _ _ E).
Qed.

Lemma first_screen_ok :
  init_ui fpspy fpspy_depth fpspy_platform (fpspy_ui [KEY_RIGHT; KEY_DOWN; KChar "G"]) = (Ok tt, first_screen).
Proof. unfold first_screen. apply run_snd. vm_compute. reflexivity. Qed.

Lemma first_screen_shows : ui_shown first_screen <> [].
Proof.
  assert (H : bool_decide (ui_shown first_screen = []) = false) by (vm_compute; reflexivity).
  by apply bool_decide_eq_false in H.
Qed.

Lemma third_screen_reachable : reachable fpspy fpspy_depth fpspy_platform first_screen
  (next_screen (next_screen (next_screen first_screen))).
Proof.
  do 3 (apply next_screen_reachable; [|vm_compute; reflexivity]). apply reach_start.
Qed.

Lemma selection_on_screen_witness : let u' := next_screen (next_screen (next_screen first_screen)) in
  0 <= ui_sel_node_i u' < len (ui_shown u')
  /\ ui_menu_scroll u' <= ui_sel_node_i u' < ui_menu_scroll u' + ui_menu_height u' /\ 0 <= ui_menu_scroll u'.
Proof.
  exact (selection_on_screen fpspy fpspy_depth fpspy_platform
    (fpspy_ui [KEY_RIGHT; KEY_DOWN; KChar "G"]) first_screen _ first_screen_ok first_screen_shows third_screen_reachable).
Defined.
