(* ===== verification/Repr.v ===== *)
(** * The [__repr__] strings

    The one-line descriptions of symbols, choices, menu nodes and of the
    configuration itself, which read values through the caches. *)
From S2P Require Import Prelude PyStr PyText Model Eval SetValue Printing ConfigFile Sanity Menu Display.

Section Repr.
Context (cfg : Config) (depth : nat).
Local Abbreviation E := (ev cfg depth).

Definition fields_str (l : list string) : string := "<" +:+ py_join ", " l +:+ ">".
Definition if_field (b : bool) (s : string) : list string := if b then [s] else [].
Definition node_loc (n : nodeid) : string := nd_filename (node cfg n) +:+ ":" +:+ py_str (nd_linenr (node cfg n)).
Definition node_defs (ns : list nodeid) : list string := map node_loc ns.
Definition expr_tri_str (e : expr) : K string := v ← expr_value cfg E e; tri_to_str v.

(** A user value: bool and tristate values by name, others in quotes *)
Definition user_value_str (t : stype) (u : uval) : K string :=
  if is_bool_tristate t then match u with UTri v => tri_to_str v | UStr _ => raise KeyError end
  else mret (quote (match u with UStr s => s | UTri v => py_str v end)).

(** [Symbol.__repr__] *)
Definition sym_repr (s : symid) : K string :=
  let x := sym cfg s in
  t ← sym_type cfg E s;
  v ← ev_str E s;
  own ← (if sym_is_constant x then mret []
         else
           u ← sget user_value s;
           user ← match u with
                  | Some u => v ← user_value_str (sym_orig_type x) u; mret ["user value " +:+ v]
                  | None => mret []
                  end;
           vis ← ev_vis E s;
           vis ← tri_to_str vis;
           dep ← expr_tri_str (sym_direct_dep x);
           mret (user ++ ["visibility " +:+ vis]
                 ++ if_field (has_some (sym_choice x)) "choice symbol"
                 ++ if_field (sym_is_allnoconfig_y x) "allnoconfig_y"
                 ++ if_field (bool_decide (c_defconfig_list cfg = Some (NSym s))) "is the defconfig_list symbol"
                 ++ match sym_env_var x with Some e => ["from environment variable " +:+ e] | None => [] end
                 ++ if_field (bool_decide (s = c_modules cfg)) "is the modules symbol"
                 ++ ["direct deps " +:+ dep]));
  mret (fields_str (["symbol " +:+ sym_name x; TYPE_TO_STR t] ++ map quote (node_prompts cfg (sym_nodes x))
    ++ ["value " +:+ if is_bool_tristate (sym_orig_type x) then v else quote v] ++ own
    ++ match sym_nodes x with
       | [] => [if sym_is_constant x then "constant" else "undefined"]
       | ns => node_defs ns
       end)).

(** [Choice.__repr__] *)
Definition choice_repr (c : choiceid) : K string :=
  let x := chc cfg c in
  t ← ch_type cfg E c;
  v ← ch_str_value E c;
  u ← cget ch_user_value c;
  mode ← match u with Some u => t ← tri_to_str u; mret ["user mode " +:+ t] | None => mret [] end;
  sel ← ev_csel E c;
  us ← cget ch_user_selection c;
  vis ← ev_cvis E c;
  vis ← tri_to_str vis;
  mret (fields_str ([match ch_name x with Some n => if String.eqb n "" then "choice" else "choice " +:+ n | None => "choice" end;
                     TYPE_TO_STR t]
    ++ map quote (node_prompts cfg (ch_nodes x)) ++ ["mode " +:+ v] ++ mode
    ++ match sel with Some s => [sym_name (sym cfg s) +:+ " selected"] | None => [] end
    ++ match us with
       | Some s => [sym_name (sym cfg s) +:+ " selected by user"
                    +:+ if bool_decide (sel = Some s) then "" else " (overridden)"]
       | None => []
       end
    ++ ["visibility " +:+ vis] ++ if_field (ch_is_optional x) "optional" ++ node_defs (ch_nodes x))).

(** [MenuNode.__repr__] *)
Definition node_repr (n : nodeid) : K string :=
  let x := node cfg n in
  let is_sym := match nd_item x with NSym _ => true | _ => false end in
  let is_menu := bool_decide (nd_item x = NMenu) in
  prompt ← match nd_prompt x with
           | Some (p, cond) => v ← expr_tri_str cond; mret ["prompt " +:+ quote p +:+ " (visibility " +:+ v +:+ ")"]
           | None => mret []
           end;
  dep ← expr_tri_str (nd_dep x);
  vis ← (if is_menu then v ← expr_tri_str (nd_visibility x); mret ["'visible if' deps " +:+ v] else mret []);
  mret (fields_str ([match nd_item x with
                     | NSym s => "menu node for symbol " +:+ sym_name (sym cfg s)
                     | NChoice c => "menu node for choice" +:+ match ch_name (chc cfg c) with Some m => " " +:+ m | None => "" end
                     | NMenu => "menu node for menu"
                     | _ => "menu node for comment"
                     end] ++ prompt
    ++ if_field (is_sym && nd_is_menuconfig x) "is menuconfig" ++ ["deps " +:+ dep] ++ vis
    ++ if_field (has_some (node_sc cfg n) && has_some (nd_help x)) "has help"
    ++ if_field (has_some (nd_list x)) "has child" ++ if_field (has_some (nd_next x)) "has next" ++ [node_loc n])).

(** [Kconfig.__repr__] *)
Definition status (flag : bool) : string := if flag then "enabled" else "disabled".
Definition kconfig_repr (srctree : string) (warn_to_stderr : bool) : K string :=
  st ← gets id;
  p ← match nd_prompt (node cfg (c_top_node cfg)) with Some (p, _) => mret p | None => raise TypeError end;
  mret (fields_str [
    "configuration with " +:+ py_str (Z.of_nat (size (c_sym_table cfg))) +:+ " symbols";
    "main menu prompt " +:+ quote p;
    if String.eqb srctree "" then "srctree is current directory" else "srctree " +:+ quote srctree;
    "config symbol prefix " +:+ quote (c_config_prefix cfg);
    "warnings " +:+ status (st_warn st);
    "printing of warnings to stderr " +:+ status warn_to_stderr;
    "undef. symbol assignment warnings " +:+ status (st_warn_assign_undef st);
    "overriding symbol assignment warnings " +:+ status (st_warn_assign_override st);
    "redundant symbol assignment warnings " +:+ status (st_warn_assign_redun st)]).
End Repr.
