(* ===== verification/Scripts.v ===== *)
(** * The experiment scripts

    scripts/rounding_tests.py runs a program under every forced rounding mode,
    scripts/eventtrace.py turns a trace of events into counts per interval, and
    scripts/runanalyze.py disassembles the instructions that an analysis
    reports.  What they print and run is a list of effects; the output of
    external commands is a parameter.  The indentation of rounding_tests.py mixes
    tabs and spaces, which Python 2 accepts, with tabs of eight columns. *)
From S2P Require Import Prelude PyStr PyText.

Inductive effect := Print (s : string) | System (command : string).

(** ** rounding_tests.py *)

Section RoundingTests.
Context (program_command output_file_match : string).

Definition roundings : list string :=
  flat_map (fun r => [r; r +:+ ",ftz"; r +:+ ",daz"; r +:+ ",daz,ftz"]) ["nearest"; "zero"; "positive"; "negative"].

(** A run, and where its results are moved *)
Definition experiment (run dir : string) : list effect :=
  [System run; System ("mkdir " +:+ dir); System ("mv " +:+ output_file_match +:+ " " +:+ dir); System ("mv *fpemon " +:+ dir)].

Definition dir_of (rounding : string) : string := replace_char "," "_" rounding.

Definition mpi_command (threads : string) (rounding : option string) : string :=
  "mpirun -x FPSPY_MODE=individual -x FPSPY_AGGRESSIVE=yes -x FPSPY_EXCEPT_LIST=invalid "
  +:+ match rounding with Some r => "-x FPSPY_FORCE_ROUNDING=" +:+ r +:+ " " | None => "" end
  +:+ "-x LD_PRELOAD=./fpspy.so -np  " +:+ threads +:+ " " +:+ program_command.

Definition plain_command (rounding : option string) : string :=
  "FPSPY_MODE=individual FPSPY_AGGRESSIVE=yes FPSPY_EXCEPT_LIST=invalid "
  +:+ match rounding with Some r => "FPSPY_FORCE_ROUNDING=" +:+ r +:+ " " | None => "" end
  +:+ "LD_PRELOAD=./fpspy.so " +:+ program_command.

Definition all_experiments (command : option string -> string) : list effect :=
  experiment (command None) "rounding_baseline"
  ++ flat_map (fun r => experiment (command (Some r)) (dir_of r)) roundings.

Definition mpi_tests (threads : string) : list effect :=
  [Print "running in MPI mode"; Print "running baseline test"] ++ all_experiments (mpi_command threads)
  ++ [Print "rounding tests concluded."].

Definition nompi_tests : list effect :=
  [Print "running in non-mpi mode"; Print "running baseline test"] ++ all_experiments plain_command
  ++ [Print "rounding tests concluded."].

(** The script, from [sys.argv] *)
Definition rounding_tests (argv : list string) : res (list effect) :=
  match argv with
  | [_; mode; threads] =>
      if String.eqb mode "mpi" then Ok (mpi_tests threads)
      else if String.eqb mode "nompi" then Ok nompi_tests
      else Err (SystemExit "We shouldn't be here! Check your command line arguments...")
  | _ => Err (SystemExit "needs mpi or nompi and num threads (1 if nompi)")
  end.
End RoundingTests.

(** ** eventtrace.py *)

(** [csv.writer] with a space between fields and ['|'] as the quote *)
Definition csv_special (c : ascii) : bool :=
  Ascii.eqb c " " || Ascii.eqb c "|" || Ascii.eqb c NL || Ascii.eqb c (chr 13).
Definition csv_field (s : string) : string :=
  if any_char csv_special s then "|" +:+ replace_char "|" "||" s +:+ "|" else s.
Definition csv_row (l : list string) : string := py_join " " (map csv_field l) +:+ String (chr 13) (String NL "").

(** The first field of a line as a number *)
Definition millis_of (line : string) : res Z :=
  match fields is_space line with
  | [] => Err IndexError
  | f :: _ => match py_int f 10 with Some n => Ok n | None => Err ValueError end
  end.

Record Trace := mkTrace { tr_prev : Z; tr_events : Z; tr_rows : list (Z * Z) }.

(** One line of the loop; a row is a time and the number of events *)
Definition trace_event (interval : Z) (t : Trace) (millis : Z) : Trace :=
  let events := tr_events t + 1 in
  if millis - tr_prev t <? interval then mkTrace (tr_prev t) (events + 1) (tr_rows t)
  else mkTrace millis 0 (tr_rows t ++ [(tr_prev t, events)]).

(** The loop; the rows are kept when a line cannot be read *)
Fixpoint trace_loop (interval : Z) (t : Trace) (lines : list string) : res unit * Trace :=
  match lines with
  | [] => (Ok tt, t)
  | l :: lines =>
      match millis_of l with
      | Ok millis => trace_loop interval (trace_event interval t millis) lines
      | Err e => (Err e, t)
      end
  end.

Definition row_text (r : Z * Z) : string := csv_row [py_str r.1 +:+ ","; py_str r.2].

(** The script from [sys.argv] and the lines of the standard input: its result
    and the contents of trace.csv, if it was opened *)
Definition eventtrace (argv : list string) (lines : list string) : res unit * option string :=
  match argv with
  | [_; arg] =>
      match py_int arg 10 with
      | None => (Err ValueError, None)
      | Some interval =>
          match millis_of (hd "" lines) with
          | Err e => (Err e, None)
          | Ok initial =>
              let '(r, t) := trace_loop interval (mkTrace initial 0 []) (tl lines) in
              (r, Some (csv_row ["Time,"; "Events"] +:+ String.concat "" (map row_text (tr_rows t))))
          end
      end
  | _ => (Err (SystemExit "Error - needs time interval in ms"), None)
  end.

(** ** runanalyze.py *)

Section RunAnalyze.
(** [commands.getstatusoutput] *)
Context (getstatusoutput : string -> Z * string).

(** [str.splitlines] of Python 2 *)
Fixpoint splitlines2 (s : string) : list string :=
  let cons c ls := match ls with [] => [String c EmptyString] | l :: ls => String c l :: ls end in
  match s with
  | EmptyString => []
  | String c s' =>
      if Ascii.eqb c (chr 13) then
        match s' with
        | String d s'' => if Ascii.eqb d NL then EmptyString :: splitlines2 s'' else EmptyString :: splitlines2 s'
        | EmptyString => [EmptyString]
        end
      else if Ascii.eqb c NL then EmptyString :: splitlines2 s'
      else cons c (splitlines2 s')
  end.

Definition is_space2 (c : ascii) : bool := in_range_n 9 13 c || Ascii.eqb c " ".

(** One instruction: its count and its disassembly *)
Definition disassemble (cmd : list string) : res string :=
  match cmd with
  | count :: code :: _ => Ok (count +:+ String (chr 9) (getstatusoutput ("disassem_instr.pl  " +:+ code)).2)
  | _ => Err IndexError
  end.

(** The lines printed until the first line that is not a count and an instruction *)
Fixpoint disassemble_all (l : list (list string)) : res unit * list effect :=
  match l with
  | [] => (Ok tt, [])
  | cmd :: l =>
      match disassemble cmd with
      | Err e => (Err e, [])
      | Ok s => let '(r, out) := disassemble_all l in (r, Print s :: out)
      end
  end.

Definition runanalyze (argv : list string) : res unit * list effect :=
  match argv with
  | _ :: infile :: _ =>
      disassemble_all (map (fields is_space2) (splitlines2 (getstatusoutput ("analyze_individual_auto.pl " +:+ infile)).2))
  | [_] => (Ok tt, [Print "Need input file"])
  | [] => (Err IndexError, [])
  end.
End RunAnalyze.

(** ** What the counts of eventtrace.py mean *)

(** Events in the order they are read, in groups: the events that stay in the
    interval, and the one that ends it *)
Inductive grouped (interval : Z) : Z -> list Z -> list (Z * list Z) -> Prop :=
| group_open prev l : Forall (fun m => m - prev < interval) l -> grouped interval prev l []
| group_closed prev l m rest gs :
    Forall (fun m => m - prev < interval) l -> interval <= m - prev -> grouped interval m rest gs ->
    grouped interval prev (l ++ m :: rest) ((prev, l ++ [m]) :: gs).

Lemma trace_inside interval prev l : Forall (fun m => m - prev < interval) l -> forall events rows,
  foldl (trace_event interval) (mkTrace prev events rows) l = mkTrace prev (events + 2 * Z.of_nat (length l)) rows.
Proof.
  induction 1 as [|m l Hm _ IH]; intros events rows; [simpl; f_equal; lia|].
  cbn [foldl]. unfold trace_event at 2. cbn [tr_prev tr_events tr_rows]. rewrite (proj2 (Z.ltb_lt _ _) Hm), IH.
  f_equal. simpl length. lia.
Qed.

Lemma grouped_rows interval prev l gs : grouped interval prev l gs -> forall rows,
  tr_rows (foldl (trace_event interval) (mkTrace prev 0 rows) l)
  = rows ++ map (fun g => (g.1, 2 * Z.of_nat (length g.2) - 1)) gs.
Proof.
  induction 1 as [prev l Hl|prev l m rest gs Hl Hm _ IH]; intros rows.
  - rewrite trace_inside by done. simpl. by rewrite app_nil_r.
  - rewrite foldl_app, trace_inside by done. cbn [foldl]. unfold trace_event at 2. cbn [tr_prev tr_events tr_rows].
    rewrite (proj2 (Z.ltb_ge _ _) Hm), IH, <- app_assoc. cbn [map fst snd app]. rewrite length_app. cbn [length].
    repeat f_equal. lia.
Qed.

Lemma grouped_exists interval : forall l prev, exists gs, grouped interval prev l gs.
Proof.
  induction l as [|m l IH]; intros prev; [exists []; by constructor|].
  destruct (Z.lt_ge_cases (m - prev) interval) as [Hm|Hm].
  - destruct (IH prev) as (gs & H). inversion H as [p l' Hl|p l' m' rest gs' Hl Hm' Hr]; subst.
    + exists []. constructor. by constructor.
    + exists ((prev, (m :: l') ++ [m']) :: gs'). apply (group_closed interval prev (m :: l') m' rest gs'); [by constructor|done|done].
  - destruct (IH m) as (gs & H). exists ((prev, [] ++ [m]) :: gs). by apply (group_closed interval prev [] m l gs).
Qed.

(** C35. The counts of eventtrace.py: the events fall into groups, each ended by the
    first event that is [interval] or more after the time of the group, and the
    row of a group of [n] events says [2 n - 1] - the events inside the interval
    are counted twice.  The events after the last row are not reported. *)
Theorem eventtrace_counts (interval : Z) (first : Z) (events : list Z) :
  exists groups, grouped interval first events groups
    /\ tr_rows (foldl (trace_event interval) (mkTrace first 0 []) events)
       = map (fun g => (g.1, 2 * Z.of_nat (length g.2) - 1)) groups.
Proof.
  destruct (grouped_exists interval events first) as (gs & H). exists gs. split; [done|].
  by rewrite (grouped_rows _ _ _ _ H []).
Qed.

Example eventtrace_ex :
  eventtrace ["eventtrace.py"; "10"] ["0 a"; "1 b"; "2 c"; "12 d"; "13 e"]
  = (Ok tt, Some (csv_row ["Time,"; "Events"] +:+ csv_row ["0,"; "5"])).
Proof. vm_compute. reflexivity. Qed.

Example rounding_tests_ex :
  match rounding_tests "prog" "*.out" ["rounding_tests.py"; "nompi"; "1"] with Ok l => nth_error l 10 | Err _ => None end
  = Some (System "FPSPY_MODE=individual FPSPY_AGGRESSIVE=yes FPSPY_EXCEPT_LIST=invalid FPSPY_FORCE_ROUNDING=nearest,ftz LD_PRELOAD=./fpspy.so prog").
Proof. vm_compute. reflexivity. Qed.
