(* ===== verification/Reading.v ===== *)
(** * Programs that read values

    A program that only reads the values of a configuration in use succeeds, and
    what it returns is fixed by the user values: it is [steady].  The caches it
    finds do not matter, and it leaves the configuration in use. *)
From S2P Require Import Prelude PyStr PyText Model Eval EvalSpec EvalRefine EvalDet Values SetValue Validity Session ConfigFile Edit Menu Display.

Section Reading.
Context (cfg : Config) `{L : Loaded cfg} (U : uvals) (HU : user_ok cfg U).
Local Abbreviation rho := (solution cfg U).
Local Abbreviation E := (ev cfg depth).

Definition reads {A} (m : K A) (a : A) : Prop := forall st, InUse cfg U st ->
  exists st', m st = (Ok a, st') /\ InUse cfg U st'.
Definition steady {A} (m : K A) : Prop := exists a, reads m a.

Lemma reads_ret {A} (a : A) : reads (mret a) a.
Proof. intros st H. by exists st. Qed.
Lemma reads_bind {A B} (m : K A) (k : A -> K B) a b : reads m a -> reads (k a) b -> reads (m ≫= k) b.
Proof.
  intros Hm Hk st H. destruct (Hm st H) as (st1 & E1 & H1). destruct (Hk st1 H1) as (st2 & E2 & H2).
  exists st2. split; [|done]. by eapply bind_ok.
Qed.

Lemma steady_reads {A} (m : K A) a : reads m a -> steady m.
Proof. intros H. by exists a. Qed.
Lemma steady_ret {A} (a : A) : steady (mret a).
Proof. apply (steady_reads _ a), reads_ret. Qed.
Lemma steady_bind {A B} (m : K A) (k : A -> K B) : steady m -> (forall a, steady (k a)) -> steady (m ≫= k).
Proof. intros [a Ha] Hk. destruct (Hk a) as [b Hb]. exists b. by eapply reads_bind. Qed.
Lemma steady_bind_value {A B} (m : K A) (k : A -> K B) a : reads m a -> steady (k a) -> steady (m ≫= k).
Proof. intros Ha [b Hb]. exists b. by eapply reads_bind. Qed.

Lemma steady_foldM {A B} (f : B -> A -> K B) l : (forall b x, In x l -> steady (f b x)) -> forall b, steady (foldM f b l).
Proof.
  induction l as [|x l IH]; intros H b; [apply steady_ret|]. simpl. apply steady_bind; [apply H; by left|].
  intros b'. apply IH. intros; apply H; by right.
Qed.
Lemma steady_mapM {A B} (f : A -> K B) l : (forall x, In x l -> steady (f x)) -> steady (mapM f l).
Proof.
  induction l as [|x l IH]; intros H; [apply steady_ret|]. simpl. apply steady_bind; [apply H; by left|].
  intros b. apply steady_bind; [|intros; apply steady_ret]. apply IH. intros; apply H; by right.
Qed.

(** ** The accesses *)

Lemma tri_in_use s : 0 <= v_tri rho s <= 2.
Proof. eapply tri_bounds; eauto using solution_model, user_ok_typed, loaded_ranked. Qed.
Lemma ctri_in_use c : 0 <= v_ctri rho c <= 2.
Proof. eapply ctri_bounds; eauto using solution_model, user_ok_typed, loaded_ranked. Qed.

Lemma reads_str s : reads (ev_str E s) (v_str rho s).
Proof. intros st H. by apply read_str. Qed.
Lemma reads_tri s : reads (ev_tri E s) (v_tri rho s).
Proof. intros st H. by apply read_tri. Qed.
Lemma reads_ctri c : reads (ev_ctri E c) (v_ctri rho c).
Proof. intros st H. by apply read_ctri. Qed.
Lemma reads_vis s : reads (ev_vis E s) (v_vis rho s).
Proof. intros st H. by apply read_vis. Qed.
Lemma reads_csel c : reads (ev_csel E c) (v_csel rho c).
Proof. intros st H. by apply read_csel. Qed.
Lemma reads_expr e : reads (expr_value cfg E e) (d_expr cfg rho e).
Proof. intros st H. by apply read_expr. Qed.
Lemma reads_assignable s : reads (sym_assignable cfg E s) (d_assignable cfg rho s).
Proof. intros st H. by apply read_assignable. Qed.
Lemma reads_cassignable c : reads (ch_assignable cfg E c) (d_cassignable cfg rho c).
Proof. intros st H. apply (unwrap cfg AList); [congruence|]. exact (step_in_use cfg U st (OChoiceAssignable c) H eq_refl). Qed.
Lemma reads_user s : reads (sget user_value s) (u_sym U s).
Proof. intros st H. exists st. split; [|done]. unfold sget, gets. by rewrite (vd_user _ _ _ (use_valid _ _ _ H)). Qed.

(** A value is written as n, m or y *)
Lemma steady_tri_to_str v : 0 <= v <= 2 -> steady (tri_to_str v).
Proof.
  intros Hv. destruct (tri_to_str_ok v Hv) as [t Ht]. exists t. intros st H. exists st. split; [|done].
  unfold tri_to_str. by rewrite Ht.
Qed.

(** ** Types and menu entries *)

Lemma steady_sym_type s : steady (sym_type cfg E s).
Proof.
  unfold sym_type. destruct (type_eqb _ _); [|apply steady_ret].
  apply steady_bind.
  - destruct (sym_choice _); [|apply steady_ret]. eapply steady_bind_value; [apply reads_ctri|apply steady_ret].
  - intros []; [apply steady_ret|]. eapply steady_bind_value; [apply reads_tri|apply steady_ret].
Qed.
Lemma steady_ch_type c : steady (ch_type cfg E c).
Proof.
  unfold ch_type. destruct (type_eqb _ _); [|apply steady_ret].
  eapply steady_bind_value; [apply reads_tri|apply steady_ret].
Qed.
Lemma steady_sc_type i : steady (sc_type cfg depth i).
Proof. destruct i; [apply steady_sym_type|apply steady_ch_type]. Qed.
Lemma steady_sc_assignable i : steady (sc_assignable cfg depth i).
Proof. destruct i; eapply steady_reads; [apply reads_assignable|apply reads_cassignable]. Qed.
Lemma steady_sc_str_value i : steady (sc_str_value cfg depth i).
Proof.
  destruct i as [s|c]; simpl; [eapply steady_reads, reads_str|].
  eapply steady_bind_value; [apply reads_ctri|]. apply steady_tri_to_str, ctri_in_use.
Qed.
Lemma reads_sc_tri i : exists v, 0 <= v <= 2 /\ reads (sc_tri_value cfg depth i) v.
Proof.
  destruct i as [s|c]; simpl; [exists (v_tri rho s)|exists (v_ctri rho c)]; split;
    auto using tri_in_use, ctri_in_use, reads_tri, reads_ctri.
Qed.
Lemma reads_y_mode i : exists b, reads (is_y_mode_choice_sym cfg depth i) b
  /\ (b = true -> exists s c, i = ISym s /\ sym_choice (sym cfg s) = Some c).
Proof.
  destruct i as [s|c]; simpl; [|exists false; split; [apply reads_ret|done]].
  destruct (sym_choice _) as [c|] eqn:Hc; [|exists false; split; [apply reads_ret|done]].
  exists (v_vis rho s =? 2). split; [|by exists s, c].
  eapply reads_bind; [apply reads_vis|apply reads_ret].
Qed.

(** The value shown before a menu entry *)
Lemma steady_value_str n : steady (value_str cfg depth n).
Proof.
  unfold value_str. destruct (items_of cfg n) as [i|]; [|apply steady_ret].
  destruct (type_eqb _ _); [apply steady_ret|].
  destruct (one_of_types _ _); [apply steady_bind; [apply steady_sc_str_value|intros; apply steady_ret]|].
  destruct (reads_y_mode i) as (y & Hy & Hc). eapply steady_bind_value; [exact Hy|].
  assert (Hrest : steady (
    v ← sc_tri_value cfg depth i;
    c ← match [" "; "M"; "*"] !! Z.to_nat v with Some c => mret c | None => raise IndexError end;
    a ← sc_assignable cfg depth i;
    if len a <=? 1 then mret (match i with IChoice _ => "" | ISym _ => "-" +:+ c +:+ "-" end)
    else
      t ← sc_type cfg depth i;
      if type_eqb t BOOL then mret ("[" +:+ c +:+ "]")
      else mret (if bool_decide (a = [1; 2]) then "{" +:+ c +:+ "}" else "<" +:+ c +:+ ">"))).
  { destruct (reads_sc_tri i) as (v & Hv & Hr). eapply steady_bind_value; [exact Hr|].
    apply steady_bind.
    - assert (is_Some ([" "; "M"; "*"] !! Z.to_nat v)) as [c ->]; [|apply steady_ret].
      apply lookup_lt_is_Some_2. simpl. lia.
    - intros c. apply steady_bind; [apply steady_sc_assignable|]. intros a.
      destruct (_ <=? _); [apply steady_ret|]. apply steady_bind; [apply steady_sc_type|]. intros t.
      destruct (type_eqb _ _); apply steady_ret. }
  destruct y; [|exact Hrest]. destruct (Hc eq_refl) as (s & c & -> & ->).
  eapply steady_bind_value; [apply reads_csel|apply steady_ret].
Qed.

Lemma steady_visible n : steady (visible cfg depth n).
Proof.
  unfold visible. destruct (nd_prompt _) as [[p cond]|]; [|apply steady_ret].
  eapply steady_bind_value; [apply reads_expr|]. destruct (_ =? 0); [apply steady_ret|].
  destruct (nd_item _); try apply steady_ret.
  eapply steady_bind_value; [apply reads_expr|apply steady_ret].
Qed.

Lemma steady_is_new s : steady (is_new cfg depth s).
Proof.
  unfold is_new. eapply steady_bind_value; [apply reads_user|]. destruct (_ && _); [|apply steady_ret].
  destruct (sym_choice _); [|apply steady_ret]. eapply steady_bind_value; [apply reads_ctri|apply steady_ret].
Qed.
End Reading.
