(* ===== verification/MinConfig.v ===== *)
(** * The minimal configuration

    What [write_min_config] writes: the lines of the symbols whose value is not
    the one they have by default ([d_skips] tells which are left out). *)
From S2P Require Import Prelude PyStr PyText Model Eval EvalSpec EvalRefine EvalDet Values SetValue Validity Session ConfigFile.
From S2P Require Import Frames Tree Lines Reload Loading Saving Edit Menu Display Reading.

Section MinSpec.
Context (cfg : Config) (U : uvals) (rho : valuation).

(** The value that [Symbol._str_default] calculates *)
Definition d_default_tri (s : symid) : Z :=
  let x := sym cfg s in
  let val := Z.max (Z.max (d_expr cfg rho (sym_rev_dep x)) (d_expr cfg rho (sym_weak_rev_dep x)))
               (default 0 (d_tri_default cfg rho s)) in
  if (val =? 1) && type_eqb (d_type cfg rho s) BOOL then 2 else val.
Definition d_default_text (s : symid) : string :=
  let x := sym cfg s in
  if is_bool_tristate (sym_orig_type x) then
    match sym_choice x with Some _ => "n" | None => default "" (TRI_TO_STR (d_default_tri s)) end
  else if type_eqb (sym_orig_type x) UNKNOWN then ""
  else default "" (d_str_default cfg rho s).

(** The symbols that are left out *)
Definition d_skips (s : symid) : bool :=
  let x := sym cfg s in
  match sym_choice x with
  | None => (v_vis rho s <=? d_expr cfg rho (sym_rev_dep x)) || String.eqb (v_str rho s) (d_default_text s)
  | Some c => String.eqb (v_str rho s) (d_default_text s)
      || (negb (ch_is_optional (chc cfg c)) && bool_decide (d_sel_default cfg rho c = Some s)
          && type_eqb (sym_orig_type x) BOOL && (v_tri rho s =? 2))
  end.

Definition min_kept (s : symid) : bool := negb (d_skips s) && d_wtc cfg U rho s.
Definition min_lines : list string :=
  map (fun s => symbol_line cfg s (v_str rho s)) (List.filter min_kept (c_unique_defined_syms cfg)).
End MinSpec.

Section MinConfig.
Context (cfg : Config) `{L : Loaded cfg} (U : uvals) (HU : user_ok cfg U).
Local Abbreviation rho := (solution cfg U).
Local Abbreviation E := (ev cfg depth).
Local Abbreviation reads := (reads cfg U).

Lemma reads_first_some {A B} (f : A -> K (option B)) (g : A -> option B) l :
  (forall a, In a l -> reads (f a) (g a)) -> reads (first_someM f l) (first_some g l).
Proof.
  induction l as [|a l IH]; intros H; [apply reads_ret|]. simpl. eapply reads_bind; [apply H; by left|].
  destruct (g a); [apply reads_ret|]. apply IH. intros x Hx. apply H. by right.
Qed.

Lemma reads_sym_type s : reads (sym_type cfg E s) (d_type cfg rho s).
Proof.
  unfold sym_type, d_type. destruct (type_eqb _ _) eqn:Et; cbn [andb]; [|apply reads_ret].
  apply type_eqb_eq in Et. rewrite Et.
  apply (reads_bind _ _ _ _ (match sym_choice (sym cfg s) with Some c => v_ctri rho c =? 2 | None => false end)).
  { destruct (sym_choice _); [|apply reads_ret]. eapply reads_bind; [apply reads_ctri|apply reads_ret]. }
  destruct (match sym_choice _ with Some c => _ | None => false end); cbn [orb]; [apply reads_ret|].
  eapply reads_bind; [apply reads_tri|]. unfold modules_off. destruct (_ =? 0); apply reads_ret.
Qed.

Lemma reads_tri_to_str v : 0 <= v <= 2 -> reads (tri_to_str v) (default "" (TRI_TO_STR v)).
Proof.
  intros Hv st H. exists st. split; [|done]. assert (Hc : v = 0 \/ v = 1 \/ v = 2) by lia.
  by destruct Hc as [->|[->| ->]].
Qed.

Lemma expr_in_use e : 0 <= d_expr cfg rho e <= 2.
Proof. exact (expr_bounds cfg U rho rank (solution_model cfg U HU) loaded_ranked (user_ok_typed _ _ HU) e). Qed.

Lemma default_tri_bounds s : 0 <= d_default_tri cfg rho s <= 2.
Proof.
  assert (Hd : 0 <= default 0 (d_tri_default cfg rho s) <= 2).
  { destruct (d_tri_default cfg rho s) eqn:Ed; [|simpl; lia]. simpl. apply first_some_in in Ed as ([d c] & _ & Hp).
    unfold d_tri_pick in Hp. simpl in Hp. destruct (_ =? 0); [done|]. injection Hp as <-.
    pose proof (expr_in_use d). pose proof (expr_in_use c). lia. }
  unfold d_default_tri. pose proof (expr_in_use (sym_rev_dep (sym cfg s))). pose proof (expr_in_use (sym_weak_rev_dep (sym cfg s))).
  destruct (_ && _); lia.
Qed.

Lemma reads_default_str s d cond : is_bool_tristate (sym_orig_type (sym cfg s)) = false ->
  sym_orig_type (sym cfg s) <> UNKNOWN -> In (d, cond) (sym_defaults (sym cfg s)) -> reads (default_str_value E d) (d_default_str rho d).
Proof.
  intros Ht Hu Hd. destruct (wf_defaults _ loaded_wf s d cond Hd Ht Hu) as [i ->].
  destruct i as [t|c]; simpl; [apply reads_str|]. eapply reads_bind; [apply reads_ctri|].
  apply reads_tri_to_str. by apply ctri_in_use.
Qed.

Lemma reads_str_default s : reads (str_default cfg E s) (d_default_text cfg rho s).
Proof.
  unfold str_default, d_default_text. destruct (is_bool_tristate _) eqn:Ht.
  - destruct (sym_choice _); [by apply (reads_tri_to_str 0)|].
    apply (reads_bind _ _ _ _ (d_tri_default cfg rho s)).
    { apply reads_first_some. intros [d cond] _. unfold d_tri_pick. simpl.
      eapply reads_bind; [apply reads_expr|]. destruct (_ =? 0); [apply reads_ret|].
      eapply reads_bind; [apply reads_expr|apply reads_ret]. }
    eapply reads_bind; [apply reads_expr|]. eapply reads_bind; [apply reads_expr|].
    pose proof (default_tri_bounds s) as B. unfold d_default_tri in *.
    destruct (_ =? 1) eqn:E1; cbn [andb] in *; [|by apply reads_tri_to_str].
    eapply reads_bind; [apply reads_sym_type|]. by apply reads_tri_to_str.
  - destruct (type_eqb _ UNKNOWN) eqn:Hu; [apply reads_ret|].
    apply (reads_bind _ _ _ _ (d_str_default cfg rho s)); [|apply reads_ret].
    apply reads_first_some. intros [d cond] Hd. unfold d_str_pick. simpl.
    eapply reads_bind; [apply reads_expr|]. destruct (_ =? 0); [apply reads_ret|].
    eapply reads_bind; [apply (reads_default_str s d cond); [done|intros E0; by rewrite E0 in Hu|done]|apply reads_ret].
Qed.

Lemma reads_sel_default c : reads (selection_from_defaults cfg E c) (d_sel_default cfg rho c).
Proof.
  assert (Hv : forall s, reads (vis ← ev_vis E s; mret (if vis =? 0 then None else Some s)) (if_visible rho s)).
  { intros s. eapply reads_bind; [apply reads_vis|apply reads_ret]. }
  unfold selection_from_defaults, d_sel_default. eapply reads_bind.
  - apply (reads_first_some _ (d_sel_pick cfg rho)). intros [d cond] Hd. unfold d_sel_pick. simpl.
    eapply reads_bind; [apply reads_expr|]. destruct (_ =? 0); [apply reads_ret|].
    destruct (wf_ch_defaults _ loaded_wf c d cond Hd) as [s ->]. apply Hv.
  - destruct (first_some _ _); [apply reads_ret|]. by apply reads_first_some.
Qed.

Lemma reads_min_skips s : reads (min_skips cfg E s) (d_skips cfg rho s).
Proof.
  unfold min_skips, d_skips. destruct (sym_choice (sym cfg s)) as [c|]; cbv zeta.
  - eapply reads_bind; [apply reads_ret|]. cbv iota. eapply reads_bind; [apply reads_str|].
    eapply reads_bind; [apply reads_str_default|]. destruct (String.eqb _ _); cbn [orb]; [apply reads_ret|].
    destruct (ch_is_optional _); cbn [negb andb]; [apply reads_ret|].
    eapply reads_bind; [apply reads_sel_default|]. destruct (bool_decide _); cbn [negb andb]; [|apply reads_ret].
    destruct (type_eqb _ _); cbn [negb andb]; [|apply reads_ret].
    eapply reads_bind; [apply reads_tri|apply reads_ret].
  - eapply reads_bind; [eapply reads_bind; [apply reads_vis|eapply reads_bind; [apply reads_expr|apply reads_ret]]|].
    destruct (_ <=? _); cbn [orb]; [apply reads_ret|]. eapply reads_bind; [apply reads_str|].
    eapply reads_bind; [apply reads_str_default|]. destruct (String.eqb _ _); apply reads_ret.
Qed.

Lemma reads_config_string s : reads (config_string cfg E s) (d_config_string cfg U rho s).
Proof. intros st H. by apply read_config_string. Qed.

(** [_min_config_contents] *)
Lemma min_contents_ok header : reads (min_config_contents cfg E header)
  (default (c_config_header cfg) header +:+ lines_text (min_lines cfg U rho)).
Proof.
  unfold min_config_contents, min_lines. generalize (c_unique_defined_syms cfg) as l. intros l.
  generalize (default (c_config_header cfg) header). induction l as [|s l IH]; intros out.
  { intros st H. exists st. split; [|done]. simpl. by rewrite append_nil_r. }
  set (line := if min_kept cfg U rho s then symbol_line cfg s (v_str rho s) +:+ String NL "" else "").
  eapply (reads_bind _ _ _ _ (out +:+ line)).
  - eapply reads_bind; [apply reads_min_skips|]. unfold line, min_kept.
    destruct (d_skips cfg rho s); cbn [negb andb]; [rewrite append_nil_r; apply reads_ret|].
    eapply reads_bind; [apply reads_config_string|]. rewrite config_string_line. apply reads_ret.
  - cbn [List.filter]. assert (Ho : out +:+ lines_text (map (fun s => symbol_line cfg s (v_str rho s))
       (if min_kept cfg U rho s then s :: List.filter (min_kept cfg U rho) l else List.filter (min_kept cfg U rho) l))
      = (out +:+ line) +:+ lines_text (map (fun s => symbol_line cfg s (v_str rho s)) (List.filter (min_kept cfg U rho) l))).
    { unfold line. destruct (min_kept _ _ _ _); cbn [map]; [|by rewrite append_nil_r].
      by rewrite lines_text_cons, !append_assoc. }
    rewrite Ho. apply IH.
Qed.
End MinConfig.
