(* ===== verification/MinProps.v ===== *)
(** * Loading a minimal configuration

    The values of a configuration can be restored from its minimal configuration,
    unless a user value sits at a symbol that is visible and selected with m. *)
From S2P Require Import Prelude PyStr PyText Model Eval EvalSpec EvalRefine EvalDet Values SetValue Validity Session ConfigFile.
From S2P Require Import Checks Finalize Fpspy Demo Frames Tree Lines Reload Loading Saving Restore RoundTrip FileChecks FileProps AnyFile.
From S2P Require Import ValueProps Edit Menu Display Reading MinConfig.

(** ** What can be restored *)

(** Choices are mandatory and bool, and so are their symbols *)
Definition plain_choices (cfg : Config) : Prop :=
  (forall c, In c (c_unique_choices cfg) -> ch_orig_type (chc cfg c) = BOOL /\ ch_is_optional (chc cfg c) = false)
  /\ forall s c, sym_choice (sym cfg s) = Some c -> sym_orig_type (sym cfg s) = BOOL.

Record restorable (cfg : Config) (U : uvals) (rho : valuation) : Prop := {
  rs_dep : forall s, sym_choice (sym cfg s) = None -> is_bool_tristate (sym_orig_type (sym cfg s)) = true ->
    v_vis rho s <> 0 -> d_expr cfg rho (sym_direct_dep (sym cfg s)) <> 0;
  rs_narrow : forall s, sym_choice (sym cfg s) = None -> v_vis rho s = 1 ->
    d_expr cfg rho (sym_rev_dep (sym cfg s)) = 1 -> d_promoted cfg rho s = false -> u_sym U s = None;
  rs_select : forall s, is_bool_tristate (sym_orig_type (sym cfg s)) = false ->
    d_expr cfg rho (sym_rev_dep (sym cfg s)) = 0;
}.

(** ** The user values after loading *)

Section Restored.
Context (cfg : Config) `{L : Loaded cfg} (FL : fileable cfg) (PC : plain_choices cfg).
Context (U : uvals) (HU : user_ok cfg U).
Local Abbreviation rho := (solution cfg U).
Context (SV : savable cfg U rho) (RS : restorable cfg U rho).

(** What the minimal configuration sets *)
Record min_users (U' : uvals) : Prop := {
  mu_sym : forall s, In s (c_unique_defined_syms cfg) ->
    u_sym U' s = if min_kept cfg U rho s then entered cfg rho s else None;
  mu_sel : forall c, In c (c_unique_choices cfg) ->
    (forall s, sym_choice (sym cfg s) = Some c -> min_kept cfg U rho s = true -> In s (c_unique_defined_syms cfg) ->
       v_tri rho s = 2 -> u_sel U' c = Some s)
    /\ ((forall s, sym_choice (sym cfg s) = Some c -> min_kept cfg U rho s = false) -> u_sel U' c = None);
}.

Context (U' : uvals) (MU : min_users U').

(** The symbol is not in the file and has no user value *)
Lemma same_without_user s : u_sym U' s = None -> u_sym U s = None -> d_tri cfg U rho s = d_tri cfg U' rho s.
Proof. intros H1 H2. unfold d_tri, d_tri_free, d_selected, d_unselected, d_user. by rewrite H1, H2. Qed.

Lemma default_in_use s : 0 <= default 0 (d_tri_default cfg rho s) <= 2.
Proof.
  destruct (d_tri_default cfg rho s) eqn:Ed; [|simpl; lia]. simpl. apply first_some_in in Ed as ([d c] & _ & Hp).
  unfold d_tri_pick in Hp. simpl in Hp. destruct (_ =? 0); [done|]. injection Hp as <-.
  pose proof (expr_in_use cfg U HU d). pose proof (expr_in_use cfg U HU c). lia.
Qed.

(** The value before selects, from the defaults *)
Lemma unselected_default s : is_bool_tristate (sym_orig_type (sym cfg s)) = true -> sym_choice (sym cfg s) = None ->
  v_vis rho s <> 0 -> u_sym U' s = None ->
  d_unselected cfg U' rho s = Z.max (d_expr cfg rho (sym_weak_rev_dep (sym cfg s))) (default 0 (d_tri_default cfg rho s)).
Proof.
  intros Ht Hc Hv Hu. pose proof (default_in_use s). pose proof (expr_in_use cfg U HU (sym_weak_rev_dep (sym cfg s))).
  unfold d_unselected, d_user, d_implied. rewrite Hu, (proj2 (Z.eqb_neq _ 0) (rs_dep _ _ _ RS s Hc Ht Hv)).
  destruct (Z.eqb_spec (d_expr cfg rho (sym_weak_rev_dep (sym cfg s))) 0); lia.
Qed.

(** A user value is limited by the visibility *)
Lemma unselected_user s u : is_bool_tristate (sym_orig_type (sym cfg s)) = true -> v_vis rho s <> 0 -> u_sym U s = Some u ->
  d_unselected cfg U rho s <= v_vis rho s.
Proof.
  intros Ht Hv Hu. pose proof (uo_sym _ _ HU s u Hu) as Hok. unfold d_unselected, d_user. rewrite Hu.
  destruct u as [z|x]; [|by destruct (sym_orig_type (sym cfg s))]. rewrite (proj2 (Z.eqb_neq _ 0) Hv). lia.
Qed.

(** What is left out because it is selected as strongly as it is visible *)
Lemma selected_free s : is_tri_const cfg s = false -> is_bool_tristate (sym_orig_type (sym cfg s)) = true ->
  sym_choice (sym cfg s) = None -> v_vis rho s <> 0 -> v_vis rho s <= d_expr cfg rho (sym_rev_dep (sym cfg s)) ->
  u_sym U' s = None -> v_tri rho s = d_tri_free cfg U' rho s.
Proof.
  intros Hn Ht Hc Hv Hs Hu. pose proof (not_const_tri cfg U rho (sol cfg U HU) s Hn Ht) as Ho. rewrite Hc in Ho.
  pose proof (sol_vis cfg U HU s) as Bv. pose proof (sol_tri cfg U HU s) as Bt.
  pose proof (expr_in_use cfg U HU (sym_rev_dep (sym cfg s))) as Br.
  pose proof (expr_in_use cfg U HU (sym_weak_rev_dep (sym cfg s))) as Bw.
  pose proof (default_in_use s) as Bd.
  destruct (u_sym U s) as [u|] eqn:Eu; [|rewrite Ho; unfold d_tri_free, d_selected, d_unselected, d_user; by rewrite Hu, Eu].
  pose proof (unselected_user s u Ht Hv Eu) as Hx. pose proof (rs_narrow _ _ _ RS s Hc) as Hnarrow. rewrite Eu in Hnarrow.
  revert Ho. unfold d_tri_free, d_selected. rewrite (unselected_default s Ht Hc Hv Hu).
  assert (Hp : d_promoted cfg rho s = false -> d_expr cfg rho (sym_rev_dep (sym cfg s)) = 2).
  { intros Hp. destruct (Z.eq_dec (d_expr cfg rho (sym_rev_dep (sym cfg s))) 2) as [|Hne]; [done|].
    assert (Some u = None) by (apply Hnarrow; [lia..|done]). done. }
  revert Hx Hp. generalize (d_unselected cfg U rho s) (d_promoted cfg rho s). intros x b Hx Hp.
  destruct (Z.eqb_spec (d_expr cfg rho (sym_rev_dep (sym cfg s))) 0); [lia|].
  destruct b; rewrite ?andb_true_r, ?andb_false_r; [|specialize (Hp eq_refl); lia].
  repeat match goal with |- context [?a =? 1] => destruct (Z.eqb_spec a 1) end; lia.
Qed.

Lemma tri_text_inj a b : 0 <= a <= 2 -> 0 <= b <= 2 -> default "" (TRI_TO_STR a) = default "" (TRI_TO_STR b) -> a = b.
Proof.
  intros Ha Hb. assert (Ca : a = 0 \/ a = 1 \/ a = 2) by lia. assert (Cb : b = 0 \/ b = 1 \/ b = 2) by lia.
  by destruct Ca as [->|[->| ->]], Cb as [->|[->| ->]].
Qed.

(** What is left out because it has its default value *)
Lemma default_free s : is_bool_tristate (sym_orig_type (sym cfg s)) = true ->
  sym_choice (sym cfg s) = None -> v_vis rho s <> 0 -> v_str rho s = d_default_text cfg rho s -> u_sym U' s = None ->
  v_tri rho s = d_tri_free cfg U' rho s.
Proof.
  intros Ht Hc Hv Hs Hu. rewrite (model_str _ _ _ (sol cfg U HU)) in Hs. unfold d_str, d_default_text in Hs. rewrite Ht, Hc in Hs.
  apply tri_text_inj in Hs; [|by apply sol_tri|by apply default_tri_bounds]. rewrite Hs.
  pose proof (expr_in_use cfg U HU (sym_rev_dep (sym cfg s))) as Br.
  pose proof (expr_in_use cfg U HU (sym_weak_rev_dep (sym cfg s))) as Bw.
  pose proof (default_in_use s) as Bd.
  unfold d_default_tri, d_tri_free, d_selected, d_promoted. rewrite (unselected_default s Ht Hc Hv Hu).
  set (rd := d_expr cfg rho (sym_rev_dep (sym cfg s))) in *. set (w := d_expr cfg rho (sym_weak_rev_dep (sym cfg s))) in *.
  set (d := default 0 _) in *. clearbody rd w d.
  assert (E : (if rd =? 0 then Z.max w d else Z.max rd (Z.max w d)) = Z.max (Z.max rd w) d) by (destruct (Z.eqb_spec rd 0); lia).
  rewrite E. destruct (Z.eqb_spec (Z.max (Z.max rd w) d) 1); cbn [andb]; [|done].
  destruct (Z.eqb_spec w 2); [lia|]. by rewrite orb_false_r.
Qed.

(** *** The equations, one by one *)

(** A visible symbol that is not in the file is skipped, unless a variable determines it *)
Lemma not_kept s : v_vis rho s <> 0 -> sym_orig_type (sym cfg s) <> UNKNOWN -> min_kept cfg U rho s = false ->
  d_skips cfg rho s = true \/ (is_bool_tristate (sym_orig_type (sym cfg s)) = false /\ is_auto cfg s = true).
Proof.
  intros Hv Hu Hk. unfold min_kept in Hk. destruct (d_skips cfg rho s); [by left|right]. cbn [negb andb] in Hk.
  destruct (is_bool_tristate (sym_orig_type (sym cfg s))) eqn:Ht; [|destruct (is_auto cfg s) eqn:Ha; [done|]];
    destruct (vis_written cfg U HU s Hv Hu) as [_ Hw]; rewrite ?Ht; auto; congruence.
Qed.

Lemma d_tri_eq s : is_tri_const cfg s = false -> is_bool_tristate (sym_orig_type (sym cfg s)) = true ->
  d_tri cfg U' rho s = match sym_choice (sym cfg s) with
    | None => d_tri_free cfg U' rho s
    | Some c => if v_vis rho s =? 2 then (if bool_decide (v_csel rho c = Some s) then 2 else 0)
                else if negb (v_vis rho s =? 0) && uval_truthy (u_sym U' s) then 1 else 0
    end.
Proof.
  unfold is_tri_const, d_tri. rewrite !orb_false_iff. intros [[-> ->] ->] ->. done.
Qed.

Lemma min_tri s : v_tri rho s = d_tri cfg U' rho s.
Proof.
  destruct (decide (v_vis rho s = 0)) as [H0|H0].
  { rewrite (irr_tri cfg U U' rho s (or_intror H0)). apply (sol cfg U HU). }
  destruct (visible_defined cfg U HU s H0) as [Hd Hn].
  destruct (is_bool_tristate (sym_orig_type (sym cfg s))) eqn:Ht.
  2: { pose proof (model_tri _ _ _ (sol cfg U HU) s) as E. unfold d_tri in *. rewrite Ht in *. done. }
  pose proof (mu_sym _ MU s Hd) as Hu. rewrite (entered_tri cfg U HU s Hn Ht) in Hu.
  assert (Hty : sym_orig_type (sym cfg s) <> UNKNOWN) by (intros E; by rewrite E in Ht).
  destruct (sym_choice (sym cfg s)) as [c|] eqn:Hc.
  - assert (Hv2 : v_vis rho s = 2).
    { pose proof (sol_vis cfg U HU s). destruct (Z.eq_dec (v_vis rho s) 1) as [E|]; [|lia].
      apply (vis1_not_bool cfg U s HU) in E. unfold d_type in E. by rewrite (proj2 PC s c Hc) in E. }
    by rewrite (not_const_tri cfg U rho (sol cfg U HU) s Hn Ht), (d_tri_eq s Hn Ht), Hc, Hv2.
  - assert (Hfree : v_tri rho s = d_tri_free cfg U' rho s).
    { destruct (min_kept cfg U rho s) eqn:Hk; [by apply free_fixpoint|].
      destruct (not_kept s H0 Hty Hk) as [Hs|[Hb _]]; [|congruence]. unfold d_skips in Hs.
      rewrite Hc, orb_true_iff, Z.leb_le, String.eqb_eq in Hs. destruct Hs; [by apply selected_free|by apply default_free]. }
    by rewrite (d_tri_eq s Hn Ht), Hc.
Qed.

Lemma min_str s : v_str rho s = d_str cfg U' rho s.
Proof.
  destruct (decide (v_vis rho s = 0)) as [H0|H0].
  { rewrite (irr_str cfg U U' rho s (or_intror H0)). apply (sol cfg U HU). }
  destruct (visible_defined cfg U HU s H0) as [Hd Hn]. pose proof (mu_sym _ MU s Hd) as Hu.
  destruct (is_bool_tristate (sym_orig_type (sym cfg s)) || type_eqb (sym_orig_type (sym cfg s)) UNKNOWN) eqn:Htk.
  { rewrite (model_str _ _ _ (sol cfg U HU) s). unfold d_str. by destruct (is_bool_tristate _); [|simpl in Htk; rewrite Htk]. }
  apply orb_false_iff in Htk as [Ht Hty].
  assert (Hty' : sym_orig_type (sym cfg s) <> UNKNOWN) by (intros E; by rewrite E in Hty).
  destruct (min_kept cfg U rho s) eqn:Hk; [apply (str_fixpoint cfg U HU U' s H0); by left|].
  destruct (not_kept s H0 Hty' Hk) as [Hs|[_ Ha]].
  2: { apply (str_fixpoint cfg U HU U' s H0). right. split; [done|]. by destruct (sv_auto _ _ _ SV s Ha Ht). }
  unfold d_skips in Hs. destruct (sym_choice (sym cfg s)) as [c|] eqn:Hc; [by rewrite (proj2 PC s c Hc) in Ht|].
  rewrite (rs_select _ _ _ RS s Ht), orb_true_iff, Z.leb_le, String.eqb_eq in Hs.
  pose proof (sol_vis cfg U HU s). destruct Hs as [Hs|Hs]; [lia|].
  unfold d_default_text in Hs. rewrite Ht, Hty in Hs. pose proof (model_str _ _ _ (sol cfg U HU) s) as Ho.
  unfold d_str in Ho |- *. rewrite Ht, Hty in *. destruct (is_int_hex (sym_orig_type (sym cfg s))).
  - unfold d_int_hex in Ho |- *. unfold d_num_user at 1. rewrite Hu, andb_false_r.
    destruct (d_num_user cfg U rho s) as [v|] eqn:Ev; [|done]. unfold d_num_user in Ev.
    destruct (_ && _); [|done]. destruct (u_sym U s) as [[z|x]|]; try done.
    destruct (py_int x _) as [n|] eqn:En; [|done]. destruct (in_range _ n) eqn:Er; [|done]. injection Ev as ->.
    rewrite <- Hs, Ho. unfold d_clamp. unfold in_range in Er. destruct (d_range cfg rho s) as [[low high]|]; [|done].
    rewrite En. simpl. apply andb_true_iff in Er as [E1%Z.leb_le E2%Z.leb_le].
    rewrite (proj2 (Z.ltb_ge _ _) E1), (proj2 (Z.ltb_ge _ _) E2). done.
  - unfold d_string, d_str_user. by rewrite Hu.
Qed.

Lemma min_ctri c : v_ctri rho c = d_ctri cfg U' rho c.
Proof.
  rewrite (model_ctri _ _ _ (sol cfg U HU)). unfold d_ctri.
  assert (Bv : 0 <= v_cvis rho c <= 2)
    by exact (all_bounded cfg U rho rank (sol cfg U HU) loaded_ranked (user_ok_typed _ _ HU) (QCVis c)).
  destruct (is_static cfg (IChoice c)) eqn:Hst.
  { rewrite (static_choice_vis cfg FL U HU c Hst). set (v0 := if ch_is_optional _ then 0 else 1).
    assert (0 <= v0) by (unfold v0; destruct (ch_is_optional _); lia).
    assert (E : forall o : option Z, Z.min (match o with Some v => Z.max v0 v | None => v0 end) 0 = 0) by (intros [v|]; lia).
    by rewrite !E. }
  apply static_ch in Hst. destruct (proj1 PC c Hst) as [Ht Ho]. rewrite Ho.
  assert (Hb : type_eqb (d_ctype cfg rho c) BOOL = true) by (unfold d_ctype; by rewrite Ht). rewrite Hb, !andb_true_r.
  destruct (u_mode U c) as [m|], (u_mode U' c) as [m'|];
    repeat match goal with |- context [?a =? 1] => destruct (Z.eqb_spec a 1) end; lia.
Qed.

Lemma min_csel c : v_csel rho c = d_csel cfg U' rho c.
Proof.
  unfold d_csel. destruct (Z.eqb_spec (v_ctri rho c) 2) as [E|E]; cbn [negb].
  2: { rewrite (model_csel _ _ _ (sol cfg U HU)). unfold d_csel. by rewrite (proj2 (Z.eqb_neq _ 2) E). }
  destruct (selected_value cfg FL U HU SV c E) as (s & Hs & Hc & Hv & Ht). rewrite Hs.
  assert (Hdc : In c (c_unique_choices cfg)) by (apply static_ch, (dep_choice _ loaded_deps s c Hc)).
  destruct (mu_sel _ MU c Hdc) as [Hsel Hnone]. destruct (visible_defined cfg U HU s Hv) as [Hd Hn].
  destruct (min_kept cfg U rho s) eqn:Hk.
  - rewrite (Hsel s Hc Hk Hd Ht). unfold if_visible. by rewrite (proj2 (Z.eqb_neq _ 0) Hv).
  - assert (Hty : sym_orig_type (sym cfg s) = BOOL) by by apply (proj2 PC s c).
    assert (Hbt : is_bool_tristate (sym_orig_type (sym cfg s)) = true) by by rewrite Hty.
    destruct (not_kept s Hv) as [Hk'|[? _]]; [by rewrite Hty|done| |congruence].
    assert (Hdef : d_sel_default cfg rho c = Some s).
    { unfold d_skips in Hk'. rewrite Hc in Hk'. unfold d_default_text in Hk'. rewrite Hbt, Hc in Hk'.
      rewrite (model_str _ _ _ (sol cfg U HU)) in Hk'. unfold d_str in Hk'. rewrite Hbt, Ht in Hk'. simpl in Hk'.
      rewrite !andb_true_iff, bool_decide_eq_true in Hk'. tauto. }
    rewrite Hnone; [by rewrite Hdef|]. intros x Hcx. destruct (decide (x = s)) as [->|Hne]; [done|].
    destruct (fl_choice_type _ FL x c Hcx) as (Hbx & _ & Hnx). unfold min_kept, d_skips. rewrite Hcx.
    assert (Hx : v_tri rho x = 0).
    { rewrite (choice_selects cfg U rho rank (sol cfg U HU) loaded_ranked (user_ok_typed _ _ HU) x c Hnx Hbx Hcx E).
      rewrite bool_decide_eq_false_2; [done|congruence]. }
    assert (Hstr : v_str rho x = "n") by (rewrite (model_str _ _ _ (sol cfg U HU)); unfold d_str; by rewrite Hbx, Hx).
    unfold d_default_text. by rewrite Hstr, Hbx, Hcx.
Qed.

Lemma min_same q : user_ok cfg U' -> agree (solution cfg U') rho q.
Proof.
  intros HU'. apply (models_agree cfg rank loaded_ranked U' U');
    [by apply solution_model| |by apply user_ok_typed|intros q' _; by destruct q'].
  split; [apply min_tri|apply min_str|apply (model_vis _ _ _ (sol cfg U HU))|apply min_ctri
         |apply (model_cvis _ _ _ (sol cfg U HU))|apply min_csel].
Qed.
End Restored.

(** ** Reading the minimal configuration *)

Section MinText.
Context (cfg : Config) `{L : Loaded cfg} (FL : fileable cfg) (PC : plain_choices cfg).
Context (U : uvals) (HU : user_ok cfg U).
Local Abbreviation rho := (solution cfg U).
Context (SV : savable cfg U rho).

Lemma line_assigns_symbol_line s val : In s (c_unique_defined_syms cfg) -> line_value cfg s val = true ->
  line_assigns cfg (symbol_line cfg s val +:+ String NL "") = Some (s, val).
Proof.
  intros Hd Hv. destruct (fl_names _ FL s Hd) as [Hn Hg]. destruct (fl_prefix _ FL) as [Hp1 Hp2].
  unfold line_assigns. rewrite rstrip_newline, rstrip_symbol_line by done.
  pose proof (checked_line_value cfg s val Hv) as Hc.
  assert (Hone : one_line val = true) by (unfold line_value in Hv; by apply andb_true_iff in Hv as [? _]).
  unfold symbol_line. destruct (is_bool_tristate (sym_orig_type (sym cfg s))) eqn:Hb.
  - destruct (negb (String.eqb val "n")) eqn:Hnn.
    + rewrite set_match_line, first_line by done. rewrite Hg. simpl. by rewrite Hc.
    + rewrite set_match_not_set, unset_match_line by done. rewrite Hg. simpl. rewrite Hb.
      by apply negb_false_iff, String.eqb_eq in Hnn as ->.
  - destruct (is_int_hex (sym_orig_type (sym cfg s))) eqn:Hi.
    + rewrite set_match_line, first_line by done. rewrite Hg. simpl. by rewrite Hc.
    + assert (Hq : one_line (String QUOTE (escape val +:+ String QUOTE "")) = true)
        by (by rewrite one_line_cons, one_line_app, one_line_escape, Hone).
      rewrite set_match_line, first_line by done. rewrite Hg. simpl. by rewrite Hc.
Qed.

Local Abbreviation kept := (List.filter (min_kept cfg U rho) (c_unique_defined_syms cfg)).

Lemma kept_spec s : In s kept <-> In s (c_unique_defined_syms cfg) /\ min_kept cfg U rho s = true.
Proof. apply filter_In. Qed.
Lemma kept_written s : In s kept -> written cfg U rho s.
Proof. intros [Hd Hk]%kept_spec. split; [done|]. unfold min_kept in Hk. by apply andb_true_iff in Hk as [_ ?]. Qed.

Lemma min_assigns header : plain_header cfg header ->
  file_assigns cfg (header +:+ lines_text (min_lines cfg U rho)) = map (fun s => (s, v_str rho s)) kept.
Proof.
  intros [He Hc Hi]. unfold file_assigns, min_lines. destruct (fl_prefix _ FL) as [Hp _].
  assert (H1 : Forall (fun l => one_line l = true) (map (fun s => symbol_line cfg s (v_str rho s)) kept)).
  { apply Forall_forall. intros l (s & -> & [Hs _]%list_elem_of_In%kept_spec)%list_elem_of_fmap.
    apply symbol_line_one; [done|by apply (fl_names _ FL)|by apply (sv_lines _ _ _ SV)]. }
  rewrite translate_id by by rewrite no_char_app, Hc, lines_text_no_cr.
  rewrite file_lines_app, file_lines_text, map_map, omap_app by done.
  assert (Hh : omap (line_assigns cfg) (file_lines header) = []).
  { induction Hi as [|l ls Hl _ IH]; [done|]. cbn [omap list_omap]. unfold ignored in Hl.
    apply andb_true_iff in Hl as [E1%bool_decide_eq_true E2%bool_decide_eq_true]. unfold line_assigns at 1. rewrite E1, E2. exact IH. }
  rewrite Hh. apply omap_map_some. intros s Hs.
  apply line_assigns_symbol_line; [by apply kept_spec in Hs as [? _]|].
  apply (written_line cfg U HU SV). by apply kept_written.
Qed.

(** The line of a symbol of a choice that is y *)
Lemma tri_line_y s c : sym_choice (sym cfg s) = Some c -> written cfg U rho s -> v_tri rho s = 2 ->
  (sym_choice (sym cfg s) = Some c /\ accepts cfg s (UStr (v_str rho s)) = true)
  /\ typed_value cfg s (UStr (v_str rho s)) = UTri 2.
Proof.
  intros Hc Hw Hv. destruct (fl_choice_type _ FL s c Hc) as (Ht & _).
  destruct (tri_line cfg U HU s Hw Ht) as (Ha & Hty & _). by rewrite Hv in Hty.
Qed.
Lemma tri_value_y s c : sym_choice (sym cfg s) = Some c -> written cfg U rho s ->
  typed_value cfg s (UStr (v_str rho s)) = UTri 2 -> v_tri rho s = 2 /\ v_csel rho c = Some s.
Proof.
  intros Hc Hw Hty. destruct (fl_choice_type _ FL s c Hc) as (Ht & _ & Hn).
  destruct (tri_line cfg U HU s Hw Ht) as (_ & Hty' & _). rewrite Hty in Hty'.
  assert (Hv : v_tri rho s = 2) by congruence. clear Hty'.
  split; [done|]. destruct (choice_sym_value cfg FL U HU s c Hc Hn) as (E & _ & Hsel); [by rewrite Hv|]. apply Hsel. congruence.
Qed.

(** The text sets what [min_users] says *)
Lemma min_loaded header V : plain_header cfg header ->
  loaded_users cfg (header +:+ lines_text (min_lines cfg U rho)) V -> min_users cfg U V.
Proof.
  intros Hh [Hs _ Hl]. rewrite (min_assigns header Hh) in Hs, Hl. split.
  - intros s Hd. rewrite (Hs s Hd). unfold last_assigned.
    destruct (foldl_last (fun s => (s, v_str rho s)) (fun a => bool_decide (a.1 = s) && accepts cfg s (UStr a.2))
      (fun a => typed_value cfg s (UStr a.2)) (assign_step cfg s) kept) as [H1 H2]; [done|]. cbn [fst snd] in *.
    unfold entered. destruct (min_kept cfg U rho s) eqn:Hk.
    + destruct (accepts cfg s (UStr (v_str rho s))) eqn:Ha.
      * apply H1; [exists s; rewrite bool_decide_eq_true_2 by done; split; [by apply kept_spec|done]|].
        intros x _ [E%bool_decide_eq_true _]%andb_true_iff. by subst.
      * apply H2. intros x _. case_bool_decide; [by subst|done].
    + apply H2. intros x [_ Hx]%kept_spec. case_bool_decide; [congruence|done].
  - intros c Hc. destruct (proj1 PC c Hc) as [Ht Ho]. specialize (Hl c Hc). rewrite Ht in Hl. specialize (Hl eq_refl). unfold last_selected in Hl.
    destruct (foldl_last (fun s => (s, v_str rho s)) (fun a => bool_decide (sym_choice (sym cfg a.1) = Some c)
       && accepts cfg a.1 (UStr a.2) && bool_decide (typed_value cfg a.1 (UStr a.2) = UTri 2)) fst (sel_step cfg c) kept)
      as [H1 H2]; [done|]. cbn [fst snd] in *. split.
    + intros s Hsc Hk Hd Hv. rewrite (H1 s) in Hl; [done| |].
      * exists s. split; [by apply kept_spec|]. rewrite !andb_true_iff, !bool_decide_eq_true.
        exact (tri_line_y s c Hsc (kept_written s (proj2 (kept_spec s) (conj Hd Hk))) Hv).
      * intros x Hx Hy. rewrite !andb_true_iff, !bool_decide_eq_true in Hy. destruct Hy as [[Hcx Ha] Hty].
        pose proof (kept_written s (proj2 (kept_spec s) (conj Hd Hk))) as Hw.
        destruct (tri_value_y x c Hcx (kept_written x Hx) Hty) as [_ Ex].
        destruct (tri_value_y s c Hsc Hw) as [_ Es]; [by apply (tri_line_y s c Hsc Hw Hv)|congruence].
    + intros Hnone. assert (Hno : forall x, In x kept -> sym_choice (sym cfg x) <> Some c).
      { intros x [_ Hx]%kept_spec E. rewrite (Hnone x E) in Hx. done. }
      rewrite H2 in Hl.
      2: { intros x Hx. rewrite bool_decide_eq_false_2 by by apply Hno. done. }
      assert (Hm : last_mode cfg c (map (fun s => (s, v_str rho s)) kept) = None); [|by rewrite Hm in Hl].
      unfold last_mode. revert Hno. generalize kept. intros l Hno. induction l as [|x l IH] using rev_ind; [done|].
      rewrite map_app, foldl_app. cbn [map foldl]. rewrite IH by (intros y Hy; apply Hno, in_app_iff; by left).
      unfold mode_step. cbn [fst snd]. destruct (tri_of_str _); [|done]. rewrite bool_decide_eq_false_2; [done|].
      intros E. apply (Hno x); [apply in_app_iff; right; by left|]. unfold mode_line in E. by destruct (_ && _).
Qed.
End MinText.

(** ** Properties *)

(** C7. A minimal configuration restores the whole one, under conditions.
    [write_min_config] succeeds in any state in use, although it leaves out the
    symbols that have their default value, are fixed by selects or are the default
    selection of a choice; loading its file into any state of the configuration
    gives back every value, visibility, choice mode and selection.  The conditions
    are that all choices are mandatory and bool ([plain_choices]); that no symbol
    with a user value is visible with m and selected with m (without this the claim
    is false, see [min_config_loses_value]), visible symbols have their dependency
    met and only bool and tristate symbols are selected ([restorable]); that every
    choice has a selected symbol, no default exceeds its visibility and values fit
    on lines ([savable]); and that the names of the configuration are those of
    defined symbols and can be read back ([names_defined], [fileable]). *)
Theorem min_config_roundtrip (cfg : Config) (L : Loaded cfg) (getenv : string -> option string)
    (U V : uvals) (f : string) (header : option string) (w : World) (st0 : State) :
  fileable cfg -> names_defined cfg -> plain_choices cfg -> plain_header cfg (default (c_config_header cfg) header) ->
  InUse cfg U (w_state w) -> savable cfg U (solution cfg U) -> restorable cfg U (solution cfg U) -> InUse cfg V st0 ->
  exists w1 st2, write_min_config cfg depth f header w = (Ok ("Minimal configuration saved to '" +:+ f +:+ "'"), w1)
    /\ load_config cfg depth getenv (Some f) true (mkWorld st0 (w_files w1) (w_written w1))
       = (Ok ("Loaded configuration '" +:+ f +:+ "'"), mkWorld st2 (w_files w1) (w_written w1))
    /\ reads_as cfg (solution cfg U) (w_state w1) /\ reads_as cfg (solution cfg U) st2.
Proof.
  intros FL ND PC Hh H SV RS HV. pose proof (use_user _ _ _ H) as HU.
  destruct (min_contents_ok cfg U HU header (w_state w) H) as (st1 & E1 & H1).
  set (text := default (c_config_header cfg) header +:+ lines_text (min_lines cfg U (solution cfg U))) in *.
  set (files := <[f := text]> (w_files w)). set (written := w_written w ++ [f]). exists (mkWorld st1 files written).
  destruct (load_any_config cfg getenv V f text (mkWorld st0 files written) ND HV) as (st2 & U2 & E2 & H2 & S2);
    [apply lookup_insert_eq|].
  exists st2. split; [|split; [exact E2|split; [by apply in_use_reads|]]].
  - unfold write_min_config, write_if_changed, write_file, modify. cbv [mbind W_bind M_bind in_state mret W_ret M_ret].
    by rewrite E1.
  - apply (reads_as_agree cfg (solution cfg U2)); [|by apply in_use_reads]. intros q.
    apply (min_same cfg FL PC U HU SV RS U2); [by apply (min_loaded cfg FL PC U HU SV _ U2 Hh)|apply (use_user _ _ _ H2)].
Qed.

(** *** The repository's configuration *)

Definition plain_choices_check (cfg : Config) : bool :=
  forallb (fun c => type_eqb (ch_orig_type (chc cfg c)) BOOL && negb (ch_is_optional (chc cfg c))) (c_unique_choices cfg)
  && forallb (fun x => match sym_choice x with Some _ => type_eqb (sym_orig_type x) BOOL | None => true end) (c_syms cfg).

Lemma plain_choices_check_sound cfg : plain_choices_check cfg = true -> plain_choices cfg.
Proof.
  unfold plain_choices_check. rewrite andb_true_iff, !forallb_forall. intros [Hc Hs]. split.
  - intros c Hin. specialize (Hc c Hin). rewrite andb_true_iff, type_eqb_eq, negb_true_iff in Hc. done.
  - intros s c E. destruct (sym_in_or_none cfg s) as [Hin|Hno]; [|by rewrite Hno in E].
    specialize (Hs _ Hin). rewrite E in Hs. by apply type_eqb_eq in Hs.
Qed.

Definition restorable_check (cfg : Config) (U : uvals) (rho : valuation) : bool :=
  forallb (fun s =>
    let x := sym cfg s in
    let rd := d_expr cfg rho (sym_rev_dep x) in
    if is_bool_tristate (sym_orig_type x)
    then (v_vis rho s =? 0) || negb (d_expr cfg rho (sym_direct_dep x) =? 0)
         && (negb (v_vis rho s =? 1) || negb (rd =? 1) || d_promoted cfg rho s || bool_decide (u_sym U s = None))
    else (rd =? 0) && negb (v_vis rho s =? 1)) (seq 0 (length (c_syms cfg))).

Lemma restorable_check_sound cfg U rho :
  is_model cfg U rho -> d_expr cfg rho (ESym 0%nat) = 0 -> restorable_check cfg U rho = true -> restorable cfg U rho.
Proof.
  intros HM H0. unfold restorable_check. rewrite forallb_forall. intros Hs.
  assert (Hcase : forall s, sym cfg s = no_symbol \/ In s (seq 0 (length (c_syms cfg)))).
  { intros s. destruct (decide (s < length (c_syms cfg))%nat); [right; apply in_seq; lia|left; apply nth_overflow; lia]. }
  split.
  - intros s _ Ht Hv. destruct (Hcase s) as [E|Hin]; [by rewrite E in Ht|]. specialize (Hs s Hin). cbv zeta in Hs.
    rewrite Ht, orb_true_iff, andb_true_iff, negb_true_iff, Z.eqb_eq, Z.eqb_neq in Hs. tauto.
  - intros s _ Hv Hr Hp. destruct (Hcase s) as [E|Hin].
    { rewrite (model_vis _ _ _ HM) in Hv. unfold d_vis, d_hidden in Hv. by rewrite E in Hv. }
    specialize (Hs s Hin). cbv zeta in Hs. rewrite Hv, Hr, Hp in Hs. destruct (is_bool_tristate _); [|done].
    cbn [Z.eqb Pos.eqb negb orb] in Hs. apply andb_true_iff in Hs as [_ Hs]. by apply bool_decide_eq_true in Hs.
  - intros s Ht. destruct (Hcase s) as [E|Hin]; [by rewrite E|]. specialize (Hs s Hin). cbv zeta in Hs.
    rewrite Ht in Hs. apply andb_true_iff in Hs as [Hs _]. by apply Z.eqb_eq.
Qed.

Lemma example_restorable : restorable fpspy example_session.1 (solution fpspy example_session.1).
Proof.
  apply restorable_check_sound; [apply solution_model, (use_user _ _ _ example_in_use)|vm_compute; reflexivity..].
Qed.

Lemma min_config_roundtrip_witness :
  exists w1 st2, write_min_config fpspy (@depth fpspy fpspy_loaded) "defconfig" (Some "") (mkWorld example_session.2 ∅ [])
      = (Ok "Minimal configuration saved to 'defconfig'", w1)
    /\ load_config fpspy (@depth fpspy fpspy_loaded) (fun _ => None) (Some "defconfig") true (mkWorld (init_state fpspy) (w_files w1) (w_written w1))
       = (Ok "Loaded configuration 'defconfig'", mkWorld st2 (w_files w1) (w_written w1))
    /\ reads_as fpspy (solution fpspy example_session.1) (w_state w1)
    /\ reads_as fpspy (solution fpspy example_session.1) st2.
Proof.
  apply (min_config_roundtrip fpspy fpspy_loaded (fun _ => None) example_session.1 no_user "defconfig" (Some "")
    (mkWorld example_session.2 ∅ []) (init_state fpspy)).
  - exact fpspy_fileable.
  - apply names_defined_check_sound. vm_compute. reflexivity.
  - apply plain_choices_check_sound. vm_compute. reflexivity.
  - split; [by left|done|constructor].
  - exact example_in_use.
  - exact example_savable.
  - exact example_restorable.
  - exact (init_in_use fpspy fpspy_wf).
Defined.

(** *** A configuration that a minimal configuration does not restore *)

(** [F] has its prompt, and is selected, with m; it has the default y *)
Definition narrow_parsed : Config := mkConfig
  [ raw_sym "n" true TRISTATE []; raw_sym "m" true TRISTATE []; raw_sym "y" true TRISTATE [];
    raw_sym "MODULES" false BOOL [1%nat]; raw_sym "F" false TRISTATE [2%nat]; raw_sym "X" false TRISTATE [3%nat] ]
  []
  [ demo_node NMenu None (Some 1%nat) None (prompt_ "Narrow") [] [] [] [];
    demo_node (NSym 3%nat) (Some 2%nat) None (Some 0%nat) (prompt_ "Modules") [(y_, y_)] [] [] [];
    demo_node (NSym 4%nat) (Some 3%nat) None (Some 0%nat) (Some ("F", m_cond)) [(y_, y_)] [] [] [];
    demo_node (NSym 5%nat) None None (Some 0%nat) None [(m_cond, y_)] [(4%nat, y_)] [] [] ]
  0%nat 1%nat 2%nat 3%nat None 0%nat [3; 4; 5]%nat [] [] []
  (list_to_map [("MODULES", 3%nat); ("F", 4%nat); ("X", 5%nat)]) "CONFIG_" "" "".

Definition narrow : Config := (finish 40 narrow_parsed).2.

Definition set_save_load : W (Z * Z) :=
  in_state (set_value narrow 60 4%nat (UStr "m"));;
  before ← in_state (ev_tri (ev narrow 60) 4%nat);
  write_min_config narrow 60 "defconfig" None;;
  load_config narrow 60 (fun _ => None) (Some "defconfig") true;;
  after ← in_state (ev_tri (ev narrow 60) 4%nat);
  mret (before, after).

(** The restriction is needed: a tristate symbol that is visible and selected
    with m and has the default y is left out of the minimal configuration as a
    symbol that cannot be changed, so that its value m becomes y when the file is
    loaded. *)
Example min_config_loses_value :
  (finish 40 narrow_parsed).1 = Ok tt
  /\ (set_save_load (mkWorld (init_state narrow) ∅ [])).1 = Ok (1, 2)
  /\ w_files (set_save_load (mkWorld (init_state narrow) ∅ [])).2 !! "defconfig" = Some "".
Proof. split_and!; vm_compute; reflexivity. Qed.
