(* ===== verification/DrawProps.v ===== *)
(** * What drawing does

    Drawing the main display in a state in use succeeds, changes only caches and
    tells curses to write one row for each entry on the screen, the selected one
    highlighted.  What is drawn depends on the user values, not on the caches. *)
From stdpp Require Import list_numbers.
From S2P Require Import Prelude PyStr PyText Model Eval EvalSpec EvalRefine EvalDet Values SetValue Validity Session Fpspy Demo Printing ConfigFile Sanity Parse Edit Menu Display Style Draw Dialogs MenuProps Reading.

(** ** Finite conditions on the menu tree *)

Section Tree.
Context (cfg : Config).

(** The tree below a node is not deeper than the recursion allows *)
Fixpoint fits (fuel : nat) (nd : option nodeid) : bool :=
  match nd, fuel with
  | None, _ => true
  | Some _, O => false
  | Some n, S fuel => fits fuel (nd_list (node cfg n)) && fits fuel (nd_next (node cfg n))
  end.

(** A menu is found above a node *)
Fixpoint climbs (fuel : nat) (parent : option nodeid) : bool :=
  match fuel, parent with
  | S fuel, Some p => nd_is_menuconfig (node cfg p) || climbs fuel (nd_parent (node cfg p))
  | _, _ => false
  end.

(** The menus above a node have names, and the top is found *)
Fixpoint named_path (fuel : nat) (menu : option nodeid) : bool :=
  match fuel, menu with
  | S fuel, Some m =>
      bool_decide (m = c_top_node cfg)
      || (has_some (nd_prompt (node cfg m)) || has_some (node_sc cfg m)) && named_path fuel (nd_parent (node cfg m))
  | _, _ => false
  end.

Definition displayable (n : nodeid) : bool :=
  let x := node cfg n in
  climbs (S (length (c_nodes cfg))) (nd_parent x)
  && fits (shown_fuel cfg) (nd_list x)
  && match nd_item x with
     | NChoice c => forallb (fun m => fits (shown_fuel cfg) (nd_list (node cfg m))) (ch_nodes (chc cfg c))
     | _ => true
     end.

Definition displayable_check : bool :=
  has_some (nd_prompt (node cfg (c_top_node cfg)))
  && forallb (fun n => (bool_decide (n = c_top_node cfg) || displayable n)
                       && named_path (S (length (c_nodes cfg))) (Some n)) (seq 0 (length (c_nodes cfg))).
End Tree.

(** Every node of the configuration can be shown *)
Class Displayable (cfg : Config) := {
  disp_title : is_Some (nd_prompt (node cfg (c_top_node cfg)));
  disp_node : forall n, (n < length (c_nodes cfg))%nat -> n <> c_top_node cfg -> displayable cfg n = true;
  disp_path : forall n, (n < length (c_nodes cfg))%nat -> named_path cfg (S (length (c_nodes cfg))) (Some n) = true;
}.

Lemma has_some_is {A} (o : option A) : has_some o = true -> is_Some o.
Proof. destruct o; [eauto|done]. Qed.

Lemma displayable_check_sound cfg : displayable_check cfg = true -> Displayable cfg.
Proof.
  unfold displayable_check. intros [H1 H2]%andb_true_iff.
  assert (H : forall n, (n < length (c_nodes cfg))%nat ->
    (bool_decide (n = c_top_node cfg) || displayable cfg n) && named_path cfg (S (length (c_nodes cfg))) (Some n) = true).
  { intros n Hn. rewrite forallb_forall in H2. apply H2, in_seq. lia. }
  split; [by apply has_some_is| |].
  - intros n Hn Ht. apply H in Hn as [Hn _]%andb_true_iff. by rewrite bool_decide_eq_false_2 in Hn.
  - intros n Hn. by apply H in Hn as [_ Hn]%andb_true_iff.
Qed.

#[export] Instance fpspy_displayable : Displayable fpspy.
Proof. apply displayable_check_sound. vm_compute. reflexivity. Qed.
#[export] Instance demo_displayable : Displayable demo.
Proof. apply displayable_check_sound. vm_compute. reflexivity. Qed.

(** ** Entries *)

Section Entries.
Context (cfg : Config) `{L : Loaded cfg} (U : uvals) (HU : user_ok cfg U).
Local Abbreviation steady := (steady cfg U).

Lemma steady_shown_rec all fuel : forall nd, fits cfg fuel nd = true -> steady (shown_rec cfg depth fuel all nd).
Proof.
  induction fuel as [|fuel IH]; intros [n|] Hf; try done; try apply steady_ret.
  cbn [fits] in Hf. apply andb_true_iff in Hf as [H1 H2]. apply IH in H2. simpl.
  assert (Hv : steady (if all then visible cfg depth n;; mret true else visible cfg depth n)).
  { destruct all; [|by apply steady_visible]. apply steady_bind; [by apply steady_visible|]. intros; apply steady_ret. }
  assert (Hl : forall l, nd_list (node cfg n) = Some l -> steady (shown_rec cfg depth fuel all (Some l)))
    by (intros l E; apply IH; by rewrite <- E).
  assert (Hsub : forall l (k : list nodeid -> list nodeid), nd_list (node cfg n) = Some l ->
    steady (sub ← shown_rec cfg depth fuel all (Some l); mret (k sub))).
  { intros l k E. apply steady_bind; [by apply Hl|]. intros; apply steady_ret. }
  apply steady_bind; [exact Hv|]. intros v. apply steady_bind.
  - destruct v, (nd_list (node cfg n)) as [l|]; try apply steady_ret.
    + destruct (nd_is_menuconfig _); [apply steady_ret|by apply (Hsub l)].
    + destruct (is_symbol_node cfg n); [|apply steady_ret]. by apply (Hsub l).
  - intros here. apply steady_bind; [exact H2|]. intros; apply steady_ret.
Qed.

Lemma steady_shown_nodes all n : fits cfg (shown_fuel cfg) (nd_list (node cfg n)) = true ->
  (forall c, nd_item (node cfg n) = NChoice c ->
     forallb (fun m => fits cfg (shown_fuel cfg) (nd_list (node cfg m))) (ch_nodes (chc cfg c)) = true) ->
  steady (shown_nodes cfg depth all n).
Proof.
  intros Hf Hc. unfold shown_nodes. destruct (nd_item _) as [s|c| | |]; try by apply steady_shown_rec.
  specialize (Hc c eq_refl). rewrite forallb_forall in Hc.
  apply steady_bind; [by apply steady_shown_rec|]. intros here.
  apply steady_bind; [|intros; apply steady_ret]. apply steady_foldM. intros b m Hm.
  apply steady_bind; [by apply steady_shown_rec, Hc|]. intros; apply steady_ret.
Qed.

Lemma steady_indent fuel : forall p, climbs cfg fuel p = true -> steady (entry_indent cfg fuel p).
Proof.
  induction fuel as [|fuel IH]; intros [p|] Hp; try done. cbn [climbs] in Hp. cbn [entry_indent].
  destruct (nd_is_menuconfig _); [apply steady_ret|]. apply steady_bind; [by apply IH|]. intros; apply steady_ret.
Qed.

Lemma steady_entry name all n : displayable cfg n = true -> steady (entry_str cfg depth name all n).
Proof.
  unfold displayable. intros [[Hc Hf]%andb_true_iff Hch]%andb_true_iff. unfold entry_str. cbv zeta.
  apply steady_bind; [by apply steady_indent|]. intros indent.
  apply steady_bind; [by apply steady_value_str|]. intros v.
  apply steady_bind.
  { destruct (nd_prompt _) as [[p cond]|]; [|apply steady_ret].
    destruct (nd_item _); try apply steady_ret. apply steady_bind; [by apply steady_is_new|]. intros; apply steady_ret. }
  intros s1. apply steady_bind.
  { destruct (nd_item _); try apply steady_ret. eapply steady_bind_value; [by apply reads_ctri|].
    destruct (_ =? 2); [|apply steady_ret]. eapply steady_bind_value; [by apply reads_csel|apply steady_ret]. }
  intros s2. destruct (nd_is_menuconfig _); [|apply steady_ret].
  apply steady_bind; [|intros; apply steady_ret]. apply steady_shown_nodes; [done|].
  intros c Hi. by rewrite Hi in Hch.
Qed.
End Entries.

(** ** Programs that draw

    [draws u m a l]: from the state [u], with any caches and anything drawn before,
    [m] returns [a], makes the calls [l] and changes nothing but caches. *)
Definition at_ (u : UI) (st : State) (drawn : list (window * draw_call)) : UI :=
  set_drawn drawn (set_world (mkWorld st (w_files (ui_world u)) (w_written (ui_world u))) u).

Section Draws.
Context (cfg : Config) `{L : Loaded cfg} (U : uvals) (u : UI).

Definition draws {A} (m : I A) (a : A) (l : list (window * draw_call)) : Prop := forall st drawn, InUse cfg U st ->
  exists st', m (at_ u st drawn) = (Ok a, at_ u st' (drawn ++ l)) /\ InUse cfg U st'.

Lemma draws_ret {A} (a : A) : draws (mret a) a [].
Proof. intros st d H. exists st. by rewrite app_nil_r. Qed.
Lemma draws_bind {A B} (m : I A) (k : A -> I B) a b l1 l2 :
  draws m a l1 -> draws (k a) b l2 -> draws (m ≫= k) b (l1 ++ l2).
Proof.
  intros Hm Hk st d H. destruct (Hm st d H) as (st1 & E1 & H1). destruct (Hk st1 (d ++ l1) H1) as (st2 & E2 & H2).
  exists st2. split; [|done]. rewrite app_assoc. by eapply bind_ok.
Qed.
Lemma draws_bind_quiet {A B} (m : I A) (k : A -> I B) a b l : draws m a [] -> draws (k a) b l -> draws (m ≫= k) b l.
Proof. apply (draws_bind m k a b [] l). Qed.
Lemma draws_state {B} (k : UI -> I B) b l : (forall st d, draws (k (at_ u st d)) b l) -> draws (gets id ≫= k) b l.
Proof. intros Hk st d H. apply (Hk st d st d H). Qed.
Lemma draws_gets {A} (f : UI -> A) : (forall st d, f (at_ u st d) = f u) -> draws (gets f) (f u) [].
Proof. intros Hf st d H. exists st. rewrite app_nil_r. unfold gets. by rewrite Hf. Qed.
Lemma draws_draw w l : draws (draw w l) tt (map (pair w) l).
Proof. intros st d H. by exists st. Qed.
Lemma draws_draw_all l : draws (draw_all l) tt l.
Proof. intros st d H. by exists st. Qed.
Lemma draws_then {B} w l (k : I B) b l2 : draws k b l2 -> draws (draw w l;; k) b (map (pair w) l ++ l2).
Proof. intros Hk. eapply draws_bind; [apply draws_draw|exact Hk]. Qed.
Lemma draws_in_conf {A} (m : K A) a : reads cfg U m a -> draws (in_conf m) a [].
Proof.
  intros Ha st d H. destruct (Ha st H) as (st' & E1 & H'). exists st'. split; [|done].
  unfold in_conf, in_world, in_state. simpl. rewrite E1. by rewrite app_nil_r.
Qed.
Lemma draws_item_at l i x : 0 <= i -> l !! Z.to_nat i = Some x -> draws (item_at l i) x [].
Proof. intros Hi Hx. unfold item_at. rewrite Hx, (proj2 (Z.leb_le _ _) Hi). apply draws_ret. Qed.

(** Each round of a loop makes calls that satisfy [P] *)
Lemma draws_forM {A} (f : A -> I unit) (P : A -> list (window * draw_call) -> Prop) l :
  (forall x, In x l -> exists c, P x c /\ draws (f x) tt c) ->
  exists cs, Forall2 P l cs /\ draws (forM_ l f) tt (concat cs).
Proof.
  induction l as [|x l IH]; intros H; [exists []; split; [constructor|apply draws_ret]|].
  destruct (H x (or_introl eq_refl)) as (c & Pc & Dc).
  destruct IH as (cs & Pcs & Dcs); [intros; apply H; by right|].
  exists (c :: cs). split; [by constructor|]. by apply (draws_bind (f x) (fun b => foldM (fun _ x => f x) b l) tt).
Qed.
End Draws.

(** ** The main display *)

(** The names of styles that drawing uses *)
Definition used_styles : list string := ["selection"; "list"; "inv-selection"; "inv-list"; "body"; "frame"; "edit"].
Record PlatformOk (pf : Platform) : Prop := {
  pf_styled : Forall (fun n => is_Some (pf_style pf !! n)) used_styles;
  pf_wraps : forall s w, 1 <= w -> exists l, pf_wrap pf s w = Ok l;
}.

(** Positions in the menu tree of a configuration on a terminal *)
Record on_nodes (cfg : Config) (u : UI) : Prop := {
  on_menu : (ui_cur_menu u < length (c_nodes cfg))%nat;
  on_shown : Forall (fun n => (n < length (c_nodes cfg))%nat /\ n <> c_top_node cfg) (ui_shown u);
  on_width : 1 <= (ui_screen u).2;
}.

(** The style of a row: of the selected one or of the others, in the list or invisible *)
Definition row_styles (pf : Platform) (selected : bool) : list (option Z) :=
  map (fun n => pf_style pf !! n) (if selected then ["selection"; "inv-selection"] else ["list"; "inv-list"]).

(** The call for row [i]: the text of the entry, highlighted if it is selected *)
Definition row_call (cfg : Config) `{L : Loaded cfg} (U : uvals) (pf : Platform) (u : UI) (i : Z) (c : draw_call) : Prop :=
  exists n text style,
    ui_shown u !! Z.to_nat i = Some n
    /\ reads cfg U (entry_str cfg depth (ui_show_name u) (ui_show_all u) n) text
    /\ c = safe_addstr (ui_screen u).2 (i - ui_menu_scroll u) 0 text (Some style)
    /\ Some style ∈ row_styles pf (i =? ui_sel_node_i u).

Section MainDisplay.
Context (cfg : Config) `{L : Loaded cfg} `{D : Displayable cfg} (U : uvals) (HU : user_ok cfg U).
Context (pf : Platform) (HP : PlatformOk pf) (u : UI) (Hp : placed u) (Hn : on_nodes cfg u).
Local Abbreviation draws := (draws cfg U u).

Lemma draws_style name : name ∈ used_styles -> exists a, pf_style pf !! name = Some a /\ draws (get_style pf name) a [].
Proof.
  intros Hin. destruct (proj1 (Forall_forall _ _) (pf_styled pf HP) name Hin) as [a Ha].
  exists a. split; [done|]. unfold get_style. rewrite Ha. apply draws_ret.
Qed.

Lemma shown_at i : 0 <= i < len (ui_shown u) -> exists n, ui_shown u !! Z.to_nat i = Some n /\ displayable cfg n = true.
Proof.
  intros Hi. destruct (lookup_lt_is_Some_2 (ui_shown u) (Z.to_nat i)) as [n Hl]; [unfold len in Hi; lia|].
  exists n. split; [done|]. destruct (proj1 (Forall_lookup _ _) (on_shown _ _ Hn) _ _ Hl) as [H1 H2].
  by apply disp_node.
Qed.

Lemma draws_row i : In i (menu_rows u) -> exists l,
  (exists c, l = [(menu_win, c)] /\ row_call cfg U pf u i c) /\ draws (draw_row cfg depth pf i) tt l.
Proof.
  intros Hi%list_elem_of_In%elem_of_seqZ. destruct Hp as [Hs Hc Hv Hh _].
  destruct (shown_at i) as (n & Hl & Hd); [lia|].
  destruct (steady_visible cfg U n) as [v Hvis].
  destruct (steady_entry cfg U HU (ui_show_name u) (ui_show_all u) n Hd) as [s Hent].
  set (name := if v || negb (ui_show_all u) then if i =? ui_sel_node_i u then "selection" else "list"
               else if i =? ui_sel_node_i u then "inv-selection" else "inv-list").
  destruct (draws_style name) as (a & Ha & Da).
  { unfold name, used_styles. destruct (v || _), (_ =? _); repeat constructor. }
  exists [(menu_win, safe_addstr (ui_screen u).2 (i - ui_menu_scroll u) 0 s (Some a))]. split.
  - eexists. split; [done|]. exists n, s, a. split_and!; [done..|]. unfold row_styles. rewrite <- Ha. unfold name.
    destruct (v || _), (_ =? _); repeat constructor.
  - unfold draw_row. apply draws_state. intros st d. cbn [at_ set_drawn set_world ui_shown ui_sel_node_i ui_show_all
      ui_show_name ui_screen ui_menu_scroll id].
    eapply draws_bind_quiet; [by eapply draws_item_at; [|exact Hl]; lia|].
    eapply draws_bind_quiet; [apply draws_in_conf, Hvis|]. fold name. eapply draws_bind_quiet; [exact Da|].
    eapply draws_bind_quiet; [apply draws_in_conf, Hent|]. apply (draws_draw cfg U u menu_win).
Qed.

Lemma draws_node_help h n : exists l, draws (node_help_calls cfg pf h (ui_screen u).2 n) l [].
Proof.
  unfold node_help_calls. destruct (node_sc cfg n), (nd_help (node cfg n)) as [help|]; try (eexists; apply draws_ret).
  destruct (String.eqb help ""); [eexists; apply draws_ret|].
  destruct (pf_wraps pf HP help _ (on_width _ _ Hn)) as [lines Hw]. rewrite Hw. eexists.
  eapply draws_bind_quiet; [apply (draws_ret cfg U u lines)|apply draws_ret].
Qed.

Lemma draws_help : exists l, draws (help_calls cfg pf) l [].
Proof.
  destruct Hp as [Hs _ _ _ _]. destruct (shown_at _ Hs) as (n & Hl & _).
  destruct (draws_node_help (help_height u) n) as [l Hh].
  exists (if ui_show_help u then l else lines_at (ui_screen u).2 0 0 MAIN_HELP).
  unfold help_calls. apply draws_state. intros st d.
  cbn [at_ set_drawn set_world ui_shown ui_sel_node_i ui_show_help ui_screen id].
  destruct (ui_show_help u); [|apply draws_ret].
  eapply draws_bind_quiet; [by eapply draws_item_at; [|exact Hl]; lia|exact Hh].
Qed.

Lemma draws_path fuel : forall m, named_path cfg fuel m = true -> exists l, draws (path_prompts cfg fuel m) l [].
Proof.
  induction fuel as [|fuel IH]; intros [m|] Hm; try done. cbn [named_path] in Hm. cbn [path_prompts].
  destruct (bool_decide (m = c_top_node cfg)); [eexists; apply draws_ret|].
  apply andb_true_iff in Hm as [Hname [l Hl]%IH].
  assert (exists p, draws (match nd_prompt (node cfg m), node_sc cfg m with
                | Some (p, _), _ => mret p
                | None, Some sc => mret (standard_sc_expr_str cfg sc)
                | None, None => raise AttributeError
                end) p []) as [p Hpr].
  { destruct (nd_prompt _) as [[p cond]|]; [eexists; apply draws_ret|].
    destruct (node_sc cfg m); [eexists; apply draws_ret|done]. }
  eexists. eapply draws_bind_quiet; [exact Hpr|]. eapply draws_bind_quiet; [exact Hl|apply draws_ret].
Qed.

Lemma draws_title : exists t, draws (mainmenu_text cfg) t [].
Proof. unfold mainmenu_text. destruct disp_title as [[p c] ->]. eexists. apply draws_ret. Qed.

(** What [draw_main] makes of the rows, the title, the help and the path *)
Definition main_calls (title : string) (rows help path : list draw_call) : list (window * draw_call) :=
  map (pair top_sep_win) (Erase :: arrows (0 <? ui_menu_scroll u) ACS_UARROW)
  ++ map (pair top_sep_win) [title_call (ui_screen u).2 title; Noutrefresh]
  ++ map (pair menu_win) [Erase] ++ map (pair menu_win) rows ++ map (pair menu_win) [Noutrefresh]
  ++ map (pair bot_sep_win) (Erase :: bot_sep_calls u ++ [Noutrefresh])
  ++ map (pair help_win) [Erase] ++ map (pair help_win) (help ++ [Noutrefresh])
  ++ map (pair path_win) (path ++ [Noutrefresh]).

Lemma draws_main : exists title rows help path, Forall2 (row_call cfg U pf u) (menu_rows u) rows
  /\ draws (draw_main cfg depth pf) tt (main_calls title rows help path).
Proof.
  destruct draws_title as [title Ht]. destruct draws_help as [help Hh].
  destruct (draws_path _ _ (disp_path (ui_cur_menu u) (on_menu _ _ Hn))) as [prompts Hpr].
  destruct (draws_forM cfg U u (draw_row cfg depth pf) _ (menu_rows u) draws_row) as (cs & Hcs & Hr).
  assert (exists rows, Forall2 (row_call cfg U pf u) (menu_rows u) rows /\ concat cs = map (pair menu_win) rows)
    as (rows & Hrows & Hc).
  { clear Hr. induction Hcs as [|i l idx cs (c & -> & Hc) _ (rows & Hrows & Hcat)]; [by exists []|].
    exists (c :: rows). split; [by constructor|]. simpl. by rewrite Hcat. }
  rewrite Hc in Hr. exists title, rows, help, (path_calls pf (ui_screen u).2 prompts). split; [done|].
  unfold draw_main, main_calls. apply draws_state. intros st d.
  cbn [at_ set_drawn set_world ui_cur_menu ui_menu_scroll ui_screen id].
  apply draws_then. eapply draws_bind_quiet; [exact Ht|]. do 2 apply draws_then.
  eapply draws_bind; [exact Hr|]. apply draws_then. unfold update. apply (draws_then cfg U u bot_sep_win).
  apply draws_then. eapply draws_bind_quiet; [exact Hh|]. apply draws_then.
  eapply draws_bind_quiet; [exact Hpr|]. apply draws_draw.
Qed.
End MainDisplay.

(** ** What is seen *)

#[export] Instance window_eq_dec : EqDecision window.
Proof. solve_decision. Defined.

(** The calls on a window *)
Definition on_window (w : window) (l : list (window * draw_call)) : list draw_call :=
  map snd (List.filter (fun p => bool_decide (p.1 = w)) l).

Lemma on_window_app w l1 l2 : on_window w (l1 ++ l2) = on_window w l1 ++ on_window w l2.
Proof. unfold on_window. by rewrite List.filter_app, map_app. Qed.
Lemma on_window_pair w w' l : on_window w (map (pair w') l) = if bool_decide (w' = w) then l else [].
Proof.
  unfold on_window. induction l as [|c l IH]; simpl; [by destruct (bool_decide _)|].
  destruct (bool_decide (w' = w)); simpl; congruence.
Qed.

Lemma menu_calls u title rows help path : on_window menu_win (main_calls u title rows help path) = Erase :: rows ++ [Noutrefresh].
Proof. unfold main_calls. by rewrite !on_window_app, !on_window_pair. Qed.

Lemma at_self u : at_ u (w_state (ui_world u)) (ui_drawn u) = u.
Proof. by destruct u as [[]]. Qed.

(** C15. Drawing the main display succeeds from every state in which the position is
    that of [selection_on_screen] and the configuration is in use; it changes
    caches only.  The menu window gets one row for each entry from the scroll
    position to its end or that of the list: the text of the entry, which depends
    on the user values and not on the caches, in the style of the selection
    exactly on the row of the selected entry, which is one of the rows. *)
Theorem main_display_shows_selection (cfg : Config) (L : Loaded cfg) (D : Displayable cfg) (pf : Platform) (U : uvals)
    (u : UI) :
  PlatformOk pf -> placed u -> on_nodes cfg u -> InUse cfg U (w_state (ui_world u)) ->
  exists st' calls rows, draw_main cfg depth pf u = (Ok tt, at_ u st' (ui_drawn u ++ calls)) /\ InUse cfg U st'
    /\ on_window menu_win calls = Erase :: rows ++ [Noutrefresh]
    /\ Z.of_nat (length rows) = Z.min (ui_menu_height u) (len (ui_shown u) - ui_menu_scroll u)
    /\ (forall k c, rows !! k = Some c -> row_call cfg U pf u (ui_menu_scroll u + Z.of_nat k) c)
    /\ 0 <= ui_sel_node_i u - ui_menu_scroll u < Z.of_nat (length rows).
Proof.
  intros HP Hp Hn H.
  destruct (draws_main cfg U (use_user _ _ _ H) pf HP u Hp Hn) as (title & rows & help & path & Hrows & Hd).
  destruct (Hd _ (ui_drawn u) H) as (st' & E & H'). rewrite at_self in E.
  exists st', (main_calls u title rows help path), rows.
  assert (Hlen : Z.of_nat (length rows) = Z.min (ui_menu_height u) (len (ui_shown u) - ui_menu_scroll u)).
  { apply Forall2_length in Hrows. rewrite <- Hrows. unfold menu_rows. rewrite length_seqZ. destruct Hp. lia. }
  split_and!; [done|done|apply menu_calls|done| |destruct Hp; lia|destruct Hp; lia].
  intros k c Hk. destruct (Forall2_lookup_r _ _ _ _ _ Hrows Hk) as (i & Hi & Hc).
  unfold menu_rows in Hi. apply lookup_seqZ in Hi as [-> _]. done.
Qed.

(** ** Leaving the interface *)

Section Quit.
Context (cfg : Config) `{L : Loaded cfg} `{D : Displayable cfg} (U : uvals) (pf : Platform) (HP : PlatformOk pf).

(** The position and the screen are good *)
Definition good (u : UI) : Prop := placed u /\ on_nodes cfg u.

Lemma good_input ks u : good u -> good (set_input ks u).
Proof. intros [[? ? ? ? ?] [? ? ?]]. by split; split. Qed.

Lemma main_drawn u : good u -> user_ok cfg U -> exists l, draws cfg U u (draw_main cfg depth pf) tt l.
Proof. intros [Hp Hn] HU. destruct (draws_main cfg U HU pf HP u Hp Hn) as (? & ? & ? & ? & _ & H). eauto. Qed.

Lemma draws_key_dialog u h w title text : exists l, draws cfg U u (draw_key_dialog pf h w title text) tt l.
Proof.
  destruct (draws_style cfg U pf HP u "frame") as (a & _ & Ha); [unfold used_styles; repeat constructor|].
  eexists. unfold draw_key_dialog. apply draws_then. eapply draws_bind_quiet; [exact Ha|]. apply draws_draw.
Qed.

Lemma getch_char u st d c ks : ui_input u = KChar c :: ks ->
  getch (at_ u st d) = (Ok (KChar c), at_ (set_input ks u) st d).
Proof.
  intros Hi. unfold getch. cbv [mbind I_bind M_bind gets id modify].
  change (ui_input (at_ u st d)) with (ui_input u). by rewrite Hi.
Qed.

(** A key that closes a dialog *)
Lemma key_dialog_answers u title text keys c ks st d : good u -> InUse cfg U st ->
  ui_input u = KChar c :: ks -> is_escape (KChar c) = false -> is_one_of (KChar (lower_char c)) keys = true ->
  exists st' l, key_dialog cfg depth pf title text keys (at_ u st d)
      = (Ok (Some (lower_char c)), at_ (set_input ks u) st' (d ++ l)) /\ InUse cfg U st'.
Proof.
  intros G H Hi He Hk. destruct (main_drawn u G (use_user _ _ _ H)) as [lm Hm].
  destruct (draws_style cfg U pf HP u "body") as (a & _ & Ha); [unfold used_styles; repeat constructor|].
  destruct (key_dialog_size text (ui_screen u)) as [h w] eqn:Hsize.
  destruct (draws_key_dialog u h w title text) as [ld Hd].
  assert (Hopen : draws cfg U u (set_style pf body_win "body";; resize_key_dialog text;; keys_left)
    (S (length (ui_input u))) (map (pair body_win) [Bkgdset a] ++ map (pair body_win) (centered (ui_screen u) h w) ++ [])).
  { eapply (draws_bind cfg U u _ _ tt).
    - unfold set_style. eapply draws_bind_quiet; [exact Ha|apply draws_draw].
    - eapply (draws_bind cfg U u _ _ tt); [|by apply draws_gets].
      unfold resize_key_dialog. eapply draws_bind_quiet; [by apply draws_gets|]. rewrite Hsize. apply draws_draw. }
  assert (Hround : draws cfg U u (draw_main cfg depth pf;;
      screen ← gets ui_screen;
      let '(height, width) := key_dialog_size text screen in
      draw_key_dialog pf height width title text;; doupdate) tt (lm ++ ld ++ map (pair stdscr) [Doupdate])).
  { eapply (draws_bind cfg U u _ _ tt); [exact Hm|]. eapply draws_bind_quiet; [by apply draws_gets|]. rewrite Hsize.
    eapply (draws_bind cfg U u _ _ tt); [exact Hd|apply draws_draw]. }
  destruct (Hopen st d H) as (st1 & E1 & H1).
  destruct (Hround st1 (d ++ map (pair body_win) [Bkgdset a] ++ map (pair body_win) (centered (ui_screen u) h w) ++ []) H1)
    as (st2 & E2 & H2).
  exists st2. eexists. split; [|exact H2].
  revert E1 E2. unfold key_dialog. cbv [mbind I_bind M_bind].
  destruct (set_style pf body_win "body" (at_ u st d)) as [[[]|] s1]; [|done].
  destruct (resize_key_dialog text s1) as [[[]|] s2]; [|done]. intros ->. cbn [key_dialog_].
  cbv [mbind I_bind M_bind]. destruct (draw_main cfg depth pf _) as [[[]|] s3]; [|done].
  destruct (gets ui_screen s3) as [[scr|] s4]; [|done]. destruct (key_dialog_size text scr) as [h' w'].
  destruct (draw_key_dialog pf h' w' title text s4) as [[[]|] s5]; [|done].
  intros ->. rewrite (getch_char _ _ _ c ks Hi), He, Hk. by rewrite <- app_assoc.
Qed.

Lemma q_quits u : pf_erase_char pf <> Some "q"%char -> handle_key cfg depth pf (KChar "q") u = quit_dialog cfg depth pf u.
Proof.
  intros He. unfold handle_key. cbv zeta. assert (Hn : is_erase (pf_erase_char pf) (KChar "q") = false); [|by rewrite Hn].
  unfold is_erase. destruct (pf_erase_char pf) as [e|]; [|done]. destruct (Ascii.eqb_spec "q" e); congruence.
Qed.

(** The quit dialog, answered with n *)
Lemma quit_dialog_no u ks st d : good u -> InUse cfg U st -> ui_input u = KChar "n" :: ks ->
  exists st' d' ks', quit_dialog cfg depth pf (at_ u st d)
      = (Ok (Some (if ui_conf_changed u then "Configuration (" +:+ ui_conf_filename u +:+ ") was not saved"
                   else "No changes to save (for '" +:+ ui_conf_filename u +:+ "')")), at_ (set_input ks' u) st' d')
    /\ InUse cfg U st'.
Proof.
  intros G H Hi. destruct (ui_conf_changed u) eqn:Hc.
  - destruct (key_dialog_answers u "Quit" QUIT_TEXT ("ync" +:+ String NL "") "n" ks st d G H Hi eq_refl eq_refl)
      as (st' & l & E & H'). exists st', (d ++ l), ks. split; [|done].
    unfold quit_dialog. eapply bind_ok; [reflexivity|]. cbv beta.
    change (ui_conf_changed (id (at_ u st d))) with (ui_conf_changed u). rewrite Hc. cbn [negb]. cbv iota.
    eapply bind_ok; [reflexivity|]. cbv beta. cbn [quit_dialog_]. eapply bind_ok; [exact E|]. cbv beta.
    eapply bind_ok; reflexivity.
  - exists st, d, (ui_input u). split; [|done]. unfold quit_dialog. eapply bind_ok; [reflexivity|]. cbv beta.
    change (ui_conf_changed (id (at_ u st d))) with (ui_conf_changed u). rewrite Hc. by destruct u.
Qed.
End Quit.

(** C34. The interface can be left from everywhere: in any state in use, reading
    [q] and then, if there are changes, [n], ends the main loop with its message,
    and the user values and the files are as they were. *)
Theorem quit_without_saving (cfg : Config) (L : Loaded cfg) (D : Displayable cfg) (pf : Platform) (U : uvals)
    (u : UI) (ks : list key) (fuel : nat) :
  PlatformOk pf -> pf_erase_char pf <> Some "q"%char -> placed u -> on_nodes cfg u ->
  InUse cfg U (w_state (ui_world u)) -> ui_input u = KChar "q" :: KChar "n" :: ks ->
  exists u', main_loop cfg depth pf (S fuel) u
      = (Ok (if ui_conf_changed u then "Configuration (" +:+ ui_conf_filename u +:+ ") was not saved"
             else "No changes to save (for '" +:+ ui_conf_filename u +:+ "')"), u')
    /\ InUse cfg U (w_state (ui_world u')) /\ w_files (ui_world u') = w_files (ui_world u).
Proof.
  intros HP He Hp Hn H Hi. assert (G : good cfg u) by done.
  destruct (main_drawn cfg U pf HP u G (use_user _ _ _ H)) as [l Hd].
  destruct (Hd _ (ui_drawn u) H) as (st1 & E1 & H1). rewrite at_self in E1.
  set (u1 := set_input (KChar "n" :: ks) u).
  destruct (quit_dialog_no cfg U pf HP u1 ks st1 ((ui_drawn u ++ l) ++ map (pair stdscr) [Doupdate])
    (good_input _ _ _ G) H1 eq_refl) as (st2 & d2 & ks2 & E2 & H2).
  exists (at_ (set_input ks2 u1) st2 d2). split; [|split; [exact H2|reflexivity]]. cbn [main_loop].
  eapply bind_ok; [exact E1|]. cbv beta. eapply bind_ok; [reflexivity|]. cbv beta.
  eapply bind_ok; [exact (getch_char u st1 _ "q" _ Hi)|]. cbv beta.
  eapply bind_ok; [rewrite q_quits by done; exact E2|]. cbv beta.
  change (ui_conf_changed u1) with (ui_conf_changed u). change (ui_conf_filename u1) with (ui_conf_filename u).
  by destruct (ui_conf_changed u).
Qed.

(** ** The repository's configuration with the second entry selected *)

Definition second_entry (input : list key) : UI :=
  mkUI (mkWorld (init_state fpspy) ∅ []) 0%nat [1; 7; 8]%nat 1 0 [] false false false true ".config" "defconfig" 17 (24, 80) input [].

Lemma fpspy_platform_ok : PlatformOk fpspy_platform.
Proof.
  split; [|intros s w _; by eexists].
  assert (H : forallb (fun n => has_some (pf_style fpspy_platform !! n)) used_styles = true) by (vm_compute; reflexivity).
  apply Forall_forall. intros n Hin. rewrite forallb_forall in H. by apply has_some_is, H, list_elem_of_In.
Qed.
Lemma second_entry_placed input : placed (second_entry input).
Proof. split; simpl; unfold len; simpl; try lia. constructor. Qed.
Lemma second_entry_on_nodes input : on_nodes fpspy (second_entry input).
Proof.
  assert (Hm : (0 <? length (c_nodes fpspy))%nat = true) by (vm_compute; reflexivity).
  assert (H : forallb (fun n => (n <? length (c_nodes fpspy))%nat && negb (Nat.eqb n (c_top_node fpspy))) [1; 7; 8]%nat
    = true) by (vm_compute; reflexivity).
  split; cbn [second_entry ui_cur_menu ui_shown ui_screen snd]; [exact (proj1 (Nat.ltb_lt _ _) Hm)| |lia].
  apply Forall_forall. intros n Hin%list_elem_of_In. rewrite forallb_forall in H.
  apply H, andb_true_iff in Hin as [H1%Nat.ltb_lt H2%negb_true_iff%Nat.eqb_neq]. split; [exact H1|exact H2].
Qed.
Lemma second_entry_in_use input : InUse fpspy no_user (w_state (ui_world (second_entry input))).
Proof. apply init_in_use, loaded_wf. Qed.

Lemma main_display_shows_selection_witness : let u := second_entry [] in
  exists st' calls rows, draw_main fpspy depth fpspy_platform u = (Ok tt, at_ u st' (ui_drawn u ++ calls))
    /\ InUse fpspy no_user st' /\ on_window menu_win calls = Erase :: rows ++ [Noutrefresh]
    /\ Z.of_nat (length rows) = Z.min (ui_menu_height u) (len (ui_shown u) - ui_menu_scroll u)
    /\ (forall k c, rows !! k = Some c -> row_call fpspy no_user fpspy_platform u (ui_menu_scroll u + Z.of_nat k) c)
    /\ 0 <= ui_sel_node_i u - ui_menu_scroll u < Z.of_nat (length rows).
Proof.
  apply (main_display_shows_selection fpspy fpspy_loaded fpspy_displayable fpspy_platform no_user (second_entry [])).
  - exact fpspy_platform_ok.
  - exact (second_entry_placed []).
  - exact (second_entry_on_nodes []).
  - exact (second_entry_in_use []).
Defined.

Lemma quit_without_saving_witness : let u := second_entry [KChar "q"; KChar "n"] in
  exists u', main_loop fpspy depth fpspy_platform 5 u
    = (Ok (if ui_conf_changed u then "Configuration (" +:+ ui_conf_filename u +:+ ") was not saved"
           else "No changes to save (for '" +:+ ui_conf_filename u +:+ "')"), u')
  /\ InUse fpspy no_user (w_state (ui_world u')) /\ w_files (ui_world u') = w_files (ui_world u).
Proof.
  apply (quit_without_saving fpspy fpspy_loaded fpspy_displayable fpspy_platform no_user
    (second_entry [KChar "q"; KChar "n"]) [] 4).
  - exact fpspy_platform_ok.
  - discriminate.
  - exact (second_entry_placed _).
  - exact (second_entry_on_nodes _).
  - exact (second_entry_in_use _).
  - reflexivity.
Defined.
