(* ===== verification/StyleProps.v ===== *)
(** * Colours and styles

    The colours of the palette are recognised, palette entries are allocated once
    and never below 16 or above 255, and the styles that the interface uses are
    defined once [_init_styles] has run - with one exception. *)
From S2P Require Import Prelude PyStr PyText Model SetValue Fpspy ConfigFile Edit Menu Display Style Draw Dialogs MenuProps.

(** ** The palette *)

(** The colour that [_color_from_num] gives to an entry of the 256-color palette *)
Definition xterm_rgb (n : Z) : rgb :=
  if n <? 232 then let k := n - 16 in cube6_to_rgb ((k / 36) mod 6, (k / 6) mod 6, k mod 6)
  else gray_to_rgb (n - 232).

Definition nearest_entry (c : rgb) : Z :=
  let c6 := rgb_to_6cube c in
  let gray := rgb_to_gray c in
  if dist c (cube6_to_rgb c6) <? dist c (gray_to_rgb gray) then let '(r, g, b) := c6 in 16 + 36 * r + 6 * g + b
  else 232 + gray.

Lemma entries_found :
  forallb (fun k => let c := xterm_rgb (Z.of_nat k) in bool_decide (xterm_rgb (nearest_entry c) = c)) (seq 16 240) = true.
Proof. vm_compute. reflexivity. Qed.

(** C39. On a terminal with the 256-color palette whose entries cannot be changed, the
    colour of every entry from 16 on, cube or gray, is given an entry that has
    exactly this colour, although the gray levels are calculated in floating point. *)
Theorem palette_colors_exact (COLORS : Z) (content : Z -> rgb) (color_ok : Z -> rgb -> bool) (n : Z) (t : TermState) :
  256 <= COLORS -> 16 <= n < 256 ->
  exists m, color_from_rgb false COLORS content color_ok (xterm_rgb n) t = (Ok m, t) /\ xterm_rgb m = xterm_rgb n.
Proof.
  intros HC Hn. exists (nearest_entry (xterm_rgb n)). split.
  - unfold color_from_rgb, nearest_entry. rewrite (proj2 (Z.leb_le _ _) HC).
    destruct (_ <? _); [|done]. by destruct (rgb_to_6cube _) as [[r g] b].
  - pose proof entries_found as H. rewrite forallb_forall in H.
    specialize (H (Z.to_nat n)). rewrite Z2Nat.id in H by lia.
    assert (Hin : In (Z.to_nat n) (seq 16 240)) by (apply in_seq; lia).
    specialize (H Hin). cbv zeta in H. by apply bool_decide_eq_true in H.
Qed.

Lemma palette_colors_exact_witness : exists m,
  color_from_rgb false 256 (fun _ => (0, 0, 0)) (fun _ _ => true) (xterm_rgb 244) (mkTermState [] [] [] ∅)
    = (Ok m, mkTermState [] [] [] ∅) /\ xterm_rgb m = xterm_rgb 244.
Proof. apply palette_colors_exact; lia. Defined.

(** ** Allocated colours *)

Section Terminal.
Context (has_colors can_change_color : bool) (COLORS : Z) (color_content : Z -> rgb).
Context (color_ok : Z -> rgb -> bool) (pair_ok : Z -> Z -> Z -> bool) (color_pair : Z -> Z).
Context (IS_WINDOWS : bool) (A_NORMAL A_BOLD A_STANDOUT A_UNDERLINE : Z).
Local Abbreviation assign := (style_assign has_colors can_change_color COLORS color_content color_ok pair_ok color_pair
  IS_WINDOWS A_NORMAL A_BOLD A_STANDOUT A_UNDERLINE).
Local Abbreviation parse := (parse_style has_colors can_change_color COLORS color_content color_ok pair_ok color_pair
  IS_WINDOWS A_NORMAL A_BOLD A_STANDOUT A_UNDERLINE).
Local Abbreviation to_curses := (style_to_curses has_colors can_change_color COLORS color_content color_ok pair_ok color_pair
  IS_WINDOWS A_NORMAL A_BOLD A_STANDOUT A_UNDERLINE).
Local Abbreviation init := (init_styles has_colors can_change_color COLORS color_content color_ok pair_ok color_pair
  IS_WINDOWS A_NORMAL A_BOLD A_STANDOUT A_UNDERLINE).

(** What holds of the state is kept by a program that returns *)
Definition keeps_t {A} (P : TermState -> Prop) (m : T A) : Prop := forall t r t', P t -> m t = (r, t') -> P t'.

Lemma keeps_t_ret {A} P (a : A) : keeps_t P (mret a).
Proof. intros t r t' H [= _ <-]. done. Qed.
Lemma keeps_t_raise {A} P e : keeps_t P (raise e : T A).
Proof. intros t r t' H [= _ <-]. done. Qed.
Lemma keeps_t_gets {A} P (f : TermState -> A) : keeps_t P (gets f).
Proof. intros t r t' H [= _ <-]. done. Qed.
Lemma keeps_t_modify (P : TermState -> Prop) f : (forall t, P t -> P (f t)) -> keeps_t P (modify f).
Proof. intros Hf t r t' H [= _ <-]. auto. Qed.
Lemma keeps_t_bind {A B} P (m : T A) (k : A -> T B) : keeps_t P m -> (forall a, keeps_t P (k a)) -> keeps_t P (m ≫= k).
Proof.
  intros Hm Hk t r t' H. cbv [mbind M_bind]. destruct (m t) as [[a|e] t1] eqn:E; [|intros [= _ <-]; by eapply Hm].
  intros E'. eapply Hk; [|exact E']. by eapply Hm.
Qed.
Lemma keeps_t_foldM {A B} P (f : B -> A -> T B) l : (forall b x, keeps_t P (f b x)) -> forall b, keeps_t P (foldM f b l).
Proof. intros H. induction l as [|x l IH]; intros b; [apply keeps_t_ret|]. by apply keeps_t_bind. Qed.

(** One step of the decomposition of a program *)
Ltac keeps_t_step :=
  match goal with
  | |- keeps_t _ (mbind _ _) => apply keeps_t_bind; [|intros ?]
  | |- keeps_t _ (forM_ _ _) => apply keeps_t_foldM; intros ? ?
  | |- keeps_t _ (foldM _ _ _) => apply keeps_t_foldM; intros ? ?
  | |- keeps_t _ (mret _) => apply keeps_t_ret
  | |- keeps_t _ (raise _) => apply keeps_t_raise
  | |- keeps_t _ (gets _) => apply keeps_t_gets
  | |- keeps_t _ (when ?b _) => destruct b; cbn [when]
  | |- keeps_t _ (match ?x with _ => _ end) => destruct x
  | |- keeps_t _ (let _ := _ in _) => cbv zeta
  end.

(** *** The tables of colours and of colour pairs *)

Definition init_colors (t : TermState) : list Z := omap (fun c => match c with init_color i _ _ _ => Some i | _ => None end) (t_calls t).
Definition init_pairs (t : TermState) : list (Z * (Z * Z)) :=
  omap (fun c => match c with init_pair n fg bg => Some (n, (fg, bg)) | _ => None end) (t_calls t).

(** The colour table holds different colours at the indexes from 16 on, and each
    index was initialized once; the same for pairs, from 1 on *)
Record palette_ok (t : TermState) : Prop := {
  pal_colors : NoDup (map fst (t_rgb2index t));
  pal_indexes : map snd (t_rgb2index t) = map (fun k => 16 + Z.of_nat k) (seq 0 (length (t_rgb2index t)));
  pal_limit : (length (t_rgb2index t) <= 240)%nat;
  pal_calls : init_colors t = map snd (t_rgb2index t);
  pal_pairs : NoDup (map fst (t_color_attribs t));
  pal_numbers : init_pairs t = imap (fun k p => (Z.of_nat k + 1, p)) (map fst (t_color_attribs t));
  pal_attribs : map snd (t_color_attribs t) = map (fun k => color_pair (Z.of_nat k + 1)) (seq 0 (length (t_color_attribs t)));
}.

Lemma dict_get_none {A B} `{EqDecision A} (k : A) (d : list (A * B)) : dict_get k d = None -> k ∉ map fst d.
Proof.
  unfold dict_get. intros H. rewrite first_some_none in H. rewrite list_elem_of_In, in_map_iff.
  intros ((k' & v) & <- & Hin). specialize (H _ Hin). simpl in H. by destruct (decide (k' = k')).
Qed.

Lemma nodup_snoc {A} (l : list A) x : NoDup l -> x ∉ l -> NoDup (l ++ [x]).
Proof.
  intros H Hx. apply NoDup_app. split_and!; [done| |by apply NoDup_singleton].
  intros y Hy. rewrite list_elem_of_singleton. by intros ->.
Qed.

Lemma calls_warning t c : (forall i r g b, c <> init_color i r g b) -> (forall n f b, c <> init_pair n f b) ->
  palette_ok t -> palette_ok (mkTermState (t_calls t ++ [c]) (t_rgb2index t) (t_color_attribs t) (t_style t)).
Proof.
  intros H1 H2 [? ? ? Hc ? Hn ?]. split; try done; unfold init_colors, init_pairs in *; simpl; rewrite omap_app; simpl.
  - destruct c; try (by rewrite app_nil_r). by edestruct H1.
  - destruct c; try (by rewrite app_nil_r). by edestruct H2.
Qed.

Lemma keeps_warning words : keeps_t palette_ok (warn_style words).
Proof. apply keeps_t_modify. intros t. by apply calls_warning. Qed.

Lemma keeps_alloc c : keeps_t palette_ok (alloc_rgb color_ok c).
Proof.
  intros t r t' H. unfold alloc_rgb. cbv [mbind M_bind gets]. destruct (dict_get c _) as [i|] eqn:Hd; [intros [= _ <-]; done|].
  destruct (Z.leb_spec 256 (16 + Z.of_nat (length (t_rgb2index t)))) as [Hfull|Hroom].
  { apply (keeps_t_bind _ (warn_style _) (fun _ => mret 0)); [apply keeps_warning|intros; apply keeps_t_ret|done]. }
  destruct (map_rgb _ c) as [[x y] z]. unfold call_init_color.
  destruct (color_ok _ _); [|intros [= _ <-]; done]. intros [= _ <-]. destruct H as [Hn Hi Hl Hc Hp Hq Ha].
  split; simpl; rewrite ?map_app, ?length_app; simpl; try done.
  - apply nodup_snoc; [done|by apply dict_get_none].
  - rewrite Hi, seq_app, map_app. done.
  - lia.
  - unfold init_colors in *. simpl. rewrite omap_app, Hc. simpl. done.
  - unfold init_pairs in *. simpl. rewrite omap_app. simpl. by rewrite app_nil_r.
Qed.

Lemma keeps_color_from_num n : keeps_t palette_ok (color_from_num can_change_color COLORS color_ok n).
Proof. unfold color_from_num. repeat first [apply keeps_alloc | keeps_t_step]. Qed.
Lemma keeps_color_from_rgb c : keeps_t palette_ok (color_from_rgb can_change_color COLORS color_content color_ok c).
Proof. unfold color_from_rgb. repeat first [apply keeps_alloc | keeps_t_step]. Qed.
Lemma keeps_color_of_def d m : color_of_def can_change_color COLORS color_ok d = Some m -> keeps_t palette_ok m.
Proof.
  unfold color_of_def. destruct (dict_get _ _) as [n|]; [intros [= <-]; apply keeps_color_from_num|].
  destruct (py_int d 0) as [n|]; [intros [= <-]; apply keeps_color_from_num|done].
Qed.
Lemma keeps_parse_color f : keeps_t palette_ok (parse_color can_change_color COLORS color_content color_ok f).
Proof.
  unfold parse_color. destruct (after_char _ _) as [d|]; [|apply keeps_t_raise].
  destruct (html_color d); [apply keeps_color_from_rgb|].
  destruct (color_of_def _ _ _ d) as [m|] eqn:Hm;
    repeat first [exact (keeps_color_of_def _ _ Hm) | apply keeps_warning | keeps_t_step].
Qed.

Lemma keeps_attr fg bg a : keeps_t palette_ok (style_attr has_colors pair_ok color_pair fg bg a).
Proof.
  unfold style_attr. destruct (negb has_colors); [apply keeps_t_ret|]. intros t r t' H.
  cbv [mbind M_bind gets]. destruct (dict_get _ _) as [i|] eqn:Hd; [intros [= _ <-]; done|].
  unfold call_init_pair. destruct (pair_ok _ _ _); [|intros [= _ <-]; done]. intros [= _ <-].
  destruct H as [Hn Hi Hl Hc Hp Hq Ha]. split; simpl; rewrite ?map_app, ?length_app; simpl; try done.
  - unfold init_colors in *. simpl. rewrite omap_app. simpl. by rewrite app_nil_r.
  - apply nodup_snoc; [done|by apply dict_get_none].
  - unfold init_pairs in *. simpl. rewrite omap_app, Hq, imap_app. simpl. by rewrite length_map, Nat.add_0_r.
  - rewrite Ha, seq_app, map_app. done.
Qed.

Lemma keeps_to_curses d : keeps_t palette_ok (to_curses d).
Proof.
  unfold style_to_curses, style_field. repeat first
    [apply keeps_attr | apply keeps_parse_color | apply keeps_warning | keeps_t_step].
Qed.
Lemma keeps_put k v : keeps_t palette_ok (put_style k v).
Proof. apply keeps_t_modify. intros t [? ? ? ? ? ? ?]. by split. Qed.
Lemma keeps_assign b k d : keeps_t palette_ok (assign b k d).
Proof.
  unfold style_assign. repeat first [apply keeps_put | apply keeps_to_curses | apply keeps_warning | keeps_t_step].
Qed.
Lemma keeps_parse n : forall s b, keeps_t palette_ok (parse n s b).
Proof.
  induction n as [|n IH]; intros s b; simpl; [apply keeps_t_raise|].
  repeat first [apply IH | apply keeps_assign | apply keeps_warning | keeps_t_step].
Qed.
Lemma keeps_default_colors : keeps_t palette_ok (term_call_ use_default_colors).
Proof. apply keeps_t_modify. intros t. by apply calls_warning. Qed.
Lemma keeps_init s : keeps_t palette_ok (init s).
Proof.
  unfold init_styles.
  pose proof (keeps_parse 3 "monochrome" true) as Hm. pose proof (fun s => keeps_parse 3 s false) as Hs.
  destruct has_colors; repeat first [apply keeps_default_colors | exact Hm | apply Hs | keeps_t_step].
Qed.

(** C38. Whatever styles the user asks for and whatever the terminal can do, and even
    when a call of curses fails: each palette entry is set at most once, from 16 on
    and below 256, different colours get different entries, and the pairs of
    colours are numbered from 1 on without gaps or repetitions. *)
Theorem init_styles_palette (style : option string) (r : res unit) (t : TermState) :
  init style (mkTermState [] [] [] ∅) = (r, t) ->
  palette_ok t /\ Forall (fun i => 16 <= i < 256) (init_colors t) /\ NoDup (init_colors t).
Proof.
  intros E. assert (H : palette_ok t).
  { eapply keeps_init; [|exact E]. split; simpl; try done; try apply NoDup_nil_2; lia. }
  split; [done|]. pose proof (pal_limit t H). rewrite (pal_calls t H), (pal_indexes t H). split.
  - apply Forall_forall. intros i (k & <- & Hk%in_seq)%list_elem_of_In%in_map_iff. lia.
  - assert (Inj (=) (=) (fun k => 16 + Z.of_nat k)) by (intros x y; lia).
    apply (NoDup_fmap_2 (fun k => 16 + Z.of_nat k)), NoDup_seq.
Qed.

(** *** The table of styles *)

(** Only the styles in [ks] can be added *)
Definition styled_among (ks : list string) (t : TermState) : Prop := forall k, is_Some (t_style t !! k) -> In k ks.

(** Keeps a property of the table of styles *)
Lemma keeps_other_alloc (P : gmap string Z -> Prop) c : keeps_t (P ∘ t_style) (alloc_rgb color_ok c).
Proof.
  unfold alloc_rgb, warn_style, call_init_color, term_call_, set_rgb2index.
  repeat first [apply keeps_t_modify; by intros t | keeps_t_step].
Qed.
Lemma keeps_other_num (P : gmap string Z -> Prop) n : keeps_t (P ∘ t_style) (color_from_num can_change_color COLORS color_ok n).
Proof. unfold color_from_num. repeat first [apply keeps_other_alloc | keeps_t_step]. Qed.
Lemma keeps_other_color (P : gmap string Z -> Prop) f :
  keeps_t (P ∘ t_style) (parse_color can_change_color COLORS color_content color_ok f).
Proof.
  unfold parse_color, color_of_def, warn_style, term_call_. destruct (after_char _ _) as [d|]; [|apply keeps_t_raise].
  destruct (html_color d); [unfold color_from_rgb; repeat first [apply keeps_other_alloc | keeps_t_step]|].
  destruct (dict_get d NAMED_COLORS) as [n|]; [|destruct (py_int d 0) as [n|]; simpl];
    repeat first [apply keeps_other_num | apply keeps_t_modify; by intros t | keeps_t_step].
Qed.
Lemma keeps_other_curses (P : gmap string Z -> Prop) d : keeps_t (P ∘ t_style) (to_curses d).
Proof.
  unfold style_to_curses, style_field, style_attr, warn_style, call_init_pair, term_call_, set_color_attribs.
  repeat first [apply keeps_other_color | apply keeps_t_modify; by intros t | keeps_t_step].
Qed.

(** An assignment adds its key to the table, and nothing else *)
Lemma assign_adds b k d t r t' : assign b k d t = (r, t') ->
  t_style t' = t_style t \/ exists v, t_style t' = <[k := v]> (t_style t).
Proof.
  unfold style_assign. cbv [mbind M_bind gets].
  set (w := when _ _). assert (Hw : forall t1 r1 t2, w t1 = (r1, t2) -> t_style t2 = t_style t1).
  { intros t1 r1 t2. unfold w, warn_style, term_call_. destruct (_ && _); by intros [= _ <-]. }
  destruct (w t) as [[[]|e] t1] eqn:E1; [|intros [= _ <-]; left; by eapply Hw]. rewrite <- (Hw _ _ _ E1).
  destruct (t_style _ !! d) as [v|].
  - intros [= _ <-]. right. by exists v.
  - destruct (to_curses d t1) as [[v|e] t2] eqn:E2.
    + pose proof (keeps_other_curses (fun m => m = t_style t1) d t1 _ t2 eq_refl E2) as H2. simpl in H2.
      intros [= _ <-]. right. exists v. simpl. by rewrite H2.
    + pose proof (keeps_other_curses (fun m => m = t_style t1) d t1 _ t2 eq_refl E2) as H2. simpl in H2.
      intros [= _ <-]. by left.
Qed.

(** A successful assignment defines its key *)
Lemma assign_defines b k d t t' : assign b k d t = (Ok tt, t') -> is_Some (t_style t' !! k).
Proof.
  unfold style_assign. cbv [mbind M_bind gets]. destruct (when _ _ t) as [[[]|e] t1]; [|done].
  destruct (t_style _ !! d) as [v|].
  - intros [= <-]. simpl. rewrite lookup_insert_eq. by eexists.
  - destruct (to_curses d t1) as [[v|e] t2]; [|done]. intros [= <-]. simpl. rewrite lookup_insert_eq. by eexists.
Qed.

(** The styles that a style string assigns *)
Fixpoint style_keys (n : nat) (s : string) : list string :=
  match n with
  | O => []
  | S n => flat_map (fun sline =>
      match key_data sline with
      | Some (k, _) => [k]
      | None => match dict_get sline STYLES with Some template => style_keys n template | None => [] end
      end) (fields is_space s)
  end.

(** [m] defines the styles [ks] and no other *)
Definition defines (m : T unit) (ks : list string) : Prop := forall t t', m t = (Ok tt, t') ->
  forall k, is_Some (t_style t' !! k) <-> is_Some (t_style t !! k) \/ In k ks.

Lemma defines_bind (m1 : T unit) (m2 : unit -> T unit) ks1 ks2 :
  defines m1 ks1 -> defines (m2 tt) ks2 -> defines (m1 ≫= m2) (ks1 ++ ks2).
Proof.
  intros H1 H2 t t' E k. cbv [mbind M_bind] in E. destruct (m1 t) as [[[]|e] t1] eqn:E1; [|done].
  rewrite (H2 _ _ E k), (H1 _ _ E1 k), in_app_iff. tauto.
Qed.
Lemma defines_assign b k d : defines (assign b k d) [k].
Proof.
  intros t t' E k'. pose proof (assign_defines _ _ _ _ _ E) as Hk.
  destruct (assign_adds _ _ _ _ _ _ E) as [Hs|[v Hs]]; rewrite Hs in *; simpl.
  - split; [by left|]. by intros [?|[<-|[]]].
  - destruct (decide (k = k')) as [->|Hne]; [rewrite lookup_insert_eq; split; [auto|by eexists]|].
    rewrite lookup_insert_ne by done. intuition.
Qed.
Lemma defines_warning words : defines (warn_style words) [].
Proof. intros t t' [= <-] k. simpl. tauto. Qed.
Lemma defines_parse n : forall s b, defines (parse n s b) (style_keys n s).
Proof.
  induction n as [|n IH]; intros s b; simpl; [by intros t t' [=]|].
  unfold forM_. induction (fields is_space s) as [|sline l IHl]; simpl.
  - intros t t' [= <-] k. simpl. tauto.
  - apply defines_bind; [|exact IHl].
    destruct (key_data sline) as [[k d]|]; [apply defines_assign|].
    destruct (dict_get sline STYLES); [apply IH|apply defines_warning].
Qed.

(** The styles after [_init_styles] *)
Lemma init_defines style : defines (init style)
  (style_keys 3 "monochrome" ++ if has_colors then match style with Some s => style_keys 3 s | None => [] end else []).
Proof.
  assert (Hinit : forall (b : bool) (m : T unit) (ms : string -> T unit) ks, defines m ks -> (forall s, defines (ms s) (style_keys 3 s)) ->
    defines (if b then term_call_ use_default_colors;; m;; match style with Some s => ms s | None => mret tt end else m)
      (ks ++ if b then match style with Some s => style_keys 3 s | None => [] end else [])).
  { intros b m ms ks Hm Hs. destruct b; [|by rewrite app_nil_r].
    apply (defines_bind _ _ []); [intros t1 t2 [= <-] k'; simpl; tauto|].
    apply defines_bind; [exact Hm|]. destruct style as [s|]; [apply Hs|]. intros t1 t2 [= <-] k'. simpl. tauto. }
  exact (Hinit has_colors _ (fun s => parse 3 s false) _ (defines_parse 3 "monochrome" true)
    (fun s => defines_parse 3 s false)).
Qed.
End Terminal.

(** ** The styles of the interface *)

(** The styles whose names the interface uses, the one of show-help mode apart *)
Definition interface_styles : list string :=
  ["path"; "separator"; "list"; "help"; "body"; "jump-edit"; "text"; "selection"; "inv-selection"; "inv-list"; "edit"; "frame"].

Definition empty_styles : TermState := mkTermState [] [] [] ∅.

(** The names a style string of the user adds *)
Definition user_keys (has_colors : bool) (style : option string) : list string :=
  if has_colors then match style with Some s => style_keys 3 s | None => [] end else [].

Lemma in_by_check (x : string) l : existsb (String.eqb x) l = true -> In x l.
Proof. intros (y & Hy & ->%String.eqb_eq)%existsb_exists. done. Qed.

(** C37. Once [_init_styles] has run, whatever MENUCONFIG_STYLE says, every style that
    the interface looks up by name is defined, except that of show-help mode. *)
Theorem interface_styles_defined (hc cc : bool) (COLORS : Z) (content : Z -> rgb) (color_ok : Z -> rgb -> bool)
    (pair_ok : Z -> Z -> Z -> bool) (pair : Z -> Z) (win : bool) (an ab ast au : Z) (style : option string) (t : TermState) :
  init_styles hc cc COLORS content color_ok pair_ok pair win an ab ast au style empty_styles = (Ok tt, t) ->
  Forall (fun n => is_Some (t_style t !! n)) interface_styles.
Proof.
  intros E. pose proof (init_defines hc cc COLORS content color_ok pair_ok pair win an ab ast au style _ _ E) as H.
  assert (Hall : forallb (fun n => existsb (String.eqb n) (style_keys 3 "monochrome")) interface_styles = true)
    by (vm_compute; reflexivity).
  apply Forall_forall. intros n Hn%list_elem_of_In. rewrite H, in_app_iff. right. left.
  rewrite forallb_forall in Hall. by apply in_by_check, Hall.
Qed.

Section ShowHelp.
Context (cfg : Config) (depth : nat) (pf : Platform) (u : UI).
Context (He : pf_erase_char pf <> Some "f"%char) (Hu : ui_show_help u = false).

Lemma resize_main_ok u1 : exists u2, resize_main u1 = (Ok tt, u2).
Proof.
  unfold resize_main. cbv [mbind I_bind M_bind gets id modify draw_all]. destruct (ui_screen u1) as [h w].
  destruct (_ <=? _); [by eexists|]. cbn [when]. destruct (_ <=? _); by eexists.
Qed.

Lemma f_key : (handle_key cfg depth pf (KChar "f") u).1
  = match pf_style pf !! "show-help" with Some _ => Ok None | None => Err KeyError end.
Proof.
  assert (Hk : handle_key cfg depth pf (KChar "f")
    = (modify (fun u => set_show_help (negb (ui_show_help u)) u);;
       b ← gets ui_show_help;
       (set_style pf help_win (if b : bool then "show-help" else "help");; resize_main);; mret None)).
  { unfold handle_key. cbv zeta. assert (Hn : is_erase (pf_erase_char pf) (KChar "f") = false); [|by rewrite Hn].
    unfold is_erase. destruct (pf_erase_char pf) as [e|]; [|done]. destruct (Ascii.eqb_spec "f" e); congruence. }
  rewrite Hk. clear Hk. set (u1 := set_show_help true u).
  assert (Hrest : (set_style pf help_win "show-help";; resize_main) u1 = match pf_style pf !! "show-help" with
      | Some a => resize_main (set_drawn (ui_drawn u1 ++ [(help_win, Bkgdset a)]) u1)
      | None => (Err KeyError, u1) end).
  { unfold set_style, get_style. cbv [mbind I_bind M_bind]. by destruct (pf_style pf !! "show-help"). }
  assert (H1 : modify (fun u => set_show_help (negb (ui_show_help u)) u) u = (Ok tt, u1))
    by (unfold modify; by rewrite Hu).
  destruct (pf_style pf !! "show-help") as [a|].
  - destruct (resize_main_ok (set_drawn (ui_drawn u1 ++ [(help_win, Bkgdset a)]) u1)) as [u2 E]. rewrite E in Hrest.
    match goal with |- (?m u).1 = _ => assert (m u = (Ok None, u2)) as ->; [|done] end.
    eapply bind_ok; [exact H1|]. eapply bind_ok; [reflexivity|]. eapply bind_ok; [exact Hrest|reflexivity].
  - match goal with |- (?m u).1 = _ => assert (m u = (Err KeyError, u1)) as ->; [|done] end.
    eapply bind_ok; [exact H1|]. eapply bind_ok; [reflexivity|]. change (ui_show_help u1) with true. cbv iota.
    cbv [mbind I_bind M_bind] in Hrest |- *. by rewrite Hrest.
Qed.
End ShowHelp.

(** C36. Pressing F outside show-help mode ends the interface with a KeyError unless
    the user's own style string defines the style of show-help mode: the styles
    that are always loaded do not. *)
Theorem show_help_key_raises (hc cc : bool) (COLORS : Z) (content : Z -> rgb) (color_ok : Z -> rgb -> bool)
    (pair_ok : Z -> Z -> Z -> bool) (pair : Z -> Z) (win : bool) (an ab ast au : Z) (style : option string) (t : TermState)
    (cfg : Config) (depth : nat) (pf : Platform) (u : UI) :
  init_styles hc cc COLORS content color_ok pair_ok pair win an ab ast au style empty_styles = (Ok tt, t) ->
  pf_style pf = t_style t -> pf_erase_char pf <> Some "f"%char -> ui_show_help u = false ->
  (handle_key cfg depth pf (KChar "f") u).1 = Err KeyError <-> ~ In "show-help" (user_keys hc style).
Proof.
  intros E Hs He Hu. rewrite f_key, Hs by done.
  pose proof (init_defines hc cc COLORS content color_ok pair_ok pair win an ab ast au style _ _ E "show-help") as H.
  rewrite in_app_iff in H. change (if hc then _ else _) with (user_keys hc style) in H.
  assert (Hm : ~ In "show-help" (style_keys 3 "monochrome")).
  { intros Hin. assert (Hc : existsb (String.eqb "show-help") (style_keys 3 "monochrome") = false) by (vm_compute; reflexivity).
    apply not_true_iff_false in Hc. apply Hc, existsb_exists. by exists "show-help". }
  destruct (t_style t !! "show-help") as [a|].
  - split; [done|]. intros Hn. destruct (proj1 H) as [[x [=]]|[?|?]]; [by eexists|done|done].
  - split; [|done]. intros _ Hin. destruct (proj2 H) as [x [=]]. auto.
Qed.

(** A terminal with eight colours *)
Definition term8 (style : option string) : res unit * TermState :=
  init_styles true false 8 (fun _ => (0, 0, 0)) (fun _ _ => true) (fun _ _ _ => true) (fun n => n * 256)
    false 0 2097152 65536 131072 style empty_styles.

Lemma pair_fst {A B} (p : A * B) a : p.1 = a -> p = (a, p.2).
Proof. by destruct p; intros <-. Qed.

Lemma term8_ok style : (term8 style).1 = Ok tt ->
  init_styles true false 8 (fun _ => (0, 0, 0)) (fun _ _ => true) (fun _ _ _ => true) (fun n => n * 256)
    false 0 2097152 65536 131072 style empty_styles = (Ok tt, (term8 style).2).
Proof.
  unfold term8. apply pair_fst.
Qed.

Lemma interface_styles_defined_witness :
  Forall (fun n => is_Some (t_style (term8 (Some "aquatic list=fg:red")).2 !! n)) interface_styles.
Proof.
  assert (H : (term8 (Some "aquatic list=fg:red")).1 = Ok tt) by (vm_compute; reflexivity).
  exact (interface_styles_defined true false 8 (fun _ => (0, 0, 0)) (fun _ _ => true) (fun _ _ _ => true) (fun n => n * 256)
    false 0 2097152 65536 131072 (Some "aquatic list=fg:red") (term8 (Some "aquatic list=fg:red")).2 (term8_ok _ H)).
Defined.

Definition term8_platform (style : option string) : Platform :=
  mkPlatform None (fun _ => None) id id "/" (fun _ => inl "") (fun s _ => Ok [s]) (fun _ => (0, 0)) (t_style (term8 style).2).

Lemma term8_style style : pf_style (term8_platform style) = t_style (term8 style).2.
Proof. reflexivity. Qed.
Lemma no_erase_char style : pf_erase_char (term8_platform style) <> Some "f"%char.
Proof. discriminate. Qed.
Lemma no_show_help input : ui_show_help (fpspy_ui input) = false.
Proof. reflexivity. Qed.

Lemma show_help_key_raises_witness :
  (handle_key fpspy 1 (term8_platform None) (KChar "f") (fpspy_ui [])).1 = Err KeyError
  <-> ~ In "show-help" (user_keys true None).
Proof.
  assert (H : (term8 None).1 = Ok tt) by (vm_compute; reflexivity).
  exact (show_help_key_raises true false 8 (fun _ => (0, 0, 0)) (fun _ _ => true) (fun _ _ _ => true) (fun n => n * 256)
    false 0 2097152 65536 131072 None (term8 None).2 fpspy 1 (term8_platform None) (fpspy_ui []) (term8_ok _ H) (term8_style None)
    (no_erase_char None) (no_show_help [])).
Defined.

Lemma init_styles_palette_witness :
  let t := (init_styles true true 256 (fun _ => (0, 0, 0)) (fun _ _ => true) (fun _ _ _ => true) (fun n => n * 256)
    false 0 2097152 65536 131072 (Some "list=fg:#ff0000,bg:#00ff00") empty_styles).2 in
  palette_ok (fun n => n * 256) t /\ Forall (fun i => 16 <= i < 256) (init_colors t) /\ NoDup (init_colors t).
Proof.
  intros t. eapply (init_styles_palette true true 256 (fun _ => (0, 0, 0)) (fun _ _ => true) (fun _ _ _ => true)
    (fun n => n * 256) false 0 2097152 65536 131072 (Some "list=fg:#ff0000,bg:#00ff00")).
  apply surjective_pairing.
Defined.
