(* ===== verification/WellFormed.v ===== *)
(** * What construction establishes

    A configuration that [Kconfig.__init__] returns is [well_formed], whatever
    the files, the environment and the output of shell commands are: what parsing
    keeps true ([ParseInv]) is still true in the finished menu tree, where the
    properties of menu nodes have been copied to their symbols and choices, and
    the sanity checks have ruled out malformed defaults. *)
From S2P Require Import Prelude PyStr PyText Model Eval EvalSpec EvalRefine SetValue Finalize Tables Printing DepComplete.
From S2P Require Import ConfigFile DepLoop Preprocess Tokenize Parse Sanity Init KconfigText InitProps PreprocessProps ParseInv.

(** ** Selects are conjunctions that begin with a symbol *)

Definition selects_ok (e : expr) : Prop := forall select, In select (split_expr e OR) -> exists t, first_and select = ESym t.

Lemma selects_sym t : selects_ok (ESym t).
Proof. intros e [<-|[]]. by exists t. Qed.
Lemma selects_or c e1 e2 : selects_ok e1 -> selects_ok e2 -> selects_ok (make_or c e1 e2).
Proof.
  intros H1 H2. unfold make_or. case_bool_decide; [done|]. case_bool_decide; [done|].
  destruct (_ || _); [apply selects_sym|]. intros e. cbn [split_expr]. rewrite in_app_iff. intros [?|?]; auto.
Qed.
Lemma selects_and c s cond : ESym s <> e_y c -> selects_ok (make_and c (ESym s) cond).
Proof.
  intros Hs. unfold make_and. rewrite bool_decide_eq_false_2 by done. case_bool_decide; [apply selects_sym|].
  destruct (_ || _); [apply selects_sym|]. intros e [<-|[]]. by exists s.
Qed.

(** ** The invariant of the post-processing *)

(** The symbols that are constant are fixed: [konst s] says whether [s] is *)
Record laid (konst : symid -> bool) (syms : list symid) (choices : list choiceid) (c : Config) : Prop := {
  ld_tri : c_n c = 0%nat /\ c_m c = 1%nat /\ c_y c = 2%nat;
  ld_constant : forall s, sym_is_constant (sym c s) = konst s;
  ld_const : forall s, (s < 3)%nat -> konst s = true /\ sym_orig_type (sym c s) = TRISTATE;
  ld_node : forall n s, nd_item (node c n) = NSym s -> konst s = false /\ In s syms;
  ld_node_choice : forall n x, nd_item (node c n) = NChoice x -> In x choices;
  ld_defaults : forall s, sym_defaults (sym c s) <> [] -> In s syms;
  ld_selects : forall s, selects_ok (sym_rev_dep (sym c s));
  ld_ch_defaults : forall x, ch_defaults (chc c x) <> [] -> In x choices;
  ld_ch_syms : forall x s, In s (ch_syms (chc c x)) -> konst s = false;
}.

Lemma built_laid c syms choices : built c syms choices -> laid (fun s => sym_is_constant (sym c s)) syms choices c.
Proof.
  intros [H1 H2 H3 H4 H5 H6]. split; try done.
  - intros s. by destruct (H5 s) as [-> _].
  - intros s. destruct (H5 s) as [_ ->]. apply selects_sym.
  - intros x. by destruct (H6 x) as [-> _].
  - intros x s. by destruct (H6 x) as [_ ->].
Qed.

Section Laid.
Context (konst : symid -> bool) (syms : list symid) (choices : list choiceid).
Local Abbreviation laid := (laid konst syms choices).

Lemma laid_upd_node f n c : (forall x, nd_item (f x) = nd_item x) -> laid c -> laid (upd_node f n c).
Proof.
  intros Hf [H1 H2 H3 H4 H5 H6 H7 H8 H9].
  assert (Hn : forall m, nd_item (node (upd_node f n c) m) = nd_item (node c m)).
  { intros m. rewrite node_upd. by case_decide. }
  split; try done; intros m z; rewrite Hn; [apply H4|apply H5].
Qed.

(** A symbol may change its defaults if it is defined, its type if it is no constant *)
Lemma laid_upd_sym f s c :
  (forall x, sym_is_constant (f x) = sym_is_constant x) ->
  (forall x, sym_orig_type (f x) = sym_orig_type x) \/ konst s = false ->
  (forall x, sym_defaults (f x) = sym_defaults x) \/ In s syms ->
  (forall x, selects_ok (sym_rev_dep x) -> selects_ok (sym_rev_dep (f x))) ->
  laid c -> laid (upd_sym f s c).
Proof.
  intros Hk Ht Hd Hr [H1 H2 H3 H4 H5 H6 H7 H8 H9]. split; try done; intros t; rewrite sym_upd; case_decide as E; auto.
  - by rewrite Hk.
  - destruct E as [-> _]. intros Hlt. destruct (H3 t Hlt) as [Hkt Ho]. split; [done|].
    destruct Ht as [Ht|Ht]; [by rewrite Ht|by rewrite Hkt in Ht].
  - destruct E as [-> _]. destruct Hd as [Hd|Hd]; [rewrite Hd; apply H6|done].
Qed.

Lemma laid_upd_choice f x c :
  (forall y, ch_defaults (f y) = ch_defaults y) \/ In x choices ->
  (forall t, In t (ch_syms (f (chc c x))) -> In t (ch_syms (chc c x)) \/ konst t = false) ->
  laid c -> laid (upd_choice f x c).
Proof.
  intros Hd Hs [H1 H2 H3 H4 H5 H6 H7 H8 H9]. split; try done; intros y; [|intros t]; rewrite chc_upd; case_decide as E; auto.
  - destruct E as [-> _]. destruct Hd as [Hd|Hd]; [rewrite Hd; apply H8|done].
  - destruct E as [-> _]. intros [Ht|Ht]%Hs; [by apply (H9 y)|done].
  - apply H9.
Qed.

(** ** Programs that keep it *)

Definition lays {A} (m : P A) : Prop := forall c a c', laid c -> m c = (Ok a, c') -> laid c'.

Lemma lays_ret {A} (a : A) : lays (mret a).
Proof. intros c b c' H [= _ <-]. exact H. Qed.
Lemma lays_raise {A} e : lays (raise e : P A).
Proof. by intros c a c' _ [=]. Qed.
Lemma lays_gets {A} (f : Config -> A) : lays (gets f).
Proof. intros c b c' H [= _ <-]. exact H. Qed.
Lemma lays_bind {A B} (m : P A) (k : A -> P B) : lays m -> (forall a, lays (k a)) -> lays (m ≫= k).
Proof.
  intros Hm Hk c b c' Hc. cbv [mbind P_bind M_bind]. destruct (m c) as [[a|e] c1] eqn:E; [|done].
  intros H. eapply Hk; [|exact H]. by eapply Hm.
Qed.
Lemma lays_when b (m : P unit) : lays m -> lays (when b m).
Proof. intros H. destruct b; [done|apply lays_ret]. Qed.
Lemma lays_modify f : (forall c, laid c -> laid (f c)) -> lays (modify f).
Proof. intros H c a c' Hc [= _ <-]. by apply H. Qed.
(** What was read may be used *)
Lemma lays_gets_bind {A B} (f : Config -> A) (k : A -> P B) :
  (forall c a c', laid c -> k (f c) c = (Ok a, c') -> laid c') -> lays (gets f ≫= k).
Proof. intros H c a c' Hc E. by eapply H. Qed.
Lemma lays_forM {A} (f : A -> P unit) l : (forall a, In a l -> lays (f a)) -> lays (forM_ l f).
Proof.
  induction l as [|a l IH]; intros H; [apply lays_ret|]. apply lays_bind; [apply H; by left|].
  intros []. apply IH. intros b Hb. apply H. by right.
Qed.
Lemma lays_while fuel body : (forall n, lays (body n)) -> forall cur, lays (while_next fuel body cur).
Proof.
  intros Hb. induction fuel as [|fuel IH]; intros [n|]; cbn [while_next]; try apply lays_ret; [apply lays_raise|].
  apply lays_bind; [apply Hb|]. intros []. apply lays_bind; [apply lays_gets|]. intros nx. apply IH.
Qed.
Lemma lays_nput f n : (forall x, nd_item (f x) = nd_item x) -> lays (nput f n).
Proof. intros H. apply lays_modify. intros c. by apply laid_upd_node. Qed.

Create HintDb laid.
Hint Resolve lays_ret lays_raise lays_gets lays_when lays_nput lays_while : laid.
Hint Extern 2 (lays (nget _ _)) => (apply lays_gets) : laid.
Ltac lay_step :=
  match goal with
  | |- lays (mbind _ _) => apply lays_bind; [|intros ?]
  | |- lays (match ?x with _ => _ end) => destruct x
  | |- lays (let _ := _ in _) => cbv zeta
  | |- _ => solve [eauto with laid]
  end.

(** *** The finished menu tree *)

Lemma propagate_item c b v x : nd_item (propagate_to c b v x) = nd_item x.
Proof. unfold propagate_to. by destruct (nd_item x) eqn:E. Qed.

Lemma lays_propagate fuel n v : lays (propagate_deps fuel n v).
Proof.
  unfold propagate_deps. repeat lay_step. apply lays_while. intros m. repeat lay_step.
  apply lays_nput. intros x. apply propagate_item.
Qed.

Lemma laid_not_y c s : laid c -> konst s = false -> ESym s <> e_y c.
Proof.
  intros H Hs. unfold e_y. destruct (ld_tri _ _ _ _ H) as (_ & _ & ->). intros [= ->].
  destruct (ld_const _ _ _ _ H 2%nat) as [Hk _]; [lia|]. by rewrite Hk in Hs.
Qed.

Lemma lays_select s target cond : konst s = false ->
  lays (c ← gets id; modify (upd_sym (set_sym_rev_dep
          (make_or c (sym_rev_dep (sym c target)) (make_and c (ESym s) cond))) target)).
Proof.
  intros Hs. apply lays_gets_bind. intros c a c' Hc [= _ <-]. apply laid_upd_sym; try done; [by left..|].
  intros x _. cbn [sym_rev_dep set_sym_rev_dep]. apply selects_or; [apply (ld_selects _ _ _ _ Hc)|]. by apply selects_and, laid_not_y.
Qed.
Lemma lays_imply e target : lays (c ← gets id; modify (upd_sym (set_sym_weak_rev_dep (e c)) target)).
Proof.
  apply lays_gets_bind. intros c a c' Hc [= _ <-]. apply laid_upd_sym; try done; by left.
Qed.

(** The item of a node *)
Definition item_fits (it : node_item) : Prop :=
  match it with NSym s => konst s = false /\ In s syms | NChoice x => In x choices | _ => True end.
Lemma lays_node {B} n (m : MenuNode -> P B) :
  (forall x, item_fits (nd_item x) -> lays (m x)) -> lays (gets (fun c => node c n) ≫= m).
Proof.
  intros H. apply lays_gets_bind. intros c a c' Hc. apply H; [|done]. unfold item_fits.
  destruct (nd_item (node c n)) eqn:E; try done; [by apply (ld_node _ _ _ _ Hc n)|by apply (ld_node_choice _ _ _ _ Hc n)].
Qed.
Lemma lays_item {B} n (m : node_item -> P B) :
  (forall it, item_fits it -> lays (m it)) -> lays (nget nd_item n ≫= m).
Proof. intros H. apply (lays_node n (fun x => m (nd_item x))). auto. Qed.

Lemma lays_add_props n : lays (add_props_to_sym n).
Proof.
  unfold add_props_to_sym. apply lays_item. intros [s|x| | |] Hi; try apply lays_ret. destruct Hi as [Hk Hs].
  apply lays_bind; [apply lays_gets|]. intros x. apply lays_bind; [apply lays_gets|]. intros c.
  apply lays_bind. { apply lays_modify. intros c'. apply laid_upd_sym; [done|by left|by right|done]. }
  intros []. apply lays_bind; [|intros []]; apply lays_forM; intros [target cond] _; [by apply lays_select|].
  apply (lays_imply (fun c => make_or c (sym_weak_rev_dep (sym c target)) (make_and c (ESym s) cond))).
Qed.

Lemma lays_adopt parent : forall fuel n, lays (adopt fuel parent n).
Proof. induction fuel as [|fuel IH]; intros n; cbn [adopt]; repeat first [apply IH | lay_step]. Qed.
Lemma lays_flatten fuel first : lays (flatten fuel first).
Proof. apply lays_while. intros n. repeat first [apply lays_adopt | lay_step]. Qed.
Lemma lays_skip fuel cur : lays (skip fuel cur).
Proof. unfold skip. repeat lay_step. Qed.
Lemma lays_remove_ifs fuel n : lays (remove_ifs fuel n).
Proof.
  unfold remove_ifs. repeat first [apply lays_skip | lay_step].
  apply lays_while. intros m. repeat first [apply lays_skip | lay_step].
Qed.

Lemma laid_set_type c t s : laid c -> konst s = false -> laid (upd_sym (set_sym_orig_type t) s c).
Proof. intros Hc Hs. apply laid_upd_sym; [done|by right|by left|done|done]. Qed.

Lemma lays_choice_types (x : choiceid) l (t : Config -> choiceid -> stype) : Forall (fun s => konst s = false) l ->
  lays (forM_ l (fun s => modify (fun c => if type_eqb (sym_orig_type (sym c s)) UNKNOWN
                                           then upd_sym (set_sym_orig_type (t c x)) s c else c))).
Proof.
  intros Hl. apply lays_forM. intros s Hs. rewrite Forall_forall in Hl. apply list_elem_of_In, Hl in Hs.
  apply lays_modify. intros c Hc. destruct (type_eqb _ _); [by apply laid_set_type|done].
Qed.

Lemma lays_finalize_choice fuel n : lays (finalize_choice fuel n).
Proof.
  unfold finalize_choice. apply lays_item. intros [s|x| | |] Hi; try apply lays_ret.
  apply lays_bind; [apply lays_gets|]. intros first. apply lays_bind.
  { apply lays_while. intros m. apply lays_item. intros [s|y| | |] Hm; try apply lays_ret. destruct Hm as [Hk Hs].
    apply lays_bind; [|intros []]; apply lays_modify; intros c Hc.
    - apply laid_upd_sym; [done|by left|by left|done|done].
    - apply laid_upd_choice; [by left| |done]. intros t. simpl. rewrite in_app_iff. intros [?|[<-|[]]]; [by left|by right]. }
  intros []. apply lays_bind; [apply lays_gets|]. intros c0. apply lays_bind.
  { apply lays_when. destruct (first_type c0 _); [|apply lays_ret]. apply lays_modify. intros c.
    apply laid_upd_choice; [by left|by left]. }
  intros []. apply lays_gets_bind. intros c a c' Hc. apply (lays_choice_types x _ (fun c x => ch_orig_type (chc c x))).
  - apply Forall_forall. intros s Hs%list_elem_of_In. by apply (ld_ch_syms _ _ _ _ Hc x).
  - done.
Qed.

Lemma lays_implicit_menu finalize n : (forall m, lays (finalize m)) -> forall fuel cur, lays (implicit_menu fuel finalize n cur).
Proof.
  intros Hf. induction fuel as [|fuel IH]; intros cur; cbn [implicit_menu]; repeat first [apply IH | apply Hf | lay_step].
Qed.

Lemma lays_finalize fuel : forall depth n v, lays (finalize_node fuel depth n v).
Proof.
  induction depth as [|depth IH]; intros n v; cbn [finalize_node]; [apply lays_raise|].
  apply lays_node. intros x Hx. apply lays_bind.
  - assert (Hm : forall v', lays (propagate_deps fuel n v';; first ← nget nd_list n;
      while_next fuel (fun n => finalize_node fuel depth n v') first)).
    { intros v'. apply lays_bind; [apply lays_propagate|intros []]. apply lays_bind; [apply lays_gets|]. intros first.
      apply lays_while. intros m. apply IH. }
    destruct (nd_item x).
    1: { apply lays_bind; [apply lays_add_props|intros []]. apply lays_bind; [by apply lays_implicit_menu|intros cur].
         apply lays_when. repeat lay_step. }
    all: apply lays_when, lays_bind; [apply lays_gets|intros cfg; apply Hm].
  - intros []. apply lays_bind; [apply lays_gets|]. intros l. apply lays_bind.
    { apply lays_when, lays_bind; [apply lays_flatten|intros []; apply lays_remove_ifs]. }
    intros []. destruct (nd_item x) as [s|y| | |]; try apply lays_ret. simpl in Hx.
    apply lays_bind; [apply lays_gets|]. intros x'. apply lays_bind; [|intros []; apply lays_finalize_choice].
    apply lays_modify. intros c. apply laid_upd_choice; [by right|by left].
Qed.
End Laid.

(** ** Sanity checks that succeed *)

Section Sane.
Context (cfg : Config).

Lemma forM_ok_inv {A} (f : A -> K unit) l st st' :
  forM_ l f st = (Ok tt, st') -> forall a, In a l -> exists st1 st2, f a st1 = (Ok tt, st2).
Proof.
  revert st. induction l as [|b l IH]; intros st H a; [done|].
  apply bind_inv in H as ([] & st1 & Hb & Hl). intros [<-|Ha]; [by eexists _, _|by eapply IH].
Qed.

Lemma check_default_ok s d st st' : check_default cfg s d st = (Ok tt, st') -> exists v, d = ESym v.
Proof. destruct d as [[v|c]| | | |]; try done. by exists v. Qed.

Lemma check_sym_ok s st st' : check_sym cfg s st = (Ok tt, st') ->
  is_bool_tristate (sym_orig_type (sym cfg s)) = false -> sym_orig_type (sym cfg s) <> UNKNOWN ->
  forall d cond, In (d, cond) (sym_defaults (sym cfg s)) -> exists v, d = ESym v.
Proof.
  intros H Ht Hu d cond Hin. unfold check_sym in H. rewrite Ht in H. destruct (type_eqb _ UNKNOWN) eqn:E; [by apply type_eqb_eq in E|].
  apply bind_inv in H as ([] & st1 & H & _). apply bind_inv in H as ([] & st2 & H & _).
  apply (forM_ok_inv _ _ _ _ H) in Hin as (st3 & st4 & Hd). by eapply check_default_ok.
Qed.

Lemma check_choice_ok c st st' : check_choice cfg c st = (Ok tt, st') ->
  forall d cond, In (d, cond) (ch_defaults (chc cfg c)) -> exists v, d = ESym v.
Proof.
  intros H d cond Hin. unfold check_choice in H. do 2 apply bind_inv in H as ([] & ? & _ & H).
  apply bind_inv in H as ([] & st1 & H & _). apply (forM_ok_inv _ _ _ _ H) in Hin as (st3 & st4 & Hd).
  destruct d as [[v|y]| | | |]; try done. by exists v.
Qed.
End Sane.

(** ** From the files to the finished configuration *)

Lemma elem_of_ordered_unique l seen x : x ∈ ordered_unique l seen <-> x ∈ l /\ x ∉ seen.
Proof.
  revert seen. induction l as [|y l IH]; intros seen; cbn [ordered_unique]; [rewrite elem_of_nil; tauto|].
  case_bool_decide as Hy; rewrite ?elem_of_cons, IH, ?elem_of_cons; (destruct (decide (x = y)) as [->|]; tauto).
Qed.
Lemma nodup_ordered_unique l : forall seen, NoDup (ordered_unique l seen).
Proof.
  induction l as [|y l IH]; intros seen; cbn [ordered_unique]; [constructor|].
  case_bool_decide; [apply IH|]. constructor; [|apply IH]. rewrite elem_of_ordered_unique, elem_of_cons. tauto.
Qed.

Section Construction.
Context (getenv : string -> option string) (uname_release : string) (shell : string -> string * string).
Context (files : gmap string string) (glob : string -> list string) (srctree_prefix : string).
Context (warn_enabled : bool) (fuel : nat) (filename : string).

Lemma start_parsing : Parsing (start getenv warn_enabled filename).
Proof.
  split; try done.
  - intros [|[|[|s]]] Hs; try done. lia.
  - intros [|[|n]] s; done.
  - intros [|[|n]] s; done.
  - intros [|[|[|[|s]]]]; done.
  - intros [|x]; done.
Qed.

Lemma kept_parse_files : kept (parse_files getenv uname_release shell files glob srctree_prefix fuel filename).
Proof.
  unfold parse_files. apply kept_bind; [apply kept_lookup_sym|]. intros s.
  destruct (files !! _); [|apply kept_idle, idle_raise].
  apply kept_bind; [apply kept_modify; done|]. intros []. apply kept_bind; [apply kept_idle, idle_gets|]. intros top.
  apply kept_bind; [apply kept_block|]. intros lst. apply kept_bind; [by apply kept_q_nput|]. intros [].
  apply kept_bind; [apply kept_tilt|]. intros []. apply kept_bind; [by apply kept_q_nput|]. intros [].
  by apply kept_modify.
Qed.

Lemma checking_inv m p p' : checking m p = (Ok tt, p') ->
  ps_cfg p' = ps_cfg p /\ exists st st', m (ps_cfg p) st = (Ok tt, st').
Proof.
  unfold checking. destruct (m (ps_cfg p) _) as [[[]|e] st'] eqn:E; [|done]. intros [= <-].
  split; [done|]. by eexists _, st'.
Qed.

(** The configuration between the sanity checks and the search for dependency loops *)
Record checked (c : Config) : Prop := {
  ck_laid : exists konst, laid konst (c_unique_defined_syms c) (c_unique_choices c) c;
  ck_sym : forall s, In s (c_unique_defined_syms c) -> exists st st', check_sym c s st = (Ok tt, st');
  ck_choice : forall x, In x (c_unique_choices c) -> exists st st', check_choice c x st = (Ok tt, st');
}.

Lemma checked_well_formed c : checked c -> well_formed c.
Proof.
  intros [[konst [H1 H2 H3 H4 H5 H6 H7 H8 H9]] Hs Hc]. destruct H1 as (En & Em & Ey). split.
  - intros s Ht. apply H3. unfold is_tri_const in Ht. rewrite En, Em, Ey, !orb_true_iff, !bool_decide_eq_true in Ht. lia.
  - rewrite En, Em, Ey. lia.
  - intros s d cond Hin Ht Hu. assert (Hd : sym_defaults (sym c s) <> []) by (intros E; by rewrite E in Hin).
    destruct (Hs s (H6 s Hd)) as (st & st' & E). destruct (check_sym_ok _ _ _ _ E Ht Hu d cond Hin) as [v ->]. by eexists.
  - intros x d cond Hin. assert (Hd : ch_defaults (chc c x) <> []) by (intros E; by rewrite E in Hin).
    destruct (Hc x (H8 x Hd)) as (st & st' & E). exact (check_choice_ok _ _ _ _ E d cond Hin).
  - intros s. apply H7.
Qed.

Lemma same_well_formed c c' : same_but_deps c c' -> well_formed c -> well_formed c'.
Proof.
  intros S [H1 H2 H3 H4 H5]. pose proof (sb_consts _ _ S) as E. injection E as En Em Ey Emod. split.
  - intros s. unfold is_tri_const. rewrite En, Em, Ey, (same_sym_field _ _ S sym_orig_type) by done. apply H1.
  - by rewrite En, Em, Ey.
  - intros s d cond. rewrite (same_sym_field _ _ S sym_orig_type), (same_sym_field _ _ S sym_defaults) by done. apply H3.
  - intros x d cond. rewrite (same_choice_field _ _ S ch_defaults) by done. apply H4.
  - intros s select. rewrite (same_sym_field _ _ S sym_rev_dep) by done. apply H5.
Qed.

(** [_build_dep] and [_add_choice_deps] only add dependents *)
Lemma same_build_dep c : same_but_deps c (build_dep c).
Proof. apply adds_build_dep. Qed.
Lemma same_add_choice_deps c : same_but_deps c (add_choice_deps c).
Proof. by apply (adds_choice_deps c). Qed.

Lemma finalize_tree_inv p p' : Parsing p -> finalize_tree fuel p = (Ok tt, p') ->
  (exists konst, laid konst (c_unique_defined_syms (ps_cfg p')) (c_unique_choices (ps_cfg p')) (ps_cfg p'))
  /\ NoDup (c_unique_defined_syms (ps_cfg p')) /\ NoDup (c_unique_choices (ps_cfg p')).
Proof.
  intros Hp. unfold finalize_tree. destruct (finalize_node _ _ _ _ _) as [r c] eqn:E. intros [= -> <-].
  split; [|split; apply nodup_ordered_unique].
  pose proof (lays_finalize _ _ _ _ _ _ _ _ _ _ (built_laid _ _ _ Hp) E) as [H1 H2 H3 H4 H5 H6 H7 H8 H9].
  exists (fun s => sym_is_constant (sym (ps_cfg p) s)).
  assert (Hin : forall l z, In z l -> In z (ordered_unique l [])).
  { intros l z Hz. apply list_elem_of_In, elem_of_ordered_unique. rewrite list_elem_of_In. split; [done|apply not_elem_of_nil]. }
  split; try done.
  - intros n s Hn. destruct (H4 n s Hn). split; [done|]. by apply Hin.
  - intros n x Hn. eapply Hin, H5, Hn.
  - intros s Hd. by apply Hin, H6.
  - intros x Hd. by apply Hin, H8.
Qed.
End Construction.

(** C4. Whatever the Kconfig files, the environment, the output of shell commands
    and the results of [glob] are: if [Kconfig.__init__] returns, the
    configuration is [well_formed] (the hypothesis of the theorems on values, on
    changes and on files: the constants [n], [m] and [y] are tristate, defaults
    of string, int and hex symbols and of choices are symbols, and each select
    condition begins with the selecting symbol), and the lists of defined symbols
    and of choices have no duplicates. *)
Theorem kconfig_well_formed (getenv : string -> option string) (uname_release : string)
    (shell : string -> string * string) (files : gmap string string) (glob : string -> list string)
    (srctree_prefix : string) (warn_enabled : bool) (fuel : nat) (filename : string) (p : PState) :
  kconfig getenv uname_release shell files glob srctree_prefix warn_enabled fuel filename = (Ok tt, p) ->
  well_formed (ps_cfg p) /\ NoDup (c_unique_defined_syms (ps_cfg p)) /\ NoDup (c_unique_choices (ps_cfg p)).
Proof.
  unfold kconfig, init_kconfig. intros H.
  apply bind_inv in H as ([] & p1 & H1 & H). apply kept_parse_files in H1; [|apply start_parsing].
  apply bind_inv in H as ([] & p2 & H2 & H). apply (finalize_tree_inv fuel _ _ H1) in H2 as (Hl & Hds & Hdc).
  apply bind_inv in H as ([] & p3 & H3 & H). apply checking_inv in H3 as (E3 & st3 & st3' & H3). rewrite <- E3 in *.
  apply bind_inv in H as ([] & p4 & H4 & H). apply checking_inv in H4 as (E4 & st4 & st4' & H4).
  apply bind_inv in H as ([] & p5 & H5 & H).
  assert (E5 : ps_cfg p5 = ps_cfg p4).
  { destruct (_ || _); cbn [when] in H5; [by apply checking_inv in H5 as (E5 & _)|by injection H5 as <-]. }
  apply bind_inv in H as ([] & p6 & H6 & H). injection H6 as <-.
  apply bind_inv in H as ([] & p7 & H7 & H). apply checking_inv in H7 as (E7 & _). injection H as <-. simpl.
  assert (S : same_but_deps (ps_cfg p3) (add_choice_deps (ps_cfg p7))).
  { rewrite E7. simpl. rewrite E5, E4. etransitivity; [apply same_build_dep|apply same_add_choice_deps]. }
  rewrite (sb_defined _ _ S), (sb_choices _ _ S). split; [|done].
  apply (same_well_formed _ _ S), checked_well_formed. split; [done| |].
  - intros s Hs. exact (forM_ok_inv _ _ _ _ H3 s Hs).
  - intros x Hx. exact (forM_ok_inv _ _ _ _ H4 x Hx).
Qed.

(** The repository's Kconfig file *)
Lemma kconfig_well_formed_witness :
  let p := (read_kconfig kconfig_text).2 in
  well_formed (ps_cfg p) /\ NoDup (c_unique_defined_syms (ps_cfg p)) /\ NoDup (c_unique_choices (ps_cfg p)).
Proof.
  refine (kconfig_well_formed (fun _ => None) "5.0" (fun _ => ("", "")) {["Kconfig" := kconfig_text]} (fun _ => []) "/"
    true 4000 "Kconfig" (read_kconfig kconfig_text).2 _).
  vm_compute. reflexivity.
Defined.
